(** * oh-my-opencode-slim: the JSONC stripper, the pinned-version patcher,
    the channel classifier and the config resolution layer

  A shallow embedding of [src/cli/config-manager.ts] and
  [src/hooks/auto-update-checker/checker.ts].  JavaScript strings are
  sequences of UTF-16 code units; regular expressions are run by a
  backtracking matcher that follows the ECMAScript pattern semantics
  (ordered alternation, greedy and lazy quantifiers, capture groups). *)

From Stdlib Require Import NArith ZArith Ascii String Lia.
From stdpp Require Import base option list gmap strings.

Local Open Scope N_scope.
Local Open Scope nat_scope.

(** ** JavaScript strings *)

Module JS.

(** A string is its list of UTF-16 code units. *)
Abbreviation jsstring := (list N).

(** The code units of an ASCII literal. *)
Definition js (s : string) : jsstring := N_of_ascii <$> list_ascii_of_string s.

(** The same, for a literal in which the grave accent stands for the
    double quote. *)
Definition jsq (s : string) : jsstring :=
  (fun c => if (c =? 96)%N then 34%N else c) <$> js s.

Definition DQUOTE : N := 34%N.
Definition SQUOTE : N := 39%N.
Definition BACKSLASH : N := 92%N.
Definition SLASH : N := 47%N.
Definition ASTERISK : N := 42%N.
Definition COMMA : N := 44%N.
Definition COLON : N := 58%N.
Definition LBRACKET : N := 91%N.
Definition RBRACKET : N := 93%N.
Definition LBRACE : N := 123%N.
Definition RBRACE : N := 125%N.
Definition DOLLAR : N := 36%N.
Definition HYPHEN : N := 45%N.
Definition AT : N := 64%N.

(** LineTerminator: LF, CR, LS, PS. *)
Definition isLineTerminator (c : N) : bool :=
  (c =? 10)%N || (c =? 13)%N || (c =? 8232)%N || (c =? 8233)%N.

(** WhiteSpace and LineTerminator, the set of [\s] and of [trim]. *)
Definition isWhiteSpace (c : N) : bool :=
  (c =? 9)%N || (c =? 10)%N || (c =? 11)%N || (c =? 12)%N || (c =? 13)%N
  || (c =? 32)%N || (c =? 160)%N || (c =? 5760)%N
  || ((8192 <=? c)%N && (c <=? 8202)%N)
  || (c =? 8232)%N || (c =? 8233)%N || (c =? 8239)%N || (c =? 8287)%N
  || (c =? 12288)%N || (c =? 65279)%N.

(** [\d] *)
Definition isDigit (c : N) : bool := (48 <=? c)%N && (c <=? 57)%N.

Definition eqb (a b : jsstring) : bool := bool_decide (a = b).

(** [s.startsWith(p)] *)
Fixpoint startsWith (s p : jsstring) {struct p} : bool :=
  match p, s with
  | [], _ => true
  | _ :: _, [] => false
  | a :: p', b :: s' => (a =? b)%N && startsWith s' p'
  end.

(** [s.endsWith(p)] *)
Definition endsWith (s p : jsstring) : bool := startsWith (reverse s) (reverse p).

(** [s.includes(l)] *)
Fixpoint includes (s l : jsstring) : bool :=
  startsWith s l || match s with [] => false | _ :: s' => includes s' l end.

(** [s.slice(a, b)] and [s.slice(a)] for indices that are not negative. *)
Definition slice (s : jsstring) (a b : nat) : jsstring := take (b - a) (drop a s).
Definition sliceFrom (s : jsstring) (a : nat) : jsstring := drop a s.

(** [s.split(c)] for a one-unit separator: never empty. *)
Fixpoint split1 (c : N) (s : jsstring) : list jsstring :=
  match s with
  | [] => [[]]
  | x :: s' =>
      if (x =? c)%N then [] :: split1 c s'
      else match split1 c s' with
           | [] => [[x]]
           | seg :: segs => (x :: seg) :: segs
           end
  end.

(** [s.trim().length === 0] *)
Definition trimIsEmpty (s : jsstring) : bool := forallb isWhiteSpace s.

(** A string is truthy when it is not empty. *)
Definition truthy (s : jsstring) : bool := negb (bool_decide (s = [])).

End JS.

Import JS.

(** ** Regular expressions *)

Module RegExp.

(** The pattern syntax the two source files use. *)
Inductive regex : Type :=
| Empty
| Char (c : N)                       (* a pattern character *)
| Class (p : N -> bool)              (* a class, a class escape or the dot *)
| Bol                                (* ^ *)
| Eol                                (* $ *)
| Seq (r1 r2 : regex)
| Alt (r1 r2 : regex)                (* r1|r2, r1 tried first *)
| Star (greedy : bool) (r : regex)   (* r* and r*? *)
| Group (n : nat) (r : regex).       (* capture group number S n *)

(** The pattern that matches the units of [l] one after the other, then
    [r]. *)
Definition litThen (l : jsstring) (r : regex) : regex :=
  foldr (fun c r => Seq (Char c) r) r l.
Definition lit (l : jsstring) : regex := litThen l Empty.

Definition dot : N -> bool := fun c => negb (isLineTerminator c).
Definition anyOf (l : list N) : N -> bool := fun c => existsb (N.eqb c) l.
Definition noneOf (l : list N) : N -> bool := fun c => negb (existsb (N.eqb c) l).
Definition anyUnit : N -> bool := fun c => isWhiteSpace c || negb (isWhiteSpace c).

(** The state of a match: the index reached and the input from there on. *)
Definition mstate : Type := nat * jsstring.
Definition captures : Type := list (option jsstring).
Definition mresult : Type := option (mstate * captures).
Definition cont : Type := mstate -> captures -> mresult.

(** Capture groups inside a pattern; a quantifier clears them at each
    iteration. *)
Fixpoint groupsOf (r : regex) : list nat :=
  match r with
  | Seq r1 r2 | Alt r1 r2 => groupsOf r1 ++ groupsOf r2
  | Star _ r => groupsOf r
  | Group n r => n :: groupsOf r
  | _ => []
  end.

Definition clearGroups (gs : list nat) (c : captures) : captures :=
  foldr (fun n c => <[n := None]> c) c gs.

(** The iterations of a quantifier whose body is run by [body]: an
    iteration that consumes nothing is rejected, so [S (length input)]
    iterations are always enough and the fuel is never used up. *)
Fixpoint starLoop (body : mstate -> captures -> cont -> mresult) (greedy : bool)
    (k : cont) (fuel : nat) (st : mstate) (c : captures) {struct fuel} : mresult :=
  match fuel with
  | 0 => k st c
  | S fuel' =>
      let again : cont := fun st' c' =>
        if st'.1 =? st.1 then None else starLoop body greedy k fuel' st' c' in
      if greedy then
        match body st c again with
        | Some res => Some res
        | None => k st c
        end
      else
        match k st c with
        | Some res => Some res
        | None => body st c again
        end
  end.

(** The backtracking matcher in continuation-passing style: [k] is the
    rest of the pattern, and a [None] from it makes the matcher try its next
    choice. *)
Fixpoint m (r : regex) (st : mstate) (c : captures) (k : cont) {struct r} : mresult :=
  match r with
  | Empty => k st c
  | Char a =>
      match st.2 with
      | x :: rest => if (x =? a)%N then k (S st.1, rest) c else None
      | [] => None
      end
  | Class p =>
      match st.2 with
      | x :: rest => if p x then k (S st.1, rest) c else None
      | [] => None
      end
  | Bol => if st.1 =? 0 then k st c else None
  | Eol => match st.2 with [] => k st c | _ :: _ => None end
  | Seq r1 r2 => m r1 st c (fun st' c' => m r2 st' c' k)
  | Alt r1 r2 =>
      match m r1 st c k with
      | Some res => Some res
      | None => m r2 st c k
      end
  | Group n r =>
      m r st c (fun st' c' => k st' (<[n := Some (take (st'.1 - st.1) st.2)]> c'))
  | Star greedy r =>
      starLoop (fun st' c' k' => m r st' (clearGroups (groupsOf r) c') k')
        greedy k (S (length st.2)) st c
  end.

(** A compiled regular expression: its pattern, the number of capture
    groups and the [g] flag. *)
Record t : Type := mk { pattern : regex; ngroups : nat; global : bool }.

(** What one successful match reports. *)
Record MatchResult : Type :=
  mkMatch { index : nat; matched : jsstring; groups : captures }.

(** One attempt at index [i], where [s] is the input from [i] on. *)
Definition matchAt (re : t) (i : nat) (s : jsstring) : option MatchResult :=
  match m (pattern re) (i, s) (replicate (ngroups re) None) (fun st c => Some (st, c)) with
  | Some (st, c) => Some (mkMatch i (take (st.1 - i) s) c)
  | None => None
  end.

(** The leftmost match at or after index [i]. *)
Fixpoint searchFrom (re : t) (i : nat) (s : jsstring) : option MatchResult :=
  match matchAt re i s with
  | Some r => Some r
  | None =>
      match s with
      | [] => None
      | _ :: s' => searchFrom re (S i) s'
      end
  end.

(** [re.exec(s)] with [lastIndex] 0, which is also [s.match(re)] for a
    pattern without the [g] flag. *)
Definition exec (re : t) (s : jsstring) : option MatchResult := searchFrom re 0 s.

(** [re.test(s)] *)
Definition test (re : t) (s : jsstring) : bool :=
  match exec re s with Some _ => true | None => false end.

(** The capture of group number [S n], [None] when it is undefined. *)
Definition group (r : MatchResult) (n : nat) : option jsstring :=
  default None (groups r !! n).

(** *** Replacement *)

(** What a replacement is computed from: the match, the index and the
    whole subject. *)
Definition replacer : Type := MatchResult -> jsstring -> jsstring.

(** GetSubstitution for a pattern without named groups. *)
Fixpoint substitute (tpl : jsstring) (r : MatchResult) (subject : jsstring) : jsstring :=
  match tpl with
  | [] => []
  | c :: tpl1 =>
      if negb (c =? DOLLAR)%N then c :: substitute tpl1 r subject
      else
        match tpl1 with
        | [] => [c]
        | d :: tpl2 =>
            if (d =? DOLLAR)%N then DOLLAR :: substitute tpl2 r subject
            else if (d =? 38)%N then matched r ++ substitute tpl2 r subject
            else if (d =? 96)%N then take (index r) subject ++ substitute tpl2 r subject
            else if (d =? 39)%N then
              drop (index r + length (matched r)) subject ++ substitute tpl2 r subject
            else if isDigit d then
              let d1 := N.to_nat (d - 48) in
              let one (_ : unit) :=
                if (1 <=? d1) && (d1 <=? length (groups r)) then
                  default [] (group r (d1 - 1)) ++ substitute tpl2 r subject
                else c :: d :: substitute tpl2 r subject in
              match tpl2 with
              | e :: tpl3 =>
                  if isDigit e then
                    let d2 := d1 * 10 + N.to_nat (e - 48) in
                    if (1 <=? d2) && (d2 <=? length (groups r)) then
                      default [] (group r (d2 - 1)) ++ substitute tpl3 r subject
                    else one ()
                  else one ()
              | [] => one ()
              end
            else c :: substitute tpl1 r subject
        end
  end.

(** Every match of a [g] pattern replaced, left to right.  [skip] counts
    the units of the last match still to be passed over; after an empty
    match the unit at the index is copied and the search resumes one unit
    further on. *)
Fixpoint replaceAllFrom (re : t) (f : replacer) (subject : jsstring)
    (i skip : nat) (s : jsstring) : jsstring :=
  match skip with
  | S skip' =>
      match s with
      | [] => []
      | _ :: s' => replaceAllFrom re f subject (S i) skip' s'
      end
  | 0 =>
      match matchAt re i s with
      | Some r =>
          f r subject ++
          match s with
          | [] => []
          | x :: s' =>
              match length (matched r) with
              | 0 => x :: replaceAllFrom re f subject (S i) 0 s'
              | S n => replaceAllFrom re f subject (S i) n s'
              end
          end
      | None =>
          match s with
          | [] => []
          | x :: s' => x :: replaceAllFrom re f subject (S i) 0 s'
          end
      end
  end.

(** [s.replace(re, f)] *)
Definition replace (s : jsstring) (re : t) (f : replacer) : jsstring :=
  if global re then replaceAllFrom re f s 0 0 s
  else
    match exec re s with
    | Some r => take (index r) s ++ f r s ++ drop (index r + length (matched r)) s
    | None => s
    end.

(** [s.replace(re, template)] *)
Definition replaceWith (s : jsstring) (re : t) (tpl : jsstring) : jsstring :=
  replace s re (substitute tpl).

(** *** new RegExp(source) *)

(** SyntaxCharacter: ^ $ \ . * + ? ( ) [ ] { } | *)
Definition isSyntaxCharacter (c : N) : bool :=
  existsb (N.eqb c)
    [94; 36; 92; 46; 42; 43; 63; 40; 41; 91; 93; 123; 125; 124]%N.

(** The pattern grammar as far as [updatePinnedVersion] builds sources:
    pattern characters, a backslash before a syntax character, and classes
    of plain characters.  [inClass] holds the members read so far while
    inside brackets.  [None] stands for a source outside this fragment. *)
Fixpoint parseTerm (inClass : option (list N)) (p : jsstring) : option regex :=
  match p with
  | [] =>
      match inClass with
      | None => Some Empty
      | Some _ => None
      end
  | c :: p1 =>
      match inClass with
      | Some members =>
          if (c =? RBRACKET)%N then
            r ← parseTerm None p1; Some (Seq (Class (anyOf members)) r)
          else if (c =? BACKSLASH)%N || (c =? HYPHEN)%N || (c =? 94)%N then None
          else parseTerm (Some (members ++ [c])) p1
      | None =>
          if (c =? LBRACKET)%N then parseTerm (Some []) p1
          else if (c =? BACKSLASH)%N then
            match p1 with
            | e :: p2 =>
                if isSyntaxCharacter e then
                  r ← parseTerm None p2; Some (Seq (Char e) r)
                else None
            | [] => None
            end
          else if isSyntaxCharacter c then None
          else r ← parseTerm None p1; Some (Seq (Char c) r)
      end
  end.

(** [new RegExp(source)], without flags. *)
Definition ofSource (source : jsstring) : option t :=
  r ← parseTerm None source; Some (mk r 0 false).

End RegExp.

(** ** src/cli/config-manager.ts: the comment stripper *)

Module Stripper.
Import RegExp.

(** With Q for the double quote: [Q(?:\\Q|[^Q])*Q] *)
Definition quotedString : regex :=
  Seq (Char DQUOTE)
    (Seq (Star true (Alt (Seq (Char BACKSLASH) (Char DQUOTE)) (Class (noneOf [DQUOTE]))))
       (Char DQUOTE)).

(** [\\Q] *)
Definition escapedQuote : regex := Seq (Char BACKSLASH) (Char DQUOTE).

(** [/\\Q|Q(?:\\Q|[^Q])*Q|(\/\/.*|\/\*[\s\S]*?\*\/)/g] *)
Definition commentPattern : RegExp.t :=
  mk (Alt escapedQuote
        (Alt quotedString
           (Group 0
              (Alt (Seq (Char SLASH) (Seq (Char SLASH) (Star true (Class dot))))
                 (Seq (Char SLASH) (Seq (Char ASTERISK)
                    (Seq (Star false (Class anyUnit))
                       (Seq (Char ASTERISK) (Char SLASH)))))))))
     1 true.

(** [/\\Q|Q(?:\\Q|[^Q])*Q|(,)(\s*[}\]])/g] *)
Definition trailingCommaPattern : RegExp.t :=
  mk (Alt escapedQuote
        (Alt quotedString
           (Seq (Group 0 (Char COMMA))
              (Group 1 (Seq (Star true (Class isWhiteSpace))
                          (Class (anyOf [RBRACE; RBRACKET])))))))
     2 true.

(** [(match, commentGroup) => (commentGroup ? '' : match)] *)
Definition dropComment : replacer := fun r _ =>
  match group r 0 with
  | Some g => if truthy g then [] else matched r
  | None => matched r
  end.

(** [(match, comma, closing) => comma ? closing : match] *)
Definition dropComma : replacer := fun r _ =>
  match group r 0 with
  | Some g => if truthy g then default [] (group r 1) else matched r
  | None => matched r
  end.

Definition stripJsonComments (json : jsstring) : jsstring :=
  replace (replace json commentPattern dropComment) trailingCommaPattern dropComma.

End Stripper.

(** ** JSON.parse *)

Module JSON.

(** A JSON value.  A number keeps the text it was written with; an object
    keeps its members in the order of their first appearance. *)
#[warnings="-register-all"] Inductive value : Type :=
| Null
| Bool (b : bool)
| Number (lexeme : jsstring)
| Str (s : jsstring)
| Arr (elements : list value)
| Obj (members : list (jsstring * value)).

Definition isWs (c : N) : bool :=
  (c =? 32)%N || (c =? 9)%N || (c =? 10)%N || (c =? 13)%N.

Fixpoint skipWs (s : jsstring) : jsstring :=
  match s with
  | c :: s' => if isWs c then skipWs s' else s
  | [] => []
  end.

Definition hexVal (c : N) : option N :=
  if (48 <=? c)%N && (c <=? 57)%N then Some (c - 48)%N
  else if (97 <=? c)%N && (c <=? 102)%N then Some (c - 87)%N
  else if (65 <=? c)%N && (c <=? 70)%N then Some (c - 55)%N
  else None.

Definition hex4 (a b c d : N) : option N :=
  x1 ← hexVal a; x2 ← hexVal b; x3 ← hexVal c; x4 ← hexVal d;
  Some (((x1 * 16 + x2) * 16 + x3) * 16 + x4)%N.

(** The unit a single-character escape stands for. *)
Definition unescape (e : N) : option N :=
  if (e =? 34)%N then Some 34%N
  else if (e =? 92)%N then Some 92%N
  else if (e =? 47)%N then Some 47%N
  else if (e =? 98)%N then Some 8%N
  else if (e =? 102)%N then Some 12%N
  else if (e =? 110)%N then Some 10%N
  else if (e =? 114)%N then Some 13%N
  else if (e =? 116)%N then Some 9%N
  else None.

(** The characters of a string literal after its opening quote, up to and
    including the closing quote. *)
Fixpoint parseChars (s : jsstring) : option (jsstring * jsstring) :=
  match s with
  | [] => None
  | c :: s1 =>
      if (c =? DQUOTE)%N then Some ([], s1)
      else if (c =? BACKSLASH)%N then
        match s1 with
        | [] => None
        | e :: s2 =>
            if (e =? 117)%N then
              match s2 with
              | h1 :: h2 :: h3 :: h4 :: s3 =>
                  u ← hex4 h1 h2 h3 h4;
                  '(str, rest) ← parseChars s3;
                  Some (u :: str, rest)
              | _ => None
              end
            else
              u ← unescape e;
              '(str, rest) ← parseChars s2;
              Some (u :: str, rest)
        end
      else if (c <? 32)%N then None
      else '(str, rest) ← parseChars s1; Some (c :: str, rest)
  end.

Fixpoint spanDigits (s : jsstring) : jsstring * jsstring :=
  match s with
  | c :: s' =>
      if isDigit c then let '(ds, rest) := spanDigits s' in (c :: ds, rest)
      else ([], s)
  | [] => ([], [])
  end.

(** An optional minus, an integer part without a leading zero, an
    optional fraction and an optional exponent. *)
Definition parseNumber (s : jsstring) : option (jsstring * jsstring) :=
  let '(sign, s1) :=
    match s with
    | c :: s' => if (c =? HYPHEN)%N then ([c], s') else ([], s)
    | [] => ([], s)
    end in
  '(int, s2) ←
    match s1 with
    | c :: s' =>
        if (c =? 48)%N then Some ([c], s')
        else if isDigit c then Some (spanDigits s1)
        else None
    | [] => None
    end;
  '(frac, s3) ←
    match s2 with
    | c :: s' =>
        if (c =? 46)%N then
          match spanDigits s' with
          | ([], _) => None
          | (ds, rest) => Some (c :: ds, rest)
          end
        else Some ([], s2)
    | [] => Some ([], s2)
    end;
  '(exp, s4) ←
    match s3 with
    | c :: s' =>
        if (c =? 101)%N || (c =? 69)%N then
          let '(sg, s'') :=
            match s' with
            | d :: t => if (d =? 43)%N || (d =? 45)%N then ([d], t) else ([], s')
            | [] => ([], s')
            end in
          match spanDigits s'' with
          | ([], _) => None
          | (ds, rest) => Some (c :: sg ++ ds, rest)
          end
        else Some ([], s3)
    | [] => Some ([], s3)
    end;
  Some (sign ++ int ++ frac ++ exp, s4).

(** A member defined twice keeps its first place and its last value. *)
Fixpoint objSet (kvs : list (jsstring * value)) (k : jsstring) (v : value)
    : list (jsstring * value) :=
  match kvs with
  | [] => [(k, v)]
  | (k', v') :: kvs' =>
      if JS.eqb k' k then (k', v) :: kvs' else (k', v') :: objSet kvs' k v
  end.

Definition mkObject (ms : list (jsstring * value)) : list (jsstring * value) :=
  foldl (fun acc kv => objSet acc kv.1 kv.2) [] ms.

Fixpoint objGet (kvs : list (jsstring * value)) (k : jsstring) : option value :=
  match kvs with
  | [] => None
  | (k', v) :: kvs' => if JS.eqb k' k then Some v else objGet kvs' k
  end.

(** Recursive descent; every call consumes a character before it
    recurses twice, so the fuel [parse] gives is never used up. *)
Fixpoint parseValue (fuel : nat) (s : jsstring) {struct fuel} : option (value * jsstring) :=
  match fuel with
  | 0 => None
  | S fuel' =>
      match skipWs s with
      | [] => None
      | c :: rest =>
          if (c =? LBRACE)%N then
            match skipWs rest with
            | d :: rest' =>
                if (d =? RBRACE)%N then Some (Obj [], rest')
                else '(ms, r) ← parseMembers fuel' rest; Some (Obj (mkObject ms), r)
            | [] => None
            end
          else if (c =? LBRACKET)%N then
            match skipWs rest with
            | d :: rest' =>
                if (d =? RBRACKET)%N then Some (Arr [], rest')
                else '(vs, r) ← parseElements fuel' rest; Some (Arr vs, r)
            | [] => None
            end
          else if (c =? DQUOTE)%N then
            '(str, r) ← parseChars rest; Some (Str str, r)
          else if startsWith (c :: rest) (js "true") then Some (Bool true, drop 4 (c :: rest))
          else if startsWith (c :: rest) (js "false") then Some (Bool false, drop 5 (c :: rest))
          else if startsWith (c :: rest) (js "null") then Some (Null, drop 4 (c :: rest))
          else '(lexeme, r) ← parseNumber (c :: rest); Some (Number lexeme, r)
      end
  end
with parseElements (fuel : nat) (s : jsstring) {struct fuel} : option (list value * jsstring) :=
  match fuel with
  | 0 => None
  | S fuel' =>
      '(v, r) ← parseValue fuel' s;
      match skipWs r with
      | c :: r' =>
          if (c =? COMMA)%N then '(vs, r'') ← parseElements fuel' r'; Some (v :: vs, r'')
          else if (c =? RBRACKET)%N then Some ([v], r')
          else None
      | [] => None
      end
  end
with parseMembers (fuel : nat) (s : jsstring) {struct fuel}
    : option (list (jsstring * value) * jsstring) :=
  match fuel with
  | 0 => None
  | S fuel' =>
      match skipWs s with
      | q :: r0 =>
          if (q =? DQUOTE)%N then
            '(key, r1) ← parseChars r0;
            match skipWs r1 with
            | c :: r2 =>
                if (c =? COLON)%N then
                  '(v, r3) ← parseValue fuel' r2;
                  match skipWs r3 with
                  | d :: r4 =>
                      if (d =? COMMA)%N then
                        '(ms, r5) ← parseMembers fuel' r4; Some ((key, v) :: ms, r5)
                      else if (d =? RBRACE)%N then Some ([(key, v)], r4)
                      else None
                  | [] => None
                  end
                else None
            | [] => None
            end
          else None
      | [] => None
      end
  end.

(** [JSON.parse(text)]: [None] is the SyntaxError. *)
Definition parse (text : jsstring) : option value :=
  '(v, rest) ← parseValue (2 * length text + 2) text;
  match skipWs rest with
  | [] => Some v
  | _ :: _ => None
  end.

(** The number that a lexeme of JSON stands for, sign aside: the digits of
    its integer part and of its fraction as one natural number, and the power
    of ten that it is to be multiplied with. *)
Definition digitsValue (ds : jsstring) : Z :=
  foldl (fun acc c => (10 * acc + Z.of_N (c - 48))%Z) 0%Z ds.

Definition decimalOf (lexeme : jsstring) : Z * Z :=
  let unsigned :=
    match lexeme with
    | c :: l => if (c =? HYPHEN)%N then l else lexeme
    | [] => []
    end in
  let '(int, s2) := spanDigits unsigned in
  let '(frac, s3) :=
    match s2 with
    | c :: s' => if (c =? 46)%N then spanDigits s' else ([], s2)
    | [] => ([], s2)
    end in
  let exp :=
    match s3 with
    | c :: s' =>
        if (c =? 101)%N || (c =? 69)%N then
          match s' with
          | d :: t =>
              if (d =? 45)%N then (- digitsValue (spanDigits t).1)%Z
              else if (d =? 43)%N then digitsValue (spanDigits t).1
              else digitsValue (spanDigits s').1
          | [] => 0%Z
          end
        else 0%Z
    | [] => 0%Z
    end in
  (digitsValue (int ++ frac), (exp - Z.of_nat (length frac))%Z).

(** The double that [JSON.parse] makes of the lexeme is zero: the number
    is zero, or it is so small that it rounds to zero.  The nearest doubles
    are 0 and 2^-1074, and a number half way between them goes to 0, the even
    one: [m * 10^e] rounds to zero exactly when it is at most 2^-1075. *)
Definition roundsToZero (lexeme : jsstring) : bool :=
  let '(mantissa, exponent) := decimalOf lexeme in
  if (0 <=? exponent)%Z then (mantissa =? 0)%Z
  else (mantissa * 2 ^ 1075 <=? 10 ^ (- exponent))%Z.

(** What [if (v)] and [!v] test: null, false, zero and the empty string
    are falsy. *)
Definition truthy (v : value) : bool :=
  match v with
  | Null => false
  | Bool b => b
  | Number lexeme => negb (roundsToZero lexeme)
  | Str s => JS.truthy s
  | Arr _ | Obj _ => true
  end.

(** [v.plugin] and the like, for a property name that no built-in
    prototype defines: [None] is the TypeError of reading a property of
    null, [Some None] is undefined. *)
Definition getProp (v : value) (k : jsstring) : option (option value) :=
  match v with
  | Null => None
  | Obj kvs => Some (objGet kvs k)
  | _ => Some None
  end.

(** [v.plugin = x] in strict code: a TypeError on null and on a primitive;
    on an array it creates a property that JSON.stringify does not
    write. *)
Definition setProp (v : value) (k : jsstring) (x : value) : option value :=
  match v with
  | Obj kvs => Some (Obj (objSet kvs k x))
  | Arr l => Some (Arr l)
  | _ => None
  end.

(** [o ?? d] *)
Definition nullish (o : option value) (d : value) : value :=
  match o with
  | None | Some Null => d
  | Some v => v
  end.

End JSON.

Import Stripper.

(** ** The file system and the process environment *)

Module Node.

Inductive node : Type :=
| File (data : jsstring)
| Dir.

(** The entries by path, and the paths that refuse writes. *)
Record FS : Type := mkFS { entries : gmap (list N) node; readonly : gset (list N) }.

Definition existsSync (fs : FS) (path : jsstring) : bool :=
  bool_decide (is_Some (entries fs !! path)).

(** [readFileSync(path, 'utf-8')]: [None] is the exception. *)
Definition readFileSync (fs : FS) (path : jsstring) : option jsstring :=
  match entries fs !! path with
  | Some (File data) => Some data
  | _ => None
  end.

(** [statSync(path).size], only ever compared with 0: a file has size 0
    exactly when it holds no code unit; a directory reports its block. *)
Definition statSize (fs : FS) (path : jsstring) : option nat :=
  match entries fs !! path with
  | Some (File data) => Some (length data)
  | Some Dir => Some 4096
  | None => None
  end.

(** [writeFileSync(path, data)]: refused on a directory and on a
    read-only path.  The file system holds every file as the text that
    reading it as UTF-8 gives, and a write stores the text as it is given:
    this is the text that a later reading gives when the text is well-formed
    (as the text of [JSON.stringify] is).  The bytes of the files, with the
    encoding and the decoding, are those of [Disk] below.  Paths are keys
    without structure: that the directory of [path] is there is not asked
    for.  The callers write to a file that they have read, or make the
    directory first ([ensureConfigDir]). *)
Definition writeFileSync (fs : FS) (path data : jsstring) : option FS :=
  if bool_decide (path ∈ readonly fs) then None
  else
    match entries fs !! path with
    | Some Dir => None
    | _ => Some (mkFS (<[path := File data]> (entries fs)) (readonly fs))
    end.

(** [mkdirSync(path, { recursive: true })] *)
Definition mkdirSync (fs : FS) (path : jsstring) : option FS :=
  if bool_decide (path ∈ readonly fs) then None
  else
    match entries fs !! path with
    | Some (File _) => None
    | _ => Some (mkFS (<[path := Dir]> (entries fs)) (readonly fs))
    end.

Record Env : Type :=
  mkEnv { XDG_CONFIG_HOME : option jsstring;
          APPDATA : option jsstring;
          homedir : jsstring;
          platform : jsstring }.

End Node.

(** ** The encoding of the files *)

Module Utf8.

(** U+FFFD, which stands in for what cannot be encoded or decoded. *)
Definition REPLACEMENT : N := 65533%N.

Definition isHighSurrogate (c : N) : bool := (55296 <=? c)%N && (c <=? 56319)%N.

Definition isLowSurrogate (c : N) : bool := (56320 <=? c)%N && (c <=? 57343)%N.

(** The bytes of a code point. *)
Definition encodeCodePoint (cp : N) : list N :=
  if (cp <? 128)%N then [cp]
  else if (cp <? 2048)%N then [192 + cp / 64; 128 + cp mod 64]%N
  else if (cp <? 65536)%N then
    [224 + cp / 4096; 128 + (cp / 64) mod 64; 128 + cp mod 64]%N
  else
    [240 + cp / 262144; 128 + (cp / 4096) mod 64; 128 + (cp / 64) mod 64;
     128 + cp mod 64]%N.

(** The bytes that a write with the encoding utf-8 makes of a text: a
    surrogate pair is one code point, a surrogate on its own is written as
    U+FFFD. *)
Fixpoint encode (s : jsstring) : list N :=
  match s with
  | [] => []
  | a :: s1 =>
      if isHighSurrogate a then
        match s1 with
        | b :: s2 =>
            if isLowSurrogate b then
              encodeCodePoint (65536 + (a - 55296) * 1024 + (b - 56320))%N ++ encode s2
            else encodeCodePoint REPLACEMENT ++ encode s1
        | [] => encodeCodePoint REPLACEMENT
        end
      else if isLowSurrogate a then encodeCodePoint REPLACEMENT ++ encode s1
      else encodeCodePoint a ++ encode s1
  end.

(** The code units of a code point. *)
Definition codeUnits (cp : N) : jsstring :=
  if (cp <? 65536)%N then [cp]
  else [55296 + (cp - 65536) / 1024; 56320 + (cp - 65536) mod 1024]%N.

Definition inRange (lo hi b : N) : bool := (lo <=? b)%N && (b <=? hi)%N.

(** The text that a read with the encoding utf-8 makes of bytes: a
    sequence that is not well-formed gives U+FFFD, and the decoder goes on at
    the byte that broke it. *)
Fixpoint decode (bytes : list N) : jsstring :=
  match bytes with
  | [] => []
  | b0 :: r0 =>
      if (b0 <? 128)%N then b0 :: decode r0
      else if inRange 194 223 b0 then
        match r0 with
        | b1 :: r1 =>
            if inRange 128 191 b1 then ((b0 - 192) * 64 + (b1 - 128))%N :: decode r1
            else REPLACEMENT :: decode r0
        | [] => [REPLACEMENT]
        end
      else if inRange 224 239 b0 then
        match r0 with
        | b1 :: r1 =>
            if inRange (if (b0 =? 224)%N then 160 else 128)
                 (if (b0 =? 237)%N then 159 else 191) b1 then
              match r1 with
              | b2 :: r2 =>
                  if inRange 128 191 b2 then
                    (((b0 - 224) * 64 + (b1 - 128)) * 64 + (b2 - 128))%N :: decode r2
                  else REPLACEMENT :: decode r1
              | [] => [REPLACEMENT]
              end
            else REPLACEMENT :: decode r0
        | [] => [REPLACEMENT]
        end
      else if inRange 240 244 b0 then
        match r0 with
        | b1 :: r1 =>
            if inRange (if (b0 =? 240)%N then 144 else 128)
                 (if (b0 =? 244)%N then 143 else 191) b1 then
              match r1 with
              | b2 :: r2 =>
                  if inRange 128 191 b2 then
                    match r2 with
                    | b3 :: r3 =>
                        if inRange 128 191 b3 then
                          codeUnits
                            ((((b0 - 240) * 64 + (b1 - 128)) * 64 + (b2 - 128)) * 64
                             + (b3 - 128))%N
                          ++ decode r3
                        else REPLACEMENT :: decode r2
                    | [] => [REPLACEMENT]
                    end
                  else REPLACEMENT :: decode r1
              | [] => [REPLACEMENT]
              end
            else REPLACEMENT :: decode r0
        | [] => [REPLACEMENT]
        end
      else REPLACEMENT :: decode r0
  end.

(** The three bytes of a byte order mark. *)
Definition BOM : list N := [239; 187; 191]%N.

End Utf8.

(** ** src/cli/config-manager.ts: the plugin entry of the user config *)

Module ConfigManager.
Import RegExp JSON Node.

Definition PACKAGE_NAME : jsstring := js "oh-my-opencode-slim".

Inductive MergeError : Type :=
| FailedToCreateConfigDirectory
| FailedToUpdateOpencodeConfig.

Record ConfigMergeResult : Type :=
  mkResult { success : bool; configPath : jsstring; error : option MergeError }.

Section WithRuntime.

(** [path.join] and [JSON.stringify(config, null, 2)] of the runtime. *)
Variable join : list jsstring -> jsstring.
Variable stringify : value -> jsstring.
Variable env : Env.

Definition getConfigDir : jsstring :=
  match XDG_CONFIG_HOME env with
  | Some xdg =>
      if JS.truthy xdg then join [xdg; js "opencode"]
      else join [homedir env; js ".config"; js "opencode"]
  | None => join [homedir env; js ".config"; js "opencode"]
  end.

Definition getConfigJson : jsstring := join [getConfigDir; js "opencode.json"].

Definition getConfigJsonc : jsstring := join [getConfigDir; js "opencode.jsonc"].

Definition ensureConfigDir (fs : FS) : option FS :=
  let configDir := getConfigDir in
  if negb (existsSync fs configDir) then mkdirSync fs configDir else Some fs.

(** [null] is [Null]; every exception ends in [null]. *)
Definition parseConfigFile (fs : FS) (path : jsstring) : value :=
  if negb (existsSync fs path) then Null
  else
    match statSize fs path with
    | None => Null
    | Some size =>
        if size =? 0 then Null
        else
          match readFileSync fs path with
          | None => Null
          | Some content =>
              if trimIsEmpty content then Null
              else default Null (parse (stripJsonComments content))
          end
    end.

(** [/\.json$/] *)
Definition jsonSuffix : RegExp.t :=
  mk (Seq (Char 46%N) (litThen (js "json") Eol)) 0 false.

Definition parseConfig (fs : FS) (path : jsstring) : value :=
  let config := parseConfigFile fs path in
  if truthy config then config
  else if endsWith path (js ".json") then
    let jsoncPath := replaceWith path jsonSuffix (js ".jsonc") in
    parseConfigFile fs jsoncPath
  else Null.

Definition getExistingConfigPath (fs : FS) : jsstring :=
  let jsonPath := getConfigJson in
  if existsSync fs jsonPath then jsonPath
  else
    let jsoncPath := getConfigJsonc in
    if existsSync fs jsoncPath then jsoncPath else jsonPath.

(** The warning on a [.jsonc] path goes to the console only. *)
Definition writeConfig (fs : FS) (configPath : jsstring) (config : value) : option FS :=
  writeFileSync fs configPath (stringify config ++ [10%N]).

(** [p !== PACKAGE_NAME && !p.startsWith(PACKAGE_NAME + '@')]: [None] is the
    TypeError on an element that is not a string. *)
Definition isOtherPlugin (p : value) : option bool :=
  match p with
  | Str s => Some (negb (JS.eqb s PACKAGE_NAME) && negb (startsWith s (PACKAGE_NAME ++ [AT])))
  | _ => None
  end.

(** [plugins.filter(f)]: [None] is a TypeError, of [f] or of a receiver
    that is not an array. *)
Fixpoint filterElements (f : value -> option bool) (l : list value) : option (list value) :=
  match l with
  | [] => Some []
  | x :: l' =>
      keep ← f x;
      rest ← filterElements f l';
      Some (if (keep : bool) then x :: rest else rest)
  end.

Definition arrayFilter (f : value -> option bool) (plugins : value) : option value :=
  match plugins with
  | Arr l => Arr <$> filterElements f l
  | _ => None
  end.

(** [filteredPlugins.push(x)] *)
Definition arrayPush (a : value) (x : value) : option value :=
  match a with
  | Arr l => Some (Arr (l ++ [x]))
  | _ => None
  end.

Definition addPluginToOpenCodeConfig (fs : FS) : FS * ConfigMergeResult :=
  match ensureConfigDir fs with
  | None => (fs, mkResult false getConfigDir (Some FailedToCreateConfigDirectory))
  | Some fs1 =>
      let configPath := getExistingConfigPath fs1 in
      let attempt : option FS :=
        let config := nullish (Some (parseConfig fs1 configPath)) (Obj []) in
        plugin ← getProp config (js "plugin");
        let plugins := nullish plugin (Arr []) in
        filteredPlugins ← arrayFilter isOtherPlugin plugins;
        filteredPlugins ← arrayPush filteredPlugins (Str PACKAGE_NAME);
        config ← setProp config (js "plugin") filteredPlugins;
        writeConfig fs1 configPath config in
      match attempt with
      | Some fs2 => (fs2, mkResult true configPath None)
      | None => (fs1, mkResult false configPath (Some FailedToUpdateOpencodeConfig))
      end
  end.

End WithRuntime.

End ConfigManager.

(** ** src/hooks/auto-update-checker/checker.ts *)

Module Checker.
Import RegExp JSON Node.

(** *** The channel classifier *)

Definition isPrereleaseVersion (version : jsstring) : bool := includes version [HYPHEN].

(** [/^\d/] *)
Definition leadingDigit : RegExp.t := mk (Seq Bol (Class isDigit)) 0 false.

Definition isDistTag (version : jsstring) : bool := negb (test leadingDigit version).

(** [/^(alpha|beta|rc|canary|next)/] *)
Definition channelPrefix : RegExp.t :=
  mk (Seq Bol
        (Group 0
           (Alt (lit (js "alpha"))
              (Alt (lit (js "beta"))
                 (Alt (lit (js "rc"))
                    (Alt (lit (js "canary")) (lit (js "next"))))))))
     1 false.

(** [version] is [None] for null. *)
Definition extractChannel (version : option jsstring) : jsstring :=
  match version with
  | None => js "latest"
  | Some version =>
      if negb (JS.truthy version) then js "latest"
      else if isDistTag version then version
      else
        let fromPrerelease : option jsstring :=
          if isPrereleaseVersion version then
            prereleasePart ← split1 HYPHEN version !! 1;
            if JS.truthy prereleasePart then
              channelMatch ← exec channelPrefix prereleasePart;
              group channelMatch 0
            else None
          else None in
        default (js "latest") fromPrerelease
  end.

(** *** The registry answer *)

(** The dist-tags of the registry: the members of the object that
    [response.json()] gives, from channel to version, the type that the source
    declares for it. *)
Abbreviation NpmDistTags := (gmap (list N) (list N)).

(** How reading the body of a response ends. *)
Inductive BodyOutcome : Type :=
| BodyAborted
| BodyMalformed
| BodyJson (data : NpmDistTags).

(** How the fetch ends: rejected by the network, rejected because the
    timer aborted it, or answered. *)
Inductive FetchOutcome : Type :=
| NetworkError
| Aborted
| Responded (ok : bool) (body : BodyOutcome).

(** The members that every object inherits from [Object.prototype]. *)
Definition OBJECT_PROTOTYPE : list jsstring :=
  [ js "constructor"; js "hasOwnProperty"; js "isPrototypeOf"; js "propertyIsEnumerable";
    js "toLocaleString"; js "toString"; js "valueOf"; js "__proto__";
    js "__defineGetter__"; js "__defineSetter__"; js "__lookupGetter__";
    js "__lookupSetter__" ].

(** What [data[key]] finds: a version of the dist-tags, or a member that
    the object inherits, a function or the prototype itself. *)
Inductive Member : Type :=
| Version (version : jsstring)
| Inherited (name : jsstring).

(** [data[key]]: [None] is undefined. *)
Definition member (data : NpmDistTags) (key : jsstring) : option Member :=
  match data !! key with
  | Some version => Some (Version version)
  | None => if bool_decide (key ∈ OBJECT_PROTOTYPE) then Some (Inherited key) else None
  end.

(** [channel] is [None] when the argument is left out; the result [None]
    is null. *)
Definition getLatestVersion (fetched : FetchOutcome) (channel : option jsstring)
    : option Member :=
  let channel := default (js "latest") channel in
  let attempt : option (option Member) :=
    match fetched with
    | NetworkError | Aborted => None
    | Responded ok body =>
        if negb ok then Some None
        else
          match body with
          | BodyAborted | BodyMalformed => None
          | BodyJson data =>
              Some (match member data channel with
                    | Some found => Some found
                    | None => member data (js "latest")
                    end)
          end
    end in
  match attempt with
  | Some version => version
  | None => None
  end.

(** *** The config files *)

Record PluginEntryInfo : Type :=
  mkInfo { entry : jsstring;
           isPinned : bool;
           pinnedVersion : option jsstring;
           configPath : jsstring }.

Inductive LogMessage : Type :=
| NoPluginArrayFound
| EntryNotFound
| NoChangesMade
| Updated
| FailedToUpdate.

Record UpdateOutcome : Type :=
  mkOutcome { fsAfter : FS; returned : bool; logged : LogMessage }.

(** [/Qplugin Q\s*:\s*\[/], with Q for the double quote. *)
Definition pluginKey : RegExp.t :=
  mk (litThen (jsq "`plugin`")
        (Seq (Star true (Class isWhiteSpace))
           (Seq (Char COLON)
              (Seq (Star true (Class isWhiteSpace)) (Char LBRACKET)))))
     0 false.

(** [/[.*+?^${}()|[\]\\]/g] *)
Definition regExpSpecial : RegExp.t :=
  mk (Class (anyOf [46; 42; 43; 63; 94; 36; 123; 125; 40; 41; 124; 91; 93; 92]%N)) 0 true.

(** The for loop over the array body: [rest] is the content from index [i]
    on. *)
Fixpoint scanBrackets (rest : jsstring) (i : nat) (bracketCount : Z) (endIdx : nat) : nat :=
  match rest with
  | [] => endIdx
  | c :: rest' =>
      if (0 <? bracketCount)%Z then
        let bracketCount :=
          if (c =? LBRACKET)%N then (bracketCount + 1)%Z
          else if (c =? RBRACKET)%N then (bracketCount - 1)%Z
          else bracketCount in
        scanBrackets rest' (S i) bracketCount i
      else endIdx
  end.

(** The units of the for-of loop over a string: its code points. *)
Fixpoint codePoints (s : jsstring) : list jsstring :=
  match s with
  | [] => []
  | a :: s1 =>
      match s1 with
      | b :: s2 =>
          if ((55296 <=? a)%N && (a <=? 56319)%N) && ((56320 <=? b)%N && (b <=? 57343)%N)
          then [a; b] :: codePoints s2
          else [a] :: codePoints s1
      | [] => [[a]]
      end
  end.

(** What [for (const entry of plugins)] goes through: [None] is the
    TypeError on a value that is not iterable. *)
Definition iterate (plugins : value) : option (list value) :=
  match plugins with
  | Arr l => Some l
  | Str s => Some (Str <$> codePoints s)
  | _ => None
  end.

Section WithConstants.

(** The constants of [./constants] and [path.join] of the runtime. *)
Variable PACKAGE_NAME : jsstring.
Variable USER_OPENCODE_CONFIG : jsstring.
Variable USER_OPENCODE_CONFIG_JSONC : jsstring.
Variable USER_CONFIG_DIR : jsstring.
Variable join : list jsstring -> jsstring.
Variable env : Env.

Definition pushNew (paths : list jsstring) (p : jsstring) : list jsstring :=
  if bool_decide (p ∈ paths) then paths else paths ++ [p].

Definition getConfigPaths (directory : jsstring) : list jsstring :=
  let paths :=
    [ join [directory; js ".opencode"; js "opencode.json"];
      join [directory; js ".opencode"; js "opencode.jsonc"];
      USER_OPENCODE_CONFIG;
      USER_OPENCODE_CONFIG_JSONC ] in
  if JS.eqb (platform env) (js "win32") then
    let crossPlatformDir := join [homedir env; js ".config"] in
    let appdataDir :=
      default (join [homedir env; js "AppData"; js "Roaming"]) (APPDATA env) in
    if JS.truthy appdataDir then
      let alternateDir :=
        if JS.eqb USER_CONFIG_DIR crossPlatformDir then appdataDir else crossPlatformDir in
      let alternateConfig := join [alternateDir; js "opencode"; js "opencode.json"] in
      let alternateConfigJsonc := join [alternateDir; js "opencode"; js "opencode.jsonc"] in
      pushNew (pushNew paths alternateConfig) alternateConfigJsonc
    else paths
  else paths.

(** The inner loop of [findPluginEntry]: [None] is a TypeError, [Some None]
    the end of the array without a return. *)
Fixpoint scanPlugins (configPath : jsstring) (plugins : list value)
    : option (option PluginEntryInfo) :=
  match plugins with
  | [] => Some None
  | Str entry :: plugins' =>
      if JS.eqb entry PACKAGE_NAME then
        Some (Some (mkInfo entry false None configPath))
      else if startsWith entry (PACKAGE_NAME ++ [AT]) then
        let pinnedVersion := sliceFrom entry (length PACKAGE_NAME + 1) in
        let isPinned := negb (JS.eqb pinnedVersion (js "latest")) in
        Some (Some (mkInfo entry isPinned
                      (if isPinned then Some pinnedVersion else None) configPath))
      else scanPlugins configPath plugins'
  | _ :: _ => None
  end.

(** The body of the try block for one path: [None] is an exception. *)
Definition readPluginEntry (fs : FS) (configPath : jsstring)
    : option (option PluginEntryInfo) :=
  content ← readFileSync fs configPath;
  config ← parse (stripJsonComments content);
  plugin ← getProp config (js "plugin");
  plugins ← iterate (nullish plugin (Arr []));
  scanPlugins configPath plugins.

Fixpoint findPluginEntryIn (fs : FS) (paths : list jsstring) : option PluginEntryInfo :=
  match paths with
  | [] => None
  | configPath :: paths' =>
      if negb (existsSync fs configPath) then findPluginEntryIn fs paths'
      else
        match readPluginEntry fs configPath with
        | Some (Some info) => Some info
        | Some None | None => findPluginEntryIn fs paths'
        end
  end.

Definition findPluginEntry (fs : FS) (directory : jsstring) : option PluginEntryInfo :=
  findPluginEntryIn fs (getConfigPaths directory).

(** [oldEntry.replace(/[.*+?^${}()|[\]\\]/g, '\\$&')] *)
Definition escapeRegExp (oldEntry : jsstring) : jsstring :=
  replaceWith oldEntry regExpSpecial [BACKSLASH; DOLLAR; 38%N].

Definition updatePinnedVersion (fs : FS) (configPath oldEntry newVersion : jsstring)
    : UpdateOutcome :=
  match readFileSync fs configPath with
  | None => mkOutcome fs false FailedToUpdate
  | Some content =>
      let newEntry := PACKAGE_NAME ++ [AT] ++ newVersion in
      match exec pluginKey content with
      | None => mkOutcome fs false NoPluginArrayFound
      | Some pluginMatch =>
          let startIdx := index pluginMatch + length (matched pluginMatch) in
          let endIdx := scanBrackets (drop startIdx content) startIdx 1%Z startIdx in
          let before := slice content 0 startIdx in
          let pluginArrayContent := slice content startIdx endIdx in
          let after := sliceFrom content endIdx in
          let escapedOldEntry := escapeRegExp oldEntry in
          match ofSource ([91; 34; 39; 93]%N ++ escapedOldEntry ++ [91; 34; 39; 93]%N) with
          | None => mkOutcome fs false FailedToUpdate
          | Some regex =>
              if negb (test regex pluginArrayContent) then mkOutcome fs false EntryNotFound
              else
                let updatedPluginArray :=
                  replaceWith pluginArrayContent regex ([DQUOTE] ++ newEntry ++ [DQUOTE]) in
                let updatedContent := before ++ updatedPluginArray ++ after in
                if JS.eqb updatedContent content then mkOutcome fs false NoChangesMade
                else
                  match writeFileSync fs configPath updatedContent with
                  | None => mkOutcome fs false FailedToUpdate
                  | Some fs' => mkOutcome fs' true Updated
                  end
          end
      end
  end.

End WithConstants.

End Checker.

(** ** The files as bytes *)

Module Disk.
Import Node Checker.

(** A file system whose files hold bytes, as the text file system that
    reading with the encoding utf-8 shows. *)
Definition decoded (disk : FS) : FS :=
  mkFS ((fun n => match n with File bytes => File (Utf8.decode bytes) | Dir => Dir end)
          <$> entries disk)
       (readonly disk).

Section WithConstants.

Variable PACKAGE_NAME : jsstring.

(** [updatePinnedVersion] on the bytes: [readFileSync(configPath, 'utf-8')]
    decodes the bytes of the file, and [writeFileSync(configPath,
    updatedContent, 'utf-8')] stores the encoding of the text; no other file
    is read or written. *)
Definition updatePinnedVersion (disk : FS) (configPath oldEntry newVersion : jsstring)
    : FS * bool :=
  let o := Checker.updatePinnedVersion PACKAGE_NAME (decoded disk) configPath oldEntry
             newVersion in
  match (if returned o then readFileSync (fsAfter o) configPath else None) with
  | Some updatedContent =>
      (mkFS (<[configPath := File (Utf8.encode updatedContent)]> (entries disk))
            (readonly disk),
       true)
  | None => (disk, false)
  end.

End WithConstants.

End Disk.

Import RegExp JSON Node Checker.

(** ** Vocabulary of the specification *)

(** *** Texts *)

(** [l] occurs in [s] as a run of adjacent units. *)
Definition hasInfix (l s : jsstring) : Prop := ∃ pre post, s = pre ++ l ++ post.

Definition allWhiteSpace (ws : jsstring) : Prop := Forall (fun c => isWhiteSpace c = true) ws.

(** A comma, then optional white space, then a closing brace or bracket. *)
Definition hasTrailingComma (s : jsstring) : Prop :=
  ∃ pre ws c post,
    s = pre ++ COMMA :: ws ++ c :: post ∧ allWhiteSpace ws ∧ (c = RBRACE ∨ c = RBRACKET).

(** The tests of the comma before a closer, as functions that can be run. *)
Fixpoint closesAfterWhiteSpace (s : jsstring) : bool :=
  match s with
  | [] => false
  | c :: s' =>
      if isWhiteSpace c then closesAfterWhiteSpace s'
      else (c =? RBRACE)%N || (c =? RBRACKET)%N
  end.

Fixpoint trailingCommaIn (s : jsstring) : bool :=
  match s with
  | [] => false
  | c :: s' => ((c =? COMMA)%N && closesAfterWhiteSpace s') || trailingCommaIn s'
  end.

(** *** The scanner of the specification *)

(** The scanner as the specification describes it, a state machine over
    the units of the text that knows strings with their escapes: a first pass
    drops the comments, a second one the commas before a closer.  It is what
    the stripper of the source is compared with. *)
Module Reference.

Inductive state : Type := Plain | InString | InLineComment | InBlockComment.

Fixpoint dropComments (st : state) (s : jsstring) : jsstring :=
  match s with
  | [] => []
  | c :: s' =>
      match st with
      | Plain =>
          if (c =? DQUOTE)%N then c :: dropComments InString s'
          else if (c =? SLASH)%N then
            match s' with
            | d :: s'' =>
                if (d =? SLASH)%N then dropComments InLineComment s''
                else if (d =? ASTERISK)%N then dropComments InBlockComment s''
                else c :: dropComments Plain s'
            | [] => [c]
            end
          else c :: dropComments Plain s'
      | InString =>
          if (c =? BACKSLASH)%N then
            match s' with
            | d :: s'' => c :: d :: dropComments InString s''
            | [] => [c]
            end
          else if (c =? DQUOTE)%N then c :: dropComments Plain s'
          else c :: dropComments InString s'
      | InLineComment =>
          if isLineTerminator c then c :: dropComments Plain s'
          else dropComments InLineComment s'
      | InBlockComment =>
          if (c =? ASTERISK)%N then
            match s' with
            | d :: s'' =>
                if (d =? SLASH)%N then dropComments Plain s''
                else dropComments InBlockComment s'
            | [] => []
            end
          else dropComments InBlockComment s'
      end
  end.

(** [inString] tells whether the scan is inside a string. *)
Fixpoint dropTrailingCommas (inString : bool) (s : jsstring) : jsstring :=
  match s with
  | [] => []
  | c :: s' =>
      if inString then
        if (c =? BACKSLASH)%N then
          match s' with
          | d :: s'' => c :: d :: dropTrailingCommas true s''
          | [] => [c]
          end
        else c :: dropTrailingCommas (negb (c =? DQUOTE)%N) s'
      else if (c =? DQUOTE)%N then c :: dropTrailingCommas true s'
      else if (c =? COMMA)%N && closesAfterWhiteSpace s' then dropTrailingCommas false s'
      else c :: dropTrailingCommas false s'
  end.

Definition strip (text : jsstring) : jsstring :=
  dropTrailingCommas false (dropComments Plain text).

End Reference.

(** The value of a config document: what the scanner of the
    specification and [JSON.parse] make of its text. *)
Definition documentValue (content : jsstring) : option value :=
  parse (Reference.strip content).

(** The stripper of the source reads [content] right: what it leaves
    parses to the value of the document, or does not parse when the document
    has none. *)
Definition readsRight (content : jsstring) : Prop :=
  parse (stripJsonComments content) = documentValue content.

(** A file at [path], when there is one, is read right. *)
Definition readRightAt (fs : FS) (path : jsstring) : Prop :=
  ∀ content, readFileSync fs path = Some content → readsRight content.

(** *** Channels *)

(** The channel names the classifier knows. *)
Definition KNOWN_CHANNELS : list jsstring :=
  [js "alpha"; js "beta"; js "rc"; js "canary"; js "next"].

Definition beginsWithDigit (v : jsstring) : Prop :=
  ∃ d rest, v = d :: rest ∧ isDigit d = true.

(** *** The plugin array in the text of a config *)

(** The key of the plugin array up to its opening bracket. *)
Definition pluginOpening (opening : jsstring) : Prop :=
  ∃ ws1 ws2,
    opening = jsq "`plugin`" ++ ws1 ++ COLON :: ws2 ++ [LBRACKET]
    ∧ allWhiteSpace ws1 ∧ allWhiteSpace ws2.

Definition hasPluginArray (content : jsstring) : Prop :=
  ∃ pre opening post, content = pre ++ opening ++ post ∧ pluginOpening opening.

(** The bracket depth after the units of [body], from depth [d]. *)
Definition depthStep (d : Z) (c : N) : Z :=
  if (c =? LBRACKET)%N then (d + 1)%Z
  else if (c =? RBRACKET)%N then (d - 1)%Z
  else d.

Definition depthAfter (d : Z) (body : jsstring) : Z := foldl depthStep d body.

(** The bracket that closes the array is at offset [n] of its body: the
    depth, 1 at the start, reaches 0 there for the first time. *)
Definition closesAt (body : jsstring) (n : nat) : Prop :=
  n < length body
  ∧ depthAfter 1 (take (S n) body) = 0%Z
  ∧ ∀ j, j ≤ n → (0 < depthAfter 1 (take j body))%Z.

(** The range of the array body that [updatePinnedVersion] computes: from
    [startIdx] to [endIdx]. *)
Definition pluginArrayRange (content : jsstring) : option (nat * nat) :=
  pluginMatch ← exec pluginKey content;
  let startIdx := index pluginMatch + length (matched pluginMatch) in
  Some (startIdx, scanBrackets (drop startIdx content) startIdx 1%Z startIdx).

Definition isQuote (c : N) : Prop := c = DQUOTE ∨ c = SQUOTE.

(** [old] stands in [s] between two quote characters, after [pre] and
    before [post]. *)
Definition quotedAt (old s pre : jsstring) (q1 q2 : N) (post : jsstring) : Prop :=
  s = pre ++ q1 :: old ++ q2 :: post ∧ isQuote q1 ∧ isQuote q2.

Definition hasQuoted (old s : jsstring) : Prop :=
  ∃ pre q1 q2 post, quotedAt old s pre q1 q2 post.

(** The occurrence that starts first. *)
Definition firstQuotedAt (old s pre : jsstring) (q1 q2 : N) (post : jsstring) : Prop :=
  quotedAt old s pre q1 q2 post
  ∧ ∀ pre' q1' q2' post', quotedAt old s pre' q1' q2' post' → length pre ≤ length pre'.

(** The pattern that [new RegExp] builds from the escaped old entry. *)
Definition quotedEntry (old : jsstring) : RegExp.t :=
  mk (Seq (Class (anyOf [DQUOTE; SQUOTE]))
        (litThen old (Seq (Class (anyOf [DQUOTE; SQUOTE])) Empty)))
     0 false.

(** Every special character of [old] behind a backslash. *)
Definition escaped (old : jsstring) : jsstring :=
  old ≫= (fun c => if isSyntaxCharacter c then [BACKSLASH; c] else [c]).

(** *** The plugin array of a parsed config *)

(** An entry of the plugin array that names the package: the bare name,
    or the name, an at sign and a version. *)
Definition refersTo (name entry : jsstring) : Prop :=
  entry = name ∨ (name ++ [AT]) `prefix_of` entry.

#[global] Instance refersTo_dec name entry : Decision (refersTo name entry).
Proof. unfold refersTo. apply _. Defined.

(** The document at [path] is a config whose plugin member is the array
    of [elements]. *)
Definition pluginArrayOf (fs : FS) (path : jsstring) (elements : list value) : Prop :=
  ∃ content config,
    readFileSync fs path = Some content
    ∧ documentValue content = Some config
    ∧ getProp config (js "plugin") = Some (Some (Arr elements)).

(** The plugin array of the document at [path] offers [entry]: the first
    of its elements that names the package, after strings only. *)
Definition offersPackage (name : jsstring) (fs : FS) (path entry : jsstring) : Prop :=
  ∃ strs rest,
    pluginArrayOf fs path ((Str <$> strs) ++ Str entry :: rest)
    ∧ (∀ e, e ∈ strs → ¬ refersTo name e)
    ∧ refersTo name entry.

(** The search order of the specification: the two files of the project,
    the two files of the user and, on win32, the two files of the alternate
    user directory, each unless the list has it already.  The alternate
    directory is the application data directory when the user directory is
    the one under .config, and the one under .config otherwise. *)
Definition alternateUserDir (USER_CONFIG_DIR : jsstring) (join : list jsstring -> jsstring)
    (env : Env) : option jsstring :=
  if JS.eqb (platform env) (js "win32") then
    let appdataDir :=
      default (join [homedir env; js "AppData"; js "Roaming"]) (APPDATA env) in
    if JS.truthy appdataDir then
      Some (if JS.eqb USER_CONFIG_DIR (join [homedir env; js ".config"]) then appdataDir
            else join [homedir env; js ".config"])
    else None
  else None.

Definition searchOrder (USER_OPENCODE_CONFIG USER_OPENCODE_CONFIG_JSONC USER_CONFIG_DIR : jsstring)
    (join : list jsstring -> jsstring) (env : Env) (directory : jsstring) : list jsstring :=
  let base :=
    [ join [directory; js ".opencode"; js "opencode.json"];
      join [directory; js ".opencode"; js "opencode.jsonc"];
      USER_OPENCODE_CONFIG;
      USER_OPENCODE_CONFIG_JSONC ] in
  match alternateUserDir USER_CONFIG_DIR join env with
  | None => base
  | Some dir =>
      let json := join [dir; js "opencode"; js "opencode.json"] in
      let jsonc := join [dir; js "opencode"; js "opencode.jsonc"] in
      base ++ (if bool_decide (json ∈ base) then [] else [json])
           ++ (if bool_decide (jsonc ∈ base ∨ jsonc = json) then [] else [jsonc])
  end.

(** A parsed config, or null for none, the shape that the type of the
    source gives it. *)
Definition isConfigObject (config : value) : Prop :=
  config = Null ∨ ∃ members, config = Obj members.

(** [previous] are the strings of the plugin array of [config]; there are
    none when the config or its plugin member is missing or null. *)
Definition hasPlugins (config : value) (previous : list jsstring) : Prop :=
  match nullish (Some config) (Obj []) with
  | Obj members =>
      match objGet members (js "plugin") with
      | None | Some Null => previous = []
      | Some (Arr elements) => elements = Str <$> previous
      | Some _ => False
      end
  | _ => False
  end.

(** *** The matcher *)

(** [st'] is [st] after some units of the input were consumed. *)
Definition advances (st st' : mstate) : Prop :=
  st.1 ≤ st'.1 ∧ st'.1 + length st'.2 = st.1 + length st.2.

(** One iteration of a quantifier over a class. *)
Definition classBody (p : N -> bool) : mstate -> captures -> cont -> mresult :=
  fun st c k => m (Class p) st (clearGroups [] c) k.

(** *** Sample data *)

(** A file system that holds one file. *)
Definition singleFile (path content : jsstring) : FS :=
  mkFS {[ path := File content ]} ∅.

Definition samplePath : jsstring := js "/project/.opencode/opencode.json".

(** A stand-in for [path.join] on paths that need no normalising, and a
    process environment, for the examples. *)
Definition slashJoin (parts : list jsstring) : jsstring :=
  match parts with
  | [] => js "."
  | p :: ps => foldl (fun acc x => acc ++ SLASH :: x) p ps
  end.

Definition posixEnv : Env := mkEnv None None (js "/home/u") (js "linux").

Definition userConfig : jsstring := js "/home/u/.config/opencode/opencode.json".
Definition userConfigJsonc : jsstring := js "/home/u/.config/opencode/opencode.jsonc".

(** A stand-in for [JSON.stringify], for the examples: no white space,
    and strings without escapes. *)
Fixpoint compactJson (v : value) : jsstring :=
  match v with
  | Null => js "null"
  | Bool true => js "true"
  | Bool false => js "false"
  | Number lexeme => lexeme
  | Str s => DQUOTE :: s ++ [DQUOTE]
  | Arr elements =>
      LBRACKET ::
      (fix items (l : list value) : jsstring :=
         match l with
         | [] => []
         | [x] => compactJson x
         | x :: l' => compactJson x ++ COMMA :: items l'
         end) elements ++ [RBRACKET]
  | Obj members =>
      LBRACE ::
      (fix items (l : list (jsstring * value)) : jsstring :=
         match l with
         | [] => []
         | [(k, x)] => DQUOTE :: k ++ DQUOTE :: COLON :: compactJson x
         | (k, x) :: l' => DQUOTE :: k ++ DQUOTE :: COLON :: compactJson x ++ COMMA :: items l'
         end) members ++ [RBRACE]
  end.

(** A user config that names the package twice, among other plugins. *)
Definition installedTwice : FS :=
  mkFS {[ js "/home/u/.config/opencode" := Dir;
          userConfig := File (jsq "{
  // plugins
  `plugin`: [`a`, `oh-my-opencode-slim@1.0.0`, `b`, `oh-my-opencode-slim`],
  `theme`: `dark`,
}") ]} ∅.

(** A project config without the package, a user config that pins it and a
    later user config that names another version. *)
Definition threeConfigs : FS :=
  mkFS {[ samplePath := File (jsq "{ `plugin`: [`other`] }");
          userConfig := File (jsq "{
  // pinned
  `plugin`: [`other-plugin`, `oh-my-opencode-slim@1.2.3`, `x`],
}");
          userConfigJsonc := File (jsq "{ `plugin`: [`oh-my-opencode-slim@9.9.9`] }") ]} ∅.

(** ** src/cli/config-manager.ts: the lite config *)

Module LiteConfig.
Import JSON.

(** The answers of the installer that the functions read. *)
Record InstallConfig : Type :=
  mkInstall { hasAntigravity : bool; hasOpenAI : bool; hasCerebras : bool; hasTmux : bool }.

Inductive Provider : Type := antigravity | openai | cerebras.

Definition MODEL_MAPPINGS (provider : Provider) : list (jsstring * jsstring) :=
  match provider with
  | antigravity =>
      [ (js "orchestrator", js "google/claude-opus-4-5-thinking");
        (js "code-simplicity-reviewer", js "google/claude-opus-4-5-thinking");
        (js "oracle", js "google/claude-opus-4-5-thinking");
        (js "librarian", js "google/gemini-3-flash");
        (js "explore", js "google/gemini-3-flash");
        (js "frontend-ui-ux-engineer", js "google/gemini-3-flash");
        (js "document-writer", js "google/gemini-3-flash");
        (js "multimodal-looker", js "google/gemini-3-flash") ]
  | openai =>
      [ (js "orchestrator", js "openai/gpt-5.2-codex");
        (js "code-simplicity-reviewer", js "openai/gpt-5.2-codex");
        (js "oracle", js "openai/gpt-5.2-codex");
        (js "librarian", js "openai/gpt-4.1-mini");
        (js "explore", js "openai/gpt-4.1-mini");
        (js "frontend-ui-ux-engineer", js "openai/gpt-4.1-mini");
        (js "document-writer", js "openai/gpt-4.1-mini");
        (js "multimodal-looker", js "openai/gpt-4.1-mini") ]
  | cerebras =>
      [ (js "orchestrator", js "cerebras/zai-glm-4.6");
        (js "code-simplicity-reviewer", js "cerebras/zai-glm-4.6");
        (js "oracle", js "cerebras/zai-glm-4.6");
        (js "librarian", js "cerebras/zai-glm-4.6");
        (js "explore", js "cerebras/zai-glm-4.6");
        (js "frontend-ui-ux-engineer", js "cerebras/zai-glm-4.6");
        (js "document-writer", js "cerebras/zai-glm-4.6");
        (js "multimodal-looker", js "cerebras/zai-glm-4.6") ]
  end.

(** [{ model: v }] *)
Definition modelOf (v : jsstring) : value := Obj [(js "model", Str v)].

Definition generateLiteConfig (installConfig : InstallConfig) : value :=
  let baseProvider :=
    if hasAntigravity installConfig then Some antigravity
    else if hasOpenAI installConfig then Some openai
    else if hasCerebras installConfig then Some cerebras
    else None in
  let config := [(js "agents", Obj [])] in
  let config :=
    match baseProvider with
    | Some provider =>
        let agents :=
          mkObject ((fun kv => (kv.1, modelOf kv.2)) <$> MODEL_MAPPINGS provider) in
        let agents :=
          if hasAntigravity installConfig then
            let agents :=
              if hasOpenAI installConfig then
                objSet agents (js "oracle") (modelOf (js "openai/gpt-5.2-codex"))
              else agents in
            if hasCerebras installConfig then
              objSet agents (js "explore") (modelOf (js "cerebras/zai-glm-4.6"))
            else agents
          else if hasOpenAI installConfig && hasCerebras installConfig then
            objSet agents (js "explore") (modelOf (js "cerebras/zai-glm-4.6"))
          else agents in
        objSet config (js "agents") (Obj agents)
    | None => config
    end in
  let config :=
    if hasTmux installConfig then
      objSet config (js "tmux")
        (Obj [ (js "enabled", Bool true);
               (js "layout", Str (js "main-vertical"));
               (js "main_pane_size", Number (js "60")) ])
    else config in
  Obj config.

End LiteConfig.

(** ** src/cli/config-manager.ts: the steps of the installer *)

Module Installer.
Import RegExp JSON Node LiteConfig.

Inductive StepError : Type :=
| FailedToAddAuthPlugins
| FailedToAddProviderConfig
| FailedToAddServerConfig
| FailedToWriteLiteConfig
| FailedToDisableDefaultAgents.

Record StepResult : Type :=
  mkStep { success : bool; configPath : jsstring; error : option StepError }.

(** [l.some(p => p.startsWith(prefix))] on the elements of an array:
    [None] is the TypeError on an element that is not a string, met before an
    element that starts with the prefix. *)
Fixpoint someStartsWith (prefix : jsstring) (l : list value) : option bool :=
  match l with
  | [] => Some false
  | Str s :: l' => if startsWith s prefix then Some true else someStartsWith prefix l'
  | _ :: _ => None
  end.

(** [plugins.some(p => p.startsWith(prefix))]: a receiver that is not an
    array has no such method. *)
Definition arraySome (prefix : jsstring) (plugins : value) : option bool :=
  match plugins with
  | Arr l => someStartsWith prefix l
  | _ => None
  end.

Definition GOOGLE_PROVIDER_CONFIG_google : value :=
  let modalities :=
    Obj [ (js "input", Arr [Str (js "text"); Str (js "image"); Str (js "pdf")]);
          (js "output", Arr [Str (js "text")]) ] in
  Obj [ (js "name", Str (js "Google"));
        (js "models",
         Obj [ (js "gemini-3-pro-high",
                Obj [ (js "name", Str (js "Gemini 3 Pro High"));
                      (js "thinking", Bool true);
                      (js "attachment", Bool true);
                      (js "limit", Obj [ (js "context", Number (js "1048576"));
                                         (js "output", Number (js "65535")) ]);
                      (js "modalities", modalities) ]);
               (js "gemini-3-flash",
                Obj [ (js "name", Str (js "Gemini 3 Flash"));
                      (js "attachment", Bool true);
                      (js "limit", Obj [ (js "context", Number (js "1048576"));
                                         (js "output", Number (js "65536")) ]);
                      (js "modalities", modalities) ]);
               (js "claude-opus-4-5-thinking",
                Obj [ (js "name", Str (js "Claude Opus 4.5 Thinking"));
                      (js "attachment", Bool true);
                      (js "limit", Obj [ (js "context", Number (js "200000"));
                                         (js "output", Number (js "32000")) ]);
                      (js "modalities", modalities) ]);
               (js "claude-sonnet-4-5-thinking",
                Obj [ (js "name", Str (js "Claude Sonnet 4.5 Thinking"));
                      (js "attachment", Bool true);
                      (js "limit", Obj [ (js "context", Number (js "200000"));
                                         (js "output", Number (js "32000")) ]);
                      (js "modalities", modalities) ]) ]) ].

(** [{ disable: true }] *)
Definition disabled : value := Obj [(js "disable", Bool true)].

(** *** What each step does to the parsed config

    [config] is [parseConfig(configPath) ?? {}]; [None] is a TypeError. *)

(** The entry that [addAuthPlugins] adds: [latest] is what
    [fetchLatestVersion] resolved to, [None] for null. *)
Definition authPluginEntry (latest : option jsstring) : jsstring :=
  let version := default [] latest in
  if JS.truthy version then js "opencode-antigravity-auth@" ++ version
  else js "opencode-antigravity-auth@latest".

Definition withAuthPlugins (installConfig : InstallConfig) (latest : option jsstring)
    (config : value) : option value :=
  plugin ← getProp config (js "plugin");
  let plugins := nullish plugin (Arr []) in
  plugins ←
    (if hasAntigravity installConfig then
       let pluginEntry := authPluginEntry latest in
       found ← arraySome (js "opencode-antigravity-auth") plugins;
       if negb found then ConfigManager.arrayPush plugins (Str pluginEntry)
       else Some plugins
     else Some plugins);
  setProp config (js "plugin") plugins.

Definition withProviderConfig (installConfig : InstallConfig) (config : value)
    : option value :=
  if hasAntigravity installConfig then
    provider ← getProp config (js "provider");
    let providers := nullish provider (Obj []) in
    providers ← setProp providers (js "google") GOOGLE_PROVIDER_CONFIG_google;
    setProp config (js "provider") providers
  else Some config.

Definition withServerConfig (installConfig : InstallConfig) (config : value)
    : option value :=
  if hasTmux installConfig then
    server ← getProp config (js "server");
    let server := nullish server (Obj []) in
    port ← getProp server (js "port");
    server ←
      match port with
      | None => setProp server (js "port") (Number (js "4096"))
      | Some _ => Some server
      end;
    setProp config (js "server") server
  else Some config.

Definition withoutDefaultAgents (config : value) : option value :=
  agent ← getProp config (js "agent");
  let agent := nullish agent (Obj []) in
  agent ← setProp agent (js "explore") disabled;
  agent ← setProp agent (js "general") disabled;
  setProp config (js "agent") agent.

Section WithRuntime.

(** [path.join] and [JSON.stringify(config, null, 2)] of the runtime. *)
Variable join : list jsstring -> jsstring.
Variable stringify : value -> jsstring.
Variable env : Env.

Definition getLiteConfig : jsstring :=
  join [ConfigManager.getConfigDir join env; js "oh-my-opencode-slim.json"].

(** The frame that [addAuthPlugins], [addProviderConfig], [addServerConfig]
    and [disableDefaultAgents] share: the path is taken first; inside the try
    block the directory is made, the config parsed, changed by [edit] and
    written; every exception ends in the failure result. *)
Definition rewriteUserConfig (failure : StepError) (edit : value -> option value)
    (fs : FS) : FS * StepResult :=
  let configPath := ConfigManager.getExistingConfigPath join env fs in
  match ConfigManager.ensureConfigDir join env fs with
  | None => (fs, mkStep false configPath (Some failure))
  | Some fs1 =>
      let attempt : option FS :=
        let config := nullish (Some (ConfigManager.parseConfig fs1 configPath)) (Obj []) in
        config ← edit config;
        ConfigManager.writeConfig stringify fs1 configPath config in
      match attempt with
      | Some fs2 => (fs2, mkStep true configPath None)
      | None => (fs1, mkStep false configPath (Some failure))
      end
  end.

Definition addAuthPlugins (installConfig : InstallConfig) (latest : option jsstring)
    : FS -> FS * StepResult :=
  rewriteUserConfig FailedToAddAuthPlugins (withAuthPlugins installConfig latest).

Definition addProviderConfig (installConfig : InstallConfig) : FS -> FS * StepResult :=
  rewriteUserConfig FailedToAddProviderConfig (withProviderConfig installConfig).

Definition addServerConfig (installConfig : InstallConfig) : FS -> FS * StepResult :=
  rewriteUserConfig FailedToAddServerConfig (withServerConfig installConfig).

Definition disableDefaultAgents : FS -> FS * StepResult :=
  rewriteUserConfig FailedToDisableDefaultAgents withoutDefaultAgents.

Definition writeLiteConfig (installConfig : InstallConfig) (fs : FS) : FS * StepResult :=
  let configPath := getLiteConfig in
  match ConfigManager.ensureConfigDir join env fs with
  | None => (fs, mkStep false configPath (Some FailedToWriteLiteConfig))
  | Some fs1 =>
      let config := generateLiteConfig installConfig in
      match writeFileSync fs1 configPath (stringify config ++ [10%N]) with
      | Some fs2 => (fs2, mkStep true configPath None)
      | None => (fs1, mkStep false configPath (Some FailedToWriteLiteConfig))
      end
  end.

End WithRuntime.

End Installer.

(** ** src/cli/config-manager.ts: what is installed *)

Module Detection.
Import RegExp JSON Node.

Record DetectedConfig : Type :=
  mkDetected { isInstalled : bool;
               hasAntigravity : bool;
               hasOpenAI : bool;
               hasCerebras : bool;
               hasTmux : bool }.

(** The number that a property key stands for when it is an array index:
    a canonical decimal below 2^32 - 1. *)
Definition arrayIndex (k : jsstring) : option N :=
  match k with
  | [] => None
  | d :: k' =>
      if forallb isDigit k && (negb (d =? 48)%N || bool_decide (k' = [])) then
        let n := foldl (fun acc c => (acc * 10 + (c - 48))%N) 0%N k in
        if (n <? 4294967295)%N then Some n else None
      else None
  end.

(** Insertion into a list sorted by index. *)
Fixpoint insertByIndex (n : N) (v : value) (l : list (N * value)) : list (N * value) :=
  match l with
  | [] => [(n, v)]
  | (n', v') :: l' =>
      if (n <? n')%N then (n, v) :: l else (n', v') :: insertByIndex n v l'
  end.

(** [Object.values(o)] of an object: the members whose keys are array
    indices in ascending order, then the others in the order of their
    creation. *)
Definition ownValues (members : list (jsstring * value)) : list value :=
  let indexed :=
    foldr (fun kv acc =>
             match arrayIndex kv.1 with
             | Some n => insertByIndex n kv.2 acc
             | None => acc
             end) [] members in
  let others := filter (fun kv => arrayIndex kv.1 = None) members in
  (snd <$> indexed) ++ (snd <$> others).

(** [Object.values(v)] of a value that is not null: the elements of an
    array, the units of a string, nothing for a number or a boolean. *)
Definition objectValues (v : value) : list value :=
  match v with
  | Obj members => ownValues members
  | Arr l => l
  | Str s => (fun c => Str [c]) <$> s
  | _ => []
  end.

(** [a?.model], kept by [filter(Boolean)] when it is truthy. *)
Definition modelOfAgent (a : value) : option value :=
  match a with
  | Null => None
  | _ =>
      match getProp a (js "model") with
      | Some (Some model) => if truthy model then Some model else None
      | _ => None
      end
  end.

(** [typeof v === 'object'] for a value that is truthy. *)
Definition isObjectType (v : value) : bool :=
  match v with
  | Arr _ | Obj _ => true
  | _ => false
  end.

(** The block of [detectCurrentConfig] that reads the lite config: the
    flags for OpenAI, Cerebras and tmux.  [None] is a TypeError. *)
Definition detectLite (liteConfig : value) : option (bool * bool * bool) :=
  if truthy liteConfig && isObjectType liteConfig then
    agents ← getProp liteConfig (js "agents");
    '(openai, cerebras) ←
      match agents with
      | Some agents =>
          if truthy agents then
            let models := omap modelOfAgent (objectValues agents) in
            openai ← Installer.someStartsWith (js "openai/") models;
            cerebras ← Installer.someStartsWith (js "cerebras/") models;
            Some (openai, cerebras)
          else Some (false, false)
      | None => Some (false, false)
      end;
    tmux ← getProp liteConfig (js "tmux");
    let hasTmux :=
      match tmux with
      | Some tmux =>
          if truthy tmux && isObjectType tmux then
            match getProp tmux (js "enabled") with
            | Some (Some (Bool true)) => true
            | _ => false
            end
          else false
      | None => false
      end in
    Some (openai, cerebras, hasTmux)
  else Some (false, false, false).

Section WithRuntime.

Variable join : list jsstring -> jsstring.
Variable env : Env.

(** [None] is an exception, which the function does not catch. *)
Definition detectCurrentConfig (fs : FS) : option DetectedConfig :=
  let config :=
    ConfigManager.parseConfig fs (ConfigManager.getExistingConfigPath join env fs) in
  if negb (truthy config) then Some (mkDetected false false false false false)
  else
    plugin ← getProp config (js "plugin");
    let plugins := nullish plugin (Arr []) in
    isInstalled ← Installer.arraySome ConfigManager.PACKAGE_NAME plugins;
    hasAntigravity ← Installer.arraySome (js "opencode-antigravity-auth") plugins;
    let liteConfig := ConfigManager.parseConfig fs (Installer.getLiteConfig join env) in
    '(hasOpenAI, hasCerebras, hasTmux) ← detectLite liteConfig;
    Some (mkDetected isInstalled hasAntigravity hasOpenAI hasCerebras hasTmux).

End WithRuntime.

End Detection.

(** ** src/hooks/auto-update-checker/checker.ts: the local checkout and the
    installed version *)

Module LocalDev.
Import RegExp JSON Node Checker.

(** [statSync(path).isDirectory()]: [None] is the exception on a path
    that does not exist. *)
Definition statIsDirectory (fs : FS) (path : jsstring) : option bool :=
  match entries fs !! path with
  | Some Dir => Some true
  | Some (File _) => Some false
  | None => None
  end.

(** [s.replace(pattern, '')] for a pattern that is a string: the first
    occurrence goes. *)
Fixpoint removeFirst (s pattern : jsstring) : jsstring :=
  if startsWith s pattern then drop (length pattern) s
  else
    match s with
    | [] => []
    | x :: s' => x :: removeFirst s' pattern
    end.

Section WithRuntime.

(** The constants of [./constants]; [path.join], [path.dirname] and
    [fileURLToPath] of the runtime ([None] is the exception of the last one);
    the URL of the module, [import.meta.url]. *)
Variable PACKAGE_NAME : jsstring.
Variable USER_OPENCODE_CONFIG : jsstring.
Variable USER_OPENCODE_CONFIG_JSONC : jsstring.
Variable USER_CONFIG_DIR : jsstring.
Variable INSTALLED_PACKAGE_JSON : jsstring.
Variable join : list jsstring -> jsstring.
Variable dirname : jsstring -> jsstring.
Variable fileURLToPath : jsstring -> option jsstring.
Variable moduleUrl : jsstring.
Variable env : Env.

(** The inner loop of [getLocalDevPath]: [None] is a TypeError, [Some None]
    the end of the array without a return. *)
Fixpoint scanLocalDev (plugins : list value) : option (option jsstring) :=
  match plugins with
  | [] => Some None
  | Str entry :: plugins' =>
      if startsWith entry (js "file://") && includes entry PACKAGE_NAME then
        Some (Some (match fileURLToPath entry with
                    | Some path => path
                    | None => removeFirst entry (js "file://")
                    end))
      else scanLocalDev plugins'
  | _ :: _ => None
  end.

(** The body of the try block for one path: [None] is an exception. *)
Definition readLocalDev (fs : FS) (configPath : jsstring) : option (option jsstring) :=
  content ← readFileSync fs configPath;
  config ← parse (stripJsonComments content);
  plugin ← getProp config (js "plugin");
  plugins ← iterate (nullish plugin (Arr []));
  scanLocalDev plugins.

Fixpoint getLocalDevPathIn (fs : FS) (paths : list jsstring) : option jsstring :=
  match paths with
  | [] => None
  | configPath :: paths' =>
      if negb (existsSync fs configPath) then getLocalDevPathIn fs paths'
      else
        match readLocalDev fs configPath with
        | Some (Some path) => Some path
        | Some None | None => getLocalDevPathIn fs paths'
        end
  end.

Definition getLocalDevPath (fs : FS) (directory : jsstring) : option jsstring :=
  getLocalDevPathIn fs
    (getConfigPaths USER_OPENCODE_CONFIG USER_OPENCODE_CONFIG_JSONC USER_CONFIG_DIR join env
       directory).

(** The inner try block of [findPackageJsonUp]: the file parses to a
    value whose name is the package name. *)
Definition namesPackage (fs : FS) (pkgPath : jsstring) : bool :=
  match (content ← readFileSync fs pkgPath;
         pkg ← parse content;
         getProp pkg (js "name")) with
  | Some (Some (Str name)) => JS.eqb name PACKAGE_NAME
  | _ => false
  end.

(** The for loop of [findPackageJsonUp], with [n] rounds left. *)
Fixpoint walkUp (n : nat) (fs : FS) (dir : jsstring) : option jsstring :=
  match n with
  | 0 => None
  | S n' =>
      let pkgPath := join [dir; js "package.json"] in
      if existsSync fs pkgPath && namesPackage fs pkgPath then Some pkgPath
      else
        let parent := dirname dir in
        if JS.eqb parent dir then None else walkUp n' fs parent
  end.

Definition findPackageJsonUp (fs : FS) (startPath : jsstring) : option jsstring :=
  match statIsDirectory fs startPath with
  | None => None
  | Some isDirectory => walkUp 10 fs (if isDirectory then startPath else dirname startPath)
  end.

(** [Null] is null. *)
Definition getLocalDevVersion (fs : FS) (directory : jsstring) : value :=
  match getLocalDevPath fs directory with
  | None => Null
  | Some localPath =>
      if negb (JS.truthy localPath) then Null
      else
        match findPackageJsonUp fs localPath with
        | None => Null
        | Some pkgPath =>
            if negb (JS.truthy pkgPath) then Null
            else
              default Null
                (content ← readFileSync fs pkgPath;
                 pkg ← parse content;
                 version ← getProp pkg (js "version");
                 Some (nullish version Null))
        end
  end.

(** [pkg.version], when the file parses and the version is truthy. *)
Definition versionIn (fs : FS) (pkgPath : jsstring) : option value :=
  match (content ← readFileSync fs pkgPath;
         pkg ← parse content;
         getProp pkg (js "version")) with
  | Some (Some version) => if truthy version then Some version else None
  | _ => None
  end.

(** [None] is null. *)
Definition getCachedVersion (fs : FS) : option value :=
  let installed :=
    if existsSync fs INSTALLED_PACKAGE_JSON then versionIn fs INSTALLED_PACKAGE_JSON
    else None in
  match installed with
  | Some version => Some version
  | None =>
      match fileURLToPath moduleUrl with
      | None => None
      | Some modulePath =>
          match findPackageJsonUp fs (dirname modulePath) with
          | None => None
          | Some pkgPath =>
              if JS.truthy pkgPath then versionIn fs pkgPath else None
          end
      end
  end.

End WithRuntime.

End LocalDev.

(** *** The comment stripper *)

(** The two passes of [stripJsonComments], one after the other. *)
Definition withoutComments (json : jsstring) : jsstring :=
  replace json commentPattern dropComment.

Definition withoutTrailingCommas (json : jsstring) : jsstring :=
  replace json trailingCommaPattern dropComma.

(** Text outside literals and comments: it holds no double quote, no
    backslash and no slash. *)
Definition outside (p : jsstring) : Prop :=
  Forall (fun c => c ∉ [DQUOTE; BACKSLASH; SLASH]) p.

(** The units between the quotes of a literal that the patterns read as
    one literal: a double quote only after a backslash, and no backslash at the
    end.  [prev] is the unit before. *)
Fixpoint literalBody (prev : N) (body : jsstring) : bool :=
  match body with
  | [] => negb (prev =? BACKSLASH)%N
  | c :: body' => (negb (c =? DQUOTE)%N || (prev =? BACKSLASH)%N) && literalBody c body'
  end.

Definition literal (lit : jsstring) : Prop :=
  ∃ body, lit = DQUOTE :: body ++ [DQUOTE] ∧ literalBody DQUOTE body = true.

(** The body of a line comment: no line terminator in it, and the end of
    the text or a line terminator after it. *)
Definition lineCommentBody (body rest : jsstring) : Prop :=
  forallb dot body = true
  ∧ match rest with x :: _ => isLineTerminator x = true | [] => True end.

Definition isCloser (c : N) : bool := (c =? RBRACE)%N || (c =? RBRACKET)%N.

(** A backslash, a backslash and a double quote: the end of a literal
    whose last character is an escaped backslash. *)
Definition escapedBackslashAtEnd : jsstring := [BACKSLASH; BACKSLASH; DQUOTE].

(** A pattern without [^]: what it matches does not depend on the index. *)
Fixpoint anchorFree (r : regex) : bool :=
  match r with
  | Bol => false
  | Seq r1 r2 | Alt r1 r2 => anchorFree r1 && anchorFree r2
  | Star _ r | Group _ r => anchorFree r
  | _ => true
  end.

(** A result of the matcher, [d] units further on. *)
Definition shifted (d : nat) (res : mresult) : mresult :=
  match res with
  | Some (st, c) => Some ((st.1 + d, st.2), c)
  | None => None
  end.

(** The replacement callback looks at the matched text and the captures
    only. *)
Definition indexBlind (f : replacer) : Prop :=
  ∀ r subject r' subject',
    matched r = matched r' → groups r = groups r' → f r subject = f r' subject'.

(** Both passes leave the units of [s] before [r] as they are, and
    go on at [r] as if the text started there. *)
Definition untouched (s r : jsstring) : Prop :=
  ∃ pre, s = pre ++ r
    ∧ withoutComments s = pre ++ withoutComments r
    ∧ withoutTrailingCommas s = pre ++ withoutTrailingCommas r.

(** The units of a JSON number. *)
Definition isNumberUnit (c : N) : bool :=
  isDigit c || (c =? 45)%N || (c =? 43)%N || (c =? 46)%N || (c =? 101)%N || (c =? 69)%N.

(** One iteration of the quantifier inside the literal alternative. *)
Definition literalStep : mstate → captures → cont → mresult :=
  fun st c k =>
    m (Alt (Seq (Char BACKSLASH) (Char DQUOTE)) (Class (noneOf [DQUOTE]))) st
      (clearGroups [] c) k.

(** A unit that no alternative of the two patterns starts at. *)
Definition inertUnit (c : N) : Prop := c ∉ [DQUOTE; BACKSLASH; SLASH; COMMA].

(** A text in which no literal ends in an escaped backslash. *)
Definition noEscapedBackslashAtEnd (s : jsstring) : Prop :=
  ¬ hasInfix escapedBackslashAtEnd s.

(** *** The installer *)

(** The text that [JSON.stringify] gives for [config], with the newline
    that [writeConfig] adds, parses back to [config]. *)
Definition readsBack (stringify : value -> jsstring) (config : value) : Prop :=
  parse (stripJsonComments (stringify config ++ [10%N])) = Some config.

(** What the try block of [addPluginToOpenCodeConfig] makes of the parsed
    config: [None] is a TypeError. *)
Definition withPackage (config : value) : option value :=
  let config := nullish (Some config) (Obj []) in
  plugin ← getProp config (js "plugin");
  let plugins := nullish plugin (Arr []) in
  filteredPlugins ← ConfigManager.arrayFilter ConfigManager.isOtherPlugin plugins;
  filteredPlugins ← ConfigManager.arrayPush filteredPlugins (Str ConfigManager.PACKAGE_NAME);
  setProp config (js "plugin") filteredPlugins.

(** The config that [addPluginToOpenCodeConfig] is about to write. *)
Definition packageConfigToWrite (join : list jsstring -> jsstring) (env : Env) (fs : FS)
    : option value :=
  fs1 ← ConfigManager.ensureConfigDir join env fs;
  withPackage
    (ConfigManager.parseConfig fs1 (ConfigManager.getExistingConfigPath join env fs1)).

(** The config that a step that rewrites the user config is about to
    write. *)
Definition configToWrite (join : list jsstring -> jsstring) (env : Env)
    (edit : value -> option value) (fs : FS) : option value :=
  fs1 ← ConfigManager.ensureConfigDir join env fs;
  edit (nullish (Some (ConfigManager.parseConfig fs1
                         (ConfigManager.getExistingConfigPath join env fs)))
          (Obj [])).

(** The files of two file systems hold the same text. *)
Definition sameFiles (fs fs' : FS) : Prop :=
  ∀ path, readFileSync fs' path = readFileSync fs path.

Definition isObject (v : value) : Prop := ∃ members, v = Obj members.

(** *** The lite config *)

(** The agents that the lite config names, in the order of
    [MODEL_MAPPINGS]. *)
Definition ROLES : list jsstring :=
  [ js "orchestrator"; js "code-simplicity-reviewer"; js "oracle"; js "librarian";
    js "explore"; js "frontend-ui-ux-engineer"; js "document-writer";
    js "multimodal-looker" ].

(** The provider that serves a model, by the prefix of its name; the
    models of the Antigravity plugin are those of the google provider. *)
Definition providerOf (model : jsstring) : option LiteConfig.Provider :=
  if startsWith model (js "google/") then Some LiteConfig.antigravity
  else if startsWith model (js "openai/") then Some LiteConfig.openai
  else if startsWith model (js "cerebras/") then Some LiteConfig.cerebras
  else None.

Definition enabled (installConfig : LiteConfig.InstallConfig) (p : LiteConfig.Provider)
    : bool :=
  match p with
  | LiteConfig.antigravity => LiteConfig.hasAntigravity installConfig
  | LiteConfig.openai => LiteConfig.hasOpenAI installConfig
  | LiteConfig.cerebras => LiteConfig.hasCerebras installConfig
  end.

Definition fromEnabledProvider (installConfig : LiteConfig.InstallConfig)
    (model : jsstring) : bool :=
  match providerOf model with
  | Some p => enabled installConfig p
  | None => false
  end.

Definition anyProvider (installConfig : LiteConfig.InstallConfig) : bool :=
  LiteConfig.hasAntigravity installConfig || LiteConfig.hasOpenAI installConfig
  || LiteConfig.hasCerebras installConfig.

(** [{ enabled: true, layout: 'main-vertical', main_pane_size: 60 }] *)
Definition tmuxSettings : value :=
  Obj [ (js "enabled", Bool true);
        (js "layout", Str (js "main-vertical"));
        (js "main_pane_size", Number (js "60")) ].

(** The models that the agents of a lite config name, in their order. *)
Definition agentModels (config : value) : list jsstring :=
  match getProp config (js "agents") with
  | Some (Some (Obj agents)) =>
      omap (fun kv => match kv.2 with
                      | Obj [(_, Str model)] => Some model
                      | _ => None
                      end) agents
  | _ => []
  end.

(** *** More sample data *)

(** The part of a path before its last slash. *)
Fixpoint upToLastSlash (p : jsstring) : option jsstring :=
  match p with
  | [] => None
  | c :: p' =>
      match upToLastSlash p' with
      | Some d => Some (c :: d)
      | None => if N.eqb c SLASH then Some [] else None
      end
  end.

(** Stand-ins for [path.dirname] and [fileURLToPath] on POSIX paths that
    need no normalising and no decoding, for the examples. *)
Definition slashDirname (p : jsstring) : jsstring :=
  match upToLastSlash p with
  | None => js "."
  | Some [] => js "/"
  | Some d => d
  end.

Definition posixFileURLToPath (url : jsstring) : option jsstring :=
  if startsWith url (js "file://") then Some (drop 7 url) else None.

(** A user config with settings of the server and with agents. *)
Definition serverConfigured : FS :=
  mkFS {[ js "/home/u/.config/opencode" := Dir;
          userConfig := File (jsq "{
  `server`: { `port`: 8080, `hostname`: `localhost` },
  `agent`: { `build`: { `disable`: false } },
  `provider`: { `local`: { `name`: `Local` } },
  // the theme
  `theme`: `dark`,
}") ]} ∅.

(** A project config that names a local checkout, and the checkout. *)
Definition localCheckout : FS :=
  mkFS {[ samplePath :=
            File (jsq "{ `plugin`: [`a`, `file:///src/oh-my-opencode-slim/dist`] }");
          js "/src/oh-my-opencode-slim/dist" := Dir;
          js "/src/oh-my-opencode-slim/package.json" :=
            File (jsq "{ `name`: `oh-my-opencode-slim`, `version`: `0.3.1` }") ]} ∅.

(** The install choices of the examples. *)
Definition sampleChoices : LiteConfig.InstallConfig := LiteConfig.mkInstall true false true true.

(** The file systems that the steps of the installer leave, for the
    examples. *)
Definition afterAddPlugin : FS :=
  (ConfigManager.addPluginToOpenCodeConfig slashJoin compactJson posixEnv installedTwice).1.

Definition afterDisable : FS :=
  (Installer.disableDefaultAgents slashJoin compactJson posixEnv serverConfigured).1.

Definition afterServer : FS :=
  (Installer.addServerConfig slashJoin compactJson posixEnv sampleChoices serverConfigured).1.

Definition afterAuth : FS :=
  (Installer.addAuthPlugins slashJoin compactJson posixEnv sampleChoices (Some (js "1.2.0"))
     installedTwice).1.

Definition afterProvider : FS :=
  (Installer.addProviderConfig slashJoin compactJson posixEnv sampleChoices
     serverConfigured).1.

Definition afterLite : FS :=
  (Installer.writeLiteConfig slashJoin compactJson posixEnv sampleChoices installedTwice).1.


(** *** Sample data for the bytes *)

(** A config in UTF-8 with letters of two, three and four bytes around
    the plugin array. *)
Definition accentedBytes : list N :=
  js "{ /* caf" ++ [195; 169; 32; 240; 159; 152; 128]%N
  ++ jsq " */ `plugin`: [`pkg@1.0.0`], `sign`: `" ++ [226; 130; 172]%N ++ jsq "` }".

(** A config with a byte that is not UTF-8 in its comment. *)
Definition brokenBytes : list N :=
  js "{ /* " ++ [255%N] ++ jsq " */ `plugin`: [`pkg@1.0.0`] }".

Definition accentedAfterUpdate : FS :=
  (Disk.updatePinnedVersion (js "pkg") (singleFile samplePath accentedBytes) samplePath
     (js "pkg@1.0.0") (js "1.1.0")).1.

(** *** The value of a file *)

(** What the stripper and [JSON.parse] make of the file at [path]: [None]
    when there is no file, or when its text is not one that the parser
    takes. *)
Definition fileValue (fs : FS) (path : jsstring) : option value :=
  content ← readFileSync fs path;
  parse (stripJsonComments content).

(** *** Sample data for the search *)

(** A user on win32 whose user directory is the one under .config: the
    alternate directory is the application data directory. *)
Definition windowsEnv : Env :=
  mkEnv None (Some (js "C:/Users/u/AppData/Roaming")) (js "C:/Users/u") (js "win32").

Definition windowsUserConfig : jsstring := js "C:/Users/u/.config/opencode/opencode.json".
Definition windowsUserConfigJsonc : jsstring := js "C:/Users/u/.config/opencode/opencode.jsonc".
Definition windowsAlternateConfig : jsstring :=
  js "C:/Users/u/AppData/Roaming/opencode/opencode.json".
Definition windowsAlternateConfigJsonc : jsstring :=
  js "C:/Users/u/AppData/Roaming/opencode/opencode.jsonc".

(** A project config and a user config without the package, and the two
    files of the alternate directory with it. *)
Definition windowsConfigs : FS :=
  mkFS {[ samplePath := File (jsq "{ `plugin`: [`other`] } // none here");
          windowsUserConfig := File (jsq "{
  /* the user */
  `plugin`: [`x`, `oh-my-opencode-slimmer`,],
}");
          windowsAlternateConfig := File (jsq "{
  // pinned
  `plugin`: [`a`, `oh-my-opencode-slim@2.0.0`, 7],
}");
          windowsAlternateConfigJsonc := File (jsq "{ `plugin`: [`oh-my-opencode-slim`] }") ]} ∅.

(** A project config whose plugin array holds a number before the
    package, and a user config that pins the package. *)
Definition numberBeforePackage : FS :=
  mkFS {[ samplePath := File (jsq "{ `plugin`: [5, `oh-my-opencode-slim`] }");
          userConfig := File (jsq "{ `plugin`: [`oh-my-opencode-slim@1.0.0`] }") ]} ∅.

(** A project config in plain JSON in which a literal ends in an escaped
    backslash and a later literal holds two slashes, and a user config that
    pins the package. *)
Definition escapedBackslashConfig : jsstring :=
  jsq "{ `dir`: `C:\\`, `plugin`: [`oh-my-opencode-slim`], `url`: `https://example.com` }".

Definition misreadCandidate : FS :=
  mkFS {[ samplePath := File escapedBackslashConfig;
          userConfig := File (jsq "{ `plugin`: [`oh-my-opencode-slim@1.0.0`] }") ]} ∅.

(** *** Sample data for the installer *)

(** A user config that holds an array. *)
Definition arrayConfig : FS :=
  mkFS {[ js "/home/u/.config/opencode" := Dir;
          userConfig := File (jsq "[`x`]") ]} ∅.

(** The text of the user config of [serverConfigured] and its members. *)
Definition serverConfiguredText : jsstring :=
  default [] (readFileSync serverConfigured userConfig).

Definition serverConfiguredMembers : list (jsstring * value) :=
  [ (js "server", Obj [ (js "port", Number (js "8080"));
                        (js "hostname", Str (js "localhost")) ]);
    (js "agent", Obj [(js "build", Obj [(js "disable", Bool false)])]);
    (js "provider", Obj [(js "local", Obj [(js "name", Str (js "Local"))])]);
    (js "theme", Str (js "dark")) ].

(** A user config in .json that holds a number too small for a double,
    beside a user config in .jsonc. *)
Definition tinyNumberConfig : FS :=
  mkFS {[ userConfig := File (js "1e-400");
          userConfigJsonc := File (jsq "{ `theme`: `dark` } // the fallback") ]} ∅.

(** *** The scanner on JSON *)

(** Both passes of the scanner of the specification leave the units of
    [s] before [r] as they are, and go on at [r] outside a string. *)
Definition scanned (s r : jsstring) : Prop :=
  ∃ pre, s = pre ++ r
    ∧ Reference.dropComments Reference.Plain s
      = pre ++ Reference.dropComments Reference.Plain r
    ∧ Reference.dropTrailingCommas false s = pre ++ Reference.dropTrailingCommas false r.

(** Case analysis on every test of two code units in the goal. *)
Ltac case_eqb :=
  repeat match goal with
    | |- context [N.eqb ?a ?b] => destruct (N.eqb_spec a b); subst
    end.

(** ** Strings *)

Lemma startsWith_prefix s l : startsWith s l = true ↔ l `prefix_of` s.
Proof.
  revert s. induction l as [|a l IH]; intros s; cbn [startsWith].
  - split; [intros _; apply prefix_nil | done].
  - destruct s as [|b s]; [split; [done | by intros ?%prefix_nil_not] |].
    rewrite andb_true_iff, N.eqb_eq, IH. split.
    + intros [-> H]. by apply prefix_cons.
    + intros H. split; [by apply prefix_cons_inv_1 in H | by apply prefix_cons_inv_2 in H].
Qed.

Lemma includes_hasInfix s l : includes s l = true ↔ hasInfix l s.
Proof.
  induction s as [|x s IH]; cbn [includes]; rewrite orb_true_iff, startsWith_prefix.
  - split.
    + intros [[post ->] | ?]; [| done]. by exists [], post.
    + intros (pre & post & H). left. destruct pre; [| done]. by exists post.
  - rewrite IH. split.
    + intros [[post ->] | (pre & post & ->)]; [by exists [], post | by exists (x :: pre), post].
    + intros (pre & post & H). destruct pre as [|y pre].
      * left. by exists post.
      * right. exists pre, post. by simplify_eq/=.
Qed.

Lemma closesAfterWhiteSpace_spec s :
  closesAfterWhiteSpace s = true ↔
  ∃ ws c post, s = ws ++ c :: post ∧ allWhiteSpace ws ∧ (c = RBRACE ∨ c = RBRACKET).
Proof.
  induction s as [|x s IH]; cbn [closesAfterWhiteSpace].
  - split; [done |]. intros (ws & c & post & H & _). by destruct ws.
  - destruct (isWhiteSpace x) eqn:Hx.
    + rewrite IH. split.
      * intros (ws & c & post & -> & Hws & Hc). exists (x :: ws), c, post.
        split; [done |]. split; [by constructor | done].
      * intros (ws & c & post & H & Hws & Hc). destruct ws as [|y ws].
        -- simplify_eq/=. destruct Hc as [-> | ->]; by vm_compute in Hx.
        -- simplify_eq/=. exists ws, c, post. by inversion Hws.
    + rewrite orb_true_iff, !N.eqb_eq. split.
      * intros Hc. exists [], x, s. split_and!; [done | constructor | done].
      * intros (ws & c & post & H & Hws & Hc). destruct ws as [|y ws].
        -- by simplify_eq/=.
        -- simplify_eq/=. inversion Hws; congruence.
Qed.

Lemma trailingCommaIn_spec s : trailingCommaIn s = true ↔ hasTrailingComma s.
Proof.
  induction s as [|x s IH]; cbn [trailingCommaIn].
  - split; [done |]. intros (pre & ws & c & post & H & _). by destruct pre.
  - rewrite orb_true_iff, andb_true_iff, N.eqb_eq, closesAfterWhiteSpace_spec, IH. split.
    + intros [[-> (ws & c & post & -> & Hws & Hc)] | (pre & ws & c & post & -> & Hws & Hc)].
      * by exists [], ws, c, post.
      * by exists (x :: pre), ws, c, post.
    + intros (pre & ws & c & post & H & Hws & Hc). destruct pre as [|y pre].
      * left. simplify_eq/=. split; [done |]. by exists ws, c, post.
      * right. simplify_eq/=. by exists pre, ws, c, post.
Qed.

(** ** The matcher *)

Lemma orelse_Some {A} (o1 o2 : option A) (r : A) :
  match o1 with Some x => Some x | None => o2 end = Some r →
  o1 = Some r ∨ (o1 = None ∧ o2 = Some r).
Proof. destruct o1; naive_solver. Qed.

(** *** The fuel of the quantifier loop *)

Lemma advances_refl st : advances st st.
Proof. by split. Qed.

Lemma advances_trans st1 st2 st3 : advances st1 st2 → advances st2 st3 → advances st1 st3.
Proof. unfold advances. lia. Qed.

Lemma starLoop_cont_ext body g fuel :
  (∀ st c k1 k2,
     (∀ st' c', advances st st' → k1 st' c' = k2 st' c') → body st c k1 = body st c k2) →
  ∀ st c k1 k2,
    (∀ st' c', advances st st' → k1 st' c' = k2 st' c') →
    starLoop body g k1 fuel st c = starLoop body g k2 fuel st c.
Proof.
  intros Hbody. induction fuel as [|fuel IH]; intros st c k1 k2 Hk; cbn [starLoop].
  - apply Hk, advances_refl.
  - rewrite (Hk st c (advances_refl st)).
    rewrite (Hbody st c _ (fun st' c' =>
               if st'.1 =? st.1 then None else starLoop body g k2 fuel st' c')); [done |].
    intros st' c' Hst'. destruct (st'.1 =? st.1); [done |].
    apply IH. intros st'' c'' Hst''. apply Hk. by eapply advances_trans.
Qed.

(** The rest of the pattern is only ever run further on in the input. *)
Lemma m_cont_ext r st c k1 k2 :
  (∀ st' c', advances st st' → k1 st' c' = k2 st' c') → m r st c k1 = m r st c k2.
Proof.
  revert st c k1 k2. induction r as [| a | p | | | r1 IH1 r2 IH2 | r1 IH1 r2 IH2 | g r IH | n r IH];
    intros st c k1 k2 Hk; cbn [m].
  - apply Hk, advances_refl.
  - destruct st as [i [|x rest]]; cbn [fst snd]; [done |]. destruct (x =? a)%N; [| done].
    apply Hk. split; cbn [fst snd length]; lia.
  - destruct st as [i [|x rest]]; cbn [fst snd]; [done |]. destruct (p x); [| done].
    apply Hk. split; cbn [fst snd length]; lia.
  - destruct (st.1 =? 0); [| done]. apply Hk, advances_refl.
  - destruct st.2; [| done]. apply Hk, advances_refl.
  - apply IH1. intros st' c' Hst'. apply IH2. intros st'' c'' Hst''.
    apply Hk. by eapply advances_trans.
  - by rewrite (IH1 st c k1 k2 Hk), (IH2 st c k1 k2 Hk).
  - apply starLoop_cont_ext; [| done]. intros st0 c0 k3 k4 Hk34. by apply IH.
  - apply IH. intros st' c' Hst'. by rewrite Hk.
Qed.

(** Any fuel above the length of the input gives the same iterations. *)
Lemma starLoop_fuel r g k fuel1 fuel2 st c :
  length st.2 < fuel1 → length st.2 < fuel2 →
  starLoop (fun st' c' k' => m r st' (clearGroups (groupsOf r) c') k') g k fuel1 st c
  = starLoop (fun st' c' k' => m r st' (clearGroups (groupsOf r) c') k') g k fuel2 st c.
Proof.
  revert fuel2 st c. induction fuel1 as [|fuel1 IH]; intros fuel2 st c H1 H2; [lia |].
  destruct fuel2 as [|fuel2]; [lia |]. cbn [starLoop].
  rewrite (m_cont_ext r st (clearGroups (groupsOf r) c) _
             (fun st' c' =>
                if st'.1 =? st.1 then None
                else starLoop (fun st' c' k' => m r st' (clearGroups (groupsOf r) c') k')
                       g k fuel2 st' c')); [done |].
  intros st' c' [Hle Hsum]. destruct (Nat.eqb_spec st'.1 st.1); [done |].
  apply IH; lia.
Qed.

Lemma m_Star_fuel g r st c k fuel :
  length st.2 < fuel →
  m (Star g r) st c k
  = starLoop (fun st' c' k' => m r st' (clearGroups (groupsOf r) c') k') g k fuel st c.
Proof. intros Hfuel. cbn [m]. apply starLoop_fuel; lia. Qed.

(** *** Quantifiers over a class *)

Lemma starLoop_class_sound p g k fuel i s c res :
  starLoop (classBody p) g k fuel (i, s) c = Some res →
  ∃ n, n ≤ length s ∧ forallb p (take n s) = true ∧ k (i + n, drop n s) c = Some res.
Proof.
  revert i s. induction fuel as [|fuel IH]; intros i s H.
  - exists 0. rewrite Nat.add_0_r. simpl in *. split; [lia | done].
  - assert (Hiter :
      m (Class p) (i, s) c
        (fun st' c' => if st'.1 =? (i, s).1 then None
                       else starLoop (classBody p) g k fuel st' c') = Some res →
      ∃ n, n ≤ length s ∧ forallb p (take n s) = true ∧ k (i + n, drop n s) c = Some res).
    { cbn [m fst snd]. destruct s as [|x s]; [done |].
      destruct (p x) eqn:Hp; [| done].
      replace (S i =? i) with false by (symmetry; apply Nat.eqb_neq; lia).
      intros H'. apply IH in H' as (n & Hn & Hall & Hk).
      exists (S n). cbn [take drop forallb length]. rewrite Hp, Hall.
      replace (i + S n) with (S i + n) by lia. split; [lia | done]. }
    assert (Hexit : k (i, s) c = Some res →
      ∃ n, n ≤ length s ∧ forallb p (take n s) = true ∧ k (i + n, drop n s) c = Some res).
    { intros H'. exists 0. rewrite Nat.add_0_r. split; [lia | done]. }
    cbn [starLoop] in H. unfold classBody at 1 in H. cbn [clearGroups foldr] in H.
    destruct g; apply orelse_Some in H as [H | [_ H]]; auto.
Qed.

Lemma matchAt_None re i s :
  (∀ c k, m (pattern re) (i, s) c k = None) → matchAt re i s = None.
Proof. intros H. unfold matchAt. by rewrite H. Qed.

(** Nothing is replaced where the pattern matches at no index. *)
Lemma replaceAllFrom_miss re f subject s i :
  (∀ j, j ≤ length s → matchAt re (i + j) (drop j s) = None) →
  replaceAllFrom re f subject i 0 s = s.
Proof.
  revert i. induction s as [|x s IH]; intros i H; cbn [replaceAllFrom].
  - specialize (H 0 (le_n _)). rewrite Nat.add_0_r in H. cbn in H. by rewrite H.
  - pose proof (H 0 ltac:(lia)) as H0. rewrite Nat.add_0_r in H0. cbn [drop] in H0.
    rewrite H0. f_equal. apply IH. intros j Hj.
    specialize (H (S j) ltac:(cbn; lia)). cbn [drop] in H.
    by replace (S i + j) with (i + S j) by lia.
Qed.

Lemma searchFrom_None re i s :
  searchFrom re i s = None ↔ ∀ j, j ≤ length s → matchAt re (i + j) (drop j s) = None.
Proof.
  revert i. induction s as [|x s IH]; intros i; cbn [searchFrom length].
  - split.
    + intros H j Hj. replace j with 0 by lia. rewrite Nat.add_0_r. cbn [drop].
      by destruct (matchAt re i []).
    + intros H. specialize (H 0 (le_n _)). rewrite Nat.add_0_r in H. cbn [drop] in H.
      by rewrite H.
  - split.
    + intros H j Hj. destruct (matchAt re i (x :: s)) eqn:E; [done |].
      destruct j as [|j]; [by rewrite Nat.add_0_r |].
      cbn [drop]. replace (i + S j) with (S i + j) by lia. apply IH; [done | lia].
    + intros H. pose proof (H 0 ltac:(lia)) as H0. rewrite Nat.add_0_r in H0.
      cbn [drop] in H0. rewrite H0. apply IH. intros j Hj.
      specialize (H (S j) ltac:(lia)). cbn [drop] in H.
      by replace (S i + j) with (i + S j) by lia.
Qed.

Lemma searchFrom_Some re i s r :
  searchFrom re i s = Some r ↔
  ∃ j, j ≤ length s ∧ matchAt re (i + j) (drop j s) = Some r
       ∧ ∀ j', j' < j → matchAt re (i + j') (drop j' s) = None.
Proof.
  revert i. induction s as [|x s IH]; intros i; cbn [searchFrom length].
  - split.
    + intros H. exists 0. rewrite Nat.add_0_r. cbn [drop].
      destruct (matchAt re i []); [| done]. split_and!; [done | done | lia].
    + intros (j & Hj & Hm & _). replace j with 0 in Hm by lia.
      rewrite Nat.add_0_r in Hm. cbn [drop] in Hm. by rewrite Hm.
  - split.
    + intros H. destruct (matchAt re i (x :: s)) eqn:E.
      * exists 0. rewrite Nat.add_0_r. cbn [drop]. split_and!; [lia | congruence | lia].
      * apply IH in H as (j & Hj & Hm & Hbefore). exists (S j). cbn [drop].
        replace (i + S j) with (S i + j) by lia. split_and!; [lia | done |].
        intros [|j'] Hj'; [by rewrite Nat.add_0_r |].
        cbn [drop]. replace (i + S j') with (S i + j') by lia. apply Hbefore. lia.
    + intros (j & Hj & Hm & Hbefore). destruct j as [|j].
      * rewrite Nat.add_0_r in Hm. cbn [drop] in Hm. by rewrite Hm.
      * pose proof (Hbefore 0 ltac:(lia)) as H0. rewrite Nat.add_0_r in H0.
        cbn [drop] in H0. rewrite H0. apply IH. exists j. cbn [drop] in Hm.
        replace (S i + j) with (i + S j) by lia. split_and!; [lia | done |].
        intros j' Hj'. specialize (Hbefore (S j') ltac:(lia)). cbn [drop] in Hbefore.
        by replace (S i + j') with (i + S j') by lia.
Qed.

(** A greedy quantifier over a class takes all of a run that the class
    does not continue, when the rest of the pattern matches after it. *)
Lemma starLoop_class_greedy p k fuel i ws rest c res :
  length ws ≤ fuel →
  forallb p ws = true →
  match rest with x :: _ => p x = false | [] => True end →
  k (i + length ws, rest) c = Some res →
  starLoop (classBody p) true k fuel (i, ws ++ rest) c = Some res.
Proof.
  revert fuel i. induction ws as [|x ws IH]; intros fuel i Hfuel Hall Hrest Hk.
  - cbn [length app] in *. rewrite Nat.add_0_r in Hk.
    destruct fuel as [|fuel]; [done |]. cbn [starLoop]. unfold classBody at 1.
    cbn [m fst snd clearGroups foldr]. destruct rest as [|y rest]; [by rewrite Hk |]. by rewrite Hrest, Hk.
  - cbn [forallb] in Hall. apply andb_true_iff in Hall as [Hx Hall].
    cbn [length] in Hk, Hfuel.
    replace (i + S (length ws)) with (S i + length ws) in Hk by lia.
    destruct fuel as [|fuel]; [lia |].
    cbn [starLoop app]. unfold classBody at 1. cbn [m fst snd clearGroups foldr]. rewrite Hx.
    replace (S i =? i) with false by (symmetry; apply Nat.eqb_neq; lia).
    rewrite (IH fuel (S i)); [done | lia | done | done | done].
Qed.

Lemma m_Seq r1 r2 st c k :
  m (Seq r1 r2) st c k = m r1 st c (fun st' c' => m r2 st' c' k).
Proof. reflexivity. Qed.

Lemma m_Char a i s c k :
  m (Char a) (i, s) c k =
  match s with
  | x :: rest => if (x =? a)%N then k (S i, rest) c else None
  | [] => None
  end.
Proof. reflexivity. Qed.

Lemma m_Star_class g p st c k :
  m (Star g (Class p)) st c k = starLoop (classBody p) g k (S (length st.2)) st c.
Proof. reflexivity. Qed.

(** ** The fuel of the JSON parser *)

Lemma skipWs_length s : length (skipWs s) ≤ length s.
Proof.
  induction s as [|c s IH]; cbn [skipWs length]; [done |].
  destruct (isWs c); cbn [length]; lia.
Qed.

Lemma parseChars_consumes s str r : parseChars s = Some (str, r) → length r < length s.
Proof.
  assert (∀ n s str r, length s ≤ n → parseChars s = Some (str, r) → length r < length s)
    as Hn; [| by apply (Hn (length s))].
  clear. induction n as [|n IH]; intros s str r Hlen.
  { destruct s; [done | cbn [length] in Hlen; lia]. }
  destruct s as [|c s1]; [done |]. cbn [length] in Hlen.
  cbn [parseChars]. destruct (c =? DQUOTE)%N.
  { intros [= <- <-]. cbn [length]. lia. }
  destruct (c =? BACKSLASH)%N.
  - destruct s1 as [|e s2]; [done |]. destruct (e =? 117)%N.
    + destruct s2 as [|h1 [|h2 [|h3 [|h4 s3]]]]; try done.
      destruct (hex4 h1 h2 h3 h4); [| done]. cbn [mbind option_bind].
      destruct (parseChars s3) as [[str' r'] |] eqn:E; [| done].
      intros [= <- <-]. apply IH in E; cbn [length] in *; lia.
    + destruct (unescape e); [| done]. cbn [mbind option_bind].
      destruct (parseChars s2) as [[str' r'] |] eqn:E; [| done].
      intros [= <- <-]. apply IH in E; cbn [length] in *; lia.
  - destruct (c <? 32)%N; [done |].
    destruct (parseChars s1) as [[str' r'] |] eqn:E; [| done].
    cbn [mbind option_bind]. intros [= <- <-]. apply IH in E; cbn [length] in *; lia.
Qed.

Lemma spanDigits_length s : length (spanDigits s).2 ≤ length s.
Proof.
  induction s as [|c s IH]; cbn [spanDigits]; [done |].
  destruct (isDigit c); [| done]. destruct (spanDigits s). cbn [snd length] in *. lia.
Qed.

Lemma parseNumber_consumes s lexeme r :
  parseNumber s = Some (lexeme, r) → length r < length s.
Proof.
  unfold parseNumber.
  assert (∀ t, length (spanDigits t).2 ≤ length t) as Hspan by apply spanDigits_length.
  intros H.
  repeat (case_match; simplify_eq/=; try lia);
    repeat match goal with
      | H : spanDigits ?t = _ |- _ =>
          let Hl := fresh in pose proof (Hspan t) as Hl; rewrite H in Hl; clear H; cbn in Hl
      end; try lia.
Qed.

Lemma skipWs_cons s c rest : skipWs s = c :: rest → length rest < length s.
Proof. intros H. pose proof (skipWs_length s) as Hl. rewrite H in Hl. cbn [length] in Hl. lia. Qed.

(** Every successful parse consumes a character. *)
Lemma parse_consumes fuel :
  (∀ s v r, parseValue fuel s = Some (v, r) → length r < length s)
  ∧ (∀ s vs r, parseElements fuel s = Some (vs, r) → length r < length s)
  ∧ (∀ s ms r, parseMembers fuel s = Some (ms, r) → length r < length s).
Proof.
  induction fuel as [|fuel (IHv & IHe & IHm)]; [done |]. split_and!.
  - intros s v r. cbn [parseValue].
    destruct (skipWs s) as [|c rest] eqn:Hs; [done |]. apply skipWs_cons in Hs.
    destruct (c =? LBRACE)%N.
    { destruct (skipWs rest) as [|d rest'] eqn:Hr; [done |]. apply skipWs_cons in Hr.
      destruct (d =? RBRACE)%N; [intros [= <- <-]; lia |].
      destruct (parseMembers fuel rest) as [[ms r'] |] eqn:E; [| done].
      cbn [mbind option_bind]. intros [= <- <-]. apply IHm in E. lia. }
    destruct (c =? LBRACKET)%N.
    { destruct (skipWs rest) as [|d rest'] eqn:Hr; [done |]. apply skipWs_cons in Hr.
      destruct (d =? RBRACKET)%N; [intros [= <- <-]; lia |].
      destruct (parseElements fuel rest) as [[vs r'] |] eqn:E; [| done].
      cbn [mbind option_bind]. intros [= <- <-]. apply IHe in E. lia. }
    destruct (c =? DQUOTE)%N.
    { destruct (parseChars rest) as [[str r'] |] eqn:E; [| done].
      cbn [mbind option_bind]. intros [= <- <-]. apply parseChars_consumes in E. lia. }
    destruct (startsWith (c :: rest) (js "true")).
    { intros [= <- <-]. rewrite length_drop. cbn [length]. lia. }
    destruct (startsWith (c :: rest) (js "false")).
    { intros [= <- <-]. rewrite length_drop. cbn [length]. lia. }
    destruct (startsWith (c :: rest) (js "null")).
    { intros [= <- <-]. rewrite length_drop. cbn [length]. lia. }
    destruct (parseNumber (c :: rest)) as [[lexeme r'] |] eqn:E; [| done].
    cbn [mbind option_bind]. intros [= <- <-]. apply parseNumber_consumes in E.
    cbn [length] in E. lia.
  - intros s vs r. cbn [parseElements].
    destruct (parseValue fuel s) as [[v r1] |] eqn:E; [| done]. apply IHv in E.
    cbn [mbind option_bind].
    destruct (skipWs r1) as [|c r2] eqn:Hs; [done |]. apply skipWs_cons in Hs.
    destruct (c =? COMMA)%N.
    { destruct (parseElements fuel r2) as [[vs' r3] |] eqn:E'; [| done].
      cbn [mbind option_bind]. intros [= <- <-]. apply IHe in E'. lia. }
    destruct (c =? RBRACKET)%N; [| done]. intros [= <- <-]. lia.
  - intros s ms r. cbn [parseMembers].
    destruct (skipWs s) as [|q r0] eqn:Hs; [done |]. apply skipWs_cons in Hs.
    destruct (q =? DQUOTE)%N; [| done].
    destruct (parseChars r0) as [[key r1] |] eqn:E; [| done]. apply parseChars_consumes in E.
    cbn [mbind option_bind].
    destruct (skipWs r1) as [|c r2] eqn:Hs1; [done |]. apply skipWs_cons in Hs1.
    destruct (c =? COLON)%N; [| done].
    destruct (parseValue fuel r2) as [[v r3] |] eqn:Ev; [| done]. apply IHv in Ev.
    cbn [mbind option_bind].
    destruct (skipWs r3) as [|d r4] eqn:Hs3; [done |]. apply skipWs_cons in Hs3.
    destruct (d =? COMMA)%N.
    { destruct (parseMembers fuel r4) as [[ms' r5] |] eqn:Em; [| done].
      cbn [mbind option_bind]. intros [= <- <-]. apply IHm in Em. lia. }
    destruct (d =? RBRACE)%N; [| done]. intros [= <- <-]. lia.
Qed.

(** Beyond twice the length of the text, more fuel changes nothing. *)
Lemma parse_fuel fuel1 :
  ∀ fuel2 s,
    (2 * length s + 1 ≤ fuel1 → 2 * length s + 1 ≤ fuel2 →
     parseValue fuel1 s = parseValue fuel2 s)
    ∧ (2 * length s + 2 ≤ fuel1 → 2 * length s + 2 ≤ fuel2 →
       parseElements fuel1 s = parseElements fuel2 s)
    ∧ (2 * length s + 2 ≤ fuel1 → 2 * length s + 2 ≤ fuel2 →
       parseMembers fuel1 s = parseMembers fuel2 s).
Proof.
  induction fuel1 as [|fuel1 IH]; intros fuel2 s; [split_and!; lia |].
  destruct fuel2 as [|fuel2]; [split_and!; lia |].
  split_and!; intros H1 H2.
  - cbn [parseValue].
    destruct (skipWs s) as [|c rest] eqn:Hs; [done |]. apply skipWs_cons in Hs.
    destruct (IH fuel2 rest) as (_ & IHe & IHm).
    rewrite IHe, IHm by lia. done.
  - cbn [parseElements].
    destruct (IH fuel2 s) as (IHv & _ & _). rewrite IHv by lia.
    destruct (parseValue fuel2 s) as [[v r1] |] eqn:E; [| done].
    apply (proj1 (parse_consumes fuel2)) in E. cbn [mbind option_bind].
    destruct (skipWs r1) as [|c r2] eqn:Hs; [done |]. apply skipWs_cons in Hs.
    destruct (IH fuel2 r2) as (_ & IHe & _). rewrite IHe by lia. done.
  - cbn [parseMembers].
    destruct (skipWs s) as [|q r0] eqn:Hs; [done |]. apply skipWs_cons in Hs.
    destruct (q =? DQUOTE)%N; [| done].
    destruct (parseChars r0) as [[key r1] |] eqn:E; [| done]. apply parseChars_consumes in E.
    cbn [mbind option_bind].
    destruct (skipWs r1) as [|c r2] eqn:Hs1; [done |]. apply skipWs_cons in Hs1.
    destruct (c =? COLON)%N; [| done].
    destruct (IH fuel2 r2) as (IHv & _ & _). rewrite IHv by lia.
    destruct (parseValue fuel2 r2) as [[v r3] |] eqn:Ev; [| done].
    apply (proj1 (parse_consumes fuel2)) in Ev. cbn [mbind option_bind].
    destruct (skipWs r3) as [|d r4] eqn:Hs3; [done |]. apply skipWs_cons in Hs3.
    destruct (IH fuel2 r4) as (_ & _ & IHm). rewrite IHm by lia. done.
Qed.

(** [parse] does not depend on the fuel it picks. *)
Lemma parse_any_fuel text fuel :
  2 * length text + 1 ≤ fuel →
  parse text =
  '(v, rest) ← parseValue fuel text;
  match skipWs rest with
  | [] => Some v
  | _ :: _ => None
  end.
Proof.
  intros Hfuel. unfold parse.
  by rewrite (proj1 (parse_fuel (2 * length text + 2) fuel text)) by lia.
Qed.

(** ** The comment stripper *)

Lemma hasInfix_drop l s j : l `prefix_of` drop j s → hasInfix l s.
Proof.
  intros [post Hpost]. exists (take j s), post.
  by rewrite <- Hpost, take_drop.
Qed.

Lemma m_Alt_None r1 r2 st c k :
  m r1 st c k = None → m r2 st c k = None → m (Alt r1 r2) st c k = None.
Proof. intros H1 H2. cbn [m]. by rewrite H1. Qed.

Lemma escapedQuote_miss i s c k : DQUOTE ∉ s → m escapedQuote (i, s) c k = None.
Proof.
  intros Hq. cbn [m escapedQuote fst snd].
  destruct s as [|a [|b s]]; [done | by case_eqb |].
  assert (b ≠ DQUOTE) by (intros ->; apply Hq; right; left).
  by case_eqb.
Qed.

Lemma quotedString_miss i s c k : DQUOTE ∉ s → m quotedString (i, s) c k = None.
Proof.
  intros Hq. cbn [m quotedString fst snd].
  destruct s as [|a s]; [done |].
  assert (a ≠ DQUOTE) by (intros ->; apply Hq; left).
  by case_eqb.
Qed.

Lemma commentPattern_miss i s c k :
  DQUOTE ∉ s →
  ¬ [SLASH; SLASH] `prefix_of` s →
  ¬ [SLASH; ASTERISK] `prefix_of` s →
  m (pattern commentPattern) (i, s) c k = None.
Proof.
  intros Hq Hline Hblock. cbn [pattern commentPattern].
  apply m_Alt_None; [by apply escapedQuote_miss |].
  apply m_Alt_None; [by apply quotedString_miss |].
  cbn [m fst snd].
  destruct s as [|a [|b s]]; [done | by case_eqb |].
  assert (¬ (a = SLASH ∧ b = SLASH)).
  { intros [-> ->]. apply Hline. by exists s. }
  assert (¬ (a = SLASH ∧ b = ASTERISK)).
  { intros [-> ->]. apply Hblock. by exists s. }
  case_eqb; try done; naive_solver.
Qed.

Lemma trailingCommaPattern_miss i s c k :
  DQUOTE ∉ s →
  (∀ ws x post, s = COMMA :: ws ++ x :: post → allWhiteSpace ws →
                ¬ (x = RBRACE ∨ x = RBRACKET)) →
  m (pattern trailingCommaPattern) (i, s) c k = None.
Proof.
  intros Hq Hcomma. cbn [pattern trailingCommaPattern].
  apply m_Alt_None; [by apply escapedQuote_miss |].
  apply m_Alt_None; [by apply quotedString_miss |].
  cbn [m fst snd groupsOf].
  destruct s as [|a s]; [done |].
  destruct (N.eqb_spec a COMMA) as [-> |]; [| done].
  match goal with |- ?o = None => destruct o eqn:E end; [| done].
  exfalso. apply starLoop_class_sound in E as (n & Hn & Hall & Hk).
  cbn [fst snd] in Hk.
  destruct (drop n s) as [|x post] eqn:Hd; [done |].
  destruct (anyOf [RBRACE; RBRACKET] x) eqn:Hx; [| done].
  apply (Hcomma (take n s) x post).
  - by rewrite <- Hd, take_drop.
  - apply Forall_forall. intros y Hy. rewrite forallb_forall in Hall.
    apply Hall. by apply list_elem_of_In.
  - unfold anyOf in Hx. cbn [existsb] in Hx. revert Hx. case_eqb; auto. done.
Qed.

Lemma replace_commentPattern_plain s :
  DQUOTE ∉ s → ¬ hasInfix [SLASH; SLASH] s → ¬ hasInfix [SLASH; ASTERISK] s →
  replace s commentPattern dropComment = s.
Proof.
  intros Hq Hline Hblock. unfold replace. cbn [global commentPattern].
  apply replaceAllFrom_miss. intros j _. apply matchAt_None. intros c k.
  apply commentPattern_miss.
  - intros Hin. apply Hq. by eapply subseteq_drop.
  - intros Hp. apply Hline. by eapply hasInfix_drop.
  - intros Hp. apply Hblock. by eapply hasInfix_drop.
Qed.

Lemma replace_trailingCommaPattern_plain s :
  DQUOTE ∉ s → ¬ hasTrailingComma s →
  replace s trailingCommaPattern dropComma = s.
Proof.
  intros Hq Hcomma. unfold replace. cbn [global trailingCommaPattern].
  apply replaceAllFrom_miss. intros j _. apply matchAt_None. intros c k.
  apply trailingCommaPattern_miss.
  - intros Hin. apply Hq. by eapply subseteq_drop.
  - intros ws x post Hs Hws Hx. apply Hcomma.
    exists (take j s), ws, x, post. by rewrite <- Hs, take_drop.
Qed.

Lemma whiteSpace_plain s :
  allWhiteSpace s →
  (DQUOTE ∉ s) ∧ ¬ hasInfix [SLASH; SLASH] s ∧ ¬ hasInfix [SLASH; ASTERISK] s
  ∧ ¬ hasTrailingComma s.
Proof.
  intros Hws.
  assert (Hno : ∀ x, x ∈ s → isWhiteSpace x = true) by (by apply Forall_forall).
  split_and!.
  - intros Hin. by apply Hno in Hin.
  - intros (pre & post & ->). specialize (Hno SLASH). rewrite !elem_of_app in Hno.
    discriminate Hno. right. left. left.
  - intros (pre & post & ->). specialize (Hno SLASH). rewrite !elem_of_app in Hno.
    discriminate Hno. right. left. left.
  - intros (pre & ws & c & post & -> & _). specialize (Hno COMMA).
    rewrite !elem_of_app in Hno. discriminate Hno. right. left.
Qed.

(** C9: a text without a double quote, without the two comment openers
    and without a comma that only white space separates from a closing brace
    or bracket is returned as it is; so are the empty text and every text of
    white space only.  [stripJsonComments] is a total function, so it returns
    on every text, and on the text with the unterminated literal it returns
    that text. *)
Theorem stripJsonComments_plain_text_unchanged :
  (∀ s : jsstring,
     DQUOTE ∉ s → ¬ hasInfix [SLASH; SLASH] s → ¬ hasInfix [SLASH; ASTERISK] s →
     ¬ hasTrailingComma s → stripJsonComments s = s)
  ∧ stripJsonComments [] = []
  ∧ (∀ s : jsstring, allWhiteSpace s → stripJsonComments s = s)
  ∧ (∀ s : jsstring, ∃ out : jsstring, stripJsonComments s = out)
  ∧ stripJsonComments (jsq "{`key`: `unclosed") = jsq "{`key`: `unclosed".
Proof.
  assert (Hmain : ∀ s : jsstring,
     DQUOTE ∉ s → ¬ hasInfix [SLASH; SLASH] s → ¬ hasInfix [SLASH; ASTERISK] s →
     ¬ hasTrailingComma s → stripJsonComments s = s).
  { intros s Hq Hline Hblock Hcomma. unfold stripJsonComments.
    rewrite replace_commentPattern_plain by done.
    by apply replace_trailingCommaPattern_plain. }
  split_and!.
  - exact Hmain.
  - reflexivity.
  - intros s (? & ? & ? & ?)%whiteSpace_plain. by apply Hmain.
  - intros s. by eexists.
  - by vm_compute.
Qed.

Lemma stripJsonComments_plain_text_unchanged_witness :
  stripJsonComments (js "[1, 2 , {a: / *}]") = js "[1, 2 , {a: / *}]".
Proof.
  apply (proj1 stripJsonComments_plain_text_unchanged).
  - apply (bool_decide_unpack _). by vm_compute.
  - rewrite <- includes_hasInfix. by vm_compute.
  - rewrite <- includes_hasInfix. by vm_compute.
  - rewrite <- trailingCommaIn_spec. by vm_compute.
Defined.

(** The cases of the test suite of the repository, run on the model. *)
Lemma stripJsonComments_test_suite :
  stripJsonComments (jsq "{`key`: `value`}") = jsq "{`key`: `value`}"
  ∧ parse (stripJsonComments (jsq "{
  `key`: `value` // this is a comment
}")) = Some (Obj [(js "key", Str (js "value"))])
  ∧ parse (stripJsonComments (jsq "{
  /* this is a
     multi-line comment */
  `key`: `value`
}")) = Some (Obj [(js "key", Str (js "value"))])
  ∧ parse (stripJsonComments (jsq "{
  `arr`: [1, 2, 3,]
}")) = Some (Obj [(js "arr", Arr [Number (js "1"); Number (js "2"); Number (js "3")])])
  ∧ parse (stripJsonComments (jsq "{`url`: `https://example.com`}"))
    = Some (Obj [(js "url", Str (js "https://example.com"))])
  ∧ parse (stripJsonComments (jsq "{`code`: `// not a comment`, `block`: `/* also not */`}"))
    = Some (Obj [(js "code", Str (js "// not a comment"));
                 (js "block", Str (js "/* also not */"))])
  ∧ parse (stripJsonComments (jsq "{`message`: `He said \`hello\``}"))
    = Some (Obj [(js "message", Str (jsq "He said `hello`"))])
  ∧ parse (stripJsonComments (jsq "{`nested`: {`a`: 1,},}"))
    = Some (Obj [(js "nested", Obj [(js "a", Number (js "1"))])])
  ∧ parse (stripJsonComments (jsq "{`script`: `test [,]`, `json`: `{,}`}"))
    = Some (Obj [(js "script", Str (js "test [,]")); (js "json", Str (js "{,}"))])
  ∧ parse (stripJsonComments
             (jsq "{" ++ [13; 10]%N ++ jsq "  `key`: `value`, // comment" ++ [13; 10]%N
              ++ jsq "}"))
    = Some (Obj [(js "key", Str (js "value"))])
  ∧ parse (stripJsonComments (jsq "{
  // Configuration for the plugin
  `plugin`: [`oh-my-opencode-slim`],
  /* Provider settings
     with multiple lines */
  `provider`: {
    `google`: {
      `name`: `Google`, // inline comment
    },
  },
}"))
    = Some (Obj [(js "plugin", Arr [Str (js "oh-my-opencode-slim")]);
                 (js "provider",
                  Obj [(js "google", Obj [(js "name", Str (js "Google"))])])]).
Proof. split_and!; by vm_compute. Qed.

(** C1: the stripper does not keep every string literal.  A literal that
    ends in an escaped backslash is read on into the next literal: on valid
    JSON the text of a later literal is then taken for a comment, and the
    result is not JSON any more, or is JSON with another value. *)
Theorem stripJsonComments_escaped_backslash :
  parse (jsq "[`\\`, `//`]") = Some (Arr [Str [BACKSLASH]; Str [SLASH; SLASH]])
  ∧ stripJsonComments (jsq "[`\\`, `//`]") = jsq "[`\\`, `"
  ∧ parse (stripJsonComments (jsq "[`\\`, `//`]")) = None
  ∧ parse (jsq "{`dir`: `C:\\tmp\\`, `url`: `https://example.com`}")
    = Some (Obj [(js "dir", Str (js "C:\tmp\")); (js "url", Str (js "https://example.com"))])
  ∧ stripJsonComments (jsq "{`dir`: `C:\\tmp\\`, `url`: `https://example.com`}")
    = jsq "{`dir`: `C:\\tmp\\`, `url`: `https:"
  ∧ parse (stripJsonComments (jsq "{`dir`: `C:\\tmp\\`, `url`: `https://example.com`}")) = None
  ∧ parse (jsq "[`\\`, `/*`, `*/`]")
    = Some (Arr [Str [BACKSLASH]; Str [SLASH; ASTERISK]; Str [ASTERISK; SLASH]])
  ∧ parse (stripJsonComments (jsq "[`\\`, `/*`, `*/`]"))
    = Some (Arr [Str [BACKSLASH]; Str []]).
Proof. split_and!; by vm_compute. Qed.

(** ** The channel classifier *)

Lemma m_litThen l r i s c k :
  m (litThen l r) (i, s) c k =
  if startsWith s l then m r (i + length l, drop (length l) s) c k else None.
Proof.
  revert i s. induction l as [|a l IH]; intros i s; cbn [litThen foldr startsWith length drop].
  - by rewrite Nat.add_0_r.
  - cbn [m fst snd]. destruct s as [|b s]; [done |].
    rewrite (N.eqb_sym a b). destruct (b =? a)%N; [| done].
    cbn [andb drop]. fold (litThen l r). rewrite IH.
    by replace (S i + length l) with (i + S (length l)) by lia.
Qed.

(** A pattern that starts with [^] matches at index 0 only. *)
Lemma searchFrom_Bol r n g i s : i ≠ 0 → searchFrom (mk (Seq Bol r) n g) i s = None.
Proof.
  revert i. induction s as [|x s IH]; intros i Hi; cbn [searchFrom];
    unfold matchAt; cbn [pattern m fst];
    (replace (i =? 0) with false by (symmetry; by apply Nat.eqb_neq)).
  - done.
  - by apply IH.
Qed.

Lemma test_leadingDigit v :
  test leadingDigit v = match v with d :: _ => isDigit d | [] => false end.
Proof.
  unfold test, exec, leadingDigit. destruct v as [|d v]; [done |].
  cbn [searchFrom]. unfold matchAt. cbn [pattern m fst snd Nat.eqb].
  destruct (isDigit d); [done |]. by rewrite searchFrom_Bol.
Qed.

Lemma isDistTag_spec v : isDistTag v = true ↔ ¬ beginsWithDigit v.
Proof.
  unfold isDistTag. rewrite test_leadingDigit, negb_true_iff. split.
  - intros H (d & rest & -> & Hd). congruence.
  - intros H. destruct v as [|d v]; [done |].
    destruct (isDigit d) eqn:Hd; [| done]. destruct H. by exists d, v.
Qed.

Lemma exec_channelPrefix_miss seg :
  (∀ ch, ch ∈ KNOWN_CHANNELS → ¬ ch `prefix_of` seg) → exec channelPrefix seg = None.
Proof.
  intros Hno.
  assert (Hsw : ∀ ch, ch ∈ KNOWN_CHANNELS → startsWith seg ch = false).
  { intros ch Hch. destruct (startsWith seg ch) eqn:E; [| done].
    apply startsWith_prefix in E. by apply Hno in E. }
  unfold exec, channelPrefix.
  assert (H0 : matchAt (mk (Seq Bol
        (Group 0
           (Alt (lit (js "alpha"))
              (Alt (lit (js "beta"))
                 (Alt (lit (js "rc"))
                    (Alt (lit (js "canary")) (lit (js "next")))))))) 1 false) 0 seg = None).
  { unfold matchAt, lit. cbn [pattern m fst snd Nat.eqb]. rewrite !m_litThen.
    rewrite !Hsw; [done | | | | |]; unfold KNOWN_CHANNELS; set_solver. }
  destruct seg as [|x seg]; cbn [searchFrom]; rewrite H0; [done |].
  by apply searchFrom_Bol.
Qed.

Lemma exec_channelPrefix_hit seg ch :
  ch ∈ KNOWN_CHANNELS → ch `prefix_of` seg →
  ∃ r, exec channelPrefix seg = Some r ∧ group r 0 = Some ch.
Proof.
  unfold KNOWN_CHANNELS. rewrite !elem_of_cons, elem_of_nil.
  intros [-> | [-> | [-> | [-> | [-> | []]]]]] [t ->];
    eexists; (split; [by vm_compute | by vm_compute]).
Qed.

Lemma split1_app c a R : c ∉ a → split1 c (a ++ c :: R) = a :: split1 c R.
Proof.
  induction a as [|x a IH]; intros Hc; cbn [app split1].
  - by rewrite N.eqb_refl.
  - apply not_elem_of_cons in Hc as [Hx Hc].
    destruct (N.eqb_spec x c) as [-> |]; [done |]. by rewrite IH.
Qed.

(** The first piece of a split is the part before the first separator. *)
Lemma split1_head c R :
  ∃ seg segs, split1 c R = seg :: segs ∧ (c ∉ seg) ∧ (R = seg ∨ ∃ R1, R = seg ++ c :: R1).
Proof.
  induction R as [|x R (seg & segs & IH & Hc & Hshape)]; cbn [split1].
  - exists [], []. split_and!; [done | apply not_elem_of_nil | by left].
  - destruct (N.eqb_spec x c) as [-> |].
    + exists [], (split1 c R). split_and!; [done | apply not_elem_of_nil |].
      right. by exists R.
    + rewrite IH. exists (x :: seg), segs. split_and!; [done | |].
      * by apply not_elem_of_cons.
      * destruct Hshape as [-> | [R1 ->]]; [by left | right; by exists R1].
Qed.

Lemma prefix_before_separator (c : N) (ch seg R1 : jsstring) :
  c ∉ ch → ch `prefix_of` seg ++ c :: R1 → ch `prefix_of` seg.
Proof.
  intros Hc Hp.
  destruct (prefix_weak_total ch seg (seg ++ c :: R1) Hp (prefix_app_r seg seg _ (reflexivity _)))
    as [? | [t ->]]; [done |].
  apply prefix_app_inv in Hp. destruct t as [|y t]; [by rewrite app_nil_r |].
  apply prefix_cons_inv_1 in Hp as ->. destruct Hc. set_solver.
Qed.

Lemma isPrereleaseVersion_spec v : isPrereleaseVersion v = true ↔ HYPHEN ∈ v.
Proof.
  unfold isPrereleaseVersion. rewrite includes_hasInfix. split.
  - intros (pre & post & ->). set_solver.
  - intros (pre & post & ->)%list_elem_of_split. by exists pre, post.
Qed.

Lemma digit_token_classified v :
  beginsWithDigit v →
  extractChannel (Some v) =
  default (js "latest")
    (if isPrereleaseVersion v then
       prereleasePart ← split1 HYPHEN v !! 1;
       if JS.truthy prereleasePart then
         channelMatch ← exec channelPrefix prereleasePart; group channelMatch 0
       else None
     else None).
Proof.
  intros Hd. unfold extractChannel.
  assert (JS.truthy v = true) as -> by (by destruct Hd as (d & rest & -> & _)).
  assert (isDistTag v = false) as ->; [| done].
  destruct (isDistTag v) eqn:E; [| done]. by apply isDistTag_spec in E.
Qed.

(** C6: the rules of the classifier, in their order.  A missing token is
    null or the empty string (the two values the first test of the source
    rejects); the part after the first hyphen is [R] in [v = a ++ HYPHEN :: R]
    with no hyphen in [a]. *)
Theorem extractChannel_rules :
  extractChannel None = js "latest"
  ∧ extractChannel (Some []) = js "latest"
  ∧ (∀ v : jsstring, v ≠ [] → ¬ beginsWithDigit v → extractChannel (Some v) = v)
  ∧ (∀ v a R ch : jsstring,
       beginsWithDigit v → v = a ++ HYPHEN :: R → HYPHEN ∉ a →
       ch ∈ KNOWN_CHANNELS → ch `prefix_of` R → extractChannel (Some v) = ch)
  ∧ (∀ v a R : jsstring,
       beginsWithDigit v → v = a ++ HYPHEN :: R → HYPHEN ∉ a →
       (∀ ch, ch ∈ KNOWN_CHANNELS → ¬ ch `prefix_of` R) →
       extractChannel (Some v) = js "latest")
  ∧ (∀ v : jsstring, beginsWithDigit v → HYPHEN ∉ v → extractChannel (Some v) = js "latest")
  ∧ extractChannel (Some (js "1.2.3")) = js "latest"
  ∧ extractChannel (Some (js "1.2.3-beta.1")) = js "beta"
  ∧ extractChannel (Some (js "1.2.3-unknownrc")) = js "latest"
  ∧ extractChannel (Some (js "canary")) = js "canary".
Proof.
  split_and!; try by vm_compute.
  - intros v Hne Hd. unfold extractChannel.
    assert (JS.truthy v = true) as -> by (by destruct v).
    apply isDistTag_spec in Hd. by rewrite Hd.
  - intros v a R ch Hd -> Ha Hch Hp. rewrite digit_token_classified by done.
    assert (isPrereleaseVersion (a ++ HYPHEN :: R) = true) as Hpre
      by (apply isPrereleaseVersion_spec, elem_of_app; right; left).
    rewrite Hpre.
    rewrite split1_app by done.
    destruct (split1_head HYPHEN R) as (seg & segs & -> & Hseg & Hshape).
    cbn [lookup list_lookup mbind option_bind].
    assert (HYPHEN ∉ ch).
    { revert Hch. unfold KNOWN_CHANNELS. rewrite !elem_of_cons, elem_of_nil.
      intros [-> | [-> | [-> | [-> | [-> | []]]]]];
        apply (bool_decide_unpack _); by vm_compute. }
    assert (ch `prefix_of` seg) as Hps.
    { destruct Hshape as [-> | [R1 ->]]; [done |]. by eapply prefix_before_separator. }
    assert (JS.truthy seg = true) as ->.
    { destruct seg; [| done]. apply prefix_nil_inv in Hps as ->.
      revert Hch. unfold KNOWN_CHANNELS. rewrite !elem_of_cons, elem_of_nil.
      intros [? | [? | [? | [? | [? | []]]]]]; discriminate. }
    destruct (exec_channelPrefix_hit seg ch Hch Hps) as (r & Hr & Hg).
    rewrite Hr. cbn [mbind option_bind]. by rewrite Hg.
  - intros v a R Hd -> Ha Hno. rewrite digit_token_classified by done.
    assert (isPrereleaseVersion (a ++ HYPHEN :: R) = true) as Hpre
      by (apply isPrereleaseVersion_spec, elem_of_app; right; left).
    rewrite Hpre.
    rewrite split1_app by done.
    destruct (split1_head HYPHEN R) as (seg & segs & -> & Hseg & Hshape).
    cbn [lookup list_lookup mbind option_bind].
    destruct (JS.truthy seg); [| done].
    rewrite exec_channelPrefix_miss; [done |].
    intros ch Hch Hp. apply (Hno ch Hch).
    destruct Hshape as [-> | [R1 ->]]; [done |]. by apply prefix_app_r.
  - intros v Hd Hv. rewrite digit_token_classified by done.
    destruct (isPrereleaseVersion v) eqn:E; [| done].
    by apply isPrereleaseVersion_spec in E.
Qed.

Lemma extractChannel_rules_witness :
  extractChannel (Some (js "2.0.0-rc.1-x")) = js "rc"
  ∧ extractChannel (Some (js "next-gen")) = js "next-gen"
  ∧ extractChannel (Some (js "3.1.0-dev")) = js "latest"
  ∧ extractChannel (Some (js "3.1.0")) = js "latest".
Proof.
  destruct extractChannel_rules as (_ & _ & Htag & Hknown & Hunknown & Hstable & _).
  split_and!.
  - apply (Hknown _ (js "2.0.0") (js "rc.1-x")).
    + eexists _, _. split; [reflexivity | by vm_compute].
    + reflexivity.
    + apply (bool_decide_unpack _). by vm_compute.
    + apply (bool_decide_unpack _). by vm_compute.
    + by exists (js ".1-x").
  - apply Htag; [done |]. intros (d & rest & Heq & Hd).
    vm_compute in Heq. by simplify_eq.
  - apply (Hunknown _ (js "3.1.0") (js "dev")).
    + eexists _, _. split; [reflexivity | by vm_compute].
    + reflexivity.
    + apply (bool_decide_unpack _). by vm_compute.
    + intros ch Hch Hp. apply startsWith_prefix in Hp. revert Hch Hp.
      unfold KNOWN_CHANNELS. rewrite !elem_of_cons, elem_of_nil.
      intros [-> | [-> | [-> | [-> | [-> | []]]]]]; by vm_compute.
  - apply Hstable.
    + eexists _, _. split; [reflexivity | by vm_compute].
    + apply (bool_decide_unpack _). by vm_compute.
Defined.

(** ** The registry answer *)

(** What the call does for a channel that is not the name of a member
    that every object inherits: the version of the requested channel when the
    dist-tags have it, the version under latest when they do not, and null
    (never an exception, the result type has none) on an answer that is not
    ok, on a network error and on an abort, be it of the fetch or of the
    reading of the body. *)
Lemma getLatestVersion_channel_then_latest :
  (∀ (data : NpmDistTags) (channel version : jsstring),
     data !! channel = Some version →
     getLatestVersion (Responded true (BodyJson data)) (Some channel)
     = Some (Version version))
  ∧ (∀ (data : NpmDistTags) (channel : jsstring),
       data !! channel = None →
       channel ∉ OBJECT_PROTOTYPE →
       getLatestVersion (Responded true (BodyJson data)) (Some channel)
       = Version <$> data !! js "latest")
  ∧ (∀ fetched, getLatestVersion fetched None = getLatestVersion fetched (Some (js "latest")))
  ∧ (∀ body channel, getLatestVersion (Responded false body) channel = None)
  ∧ (∀ channel, getLatestVersion NetworkError channel = None)
  ∧ (∀ channel, getLatestVersion Aborted channel = None)
  ∧ (∀ channel, getLatestVersion (Responded true BodyAborted) channel = None).
Proof.
  split_and!; try done.
  - intros data channel version H. unfold getLatestVersion, member.
    cbn [negb default from_option id]. by rewrite H.
  - intros data channel H Hown. unfold getLatestVersion, member.
    cbn [negb default from_option id]. rewrite H.
    rewrite (bool_decide_eq_false_2 _ Hown).
    destruct (data !! js "latest"); [done |].
    rewrite bool_decide_eq_false_2; [done |]. apply (bool_decide_unpack _). by vm_compute.
Qed.

(** C8: for a channel that the dist-tags do not have and that names a
    member every object inherits, the call does not fall back to the version
    under latest: it returns the inherited member, which is no string.  The
    classifier hands such a channel on as it is. *)
Theorem getLatestVersion_inherited_member :
  let data : NpmDistTags := {[ js "latest" := js "2.0.0" ]} in
  data !! js "constructor" = None
  ∧ extractChannel (Some (js "constructor")) = js "constructor"
  ∧ getLatestVersion (Responded true (BodyJson data)) (Some (js "constructor"))
    = Some (Inherited (js "constructor"))
  ∧ getLatestVersion (Responded true (BodyJson data)) (Some (js "constructor"))
    ≠ Version <$> data !! js "latest".
Proof. split_and!; by vm_compute. Qed.

(** ** The pattern of the old entry *)

Lemma regExpSpecial_syntax c :
  anyOf [46; 42; 43; 63; 94; 36; 123; 125; 40; 41; 124; 91; 93; 92]%N c = isSyntaxCharacter c.
Proof. unfold anyOf, isSyntaxCharacter. cbn [existsb]. case_eqb; done. Qed.

Lemma replaceAll_regExpSpecial subject i s :
  replaceAllFrom regExpSpecial (substitute [BACKSLASH; DOLLAR; 38%N]) subject i 0 s = escaped s.
Proof.
  revert i. induction s as [|x s IH]; intros i; [done |].
  cbn [replaceAllFrom]. unfold matchAt. cbn [pattern regExpSpecial m fst snd].
  rewrite regExpSpecial_syntax. unfold escaped. cbn [mbind list_bind].
  fold (escaped s). destruct (isSyntaxCharacter x).
  - cbn [fst matched]. replace (S i - i) with 1 by lia.
    cbn [take length]. rewrite IH. by vm_compute.
  - cbn [app]. by rewrite IH.
Qed.

Lemma escapeRegExp_escaped old : escapeRegExp old = escaped old.
Proof. apply replaceAll_regExpSpecial. Qed.

Lemma parseTerm_escaped old rest :
  parseTerm None (escaped old ++ rest) = r ← parseTerm None rest; Some (litThen old r).
Proof.
  induction old as [|x old IH].
  - cbn. by destruct (parseTerm None rest).
  - unfold escaped. cbn [mbind list_bind]. fold (escaped old).
    destruct (isSyntaxCharacter x) eqn:Hx.
    + cbn [app parseTerm]. rewrite Hx, IH.
      replace (BACKSLASH =? LBRACKET)%N with false by done.
      replace (BACKSLASH =? BACKSLASH)%N with true by done.
      by destruct (parseTerm None rest).
    + cbn [app parseTerm]. rewrite Hx, IH.
      assert (x ≠ LBRACKET) by (intros ->; by vm_compute in Hx).
      assert (x ≠ BACKSLASH) by (intros ->; by vm_compute in Hx).
      case_eqb; try done. by destruct (parseTerm None rest).
Qed.

Lemma ofSource_quotedEntry old :
  ofSource ([91; 34; 39; 93]%N ++ escapeRegExp old ++ [91; 34; 39; 93]%N)
  = Some (quotedEntry old).
Proof.
  unfold ofSource. rewrite escapeRegExp_escaped.
  change (parseTerm None ([91; 34; 39; 93]%N ++ escaped old ++ [91; 34; 39; 93]%N))
    with (r ← parseTerm None (escaped old ++ [91; 34; 39; 93]%N);
          Some (Seq (Class (anyOf [DQUOTE; SQUOTE])) r)).
  by rewrite parseTerm_escaped.
Qed.

Lemma anyOf_quotes c : anyOf [DQUOTE; SQUOTE] c = true ↔ isQuote c.
Proof.
  unfold anyOf, isQuote. cbn [existsb]. rewrite !orb_true_iff, !N.eqb_eq. intuition congruence.
Qed.

Lemma matchAt_quotedEntry old i s r :
  matchAt (quotedEntry old) i s = Some r ↔
  ∃ q1 q2 post, s = q1 :: old ++ q2 :: post ∧ isQuote q1 ∧ isQuote q2
                ∧ r = mkMatch i (q1 :: old ++ [q2]) [].
Proof.
  unfold matchAt. cbn [pattern quotedEntry ngroups replicate m fst snd].
  destruct s as [|q1 s].
  { split; [done | by intros (? & ? & ? & ? & _)]. }
  destruct (anyOf [DQUOTE; SQUOTE] q1) eqn:Hq1; cycle 1.
  { split; [done |]. intros (a & b & post & Heq & Hq%anyOf_quotes & _).
    injection Heq as <- _. congruence. }
  rewrite m_litThen. destruct (startsWith s old) eqn:Hsw; cycle 1.
  { split; [done |]. intros (a & q2 & post & Heq & _). injection Heq as _ ->.
    assert (startsWith (old ++ q2 :: post) old = true); [| congruence].
    apply startsWith_prefix. by eexists. }
  apply startsWith_prefix in Hsw as [t ->].
  rewrite drop_app_length. cbn [m fst snd]. destruct t as [|q2 post].
  { split; [done |]. intros (a & b & post & Heq & _). injection Heq as _ Heq.
    by apply app_inv_head in Heq. }
  destruct (anyOf [DQUOTE; SQUOTE] q2) eqn:Hq2; cycle 1.
  { split; [done |]. intros (a & b & post' & Heq & _ & Hq%anyOf_quotes & _).
    injection Heq as _ Heq. apply app_inv_head in Heq. injection Heq as <- _. congruence. }
  cbn [fst]. replace (S (S i + length old) - i) with (S (length old + 1)) by lia.
  cbn [take]. rewrite take_app_add'; [| done]. cbn [take].
  apply anyOf_quotes in Hq1, Hq2. split.
  - intros [= <-]. by exists q1, q2, post.
  - intros (a & b & post' & Heq & _ & _ & ->). injection Heq as <- Heq.
    apply app_inv_head in Heq. by injection Heq as <- _.
Qed.

Lemma exec_quotedEntry_None old s : exec (quotedEntry old) s = None ↔ ¬ hasQuoted old s.
Proof.
  unfold exec. rewrite searchFrom_None. split.
  - intros H (pre & q1 & q2 & post & -> & Hq1 & Hq2).
    specialize (H (length pre)). rewrite length_app, drop_app_length in H.
    assert (matchAt (quotedEntry old) (0 + length pre) (q1 :: old ++ q2 :: post)
            = Some (mkMatch (0 + length pre) (q1 :: old ++ [q2]) [])) as Hm.
    { apply matchAt_quotedEntry. by exists q1, q2, post. }
    rewrite H in Hm; [done | lia].
  - intros H j Hj. destruct (matchAt _ _ _) eqn:E; [| done].
    apply matchAt_quotedEntry in E as (q1 & q2 & post & Hd & Hq1 & Hq2 & _).
    destruct H. exists (take j s), q1, q2, post. split; [| done].
    by rewrite <- Hd, take_drop.
Qed.

Lemma exec_quotedEntry_Some old s r :
  exec (quotedEntry old) s = Some r ↔
  ∃ pre q1 q2 post,
    firstQuotedAt old s pre q1 q2 post ∧ r = mkMatch (length pre) (q1 :: old ++ [q2]) [].
Proof.
  unfold exec. rewrite searchFrom_Some. cbn [Nat.add]. split.
  - intros (j & Hj & (q1 & q2 & post & Hd & Hq1 & Hq2 & ->)%matchAt_quotedEntry & Hbefore).
    exists (take j s), q1, q2, post. rewrite length_take_le by done.
    split; [| done]. split.
    + split; [| done]. by rewrite <- Hd, take_drop.
    + intros pre' q1' q2' post' (Hs & Hq1' & Hq2').
      rewrite length_take_le by done.
      destruct (decide (length pre' < j)) as [Hlt |]; [| lia].
      specialize (Hbefore _ Hlt). rewrite Hs, drop_app_length in Hbefore.
      assert (matchAt (quotedEntry old) (length pre') (q1' :: old ++ q2' :: post')
              = Some (mkMatch (length pre') (q1' :: old ++ [q2']) [])) as Hm.
      { apply matchAt_quotedEntry. by exists q1', q2', post'. }
      by rewrite Hbefore in Hm.
  - intros (pre & q1 & q2 & post & [(-> & Hq1 & Hq2) Hfirst] & ->).
    exists (length pre). rewrite length_app, drop_app_length. split_and!; [lia | |].
    + apply matchAt_quotedEntry. by exists q1, q2, post.
    + intros j Hj. destruct (matchAt _ _ _) eqn:E; [| done].
      apply matchAt_quotedEntry in E as (q1' & q2' & post' & Hd & Hq1' & Hq2' & _).
      assert (quotedAt old (pre ++ q1 :: old ++ q2 :: post)
                (take j (pre ++ q1 :: old ++ q2 :: post)) q1' q2' post') as Hocc.
      { split; [| done]. by rewrite <- Hd, take_drop. }
      apply Hfirst in Hocc. rewrite length_take in Hocc. lia.
Qed.

Lemma substitute_plain tpl r subject : DOLLAR ∉ tpl → substitute tpl r subject = tpl.
Proof.
  induction tpl as [|c tpl IH]; intros Hd; [done |]. cbn [substitute].
  apply not_elem_of_cons in Hd as [Hc Hd].
  destruct (N.eqb_spec c DOLLAR); [done |]. cbn [negb]. by rewrite IH.
Qed.

(** ** The plugin array *)

Lemma allWhiteSpace_forallb ws : allWhiteSpace ws ↔ forallb isWhiteSpace ws = true.
Proof.
  unfold allWhiteSpace. rewrite Forall_forall, forallb_forall.
  by setoid_rewrite list_elem_of_In.
Qed.

Lemma matchAt_pluginKey_opening j opening post :
  pluginOpening opening →
  matchAt pluginKey j (opening ++ post) = Some (mkMatch j opening []).
Proof.
  intros (ws1 & ws2 & Hopening & Hall1%allWhiteSpace_forallb & Hall2%allWhiteSpace_forallb).
  assert (opening ++ post
          = jsq "`plugin`" ++ ws1 ++ COLON :: ws2 ++ LBRACKET :: post) as Hshape.
  { rewrite Hopening, <- !app_assoc. cbn [app]. by rewrite <- app_assoc. }
  assert (length opening = length (jsq "`plugin`") + length ws1 + 1 + length ws2 + 1) as Hlen.
  { rewrite Hopening, !length_app. cbn [length]. rewrite length_app. cbn [length]. lia. }
  unfold matchAt. cbn [pattern pluginKey ngroups replicate].
  assert (m (litThen (jsq "`plugin`")
              (Seq (Star true (Class isWhiteSpace))
                 (Seq (Char COLON) (Seq (Star true (Class isWhiteSpace)) (Char LBRACKET)))))
            (j, opening ++ post) [] (fun st c => Some (st, c))
          = Some ((j + length opening, post), [])) as ->.
  { rewrite Hshape, m_litThen.
    assert (startsWith (jsq "`plugin`" ++ ws1 ++ COLON :: ws2 ++ LBRACKET :: post)
              (jsq "`plugin`") = true) as -> by (apply startsWith_prefix; by eexists).
    rewrite drop_app_length, m_Seq, m_Star_class.
    apply starLoop_class_greedy; [cbn [snd]; rewrite length_app; lia | done | done |].
    rewrite m_Seq, m_Char, N.eqb_refl, m_Seq, m_Star_class.
    apply starLoop_class_greedy; [cbn [snd]; rewrite length_app; lia | done | done |].
    rewrite m_Char, N.eqb_refl. do 3 f_equal. lia. }
  cbn [fst]. replace (j + length opening - j) with (length opening) by lia.
  by rewrite take_app_length.
Qed.

Lemma matchAt_pluginKey_sound j s r :
  matchAt pluginKey j s = Some r →
  ∃ opening post, s = opening ++ post ∧ pluginOpening opening.
Proof.
  unfold matchAt. cbn [pattern pluginKey ngroups replicate]. rewrite m_litThen.
  destruct (startsWith s (jsq "`plugin`")) eqn:Hsw; [| done].
  apply startsWith_prefix in Hsw as [s1 ->]. rewrite drop_app_length.
  rewrite m_Seq, m_Star_class.
  destruct (starLoop _ _ _ _ _ _) as [res |] eqn:E; [| done]. intros _.
  apply starLoop_class_sound in E as (n1 & Hn1 & Hall1 & Hk1).
  rewrite m_Seq, m_Char in Hk1. destruct (drop n1 s1) as [|x s2] eqn:Hd1; [done |].
  destruct (N.eqb_spec x COLON) as [-> |]; [| done].
  rewrite m_Seq, m_Star_class in Hk1.
  apply starLoop_class_sound in Hk1 as (n2 & Hn2 & Hall2 & Hk2).
  rewrite m_Char in Hk2. destruct (drop n2 s2) as [|y post] eqn:Hd2; [done |].
  destruct (N.eqb_spec y LBRACKET) as [-> |]; [| done].
  exists (jsq "`plugin`" ++ take n1 s1 ++ COLON :: take n2 s2 ++ [LBRACKET]), post.
  split.
  - rewrite <- !app_assoc. cbn [app]. rewrite <- app_assoc. cbn [app].
    by rewrite <- Hd2, take_drop, <- Hd1, take_drop.
  - exists (take n1 s1), (take n2 s2). by rewrite !allWhiteSpace_forallb.
Qed.

Lemma matchAt_pluginKey j s r :
  matchAt pluginKey j s = Some r ↔
  ∃ opening post, s = opening ++ post ∧ pluginOpening opening ∧ r = mkMatch j opening [].
Proof.
  split.
  - intros H. destruct (matchAt_pluginKey_sound _ _ _ H) as (opening & post & -> & Ho).
    rewrite matchAt_pluginKey_opening in H by done. exists opening, post.
    split_and!; [done | done | congruence].
  - intros (opening & post & -> & Ho & ->). by apply matchAt_pluginKey_opening.
Qed.

Lemma exec_pluginKey_None content : exec pluginKey content = None ↔ ¬ hasPluginArray content.
Proof.
  unfold exec. rewrite searchFrom_None. split.
  - intros H (pre & opening & post & -> & Ho).
    specialize (H (length pre)). rewrite length_app, drop_app_length in H.
    rewrite matchAt_pluginKey_opening in H by done. discriminate H. lia.
  - intros H j Hj. destruct (matchAt _ _ _) eqn:E; [| done].
    apply matchAt_pluginKey_sound in E as (opening & post & Hd & Ho).
    destruct H. exists (take j content), opening, post. by rewrite <- Hd, take_drop.
Qed.

(** The match of the key: the first opening of the text, with the text
    cut around it. *)
Lemma exec_pluginKey_Some content r :
  exec pluginKey content = Some r →
  ∃ pre opening post,
    content = pre ++ opening ++ post ∧ pluginOpening opening
    ∧ index r = length pre ∧ matched r = opening
    ∧ ∀ pre' opening' post',
        content = pre' ++ opening' ++ post' → pluginOpening opening' →
        length pre ≤ length pre'.
Proof.
  unfold exec. rewrite searchFrom_Some. cbn [Nat.add].
  intros (j & Hj & (opening & post & Hd & Ho & ->)%matchAt_pluginKey & Hbefore).
  exists (take j content), opening, post. rewrite length_take_le by done.
  split_and!; [by rewrite <- Hd, take_drop | done | done | done |].
  intros pre' opening' post' Hc Ho'.
  destruct (decide (length pre' < j)) as [Hlt |]; [| lia].
  specialize (Hbefore _ Hlt). rewrite Hc, drop_app_length in Hbefore.
  by rewrite matchAt_pluginKey_opening in Hbefore.
Qed.

Lemma scanBrackets_ge rest i d e : e ≤ i → e ≤ scanBrackets rest i d e.
Proof.
  revert i d e. induction rest as [|c rest IH]; intros i d e He; cbn [scanBrackets]; [done |].
  destruct (0 <? d)%Z; [| done]. etrans; [exact He |]. apply IH. lia.
Qed.

(** The loop stops at the bracket that closes the array. *)
Lemma scanBrackets_closes body n i d e :
  (0 < d)%Z → n < length body →
  depthAfter d (take (S n) body) = 0%Z →
  (∀ j, j ≤ n → (0 < depthAfter d (take j body))%Z) →
  scanBrackets body i d e = i + n.
Proof.
  revert body i d e. induction n as [|n IH]; intros body i d e Hd Hn Hzero Hpos;
    (destruct body as [|c body]; [cbn [length] in Hn; lia |]);
    cbn [scanBrackets]; (replace (0 <? d)%Z with true by (symmetry; by apply Z.ltb_lt));
    fold (depthStep d c).
  - unfold depthAfter in Hzero. cbn [firstn foldl] in Hzero.
    rewrite take_0 in Hzero. cbn [foldl] in Hzero.
    rewrite Hzero, Nat.add_0_r. by destruct body.
  - replace (i + S n) with (S i + n) by lia. apply IH.
    + apply (Hpos 1). lia.
    + cbn [length] in Hn. lia.
    + exact Hzero.
    + intros j Hj. apply (Hpos (S j)). lia.
Qed.

(** Without such a bracket the loop runs to the last unit. *)
Lemma scanBrackets_unclosed body i d e :
  (∀ j, j ≤ length body → (0 < depthAfter d (take j body))%Z) →
  scanBrackets body i d e = match body with [] => e | _ :: _ => i + length body - 1 end.
Proof.
  revert i d e. induction body as [|c body IH]; intros i d e Hpos; [done |].
  cbn [scanBrackets]. fold (depthStep d c).
  replace (0 <? d)%Z with true
    by (symmetry; apply Z.ltb_lt; apply (Hpos 0); cbn [length]; lia).
  rewrite IH.
  - destruct body; cbn [length]; lia.
  - intros j Hj. apply (Hpos (S j)). cbn [length]. lia.
Qed.

Lemma slice_0 (s : jsstring) n : slice s 0 n = take n s.
Proof. unfold slice. by rewrite Nat.sub_0_r, drop_0. Qed.

Lemma slices_cover (content : jsstring) s e :
  s ≤ e → content = take s content ++ slice content s e ++ drop e content.
Proof.
  intros Hse. unfold slice. rewrite app_assoc, take_take_drop.
  replace (s + (e - s)) with e by lia. by rewrite take_drop.
Qed.

Lemma pluginArrayRange_ordered content s e :
  pluginArrayRange content = Some (s, e) → s ≤ e.
Proof.
  unfold pluginArrayRange. destruct (exec pluginKey content); [| done].
  cbn [mbind option_bind]. intros [= <- <-]. by apply scanBrackets_ge.
Qed.

Lemma pluginArrayRange_None content :
  pluginArrayRange content = None ↔ ¬ hasPluginArray content.
Proof.
  rewrite <- exec_pluginKey_None. unfold pluginArrayRange.
  by destruct (exec pluginKey content).
Qed.

(** The array body starts after the first opening of the text, and ends
    at the bracket that closes it when there is one, at the last unit of the
    text when there is none. *)
Lemma pluginArrayRange_spec content s e :
  pluginArrayRange content = Some (s, e) →
  (∃ pre opening,
      take s content = pre ++ opening ∧ pluginOpening opening
      ∧ ∀ pre' opening' post',
          content = pre' ++ opening' ++ post' → pluginOpening opening' →
          length pre ≤ length pre')
  ∧ (∀ n, closesAt (drop s content) n → e = s + n)
  ∧ ((∀ j, j ≤ length (drop s content) → (0 < depthAfter 1 (take j (drop s content)))%Z) →
     e = match drop s content with [] => s | _ :: _ => length content - 1 end).
Proof.
  unfold pluginArrayRange. destruct (exec pluginKey content) as [r |] eqn:E; [| done].
  cbn [mbind option_bind]. intros [= <- <-].
  apply exec_pluginKey_Some in E as (pre & opening & post & Hc & Ho & -> & -> & Hfirst).
  split_and!.
  - exists pre, opening. split_and!; [| done | done].
    rewrite Hc, app_assoc. apply take_app_length'. by rewrite length_app.
  - intros n (Hn & Hzero & Hpos). by apply scanBrackets_closes.
  - intros Hpos. rewrite scanBrackets_unclosed by done.
    destruct (drop (length pre + length opening) content) eqn:Hd; [done |].
    apply (f_equal length) in Hd. rewrite length_drop in Hd. cbn [length] in *. lia.
Qed.

Section Patcher.

Variable PACKAGE_NAME : jsstring.

(** The steps of [updatePinnedVersion] once the array is located. *)
Lemma updatePinnedVersion_located fs path old newVersion content s e :
  readFileSync fs path = Some content →
  pluginArrayRange content = Some (s, e) →
  updatePinnedVersion PACKAGE_NAME fs path old newVersion =
  match exec (quotedEntry old) (slice content s e) with
  | None => mkOutcome fs false EntryNotFound
  | Some r =>
      let updated :=
        take s content
        ++ (take (index r) (slice content s e)
            ++ substitute ([DQUOTE] ++ (PACKAGE_NAME ++ [AT] ++ newVersion) ++ [DQUOTE])
                 r (slice content s e)
            ++ drop (index r + length (matched r)) (slice content s e))
        ++ drop e content in
      if JS.eqb updated content then mkOutcome fs false NoChangesMade
      else
        match writeFileSync fs path updated with
        | None => mkOutcome fs false FailedToUpdate
        | Some fs' => mkOutcome fs' true Updated
        end
  end.
Proof.
  intros Hread Hrange. unfold updatePinnedVersion. rewrite Hread.
  unfold pluginArrayRange in Hrange.
  destruct (exec pluginKey content) as [pm |]; [| done].
  cbn [mbind option_bind] in Hrange. injection Hrange as <- <-.
  rewrite ofSource_quotedEntry. unfold test, replaceWith, replace.
  cbn [global quotedEntry]. fold (quotedEntry old).
  rewrite !slice_0. unfold sliceFrom.
  by destruct (exec (quotedEntry old) _).
Qed.

Lemma updatePinnedVersion_unreadable fs path old newVersion :
  readFileSync fs path = None →
  updatePinnedVersion PACKAGE_NAME fs path old newVersion = mkOutcome fs false FailedToUpdate.
Proof. intros H. unfold updatePinnedVersion. by rewrite H. Qed.

Lemma updatePinnedVersion_no_array fs path old newVersion content :
  readFileSync fs path = Some content →
  pluginArrayRange content = None →
  updatePinnedVersion PACKAGE_NAME fs path old newVersion = mkOutcome fs false NoPluginArrayFound.
Proof.
  intros Hread Hnone. unfold updatePinnedVersion. rewrite Hread.
  unfold pluginArrayRange in Hnone. by destruct (exec pluginKey content).
Qed.

(** What the replacement makes of the array body when the old entry is
    found: the first occurrence gives way to the template. *)
Lemma updatePinnedVersion_found fs path old newVersion content s e pre q1 q2 post :
  readFileSync fs path = Some content →
  pluginArrayRange content = Some (s, e) →
  firstQuotedAt old (slice content s e) pre q1 q2 post →
  updatePinnedVersion PACKAGE_NAME fs path old newVersion =
  let r := mkMatch (length pre) (q1 :: old ++ [q2]) [] in
  let updated :=
    take s content
    ++ (pre ++ substitute ([DQUOTE] ++ (PACKAGE_NAME ++ [AT] ++ newVersion) ++ [DQUOTE])
                 r (slice content s e) ++ post)
    ++ drop e content in
  if JS.eqb updated content then mkOutcome fs false NoChangesMade
  else
    match writeFileSync fs path updated with
    | None => mkOutcome fs false FailedToUpdate
    | Some fs' => mkOutcome fs' true Updated
    end.
Proof.
  intros Hread Hrange Hfirst.
  rewrite (updatePinnedVersion_located _ _ _ _ _ _ _ Hread Hrange).
  assert (exec (quotedEntry old) (slice content s e)
          = Some (mkMatch (length pre) (q1 :: old ++ [q2]) [])) as ->.
  { apply exec_quotedEntry_Some. by exists pre, q1, q2, post. }
  destruct Hfirst as [(Hslice & _ & _) _]. cbn [index matched].
  assert (take (length pre) (slice content s e) = pre) as ->
    by (by rewrite Hslice, take_app_length).
  assert (drop (length pre + length (q1 :: old ++ [q2])) (slice content s e) = post) as ->.
  { rewrite Hslice.
    replace (pre ++ q1 :: old ++ q2 :: post) with ((pre ++ q1 :: old ++ [q2]) ++ post)
      by (by rewrite <- !app_assoc; cbn [app]; rewrite <- app_assoc).
    apply drop_app_length'. by rewrite length_app. }
  done.
Qed.

Lemma writeFileSync_Some fs path data fs' :
  writeFileSync fs path data = Some fs' →
  readFileSync fs' path = Some data
  ∧ ∀ other, other ≠ path → entries fs' !! other = entries fs !! other.
Proof.
  unfold writeFileSync, readFileSync. destruct (bool_decide _); [done |].
  intros H.
  assert (fs' = mkFS (<[path := File data]> (entries fs)) (readonly fs)) as ->.
  { destruct (entries fs !! path) as [[] |]; congruence. }
  cbn [entries]. rewrite lookup_insert_eq. split; [done |].
  intros other Hne. by rewrite lookup_insert_ne.
Qed.

(** C2: no plugin array, or no quoted old entry in the located range:
    the call returns false, with the message of the case, and the file system
    it leaves is the one it found. *)
Theorem updatePinnedVersion_absent_target fs path old newVersion content :
  readFileSync fs path = Some content →
  (¬ hasPluginArray content →
   updatePinnedVersion PACKAGE_NAME fs path old newVersion
   = mkOutcome fs false NoPluginArrayFound)
  ∧ (∀ s e,
       pluginArrayRange content = Some (s, e) →
       ¬ hasQuoted old (slice content s e) →
       updatePinnedVersion PACKAGE_NAME fs path old newVersion
       = mkOutcome fs false EntryNotFound).
Proof.
  intros Hread. split.
  - intros Hno. apply updatePinnedVersion_no_array with content; [done |].
    by apply pluginArrayRange_None.
  - intros s e Hrange Hno.
    rewrite (updatePinnedVersion_located _ _ _ _ _ _ _ Hread Hrange).
    apply exec_quotedEntry_None in Hno. by rewrite Hno.
Qed.

(** The frame of the patcher in the text of the file: a call that
    returns true has written the text before the array body, a new body, and
    the text from the end of the body on; nothing else in the file system has
    changed.  The text before the body ends with the first opening of the
    plugin array, and the text after it starts at the bracket that closes the
    array; in a text where no bracket closes it, it is the last unit of the
    text. *)
Lemma updatePinnedVersion_frame_text fs path old newVersion :
  returned (updatePinnedVersion PACKAGE_NAME fs path old newVersion) = true →
  ∃ content s e patched,
    readFileSync fs path = Some content
    ∧ pluginArrayRange content = Some (s, e)
    ∧ content = take s content ++ slice content s e ++ drop e content
    ∧ readFileSync (fsAfter (updatePinnedVersion PACKAGE_NAME fs path old newVersion)) path
      = Some (take s content ++ patched ++ drop e content)
    ∧ (∀ other, other ≠ path →
         entries (fsAfter (updatePinnedVersion PACKAGE_NAME fs path old newVersion)) !! other
         = entries fs !! other)
    ∧ (∃ pre opening,
         take s content = pre ++ opening ∧ pluginOpening opening
         ∧ ∀ pre' opening' post',
             content = pre' ++ opening' ++ post' → pluginOpening opening' →
             length pre ≤ length pre')
    ∧ (∀ n, closesAt (drop s content) n → e = s + n)
    ∧ ((∀ j, j ≤ length (drop s content) →
             (0 < depthAfter 1 (take j (drop s content)))%Z) →
       e = match drop s content with [] => s | _ :: _ => length content - 1 end).
Proof.
  destruct (readFileSync fs path) as [content |] eqn:Hread; cycle 1.
  { by rewrite updatePinnedVersion_unreadable. }
  destruct (pluginArrayRange content) as [[s e] |] eqn:Hrange; cycle 1.
  { by rewrite (updatePinnedVersion_no_array _ _ _ _ _ Hread Hrange). }
  rewrite (updatePinnedVersion_located _ _ _ _ _ _ _ Hread Hrange).
  destruct (exec (quotedEntry old) (slice content s e)) as [r |]; [| done].
  cbv zeta. destruct (JS.eqb _ content); [done |].
  destruct (writeFileSync fs path _) as [fs' |] eqn:Hwrite; [| done].
  intros _. cbn [fsAfter].
  destruct (writeFileSync_Some _ _ _ _ Hwrite) as [Hnew Hother].
  destruct (pluginArrayRange_spec _ _ _ Hrange) as (Hopening & Hclose & Hopen).
  eexists content, s, e, _. split_and!; try done.
  by apply slices_cover, (pluginArrayRange_ordered content).
Qed.

(** C4, amended: when the old entry is in the located range between two
    quote characters, its first occurrence, quote characters included, gives
    way to the new entry between double quotes, whichever quote characters
    were found; the text so changed is written unless it is the text read.
    The new entry holds no dollar sign. *)
Theorem updatePinnedVersion_replaces_first_quoted
    fs path old newVersion content s e pre q1 q2 post :
  readFileSync fs path = Some content →
  pluginArrayRange content = Some (s, e) →
  firstQuotedAt old (slice content s e) pre q1 q2 post →
  DOLLAR ∉ PACKAGE_NAME ++ [AT] ++ newVersion →
  let updated :=
    take s content
    ++ (pre ++ DQUOTE :: (PACKAGE_NAME ++ [AT] ++ newVersion) ++ DQUOTE :: post)
    ++ drop e content in
  updatePinnedVersion PACKAGE_NAME fs path old newVersion =
  (if JS.eqb updated content then mkOutcome fs false NoChangesMade
   else
     match writeFileSync fs path updated with
     | None => mkOutcome fs false FailedToUpdate
     | Some fs' => mkOutcome fs' true Updated
     end)
  ∧ ∀ fs', writeFileSync fs path updated = Some fs' → readFileSync fs' path = Some updated.
Proof.
  intros Hread Hrange Hfirst Hdollar updated. split.
  - rewrite (updatePinnedVersion_found _ _ _ _ _ _ _ _ _ _ _ Hread Hrange Hfirst).
    cbv zeta. rewrite substitute_plain; cycle 1.
    { cbn [app]. rewrite not_elem_of_cons, not_elem_of_app, not_elem_of_cons.
      split_and!; [done | done | done | apply not_elem_of_nil]. }
    subst updated. cbn [app]. by rewrite <- !app_assoc.
  - intros fs' Hwrite. by apply writeFileSync_Some in Hwrite as [? _].
Qed.

(** C5, amended: with a new entry equal to the old one and free of dollar
    signs, the call returns false and leaves the file system as it found it,
    provided the first quoted occurrence of the entry in the located range,
    if there is one, stands between double quotes. *)
Theorem updatePinnedVersion_same_entry_unchanged fs path newVersion :
  DOLLAR ∉ PACKAGE_NAME ++ [AT] ++ newVersion →
  (∀ content s e pre q1 q2 post,
     readFileSync fs path = Some content →
     pluginArrayRange content = Some (s, e) →
     firstQuotedAt (PACKAGE_NAME ++ [AT] ++ newVersion) (slice content s e) pre q1 q2 post →
     q1 = DQUOTE ∧ q2 = DQUOTE) →
  returned (updatePinnedVersion PACKAGE_NAME fs path (PACKAGE_NAME ++ [AT] ++ newVersion)
              newVersion) = false
  ∧ fsAfter (updatePinnedVersion PACKAGE_NAME fs path (PACKAGE_NAME ++ [AT] ++ newVersion)
               newVersion) = fs.
Proof.
  intros Hdollar Hdouble.
  destruct (readFileSync fs path) as [content |] eqn:Hread; cycle 1.
  { by rewrite updatePinnedVersion_unreadable. }
  destruct (pluginArrayRange content) as [[s e] |] eqn:Hrange; cycle 1.
  { by rewrite (updatePinnedVersion_no_array _ _ _ _ _ Hread Hrange). }
  destruct (exec (quotedEntry (PACKAGE_NAME ++ [AT] ++ newVersion)) (slice content s e))
    as [r |] eqn:Hexec; cycle 1.
  { rewrite (updatePinnedVersion_located _ _ _ _ _ _ _ Hread Hrange). by rewrite Hexec. }
  apply exec_quotedEntry_Some in Hexec as (pre & q1 & q2 & post & Hfirst & _).
  destruct (Hdouble _ _ _ _ _ _ _ eq_refl Hrange Hfirst) as [-> ->].
  rewrite (updatePinnedVersion_found _ _ _ _ _ _ _ _ _ _ _ Hread Hrange Hfirst).
  cbv zeta. rewrite substitute_plain; cycle 1.
  { cbn [app]. rewrite not_elem_of_cons, not_elem_of_app, not_elem_of_cons.
    split_and!; [done | done | done | apply not_elem_of_nil]. }
  destruct Hfirst as [(Hslice & _) _].
  assert (take s content
          ++ (pre ++ ([DQUOTE] ++ (PACKAGE_NAME ++ [AT] ++ newVersion) ++ [DQUOTE]) ++ post)
          ++ drop e content = content) as ->.
  { replace (pre ++ ([DQUOTE] ++ (PACKAGE_NAME ++ [AT] ++ newVersion) ++ [DQUOTE]) ++ post)
      with (slice content s e)
      by (rewrite Hslice; cbn [app]; by rewrite <- !app_assoc).
    symmetry. by apply slices_cover, (pluginArrayRange_ordered content). }
  unfold JS.eqb. by rewrite bool_decide_eq_true_2.
Qed.

End Patcher.

Lemma updatePinnedVersion_absent_target_witness :
  updatePinnedVersion (js "pkg") (singleFile samplePath (jsq "{`plugins`: [`pkg@1.0.0`]}"))
    samplePath (js "pkg@1.0.0") (js "1.1.0")
  = mkOutcome (singleFile samplePath (jsq "{`plugins`: [`pkg@1.0.0`]}")) false NoPluginArrayFound
  ∧ updatePinnedVersion (js "pkg")
      (singleFile samplePath (jsq "{`plugin`: [`other`, `pkg@2.0.0`], `x`: [`pkg@1.0.0`]}"))
      samplePath (js "pkg@1.0.0") (js "1.1.0")
    = mkOutcome
        (singleFile samplePath (jsq "{`plugin`: [`other`, `pkg@2.0.0`], `x`: [`pkg@1.0.0`]}"))
        false EntryNotFound.
Proof.
  split.
  - refine (proj1 (updatePinnedVersion_absent_target (js "pkg") _ _ _ _
                     (jsq "{`plugins`: [`pkg@1.0.0`]}") _) _).
    + by vm_compute.
    + apply pluginArrayRange_None. by vm_compute.
  - refine (proj2 (updatePinnedVersion_absent_target (js "pkg") _ _ _ _
                     (jsq "{`plugin`: [`other`, `pkg@2.0.0`], `x`: [`pkg@1.0.0`]}") _)
              12 32 _ _).
    + by vm_compute.
    + by vm_compute.
    + apply exec_quotedEntry_None. by vm_compute.
Defined.

(** C4 as stated fails: an old entry found between single quotes is
    rewritten between double quotes. *)
Lemma updatePinnedVersion_single_quotes_not_kept :
  let content := jsq "{`plugin`: ['pkg@1.0.0']}" in
  let o := updatePinnedVersion (js "pkg") (singleFile samplePath content) samplePath
             (js "pkg@1.0.0") (js "1.1.0") in
  pluginArrayRange content = Some (12, 23)
  ∧ slice content 12 23 = SQUOTE :: js "pkg@1.0.0" ++ [SQUOTE]
  ∧ readFileSync (fsAfter o) samplePath = Some (jsq "{`plugin`: [`pkg@1.1.0`]}")
  ∧ readFileSync (fsAfter o) samplePath ≠ Some (jsq "{`plugin`: ['pkg@1.1.0']}").
Proof. split_and!; by vm_compute. Qed.

Lemma updatePinnedVersion_replaces_first_quoted_witness :
  updatePinnedVersion (js "pkg") (singleFile samplePath (jsq "{`plugin`: ['pkg@1.0.0', `x`]}"))
    samplePath (js "pkg@1.0.0") (js "1.1.0")
  = mkOutcome (singleFile samplePath (jsq "{`plugin`: [`pkg@1.1.0`, `x`]}")) true Updated.
Proof.
  destruct (updatePinnedVersion_replaces_first_quoted (js "pkg")
              (singleFile samplePath (jsq "{`plugin`: ['pkg@1.0.0', `x`]}"))
              samplePath (js "pkg@1.0.0") (js "1.1.0")
              (jsq "{`plugin`: ['pkg@1.0.0', `x`]}") 12 28 [] SQUOTE SQUOTE (jsq ", `x`"))
    as [Hcall _].
  - by vm_compute.
  - by vm_compute.
  - split.
    + split_and!; [by vm_compute | by right | by right].
    + intros pre' q1' q2' post' _. cbn [length]. lia.
  - apply (bool_decide_unpack _). by vm_compute.
  - rewrite Hcall. by vm_compute.
Defined.

(** A dollar sign in the new version is read as a replacement pattern:
    here the matched text is inserted. *)
Lemma updatePinnedVersion_dollar_pattern :
  readFileSync
    (fsAfter (updatePinnedVersion (js "pkg") (singleFile samplePath (jsq "{`plugin`: [`pkg@1`]}"))
                samplePath (js "pkg@1") (js "$&")))
    samplePath
  = Some (jsq "{`plugin`: [`pkg@`pkg@1``]}").
Proof. by vm_compute. Qed.

(** C5 as stated fails: with a new entry equal to the old one, a file
    that holds the entry between single quotes is written again, with double
    quotes, and the call returns true. *)
Lemma updatePinnedVersion_same_entry_rewrites_single_quotes :
  let fs := singleFile samplePath (jsq "{`plugin`: ['pkg@1.0.0']}") in
  let o := updatePinnedVersion (js "pkg") fs samplePath
             (js "pkg" ++ [AT] ++ js "1.0.0") (js "1.0.0") in
  returned o = true
  ∧ logged o = Updated
  ∧ readFileSync fs samplePath = Some (jsq "{`plugin`: ['pkg@1.0.0']}")
  ∧ readFileSync (fsAfter o) samplePath = Some (jsq "{`plugin`: [`pkg@1.0.0`]}").
Proof. split_and!; by vm_compute. Qed.

Lemma updatePinnedVersion_same_entry_unchanged_witness :
  let fs := singleFile samplePath (jsq "{
  // note
  `plugin`: [`pkg@1.0.0`],
}") in
  returned (updatePinnedVersion (js "pkg") fs samplePath (js "pkg" ++ [AT] ++ js "1.0.0")
              (js "1.0.0")) = false
  ∧ fsAfter (updatePinnedVersion (js "pkg") fs samplePath (js "pkg" ++ [AT] ++ js "1.0.0")
               (js "1.0.0")) = fs.
Proof.
  intros fs. apply updatePinnedVersion_same_entry_unchanged.
  - apply (bool_decide_unpack _). by vm_compute.
  - intros content s e pre q1 q2 post Hread Hrange Hfirst.
    vm_compute in Hread. injection Hread as <-.
    vm_compute in Hrange. injection Hrange as <- <-.
    assert (exec (quotedEntry (js "pkg" ++ [AT] ++ js "1.0.0"))
              (slice (jsq "{
  // note
  `plugin`: [`pkg@1.0.0`],
}") 25 36)
            = Some (mkMatch (length pre) (q1 :: (js "pkg" ++ [AT] ++ js "1.0.0") ++ [q2]) []))
      as Hexec by (apply exec_quotedEntry_Some; by exists pre, q1, q2, post).
    vm_compute in Hexec. by injection Hexec as _ <- <-.
Defined.

(** ** The config resolution layer *)

Lemma codePoints_short s cp : cp ∈ codePoints s → length cp ≤ 2.
Proof.
  assert (∀ n s, length s ≤ n → ∀ cp, cp ∈ codePoints s → length cp ≤ 2) as Hn.
  { clear. induction n as [|n IH]; intros s Hlen cp;
      (destruct s as [|a [|b s]]; cbn [codePoints]).
    - by intros ?%elem_of_nil.
    - cbn in Hlen. lia.
    - cbn in Hlen. lia.
    - by intros ?%elem_of_nil.
    - intros ->%list_elem_of_singleton. cbn. lia.
    - cbn [length] in Hlen. destruct (_ && _).
      + intros [-> | Hin]%elem_of_cons; [cbn; lia |]. apply (IH s); [lia | done].
      + intros [-> | Hin]%elem_of_cons; [cbn; lia |].
        apply (IH (b :: s)); [cbn [length]; lia | done]. }
  by apply (Hn (length s)).
Qed.

Section Resolution.

Variable PACKAGE_NAME : jsstring.
Variable USER_OPENCODE_CONFIG : jsstring.
Variable USER_OPENCODE_CONFIG_JSONC : jsstring.
Variable USER_CONFIG_DIR : jsstring.
Variable join : list jsstring -> jsstring.
Variable env : Env.

Lemma refersTo_tests entry :
  refersTo PACKAGE_NAME entry ↔
  JS.eqb entry PACKAGE_NAME = true ∨ startsWith entry (PACKAGE_NAME ++ [AT]) = true.
Proof.
  unfold refersTo, JS.eqb. by rewrite bool_decide_eq_true, startsWith_prefix.
Qed.

Lemma scanPlugins_passes path strs rest :
  (∀ e, e ∈ strs → ¬ refersTo PACKAGE_NAME e) →
  scanPlugins PACKAGE_NAME path ((Str <$> strs) ++ rest) = scanPlugins PACKAGE_NAME path rest.
Proof.
  induction strs as [|e strs IH]; intros Hno; [done |].
  cbn [fmap list_fmap app scanPlugins].
  assert (¬ refersTo PACKAGE_NAME e) as He by (apply Hno; left).
  rewrite refersTo_tests in He.
  destruct (JS.eqb e PACKAGE_NAME); [tauto |].
  destruct (startsWith e (PACKAGE_NAME ++ [AT])); [tauto |].
  apply IH. intros e' He'. apply Hno. by right.
Qed.

Lemma scanPlugins_found path elements info :
  scanPlugins PACKAGE_NAME path elements = Some (Some info) →
  ∃ entry, Str entry ∈ elements ∧ refersTo PACKAGE_NAME entry.
Proof.
  induction elements as [|x elements IH]; [done |]. cbn [scanPlugins].
  destruct x as [| | |entry | |]; try done.
  destruct (JS.eqb entry PACKAGE_NAME) eqn:Heq.
  { intros _. exists entry. split; [left |]. apply refersTo_tests. by left. }
  destruct (startsWith entry (PACKAGE_NAME ++ [AT])) eqn:Hsw.
  { intros _. exists entry. split; [left |]. apply refersTo_tests. by right. }
  intros (e & Hin & He)%IH. exists e. split; [by right | done].
Qed.

(** The pin state that the loop reports for an entry that names the
    package. *)
Lemma scanPlugins_hit path entry rest :
  refersTo PACKAGE_NAME entry →
  ∃ info,
    scanPlugins PACKAGE_NAME path (Str entry :: rest) = Some (Some info)
    ∧ Checker.entry info = entry ∧ Checker.configPath info = path
    ∧ (entry = PACKAGE_NAME → isPinned info = false ∧ pinnedVersion info = None)
    ∧ (entry = PACKAGE_NAME ++ [AT] ++ js "latest" →
       isPinned info = false ∧ pinnedVersion info = None)
    ∧ (∀ version, entry = PACKAGE_NAME ++ [AT] ++ version → version ≠ js "latest" →
       isPinned info = true ∧ pinnedVersion info = Some version).
Proof.
  intros Href. cbn [scanPlugins]. unfold JS.eqb at 1. case_bool_decide as Hname.
  { subst entry. eexists. split; [done |]. simpl.
    split_and!; [done | done | done | done |].
    intros version H _. apply (f_equal length) in H. rewrite !length_app in H.
    cbn [length] in H. lia. }
  destruct Href as [? | Hpre]; [done |]. apply startsWith_prefix in Hpre as Hsw.
  rewrite Hsw. destruct Hpre as [version ->]. unfold sliceFrom.
  replace (drop (length PACKAGE_NAME + 1) ((PACKAGE_NAME ++ [AT]) ++ version)) with version
    by (symmetry; apply drop_app_length'; rewrite length_app; cbn; lia).
  eexists. split; [done |]. simpl. split_and!; [done | done | | |].
  - intros H. apply (f_equal length) in H. rewrite !length_app in H. cbn [length] in H. lia.
  - intros H. rewrite <- app_assoc in H. apply app_inv_head in H. cbn [app] in H.
    injection H as ->. done.
  - intros version' H Hne. rewrite <- app_assoc in H. apply app_inv_head in H.
    cbn [app] in H. injection H as ->.
    unfold JS.eqb. by rewrite bool_decide_eq_false_2.
Qed.

Lemma getConfigPaths_order directory :
  ∃ more,
    getConfigPaths USER_OPENCODE_CONFIG USER_OPENCODE_CONFIG_JSONC USER_CONFIG_DIR join env
      directory
    = [ join [directory; js ".opencode"; js "opencode.json"];
        join [directory; js ".opencode"; js "opencode.jsonc"];
        USER_OPENCODE_CONFIG; USER_OPENCODE_CONFIG_JSONC ] ++ more.
Proof.
  unfold getConfigPaths, pushNew. destruct (JS.eqb (platform env) _); [| by exists []].
  destruct (JS.truthy _); [| by exists []].
  repeat case_bool_decide; eexists; rewrite <- ?app_assoc; reflexivity.
Qed.

End Resolution.

(** ** The plugin entry of the user config *)

Lemma isOtherPlugin_Str s :
  ConfigManager.isOtherPlugin (Str s)
  = Some (bool_decide (¬ refersTo ConfigManager.PACKAGE_NAME s)).
Proof.
  cbn [ConfigManager.isOtherPlugin]. f_equal.
  destruct (JS.eqb s _) eqn:Heq, (startsWith s _) eqn:Hsw; cbn [negb andb]; symmetry;
    unfold JS.eqb in Heq;
    [apply bool_decide_eq_false_2 | apply bool_decide_eq_false_2
     | apply bool_decide_eq_false_2 | apply bool_decide_eq_true_2];
    unfold refersTo; rewrite <- startsWith_prefix.
  - apply bool_decide_eq_true in Heq. tauto.
  - apply bool_decide_eq_true in Heq. tauto.
  - tauto.
  - apply bool_decide_eq_false in Heq. intros [? | ?]; [done | congruence].
Qed.

Lemma filterElements_strings previous :
  ConfigManager.filterElements ConfigManager.isOtherPlugin (Str <$> previous)
  = Some (Str <$> filter (fun p => ¬ refersTo ConfigManager.PACKAGE_NAME p) previous).
Proof.
  induction previous as [|p previous IH]; [done |].
  cbn [fmap list_fmap ConfigManager.filterElements]. rewrite isOtherPlugin_Str.
  cbn [mbind option_bind]. fold (fmap (M:=list) Str previous). rewrite IH.
  cbn [mbind option_bind]. rewrite filter_cons. by case_bool_decide; case_decide.
Qed.

Lemma filterElements_Some elements out :
  ConfigManager.filterElements ConfigManager.isOtherPlugin elements = Some out →
  ∃ previous, elements = Str <$> previous.
Proof.
  revert out. induction elements as [|x elements IH]; intros out; [by exists [] |].
  cbn [ConfigManager.filterElements].
  destruct x as [| | |s | |]; try done. rewrite isOtherPlugin_Str. cbn [mbind option_bind].
  destruct (ConfigManager.filterElements _ elements) as [rest |]; [| done].
  destruct (IH rest eq_refl) as [previous ->]. intros _. by exists (s :: previous).
Qed.

Lemma objGet_objSet members k v : objGet (objSet members k v) k = Some v.
Proof.
  induction members as [|[k' v'] members IH]; cbn [objSet objGet].
  - unfold JS.eqb. by rewrite bool_decide_eq_true_2.
  - destruct (JS.eqb k' k) eqn:E; cbn [objGet]; by rewrite E.
Qed.

Lemma objGet_objSet_ne members k v k' :
  k' ≠ k → objGet (objSet members k v) k' = objGet members k'.
Proof.
  intros Hne. induction members as [|[k0 v0] members IH]; cbn [objSet objGet].
  - unfold JS.eqb. by rewrite bool_decide_eq_false_2.
  - destruct (JS.eqb k0 k) eqn:E; cbn [objGet]; [| by rewrite IH].
    unfold JS.eqb in *. apply bool_decide_eq_true in E as ->.
    by rewrite bool_decide_eq_false_2.
Qed.

Lemma filter_refers_others name (previous : list jsstring) :
  filter (refersTo name) (filter (fun p => ¬ refersTo name p) previous ++ [name]) = [name]
  ∧ filter (fun p => ¬ refersTo name p) (filter (fun p => ¬ refersTo name p) previous ++ [name])
    = filter (fun p => ¬ refersTo name p) previous.
Proof.
  assert (refersTo name name) as Hname by (by left).
  rewrite !filter_app, !filter_cons, !filter_nil.
  rewrite decide_True by done. rewrite decide_False by tauto. rewrite app_nil_r. split.
  - induction previous as [|p previous IH]; [done |].
    rewrite filter_cons. case_decide; [| done]. rewrite filter_cons. by case_decide.
  - induction previous as [|p previous IH]; [done |].
    rewrite filter_cons. case_decide; [| done]. rewrite filter_cons.
    case_decide; [| done]. by rewrite IH.
Qed.

Section Install.

Variable join : list jsstring -> jsstring.
Variable stringify : value -> jsstring.
Variable env : Env.

(** What the try block of [addPluginToOpenCodeConfig] writes when the
    plugin array holds the strings [previous]. *)
Lemma addPlugin_writes members previous fs1 configPath :
  (filteredPlugins ← ConfigManager.arrayFilter ConfigManager.isOtherPlugin
                       (Arr (Str <$> previous));
   filteredPlugins ← ConfigManager.arrayPush filteredPlugins (Str ConfigManager.PACKAGE_NAME);
   config' ← setProp (Obj members) (js "plugin") filteredPlugins;
   ConfigManager.writeConfig stringify fs1 configPath config')
  = writeFileSync fs1 configPath
      (stringify
         (Obj (objSet members (js "plugin")
                 (Arr (Str <$> (filter (fun p => ¬ refersTo ConfigManager.PACKAGE_NAME p)
                                  previous ++ [ConfigManager.PACKAGE_NAME])))))
       ++ [10%N]).
Proof.
  cbn [ConfigManager.arrayFilter]. rewrite filterElements_strings.
  cbn [fmap option_fmap option_map mbind option_bind ConfigManager.arrayPush setProp].
  unfold ConfigManager.writeConfig. by rewrite fmap_app.
Qed.

Lemma addPlugin_attempt fs1 configPath config fs2 :
  isConfigObject config →
  (plugin ← getProp (nullish (Some config) (Obj [])) (js "plugin");
   filteredPlugins ← ConfigManager.arrayFilter ConfigManager.isOtherPlugin
                        (nullish plugin (Arr []));
   filteredPlugins ← ConfigManager.arrayPush filteredPlugins (Str ConfigManager.PACKAGE_NAME);
   config' ← setProp (nullish (Some config) (Obj [])) (js "plugin") filteredPlugins;
   ConfigManager.writeConfig stringify fs1 configPath config') = Some fs2 →
  ∃ previous written,
    hasPlugins config previous
    ∧ writeFileSync fs1 configPath (stringify written ++ [10%N]) = Some fs2
    ∧ getProp written (js "plugin")
      = Some (Some (Arr (Str <$> (filter (fun p => ¬ refersTo ConfigManager.PACKAGE_NAME p)
                                    previous ++ [ConfigManager.PACKAGE_NAME]))))
    ∧ ∀ k, k ≠ js "plugin" →
        getProp written k = getProp (nullish (Some config) (Obj [])) k.
Proof.
  intros Hobj.
  assert (∃ members, nullish (Some config) (Obj []) = Obj members) as [members Hmembers].
  { destruct Hobj as [-> | [members ->]]; by eexists. }
  unfold hasPlugins. rewrite Hmembers. cbn [getProp mbind option_bind].
  assert (∀ previous,
    nullish (objGet members (js "plugin")) (Arr []) = Arr (Str <$> previous) →
    (filteredPlugins ← ConfigManager.arrayFilter ConfigManager.isOtherPlugin
                         (nullish (objGet members (js "plugin")) (Arr []));
     filteredPlugins ← ConfigManager.arrayPush filteredPlugins
                         (Str ConfigManager.PACKAGE_NAME);
     config' ← setProp (Obj members) (js "plugin") filteredPlugins;
     ConfigManager.writeConfig stringify fs1 configPath config') = Some fs2 →
    ∃ written,
      writeFileSync fs1 configPath (stringify written ++ [10%N]) = Some fs2
      ∧ getProp written (js "plugin")
        = Some (Some (Arr (Str <$> (filter
              (fun p => ¬ refersTo ConfigManager.PACKAGE_NAME p) previous
              ++ [ConfigManager.PACKAGE_NAME]))))
      ∧ ∀ k, k ≠ js "plugin" → getProp written k = Some (objGet members k)) as Hrun.
  { intros previous -> Hwrite. rewrite addPlugin_writes in Hwrite.
    eexists. split; [exact Hwrite |]. cbn [getProp]. split.
    - by rewrite objGet_objSet.
    - intros k Hk. by rewrite objGet_objSet_ne. }
  destruct (objGet members (js "plugin")) as [[| | | |elements |] |] eqn:Hget;
    cbn [nullish ConfigManager.arrayFilter fmap option_fmap option_map mbind option_bind];
    try done.
  - intros Hwrite. exists []. destruct (Hrun [] eq_refl Hwrite) as (written & ? & ? & ?).
    by exists written.
  - destruct (ConfigManager.filterElements _ elements) as [out |] eqn:Hfilter; [| done].
    destruct (filterElements_Some _ _ Hfilter) as [previous ->].
    intros Hwrite. exists previous.
    destruct (Hrun previous eq_refl) as (written & ? & ? & ?).
    { cbn [nullish ConfigManager.arrayFilter fmap option_fmap option_map mbind option_bind].
      by rewrite Hfilter. }
    by exists written.
  - intros Hwrite. exists []. destruct (Hrun [] eq_refl Hwrite) as (written & ? & ? & ?).
    by exists written.
Qed.

(** After a call that succeeds when [parseConfig] gives an object (or
    null), the file holds the serialisation of a config whose plugin array is
    the strings that [parseConfig] gave without those that name the package,
    in their order, followed by the bare name.  The other members are as
    [parseConfig] gave them. *)
Lemma addPluginToOpenCodeConfig_parsed fs fs' result :
  ConfigManager.addPluginToOpenCodeConfig join stringify env fs = (fs', result) →
  ConfigManager.success result = true →
  (∀ fs1, ConfigManager.ensureConfigDir join env fs = Some fs1 →
          isConfigObject
            (ConfigManager.parseConfig fs1
               (ConfigManager.getExistingConfigPath join env fs1))) →
  ∃ fs1 previous written,
    ConfigManager.ensureConfigDir join env fs = Some fs1
    ∧ ConfigManager.configPath result = ConfigManager.getExistingConfigPath join env fs1
    ∧ hasPlugins (ConfigManager.parseConfig fs1 (ConfigManager.configPath result))
        previous
    ∧ readFileSync fs' (ConfigManager.configPath result) = Some (stringify written ++ [10%N])
    ∧ getProp written (js "plugin")
      = Some (Some (Arr (Str <$> (filter (fun p => ¬ refersTo ConfigManager.PACKAGE_NAME p)
                                    previous ++ [ConfigManager.PACKAGE_NAME]))))
    ∧ filter (refersTo ConfigManager.PACKAGE_NAME)
        (filter (fun p => ¬ refersTo ConfigManager.PACKAGE_NAME p) previous
         ++ [ConfigManager.PACKAGE_NAME])
      = [ConfigManager.PACKAGE_NAME]
    ∧ filter (fun p => ¬ refersTo ConfigManager.PACKAGE_NAME p)
        (filter (fun p => ¬ refersTo ConfigManager.PACKAGE_NAME p) previous
         ++ [ConfigManager.PACKAGE_NAME])
      = filter (fun p => ¬ refersTo ConfigManager.PACKAGE_NAME p) previous
    ∧ ∀ k, k ≠ js "plugin" →
        getProp written k
        = getProp (nullish (Some (ConfigManager.parseConfig fs1
                                    (ConfigManager.configPath result))) (Obj [])) k.
Proof.
  unfold ConfigManager.addPluginToOpenCodeConfig.
  destruct (ConfigManager.ensureConfigDir join env fs) as [fs1 |] eqn:Hdir; cycle 1.
  { by intros [= <- <-]. }
  intros Hcall Hsuccess Hobj. specialize (Hobj fs1 eq_refl). cbv zeta in Hcall.
  match type of Hcall with
  | match ?attempt with _ => _ end = _ => destruct attempt as [fs2 |] eqn:Hattempt
  end; cycle 1.
  { injection Hcall as <- <-. done. }
  injection Hcall as <- <-. cbn [ConfigManager.configPath].
  apply addPlugin_attempt in Hattempt as (previous & written & Hprev & Hwrite & Hplugin & Hrest);
    [| done].
  destruct (writeFileSync_Some _ _ _ _ Hwrite) as [Hread _].
  destruct (filter_refers_others ConfigManager.PACKAGE_NAME previous) as [Hone Hothers].
  exists fs1, previous, written. by split_and!.
Qed.

End Install.

(** ** The matcher, further *)

(** A successful match ran the rest of the pattern further on in the
    input; a pattern without groups hands the captures on as they were. *)
Lemma starLoop_sound (body : mstate → captures → cont → mresult) (clears : bool) g k fuel :
  (∀ st c k' res, body st c k' = Some res →
     ∃ st' c', advances st st' ∧ k' st' c' = Some res ∧ (clears = false → c' = c)) →
  ∀ st c res,
    starLoop body g k fuel st c = Some res →
    ∃ st' c', advances st st' ∧ k st' c' = Some res ∧ (clears = false → c' = c).
Proof.
  intros Hbody. induction fuel as [|fuel IH]; intros st c res; cbn [starLoop].
  - intros H. exists st, c. split_and!; [apply advances_refl | done | done].
  - assert (Hexit : k st c = Some res →
      ∃ st' c', advances st st' ∧ k st' c' = Some res ∧ (clears = false → c' = c)).
    { intros H. exists st, c. split_and!; [apply advances_refl | done | done]. }
    assert (Hiter :
      body st c (fun st' c' =>
        if st'.1 =? st.1 then None else starLoop body g k fuel st' c') = Some res →
      ∃ st' c', advances st st' ∧ k st' c' = Some res ∧ (clears = false → c' = c)).
    { intros (st1 & c1 & Hadv1 & H1 & Hc1)%Hbody.
      destruct (st1.1 =? st.1); [done |].
      apply IH in H1 as (st2 & c2 & Hadv2 & H2 & Hc2).
      exists st2, c2. split_and!; [by eapply advances_trans | done |].
      intros Hcl. by rewrite Hc2, Hc1. }
    destruct g; intros [H | [_ H]]%orelse_Some; auto.
Qed.

Lemma m_sound r st c k res :
  m r st c k = Some res →
  ∃ st' c', advances st st' ∧ k st' c' = Some res ∧ (groupsOf r = [] → c' = c).
Proof.
  revert st c k res.
  induction r as [| a | p | | | r1 IH1 r2 IH2 | r1 IH1 r2 IH2 | g r IH | n r IH];
    intros st c k res; cbn [m groupsOf].
  - intros H. exists st, c. split_and!; [apply advances_refl | done | done].
  - destruct st as [i [|x rest]]; cbn [fst snd]; [done |]. destruct (x =? a)%N; [| done].
    intros H. exists (S i, rest), c. split_and!; [| done | done].
    split; cbn [fst snd length]; lia.
  - destruct st as [i [|x rest]]; cbn [fst snd]; [done |]. destruct (p x); [| done].
    intros H. exists (S i, rest), c. split_and!; [| done | done].
    split; cbn [fst snd length]; lia.
  - destruct (st.1 =? 0); [| done].
    intros H. exists st, c. split_and!; [apply advances_refl | done | done].
  - destruct (st.2) eqn:E; [| done].
    intros H. exists st, c. split_and!; [apply advances_refl | done | done].
  - intros (st1 & c1 & Hadv1 & H1 & Hc1)%IH1.
    apply IH2 in H1 as (st2 & c2 & Hadv2 & H2 & Hc2).
    exists st2, c2. split_and!; [by eapply advances_trans | done |].
    intros [E1 E2]%app_eq_nil. by rewrite Hc2, Hc1.
  - intros [H | [_ H]]%orelse_Some.
    + apply IH1 in H as (st1 & c1 & ? & ? & Hc1). exists st1, c1.
      split_and!; [done | done |]. intros [E1 E2]%app_eq_nil. auto.
    + apply IH2 in H as (st1 & c1 & ? & ? & Hc1). exists st1, c1.
      split_and!; [done | done |]. intros [E1 E2]%app_eq_nil. auto.
  - intros H.
    apply (starLoop_sound _ (negb (bool_decide (groupsOf r = [])))) in H
      as (st' & c' & ? & ? & Hc').
    + exists st', c'. split_and!; [done | done |]. intros Hg. apply Hc'.
      by rewrite bool_decide_eq_true_2.
    + intros st0 c0 k' res0 (st1 & c1 & ? & ? & Hc1)%IH. exists st1, c1.
      split_and!; [done | done |]. intros Hcl%negb_false_iff%bool_decide_eq_true.
      rewrite Hc1 by done. by rewrite Hcl.
  - intros (st1 & c1 & ? & ? & _)%IH. eexists st1, _. split_and!; [done | done | done].
Qed.

(** *** Patterns without an anchor *)

Lemma shifted_Some d res res' :
  shifted d res = Some res' → ∃ st c, res = Some (st, c) ∧ res' = ((st.1 + d, st.2), c).
Proof. destruct res as [[st c] |]; [| done]. intros [= <-]. by exists st, c. Qed.

Lemma starLoop_shift d (body : mstate → captures → cont → mresult) g fuel :
  (∀ st c k k',
     (∀ st' c', k' (st'.1 + d, st'.2) c' = shifted d (k st' c')) →
     body (st.1 + d, st.2) c k' = shifted d (body st c k)) →
  ∀ st c k k',
    (∀ st' c', k' (st'.1 + d, st'.2) c' = shifted d (k st' c')) →
    starLoop body g k' fuel (st.1 + d, st.2) c = shifted d (starLoop body g k fuel st c).
Proof.
  intros Hbody. induction fuel as [|fuel IH]; intros st c k k' Hk; cbn [starLoop].
  - apply Hk.
  - erewrite (Hbody st c
               (fun (st' : mstate) (c' : captures) =>
                  if st'.1 =? st.1 then None else starLoop body g k fuel st' c')); cycle 1.
    { intros st' c'. cbn [fst snd].
      destruct (Nat.eqb_spec (st'.1 + d) (st.1 + d)) as [E | E],
               (Nat.eqb_spec st'.1 st.1) as [E' | E']; try lia; [done |].
      by apply IH. }
    rewrite Hk. destruct g.
    + by destruct (body st c _) as [[[??]?] |].
    + by destruct (k st c) as [[[??]?] |].
Qed.

Lemma m_shift d r :
  anchorFree r = true →
  ∀ st c k k',
    (∀ st' c', k' (st'.1 + d, st'.2) c' = shifted d (k st' c')) →
    m r (st.1 + d, st.2) c k' = shifted d (m r st c k).
Proof.
  induction r as [| a | p | | | r1 IH1 r2 IH2 | r1 IH1 r2 IH2 | g r IH | n r IH];
    cbn [anchorFree]; intros Hfree st c k k' Hk; cbn [m fst snd].
  - apply Hk.
  - destruct st as [i [|x rest]]; cbn [fst snd]; [done |]. destruct (x =? a)%N; [| done].
    apply (Hk (S i, rest)).
  - destruct st as [i [|x rest]]; cbn [fst snd]; [done |]. destruct (p x); [| done].
    apply (Hk (S i, rest)).
  - done.
  - destruct st as [i [|x rest]]; cbn [fst snd]; [apply (Hk (i, [])) | done].
  - apply andb_true_iff in Hfree as [H1 H2].
    apply IH1; [done |]. intros st' c'. by apply IH2.
  - apply andb_true_iff in Hfree as [H1 H2].
    rewrite (IH1 H1 st c k k' Hk), (IH2 H2 st c k k' Hk).
    by destruct (m r1 st c k) as [[[??]?] |].
  - apply (starLoop_shift d (fun st' c' k0 => m r st' (clearGroups (groupsOf r) c') k0));
      [| done].
    intros st0 c0 k0 k0' Hk0. by apply IH.
  - apply IH; [done |]. intros st' c'. cbn [fst snd].
    replace (st'.1 + d - (st.1 + d)) with (st'.1 - st.1) by lia. apply Hk.
Qed.

(** The match at an index is the match at index 0, moved. *)
Lemma matchAt_shift re i s :
  anchorFree (pattern re) = true →
  matchAt re i s
  = (fun r => mkMatch (index r + i) (matched r) (groups r)) <$> matchAt re 0 s.
Proof.
  intros Hfree. unfold matchAt.
  rewrite (m_shift i _ Hfree (0, s) _ (fun st c => Some (st, c)) (fun st c => Some (st, c)));
    [| by intros [??] ?].
  destruct (m (pattern re) (0, s) _ _) as [[[j s'] c] |]; [| done].
  cbn [shifted fst snd fmap option_fmap option_map index matched groups]. f_equal. f_equal.
  f_equal; lia.
Qed.

(** *** Global replacement *)

Lemma replaceAllFrom_nil re f subject i skip :
  matchAt re i [] = None → replaceAllFrom re f subject i skip [] = [].
Proof. intros H. destruct skip; cbn [replaceAllFrom]; [by rewrite H | done]. Qed.

Lemma replaceAllFrom_skip re f subject i a rest :
  replaceAllFrom re f subject i (length a) (a ++ rest)
  = replaceAllFrom re f subject (i + length a) 0 rest.
Proof.
  revert i. induction a as [|x a IH]; intros i; cbn [length app].
  - by rewrite Nat.add_0_r.
  - cbn [replaceAllFrom]. rewrite IH. f_equal. lia.
Qed.

Lemma replaceAllFrom_keep re f subject i x s :
  matchAt re i (x :: s) = None →
  replaceAllFrom re f subject i 0 (x :: s) = x :: replaceAllFrom re f subject (S i) 0 s.
Proof. intros H. cbn [replaceAllFrom]. by rewrite H. Qed.

Lemma replaceAllFrom_match re f subject i x mt rest r :
  matchAt re i (x :: mt ++ rest) = Some r → matched r = x :: mt →
  replaceAllFrom re f subject i 0 (x :: mt ++ rest)
  = f r subject ++ replaceAllFrom re f subject (i + S (length mt)) 0 rest.
Proof.
  intros H Hm. cbn [replaceAllFrom]. rewrite H, Hm. cbn [length].
  rewrite replaceAllFrom_skip. do 2 f_equal. lia.
Qed.

(** A callback that does not look at the index gives the same text
    wherever the count of indices starts. *)
Lemma replaceAllFrom_shift re f :
  anchorFree (pattern re) = true → indexBlind f →
  ∀ s subject subject' i j skip,
    replaceAllFrom re f subject i skip s = replaceAllFrom re f subject' j skip s.
Proof.
  intros Hfree Hf. induction s as [|x s IH]; intros subject subject' i j skip.
  - destruct skip; cbn [replaceAllFrom]; [| done].
    rewrite (matchAt_shift re i), (matchAt_shift re j) by done.
    destruct (matchAt re 0 []) as [r |]; [| done].
    cbn [fmap option_fmap option_map]. f_equal. by apply Hf.
  - destruct skip as [|skip]; cbn [replaceAllFrom]; [| apply IH].
    rewrite (matchAt_shift re i), (matchAt_shift re j) by done.
    destruct (matchAt re 0 (x :: s)) as [r |]; cbn [fmap option_fmap option_map matched].
    + f_equal; [by apply Hf |]. destruct (length (matched r)); [f_equal |]; apply IH.
    + f_equal. apply IH.
Qed.

Lemma dropComment_indexBlind : indexBlind dropComment.
Proof. intros r subject r' subject' Hm Hg. unfold dropComment, group. by rewrite Hm, Hg. Qed.

Lemma dropComma_indexBlind : indexBlind dropComma.
Proof. intros r subject r' subject' Hm Hg. unfold dropComma, group. by rewrite Hm, Hg. Qed.

Lemma withoutComments_from subject i s :
  replaceAllFrom commentPattern dropComment subject i 0 s = withoutComments s.
Proof.
  unfold withoutComments, replace. cbn [global commentPattern].
  by apply replaceAllFrom_shift; [| apply dropComment_indexBlind].
Qed.

Lemma withoutTrailingCommas_from subject i s :
  replaceAllFrom trailingCommaPattern dropComma subject i 0 s = withoutTrailingCommas s.
Proof.
  unfold withoutTrailingCommas, replace. cbn [global trailingCommaPattern].
  by apply replaceAllFrom_shift; [| apply dropComma_indexBlind].
Qed.

Lemma stripJsonComments_passes json :
  stripJsonComments json = withoutTrailingCommas (withoutComments json).
Proof. reflexivity. Qed.

(** ** The two patterns of the stripper, unit by unit *)

Lemma escapedQuote_unit i x s c k :
  x ≠ BACKSLASH → m escapedQuote (i, x :: s) c k = None.
Proof. intros Hx. cbn [m escapedQuote fst snd]. by case_eqb. Qed.

Lemma quotedString_unit i x s c k :
  x ≠ DQUOTE → m quotedString (i, x :: s) c k = None.
Proof. intros Hx. cbn [m quotedString fst snd]. by case_eqb. Qed.

Lemma commentPattern_nil i : matchAt commentPattern i [] = None.
Proof. reflexivity. Qed.

Lemma trailingCommaPattern_nil i : matchAt trailingCommaPattern i [] = None.
Proof. reflexivity. Qed.

(** No alternative of the comment pattern starts at a unit that is not a
    backslash, a double quote or a slash. *)
Lemma commentPattern_unit i x s :
  x ≠ DQUOTE → x ≠ BACKSLASH → x ≠ SLASH → matchAt commentPattern i (x :: s) = None.
Proof.
  intros Hq Hb Hs. apply matchAt_None. intros c k. cbn [pattern commentPattern].
  apply m_Alt_None; [by apply escapedQuote_unit |].
  apply m_Alt_None; [by apply quotedString_unit |].
  cbn [m fst snd]. by case_eqb.
Qed.

Lemma trailingCommaPattern_unit i x s :
  x ≠ DQUOTE → x ≠ BACKSLASH → x ≠ COMMA → matchAt trailingCommaPattern i (x :: s) = None.
Proof.
  intros Hq Hb Hs. apply matchAt_None. intros c k. cbn [pattern trailingCommaPattern].
  apply m_Alt_None; [by apply escapedQuote_unit |].
  apply m_Alt_None; [by apply quotedString_unit |].
  cbn [m fst snd]. by case_eqb.
Qed.

Lemma isCloser_spec c : isCloser c = true ↔ c = RBRACE ∨ c = RBRACKET.
Proof. unfold isCloser. by rewrite orb_true_iff, !N.eqb_eq. Qed.

Lemma isCloser_anyOf c : anyOf [RBRACE; RBRACKET] c = isCloser c.
Proof. unfold anyOf, isCloser. cbn [existsb]. by rewrite orb_false_r. Qed.

Lemma isCloser_not_whiteSpace c : isCloser c = true → isWhiteSpace c = false.
Proof. intros [-> | ->]%isCloser_spec; reflexivity. Qed.

(** A comma that no closing brace or bracket follows stays. *)
Lemma trailingCommaPattern_comma_stays i s :
  closesAfterWhiteSpace s = false → matchAt trailingCommaPattern i (COMMA :: s) = None.
Proof.
  intros Hs. apply matchAt_None. intros c k. cbn [pattern trailingCommaPattern].
  apply m_Alt_None; [by apply escapedQuote_unit |].
  apply m_Alt_None; [by apply quotedString_unit |].
  cbn [m fst snd groupsOf N.eqb Pos.eqb COMMA].
  match goal with |- ?o = None => destruct o eqn:E end; [| done].
  exfalso. apply starLoop_class_sound in E as (n & Hn & Hall & Hk).
  cbn [fst snd] in Hk.
  destruct (drop n s) as [|x post] eqn:Hd; [done |].
  destruct (anyOf [RBRACE; RBRACKET] x) eqn:Hx; [| done].
  rewrite isCloser_anyOf in Hx. apply isCloser_spec in Hx.
  assert (closesAfterWhiteSpace s = true); [| congruence].
  apply closesAfterWhiteSpace_spec. exists (take n s), x, post. split_and!.
  - by rewrite <- Hd, take_drop.
  - apply Forall_forall. intros y Hy. rewrite forallb_forall in Hall.
    apply Hall. by apply list_elem_of_In.
  - done.
Qed.

(** A comma before a closing brace or bracket is matched with the white
    space and the closer, which are captured. *)
Lemma trailingCommaPattern_comma_goes i ws x rest :
  allWhiteSpace ws → isCloser x = true →
  matchAt trailingCommaPattern i (COMMA :: ws ++ x :: rest)
  = Some (mkMatch i (COMMA :: ws ++ [x]) [Some [COMMA]; Some (ws ++ [x])]).
Proof.
  intros Hws Hx. unfold matchAt. cbn [pattern trailingCommaPattern ngroups replicate].
  cbn [m]. rewrite escapedQuote_unit by done. rewrite quotedString_unit by done.
  cbn [m fst snd N.eqb Pos.eqb COMMA]. fold COMMA.
  rewrite (starLoop_class_greedy isWhiteSpace _ _ (S i) ws (x :: rest) _
             ((S i + length ws + 1, rest),
              [Some [COMMA]; Some (ws ++ [x])])).
  - cbn [fst snd]. do 2 f_equal.
    replace (S i + length ws + 1 - i) with (S (length ws + 1)) by lia.
    rewrite firstn_cons. f_equal.
    replace (ws ++ x :: rest) with ((ws ++ [x]) ++ rest) by (by rewrite <- app_assoc).
    rewrite take_app_length'; [done |]. rewrite length_app. cbn. lia.
  - rewrite length_app. cbn [length]. lia.
  - by apply allWhiteSpace_forallb.
  - by apply isCloser_not_whiteSpace.
  - cbn [m fst snd]. rewrite isCloser_anyOf, Hx. cbn [fst snd].
    replace (S i - i) with 1 by lia. rewrite firstn_cons, take_0.
    replace (S (S i + length ws) - S i) with (length ws + 1) by lia.
    replace (ws ++ x :: rest) with ((ws ++ [x]) ++ rest) by (by rewrite <- app_assoc).
    rewrite take_app_length' by (rewrite length_app; cbn; lia).
    do 3 f_equal. lia.
Qed.

(** *** Literals *)

(** *** Literals and comments *)

(** The quantifier of the literal alternative runs over a body that the
    patterns read as one literal, up to the closing quote. *)
Lemma starLoop_literal (K : cont) rest res fuel :
  ∀ body prev i c,
    length body ≤ fuel →
    literalBody prev body = true →
    (prev = BACKSLASH → head body ≠ Some DQUOTE) →
    K (i + length body, DQUOTE :: rest) c = Some res →
    starLoop literalStep true K fuel (i, body ++ DQUOTE :: rest) c = Some res.
Proof.
  induction fuel as [|fuel IH]; intros body prev i c Hlen Hlit Hprev Hk.
  { destruct body; [| cbn in Hlen; lia]. cbn [starLoop app length] in *.
    by rewrite Nat.add_0_r in Hk. }
  destruct body as [|x body].
  { cbn [starLoop app length] in *. unfold literalStep at 1.
    cbn [m fst snd clearGroups foldr]. rewrite Nat.add_0_r in Hk.
    change (DQUOTE =? BACKSLASH)%N with false.
    change (noneOf [DQUOTE] DQUOTE) with false. done. }
  cbn [literalBody] in Hlit. apply andb_true_iff in Hlit as [Hx Hlit].
  cbn [length] in Hlen, Hk.
  cbn [starLoop app]. unfold literalStep at 1. cbn [m fst snd clearGroups foldr].
  destruct (N.eqb_spec x BACKSLASH) as [-> | Hnb].
  - destruct body as [|d body].
    { cbn [literalBody] in Hlit. by rewrite N.eqb_refl in Hlit. }
    cbn [app]. destruct (N.eqb_spec d DQUOTE) as [-> | Hnq].
    + replace (S (S i) =? i) with false by (symmetry; apply Nat.eqb_neq; lia).
      cbn [literalBody] in Hlit. apply andb_true_iff in Hlit as [_ Hlit].
      rewrite (IH body DQUOTE (S (S i)) c); [done | cbn [length] in Hlen; lia | done | done |].
      rewrite <- Hk. cbn [length]. do 2 f_equal. lia.
    + change (noneOf [DQUOTE] BACKSLASH) with true. cbn match.
      replace (S i =? i) with false by (symmetry; apply Nat.eqb_neq; lia).
      assert (starLoop literalStep true K fuel (S i, (d :: body) ++ DQUOTE :: rest) c
              = Some res) as HI.
      { apply (IH (d :: body) BACKSLASH (S i) c); [lia | done | |].
        - intros _ [= ->]. done.
        - rewrite <- Hk. do 2 f_equal. lia. }
      cbn [app] in HI. by rewrite HI.
  - destruct (N.eqb_spec x DQUOTE) as [-> | Hnq].
    { cbn [negb orb] in Hx. apply N.eqb_eq in Hx. destruct (Hprev Hx). done. }
    unfold noneOf. cbn [existsb]. rewrite (proj2 (N.eqb_neq x DQUOTE)) by done.
    cbn [orb negb].
    replace (S i =? i) with false by (symmetry; apply Nat.eqb_neq; lia).
    rewrite (IH body x (S i) c); [done | lia | done | done |].
    rewrite <- Hk. do 2 f_equal. lia.
Qed.

Lemma quotedString_literal i body rest c k res :
  literalBody DQUOTE body = true →
  k (i + S (S (length body)), rest) c = Some res →
  m quotedString (i, DQUOTE :: body ++ DQUOTE :: rest) c k = Some res.
Proof.
  intros Hlit Hk. unfold quotedString. rewrite m_Seq, m_Char, N.eqb_refl, m_Seq.
  change (m (Star true ?r) ?st ?c ?k')
    with (starLoop (fun st' c' k0 => m r st' (clearGroups (groupsOf r) c') k0)
            true k' (S (length st.2)) st c).
  apply (starLoop_literal _ rest res _ body DQUOTE (S i) c).
  - cbn [snd]. rewrite length_app. lia.
  - done.
  - done.
  - rewrite m_Char, N.eqb_refl. rewrite <- Hk. do 2 f_equal. lia.
Qed.

(** Both patterns match a literal whole, and capture nothing. *)
Lemma commentPattern_literal i lit rest :
  literal lit →
  matchAt commentPattern i (lit ++ rest) = Some (mkMatch i lit [None]).
Proof.
  intros (body & -> & Hlit). unfold matchAt.
  cbn [pattern commentPattern ngroups replicate app]. rewrite <- app_assoc. cbn [app].
  cbn [m]. rewrite escapedQuote_unit by done.
  rewrite (quotedString_literal i body rest _ _ ((i + S (S (length body)), rest), [None]))
    by done.
  cbn [fst snd]. do 2 f_equal.
  replace (i + S (S (length body)) - i) with (S (length body + 1)) by lia.
  rewrite firstn_cons. f_equal.
  replace (body ++ DQUOTE :: rest) with ((body ++ [DQUOTE]) ++ rest) by (by rewrite <- app_assoc).
  apply take_app_length'. rewrite length_app. cbn. lia.
Qed.

Lemma trailingCommaPattern_literal i lit rest :
  literal lit →
  matchAt trailingCommaPattern i (lit ++ rest) = Some (mkMatch i lit [None; None]).
Proof.
  intros (body & -> & Hlit). unfold matchAt.
  cbn [pattern trailingCommaPattern ngroups replicate app]. rewrite <- app_assoc. cbn [app].
  cbn [m]. rewrite escapedQuote_unit by done.
  rewrite (quotedString_literal i body rest _ _
             ((i + S (S (length body)), rest), [None; None])) by done.
  cbn [fst snd]. do 2 f_equal.
  replace (i + S (S (length body)) - i) with (S (length body + 1)) by lia.
  rewrite firstn_cons. f_equal.
  replace (body ++ DQUOTE :: rest) with ((body ++ [DQUOTE]) ++ rest) by (by rewrite <- app_assoc).
  apply take_app_length'. rewrite length_app. cbn. lia.
Qed.

(** A line comment is matched up to the line terminator, and captured. *)
Lemma commentPattern_line i body rest :
  lineCommentBody body rest →
  matchAt commentPattern i (SLASH :: SLASH :: body ++ rest)
  = Some (mkMatch i (SLASH :: SLASH :: body) [Some (SLASH :: SLASH :: body)]).
Proof.
  intros [Hbody Hrest]. unfold matchAt. cbn [pattern commentPattern ngroups replicate].
  cbn [m]. rewrite escapedQuote_unit by done. rewrite quotedString_unit by done.
  cbn [m fst snd N.eqb Pos.eqb SLASH]. fold SLASH.
  rewrite (starLoop_class_greedy dot _ _ (S (S i)) body rest _
             ((S (S i) + length body, rest), [Some (SLASH :: SLASH :: body)])).
  - cbn [fst snd]. do 2 f_equal.
    replace (S (S i) + length body - i) with (S (S (length body))) by lia.
    rewrite !firstn_cons. do 2 f_equal. by apply take_app_length'.
  - rewrite length_app. lia.
  - done.
  - destruct rest as [|x rest]; [done |]. unfold dot. by rewrite Hrest.
  - cbn [fst snd].
    replace (S (S i) + length body - i) with (S (S (length body))) by lia.
    rewrite !firstn_cons. by rewrite take_app_length' by done.
Qed.

(** A lazy quantifier over a class stops at the first place where the rest
    of the pattern matches. *)
Lemma starLoop_class_lazy p k fuel i ws rest c res :
  length ws ≤ fuel →
  forallb p ws = true →
  (∀ j, j < length ws → k (i + j, drop j (ws ++ rest)) c = None) →
  k (i + length ws, rest) c = Some res →
  starLoop (classBody p) false k fuel (i, ws ++ rest) c = Some res.
Proof.
  revert fuel i. induction ws as [|x ws IH]; intros fuel i Hfuel Hall Hnot Hk.
  - cbn [length app] in *. rewrite Nat.add_0_r in Hk.
    destruct fuel as [|fuel]; cbn [starLoop]; by rewrite Hk.
  - cbn [forallb] in Hall. apply andb_true_iff in Hall as [Hx Hall].
    cbn [length] in Hk, Hfuel, Hnot.
    destruct fuel as [|fuel]; [lia |]. cbn [starLoop app].
    pose proof (Hnot 0 ltac:(lia)) as H0. rewrite Nat.add_0_r in H0. cbn [drop app] in H0.
    rewrite H0. unfold classBody at 1. cbn [m fst snd clearGroups foldr]. rewrite Hx.
    replace (S i =? i) with false by (symmetry; apply Nat.eqb_neq; lia).
    apply IH; [lia | done | |].
    + intros j Hj. specialize (Hnot (S j) ltac:(lia)). cbn [drop app] in Hnot.
      by replace (S i + j) with (i + S j) by lia.
    + by replace (S i + length ws) with (i + S (length ws)) by lia.
Qed.

Lemma anyUnit_all body : forallb anyUnit body = true.
Proof.
  induction body as [|x body IH]; [done |]. cbn [forallb]. rewrite IH.
  unfold anyUnit. by destruct (isWhiteSpace x).
Qed.

(** A block comment is matched up to the first closing pair, and
    captured. *)
Lemma commentPattern_block i body rest :
  ¬ hasInfix [ASTERISK; SLASH] body →
  matchAt commentPattern i (SLASH :: ASTERISK :: body ++ ASTERISK :: SLASH :: rest)
  = Some (mkMatch i (SLASH :: ASTERISK :: body ++ [ASTERISK; SLASH])
            [Some (SLASH :: ASTERISK :: body ++ [ASTERISK; SLASH])]).
Proof.
  intros Hbody. unfold matchAt. cbn [pattern commentPattern ngroups replicate].
  cbn [m]. rewrite escapedQuote_unit by done. rewrite quotedString_unit by done.
  cbn [m fst snd N.eqb Pos.eqb SLASH ASTERISK]. fold SLASH ASTERISK.
  assert (Htake : take (S (S (length body + 2)))
                    (SLASH :: ASTERISK :: body ++ ASTERISK :: SLASH :: rest)
                  = SLASH :: ASTERISK :: body ++ [ASTERISK; SLASH]).
  { rewrite !firstn_cons. do 2 f_equal.
    replace (body ++ ASTERISK :: SLASH :: rest) with ((body ++ [ASTERISK; SLASH]) ++ rest)
      by (by rewrite <- app_assoc).
    apply take_app_length'. rewrite length_app. cbn. lia. }
  rewrite (starLoop_class_lazy anyUnit _ _ (S (S i)) body (ASTERISK :: SLASH :: rest) _
             ((S (S i) + length body + 2, rest),
              [Some (SLASH :: ASTERISK :: body ++ [ASTERISK; SLASH])])).
  - cbn [fst snd]. do 2 f_equal.
    replace (S (S i) + length body + 2 - i) with (S (S (length body + 2))) by lia. done.
  - rewrite length_app. lia.
  - apply anyUnit_all.
  - intros j Hj. rewrite drop_app_le by lia.
    destruct (drop j body) as [|y [|z t]] eqn:Hd.
    + apply (f_equal length) in Hd. rewrite length_drop in Hd. cbn in Hd. lia.
    + cbn [app m fst snd]. destruct (y =? ASTERISK)%N; [| done]. done.
    + cbn [app m fst snd]. destruct (N.eqb_spec y ASTERISK) as [-> |]; [| done].
      destruct (N.eqb_spec z SLASH) as [-> |]; [| done].
      destruct Hbody. apply (hasInfix_drop _ _ j). rewrite Hd. by exists t.
  - cbn [m fst snd]. rewrite !N.eqb_refl. cbn [fst snd].
    replace (S (S (S (S i) + length body)) - i) with (S (S (length body + 2))) by lia.
    rewrite Htake. cbn. do 3 f_equal. lia.
Qed.

(** ** The passes of the stripper as equations *)

Lemma withoutComments_nil : withoutComments [] = [].
Proof. reflexivity. Qed.

Lemma withoutTrailingCommas_nil : withoutTrailingCommas [] = [].
Proof. reflexivity. Qed.

Lemma withoutComments_keep x s :
  matchAt commentPattern 0 (x :: s) = None →
  withoutComments (x :: s) = x :: withoutComments s.
Proof.
  intros H. unfold withoutComments at 1, replace. cbn [global commentPattern].
  fold commentPattern. rewrite replaceAllFrom_keep by done. by rewrite withoutComments_from.
Qed.

Lemma withoutTrailingCommas_keep x s :
  matchAt trailingCommaPattern 0 (x :: s) = None →
  withoutTrailingCommas (x :: s) = x :: withoutTrailingCommas s.
Proof.
  intros H. unfold withoutTrailingCommas at 1, replace. cbn [global trailingCommaPattern].
  fold trailingCommaPattern. rewrite replaceAllFrom_keep by done.
  by rewrite withoutTrailingCommas_from.
Qed.

Lemma withoutComments_match x mt rest r :
  matchAt commentPattern 0 (x :: mt ++ rest) = Some r → matched r = x :: mt →
  withoutComments (x :: mt ++ rest) = dropComment r (x :: mt ++ rest) ++ withoutComments rest.
Proof.
  intros H Hm. unfold withoutComments at 1, replace. cbn [global commentPattern].
  fold commentPattern. rewrite (replaceAllFrom_match _ _ _ _ _ _ _ r) by done.
  by rewrite withoutComments_from.
Qed.

Lemma withoutTrailingCommas_match x mt rest r :
  matchAt trailingCommaPattern 0 (x :: mt ++ rest) = Some r → matched r = x :: mt →
  withoutTrailingCommas (x :: mt ++ rest)
  = dropComma r (x :: mt ++ rest) ++ withoutTrailingCommas rest.
Proof.
  intros H Hm. unfold withoutTrailingCommas at 1, replace. cbn [global trailingCommaPattern].
  fold trailingCommaPattern. rewrite (replaceAllFrom_match _ _ _ _ _ _ _ r) by done.
  by rewrite withoutTrailingCommas_from.
Qed.

Lemma outside_cons x p :
  outside (x :: p) ↔ (x ≠ DQUOTE ∧ x ≠ BACKSLASH ∧ x ≠ SLASH) ∧ outside p.
Proof.
  unfold outside. rewrite Forall_cons, !not_elem_of_cons.
  split; [intros [(? & ? & ? & _) ?] | intros [(? & ? & ?) ?]]; split_and!; try done.
  apply not_elem_of_nil.
Qed.

(** Text outside literals and comments is kept by the first pass, and the
    pass goes on behind it. *)
Lemma withoutComments_outside p rest :
  outside p → withoutComments (p ++ rest) = p ++ withoutComments rest.
Proof.
  induction p as [|x p IH]; [done |]. intros [(? & ? & ?) Hp]%outside_cons. cbn [app].
  rewrite withoutComments_keep by (by apply commentPattern_unit). by rewrite IH.
Qed.

Lemma withoutComments_literal lit rest :
  literal lit → withoutComments (lit ++ rest) = lit ++ withoutComments rest.
Proof.
  intros Hlit. pose proof (commentPattern_literal 0 lit rest Hlit) as Hm.
  destruct Hlit as (body & -> & Hbody). cbn [app] in *.
  by rewrite (withoutComments_match _ _ _ _ Hm).
Qed.

Lemma withoutTrailingCommas_literal lit rest :
  literal lit → withoutTrailingCommas (lit ++ rest) = lit ++ withoutTrailingCommas rest.
Proof.
  intros Hlit. pose proof (trailingCommaPattern_literal 0 lit rest Hlit) as Hm.
  destruct Hlit as (body & -> & Hbody). cbn [app] in *.
  by rewrite (withoutTrailingCommas_match _ _ _ _ Hm).
Qed.

Lemma withoutComments_line body rest :
  lineCommentBody body rest →
  withoutComments (SLASH :: SLASH :: body ++ rest) = withoutComments rest.
Proof.
  intros Hbody. pose proof (commentPattern_line 0 body rest Hbody) as Hm.
  change (SLASH :: SLASH :: body ++ rest) with (SLASH :: (SLASH :: body) ++ rest) in *.
  by rewrite (withoutComments_match _ _ _ _ Hm).
Qed.

Lemma withoutComments_block body rest :
  ¬ hasInfix [ASTERISK; SLASH] body →
  withoutComments (SLASH :: ASTERISK :: body ++ ASTERISK :: SLASH :: rest)
  = withoutComments rest.
Proof.
  intros Hbody. pose proof (commentPattern_block 0 body rest Hbody) as Hm.
  replace (SLASH :: ASTERISK :: body ++ ASTERISK :: SLASH :: rest)
    with (SLASH :: (ASTERISK :: body ++ [ASTERISK; SLASH]) ++ rest) in *
    by (cbn [app]; by rewrite <- app_assoc).
  by rewrite (withoutComments_match _ _ _ _ Hm).
Qed.

Lemma withoutTrailingCommas_comma_goes ws x rest :
  allWhiteSpace ws → isCloser x = true →
  withoutTrailingCommas (COMMA :: ws ++ x :: rest) = ws ++ x :: withoutTrailingCommas rest.
Proof.
  intros Hws Hx. pose proof (trailingCommaPattern_comma_goes 0 ws x rest Hws Hx) as Hm.
  replace (COMMA :: ws ++ x :: rest) with (COMMA :: (ws ++ [x]) ++ rest) in *
    by (by rewrite <- app_assoc).
  rewrite (withoutTrailingCommas_match _ _ _ _ Hm) by done.
  unfold dropComma, group. cbn. by rewrite <- app_assoc.
Qed.

Lemma closesAfterWhiteSpace_app p X :
  match X with x :: _ => isWhiteSpace x = false ∧ isCloser x = false | [] => True end →
  closesAfterWhiteSpace (p ++ X) = closesAfterWhiteSpace p.
Proof.
  intros HX. induction p as [|y p IH]; cbn [app closesAfterWhiteSpace].
  - destruct X as [|x X]; [done |]. destruct HX as [Hws HX]. cbn [closesAfterWhiteSpace].
    rewrite Hws. exact HX.
  - by rewrite IH.
Qed.

(** The second pass works on a text without literals piece by piece, when
    the next piece cannot close a comma of this one. *)
Lemma withoutTrailingCommas_app p X :
  Forall (fun c => c ≠ DQUOTE ∧ c ≠ BACKSLASH) p →
  match X with x :: _ => isWhiteSpace x = false ∧ isCloser x = false | [] => True end →
  withoutTrailingCommas (p ++ X) = withoutTrailingCommas p ++ withoutTrailingCommas X.
Proof.
  intros Hp HX.
  assert (∀ n p, length p ≤ n → Forall (fun c => c ≠ DQUOTE ∧ c ≠ BACKSLASH) p →
            withoutTrailingCommas (p ++ X)
            = withoutTrailingCommas p ++ withoutTrailingCommas X) as Hn;
    [| by apply (Hn (length p))].
  clear p Hp. induction n as [|n IH]; intros p Hlen Hp.
  { destruct p; [done | cbn in Hlen; lia]. }
  destruct p as [|x p]; [done |]. cbn [length] in Hlen.
  apply Forall_cons in Hp as [[Hq Hb] Hp]. cbn [app].
  destruct (N.eqb_spec x COMMA) as [-> | Hc]; cycle 1.
  { rewrite !withoutTrailingCommas_keep by (by apply trailingCommaPattern_unit).
    cbn [app]. f_equal. apply IH; [lia | done]. }
  destruct (closesAfterWhiteSpace p) eqn:Hcl.
  - apply closesAfterWhiteSpace_spec in Hcl as (ws & c & post & -> & Hws & Hc%isCloser_spec).
    rewrite <- app_assoc. cbn [app]. rewrite !withoutTrailingCommas_comma_goes by done.
    rewrite <- app_assoc. cbn [app]. do 2 f_equal. apply IH.
    + rewrite length_app in Hlen. cbn [length] in Hlen. lia.
    + apply Forall_app in Hp as [_ Hp]. by apply Forall_cons in Hp as [_ Hp].
  - rewrite !withoutTrailingCommas_keep.
    + cbn [app]. f_equal. apply IH; [lia | done].
    + by apply trailingCommaPattern_comma_stays.
    + apply trailingCommaPattern_comma_stays. by rewrite closesAfterWhiteSpace_app.
Qed.

Lemma outside_no_quote p : outside p → Forall (fun c => c ≠ DQUOTE ∧ c ≠ BACKSLASH) p.
Proof.
  unfold outside. intros H. eapply Forall_impl; [exact H |].
  intros c Hc. rewrite !not_elem_of_cons in Hc. tauto.
Qed.

Lemma stripJsonComments_outside p :
  outside p → stripJsonComments p = withoutTrailingCommas p.
Proof.
  intros Hp. rewrite stripJsonComments_passes.
  rewrite <- (app_nil_r p) at 1. by rewrite withoutComments_outside, app_nil_r.
Qed.

(** ** What the stripper does to a text, piece by piece *)

(** X1: a string literal that follows text outside literals and comments is
    kept as it is, whatever it holds (comment openers, commas before closers),
    and the text after it is stripped on its own. *)
Theorem stripJsonComments_keeps_literal p lit rest :
  outside p → literal lit →
  stripJsonComments (p ++ lit ++ rest)
  = stripJsonComments p ++ lit ++ stripJsonComments rest.
Proof.
  intros Hp Hlit. rewrite (stripJsonComments_outside p) by done.
  rewrite !stripJsonComments_passes.
  rewrite withoutComments_outside, withoutComments_literal by done.
  rewrite withoutTrailingCommas_app.
  - by rewrite withoutTrailingCommas_literal.
  - by apply outside_no_quote.
  - destruct Hlit as (body & -> & _). by cbn.
Qed.

(** X2: a line comment that follows text outside literals and comments is
    deleted up to the line terminator or the end of the text: the text is
    stripped as if the comment were not there. *)
Theorem stripJsonComments_line_comment p body rest :
  outside p → lineCommentBody body rest →
  stripJsonComments (p ++ SLASH :: SLASH :: body ++ rest) = stripJsonComments (p ++ rest).
Proof.
  intros Hp Hbody. rewrite !stripJsonComments_passes.
  by rewrite !withoutComments_outside, withoutComments_line.
Qed.

(** X3: a block comment that follows text outside literals and comments is
    deleted up to its first closing pair: the text is stripped as if the
    comment were not there. *)
Theorem stripJsonComments_block_comment p body rest :
  outside p → ¬ hasInfix [ASTERISK; SLASH] body →
  stripJsonComments (p ++ SLASH :: ASTERISK :: body ++ ASTERISK :: SLASH :: rest)
  = stripJsonComments (p ++ rest).
Proof.
  intros Hp Hbody. rewrite !stripJsonComments_passes.
  by rewrite !withoutComments_outside, withoutComments_block.
Qed.

(** X4: a comma that only white space separates from a closing brace or
    bracket is dropped; the white space and the closer stay, and the text
    after the closer is stripped on its own. *)
Theorem stripJsonComments_trailing_comma p ws x rest :
  outside p → allWhiteSpace ws → isCloser x = true →
  stripJsonComments (p ++ COMMA :: ws ++ x :: rest)
  = stripJsonComments p ++ ws ++ x :: stripJsonComments rest.
Proof.
  intros Hp Hws Hx. rewrite (stripJsonComments_outside p) by done.
  rewrite !stripJsonComments_passes.
  assert (outside (COMMA :: ws ++ [x])) as Hmid.
  { apply outside_cons. split; [done |]. apply Forall_app. split.
    - eapply Forall_impl; [exact Hws |]. intros c Hc. rewrite !not_elem_of_cons.
      split_and!; try (intros ->; by vm_compute in Hc). apply not_elem_of_nil.
    - apply Forall_singleton. rewrite !not_elem_of_cons.
      apply isCloser_spec in Hx as [-> | ->]; split_and!; try done; apply not_elem_of_nil. }
  rewrite withoutComments_outside by done.
  replace (COMMA :: ws ++ x :: rest) with ((COMMA :: ws ++ [x]) ++ rest)
    by (cbn [app]; by rewrite <- app_assoc).
  rewrite withoutComments_outside by done.
  rewrite withoutTrailingCommas_app; [| by apply outside_no_quote | by cbn].
  f_equal. cbn [app]. rewrite <- app_assoc. cbn [app].
  by rewrite withoutTrailingCommas_comma_goes.
Qed.

(** ** The stripper only deletes *)

Lemma take_length_take {A} n (l : list A) : take (length (take n l)) l = take n l.
Proof.
  rewrite length_take. destruct (Nat.min_spec n (length l)) as [[? ->] | [? ->]]; [done |].
  by rewrite !take_ge by lia.
Qed.

Lemma matchAt_matched re i s r :
  matchAt re i s = Some r → matched r = take (length (matched r)) s.
Proof.
  unfold matchAt. destruct (m _ _ _ _) as [[st c] |]; [| done]. intros [= <-].
  cbn [matched]. by rewrite take_length_take.
Qed.

(** When every replacement is made of units of the match, in their order,
    so is the result of the units of the text. *)
Lemma replaceAllFrom_sublist re f subject :
  (∀ i s r, matchAt re i s = Some r → f r subject `sublist_of` matched r) →
  ∀ s i skip, replaceAllFrom re f subject i skip s `sublist_of` drop skip s.
Proof.
  intros Hf. induction s as [|x s IH]; intros i skip.
  - destruct skip; cbn [replaceAllFrom drop]; [| done].
    destruct (matchAt re i []) as [r |] eqn:Hm; [| done].
    rewrite app_nil_r. pose proof (Hf _ _ _ Hm) as Hsub.
    apply matchAt_matched in Hm. by rewrite Hm, take_nil in Hsub.
  - destruct skip as [|skip]; cbn [replaceAllFrom drop]; [| apply IH].
    destruct (matchAt re i (x :: s)) as [r |] eqn:Hm.
    + pose proof (Hf _ _ _ Hm) as Hsub. apply matchAt_matched in Hm.
      destruct (length (matched r)) as [|n] eqn:Hlen.
      * rewrite Hm in Hsub. cbn [take] in Hsub. apply sublist_nil_r in Hsub as ->.
        cbn [app]. apply sublist_skip. apply (IH (S i) 0).
      * rewrite Hm, firstn_cons in Hsub.
        rewrite <- (take_drop n s) at 2. change (x :: take n s ++ drop n s)
          with ((x :: take n s) ++ drop n s).
        apply sublist_app; [done | apply IH].
    + apply sublist_skip. apply (IH (S i) 0).
Qed.

Lemma dropComment_sublist r subject : dropComment r subject `sublist_of` matched r.
Proof.
  unfold dropComment. destruct (group r 0) as [g |]; [| done].
  destruct (JS.truthy g); [apply sublist_nil_l | done].
Qed.

Lemma m_Alt r1 r2 st c k :
  m (Alt r1 r2) st c k
  = match m r1 st c k with Some res => Some res | None => m r2 st c k end.
Proof. reflexivity. Qed.

Lemma m_Group n r st c k :
  m (Group n r) st c k
  = m r st c (fun st' c' => k st' (<[n := Some (take (st'.1 - st.1) st.2)]> c')).
Proof. reflexivity. Qed.

(** What the comma pattern captures is the part of its match after the
    comma. *)
Lemma dropComma_sublist i s r subject :
  matchAt trailingCommaPattern i s = Some r → dropComma r subject `sublist_of` matched r.
Proof.
  unfold matchAt. cbn [pattern trailingCommaPattern ngroups replicate].
  destruct (m _ _ _ _) as [[st c] |] eqn:Hm; [| done]. intros [= <-].
  rewrite m_Alt in Hm. apply orelse_Some in Hm as [Hm | [_ Hm]].
  { apply m_sound in Hm as (st' & c' & _ & [= <- <-] & Hc). rewrite Hc by done. done. }
  rewrite m_Alt in Hm. apply orelse_Some in Hm as [Hm | [_ Hm]].
  { apply m_sound in Hm as (st' & c' & _ & [= <- <-] & Hc). rewrite Hc by done. done. }
  rewrite m_Seq, m_Group, m_Char in Hm. destruct s as [|x s1]; [done |].
  destruct (N.eqb_spec x COMMA) as [-> |]; [| done].
  rewrite m_Group in Hm.
  apply m_sound in Hm as (st1 & c1 & Hadv1 & Hm & Hc1). rewrite Hc1 in Hm by done.
  cbn [fst snd] in Hm. injection Hm as <- <-.
  destruct Hadv1 as [Hle _]. cbn [fst snd] in *.
  unfold dropComma, group. cbn.
  replace (st1.1 - i) with (S (st1.1 - S i)) by lia. rewrite firstn_cons.
  replace (S i - i) with 1 by lia. cbn. by apply sublist_cons.
Qed.

(** X5: the result is made of units of the text, in their order: the
    stripper adds nothing and moves nothing, so the result is never longer
    than the text. *)
Theorem stripJsonComments_only_deletes json :
  stripJsonComments json `sublist_of` json
  ∧ length (stripJsonComments json) ≤ length json.
Proof.
  assert (stripJsonComments json `sublist_of` json) as Hsub.
  { rewrite stripJsonComments_passes. transitivity (withoutComments json).
    - unfold withoutTrailingCommas, replace. cbn [global trailingCommaPattern].
      apply (replaceAllFrom_sublist _ _ _ (fun i s r => dropComma_sublist i s r _) _ 0 0).
    - unfold withoutComments, replace. cbn [global commentPattern].
      apply (replaceAllFrom_sublist _ _ _ (fun i s r _ => dropComment_sublist r _) _ 0 0). }
  split; [done | by apply sublist_length].
Qed.

(** ** The stripper on JSON *)

Lemma untouched_refl s : untouched s s.
Proof. by exists []. Qed.

Lemma untouched_trans s1 s2 s3 : untouched s1 s2 → untouched s2 s3 → untouched s1 s3.
Proof.
  intros (pre1 & -> & Hc1 & Ht1) (pre2 & -> & Hc2 & Ht2). exists (pre1 ++ pre2).
  rewrite Hc1, Ht1, Hc2, Ht2. by rewrite !app_assoc.
Qed.

Lemma untouched_unit x s : inertUnit x → untouched (x :: s) s.
Proof.
  unfold inertUnit. rewrite !not_elem_of_cons. intros (? & ? & ? & ? & _). exists [x].
  split_and!; [done | |].
  - by apply withoutComments_keep, commentPattern_unit.
  - by apply withoutTrailingCommas_keep, trailingCommaPattern_unit.
Qed.

Lemma untouched_units p s : Forall inertUnit p → untouched (p ++ s) s.
Proof.
  induction 1 as [|x p Hx Hp IH]; [apply untouched_refl |].
  eapply untouched_trans; [by apply untouched_unit | done].
Qed.

Lemma untouched_comma s : closesAfterWhiteSpace s = false → untouched (COMMA :: s) s.
Proof.
  intros Hs. exists [COMMA]. split_and!; [done | |].
  - by apply withoutComments_keep, commentPattern_unit.
  - by apply withoutTrailingCommas_keep, trailingCommaPattern_comma_stays.
Qed.

Lemma untouched_literal lit rest : literal lit → untouched (lit ++ rest) rest.
Proof.
  intros Hlit. exists lit. split_and!; [done | |].
  - by apply withoutComments_literal.
  - by apply withoutTrailingCommas_literal.
Qed.

Lemma hasInfix_app_r l a b : hasInfix l b → hasInfix l (a ++ b).
Proof. intros (pre & post & ->). exists (a ++ pre), post. by rewrite <- app_assoc. Qed.

Lemma untouched_noEscapedBackslashAtEnd s r :
  untouched s r → noEscapedBackslashAtEnd s → noEscapedBackslashAtEnd r.
Proof. intros (pre & -> & _) H Hr. apply H. by apply hasInfix_app_r. Qed.

(** *** The white space of JSON *)

Lemma isWs_inert c : isWs c = true → inertUnit c ∧ isWhiteSpace c = true.
Proof.
  unfold isWs. rewrite !orb_true_iff, !N.eqb_eq.
  intros [[[-> | ->] | ->] | ->]; (split; [| done]);
    unfold inertUnit; rewrite !not_elem_of_cons; split_and!; try done; apply not_elem_of_nil.
Qed.

Lemma skipWs_untouched s : untouched s (skipWs s).
Proof.
  induction s as [|c s IH]; cbn [skipWs]; [apply untouched_refl |].
  destruct (isWs c) eqn:Hc; [| apply untouched_refl].
  eapply untouched_trans; [| exact IH]. apply untouched_unit. by apply isWs_inert.
Qed.

Lemma skipWs_closes s : closesAfterWhiteSpace s = closesAfterWhiteSpace (skipWs s).
Proof.
  induction s as [|c s IH]; cbn [skipWs]; [done |].
  destruct (isWs c) eqn:Hc; [| done]. cbn [closesAfterWhiteSpace].
  by rewrite (proj2 (isWs_inert c Hc)).
Qed.

(** The units of [s] up to the first one that is not white space are units
    that both passes keep, and the first one after them decides whether a
    comma before [s] is a trailing one. *)
Lemma skipWs_start s c rest :
  skipWs s = c :: rest → isWhiteSpace c = false → isCloser c = false →
  untouched s (c :: rest) ∧ closesAfterWhiteSpace s = false.
Proof.
  intros Hs Hw Hc. split; [rewrite <- Hs; apply skipWs_untouched |].
  rewrite skipWs_closes, Hs. cbn [closesAfterWhiteSpace]. by rewrite Hw.
Qed.

(** *** Numbers *)

Lemma spanDigits_spec s ds rest :
  spanDigits s = (ds, rest) → s = ds ++ rest ∧ forallb isDigit ds = true.
Proof.
  revert ds rest. induction s as [|c s IH]; intros ds rest; cbn [spanDigits].
  - by intros [= <- <-].
  - destruct (isDigit c) eqn:Hc; [| by intros [= <- <-]].
    destruct (spanDigits s) as [ds' rest']. intros [= <- <-].
    destruct (IH ds' rest' eq_refl) as [-> Hds]. cbn [forallb app]. by rewrite Hc, Hds.
Qed.

Lemma isDigit_isNumberUnit ds :
  forallb isDigit ds = true → forallb isNumberUnit ds = true.
Proof.
  induction ds as [|d ds IH]; [done |]. cbn [forallb]. intros [Hd Hds]%andb_true_iff.
  unfold isNumberUnit at 1. by rewrite Hd, IH.
Qed.

Lemma parseNumber_spec s lexeme r :
  parseNumber s = Some (lexeme, r) →
  s = lexeme ++ r ∧ lexeme ≠ [] ∧ forallb isNumberUnit lexeme = true.
Proof.
  unfold parseNumber. intros H.
  repeat (case_match; simplify_eq/=);
    repeat match goal with
      | H : spanDigits ?t = _ |- _ =>
          apply spanDigits_spec in H as [? ?%isDigit_isNumberUnit]
      end; simplify_eq/=;
    repeat match goal with
      | H : (_ || _) = true |- _ => apply orb_true_iff in H as [H | H]
      | H : (_ && _) = true |- _ => apply andb_true_iff in H as [? ?]
      end;
    repeat match goal with
      | H : (_ =? _)%N = true |- _ => apply N.eqb_eq in H; subst
      end;
    (split_and!;
       [by repeat (progress (rewrite <- ?app_assoc, ?app_nil_r; cbn [app])) | done |]);
    repeat (progress (rewrite ?forallb_app; cbn [forallb]));
    repeat match goal with
      | H : ?b = true |- context [?b] => rewrite H
      end;
    repeat match goal with
      | |- context [isNumberUnit ?x] =>
          first [ change (isNumberUnit x) with true
                | unfold isNumberUnit at 1;
                  match goal with H : isDigit x = true |- _ => rewrite H end;
                  cbn [orb] ]
      end;
    done.
Qed.

Lemma isNumberUnit_inert c :
  isNumberUnit c = true → inertUnit c ∧ isWhiteSpace c = false ∧ isCloser c = false.
Proof.
  unfold isNumberUnit, isDigit. rewrite !orb_true_iff, andb_true_iff, !N.eqb_eq, !N.leb_le.
  intros H. assert (48 ≤ c ≤ 57 ∨ c = 45 ∨ c = 43 ∨ c = 46 ∨ c = 101 ∨ c = 69)%N as Hc by lia.
  clear H. split_and!.
  - unfold inertUnit, DQUOTE, BACKSLASH, SLASH, COMMA. rewrite !not_elem_of_cons.
    split_and!; [lia | lia | lia | lia | apply not_elem_of_nil].
  - unfold isWhiteSpace. rewrite !orb_false_iff, andb_false_iff, !N.eqb_neq, !N.leb_gt.
    split_and!; lia.
  - unfold isCloser, RBRACE, RBRACKET. rewrite orb_false_iff, !N.eqb_neq. lia.
Qed.

Lemma forallb_Forall {A} (p : A → bool) (P : A → Prop) l :
  (∀ x, p x = true → P x) → forallb p l = true → Forall P l.
Proof.
  intros Hp. induction l as [|x l IH]; [constructor |]. cbn [forallb].
  intros [Hx Hl]%andb_true_iff. constructor; auto.
Qed.

(** *** Literals *)

Lemma hexVal_unit h v : hexVal h = Some v → h ≠ DQUOTE ∧ h ≠ BACKSLASH.
Proof.
  unfold hexVal, DQUOTE, BACKSLASH.
  destruct (N.leb_spec 48 h), (N.leb_spec h 57), (N.leb_spec 97 h), (N.leb_spec h 102),
    (N.leb_spec 65 h), (N.leb_spec h 70); cbn [andb]; intros ?; simplify_eq; lia.
Qed.

Lemma hex4_units a b c d v :
  hex4 a b c d = Some v →
  (a ≠ DQUOTE ∧ a ≠ BACKSLASH) ∧ (b ≠ DQUOTE ∧ b ≠ BACKSLASH)
  ∧ (c ≠ DQUOTE ∧ c ≠ BACKSLASH) ∧ (d ≠ DQUOTE ∧ d ≠ BACKSLASH).
Proof.
  unfold hex4. destruct (hexVal a) eqn:Ha; [| done]. destruct (hexVal b) eqn:Hb; [| done].
  destruct (hexVal c) eqn:Hc; [| done]. destruct (hexVal d) eqn:Hd; [| done]. intros _.
  pose proof (hexVal_unit _ _ Ha). pose proof (hexVal_unit _ _ Hb).
  pose proof (hexVal_unit _ _ Hc). pose proof (hexVal_unit _ _ Hd). tauto.
Qed.

Lemma hasInfix_cons_r l x s : hasInfix l s → hasInfix l (x :: s).
Proof. apply (hasInfix_app_r l [x] s). Qed.

Lemma literalBody_unit prev c body :
  c ≠ DQUOTE → literalBody c body = true → literalBody prev (c :: body) = true.
Proof.
  intros Hc Hbody. cbn [literalBody]. rewrite Hbody.
  by rewrite (proj2 (N.eqb_neq c DQUOTE)) by done.
Qed.

(** The characters that [parseChars] reads are a body that the patterns
    read as one literal, unless an escaped backslash stands at its end.
    [pp] and [prev] are the two units before [s]. *)
Lemma parseChars_literalBody s str r :
  parseChars s = Some (str, r) →
  ∀ pp prev,
    ¬ hasInfix escapedBackslashAtEnd (pp :: prev :: s) →
    (prev = BACKSLASH → pp = BACKSLASH) →
    ∃ body, s = body ++ DQUOTE :: r ∧ literalBody prev body = true.
Proof.
  assert (∀ n s str r, length s ≤ n → parseChars s = Some (str, r) →
            ∀ pp prev,
              ¬ hasInfix escapedBackslashAtEnd (pp :: prev :: s) →
              (prev = BACKSLASH → pp = BACKSLASH) →
              ∃ body, s = body ++ DQUOTE :: r ∧ literalBody prev body = true)
    as Hn; [| by apply (Hn (length s))].
  clear. induction n as [|n IH]; intros s str r Hlen.
  { destruct s; [done | cbn [length] in Hlen; lia]. }
  destruct s as [|c s1]; [done |]. cbn [length] in Hlen.
  cbn [parseChars]. destruct (N.eqb_spec c DQUOTE) as [-> | Hq].
  { intros [= <- <-] pp prev Hno Hprev. exists []. split; [done |].
    cbn [literalBody]. apply negb_true_iff, N.eqb_neq. intros ->.
    rewrite Hprev in Hno by done. destruct Hno. by exists [], s1. }
  destruct (N.eqb_spec c BACKSLASH) as [-> | Hb].
  - destruct s1 as [|e s2]; [done |]. destruct (e =? 117)%N eqn:He.
    + apply N.eqb_eq in He as ->.
      destruct s2 as [|h1 [|h2 [|h3 [|h4 s3]]]]; try done.
      destruct (hex4 h1 h2 h3 h4) eqn:Hhex; [| done]. cbn [mbind option_bind].
      apply hex4_units in Hhex as ((? & ?) & (? & ?) & (? & ?) & (? & ?)).
      destruct (parseChars s3) as [[str' r'] |] eqn:E; [| done].
      intros [= <- <-] pp prev Hno Hprev.
      destruct (IH s3 str' r' ltac:(cbn [length] in Hlen; lia) E h3 h4) as (body & -> & Hbody).
      * intros H'. apply Hno. by do 6 apply hasInfix_cons_r.
      * done.
      * exists (BACKSLASH :: 117%N :: h1 :: h2 :: h3 :: h4 :: body). split; [done |].
        by repeat (apply literalBody_unit; [done |]).
    + destruct (unescape e) eqn:Hun; [| done]. cbn [mbind option_bind].
      destruct (parseChars s2) as [[str' r'] |] eqn:E; [| done].
      intros [= <- <-] pp prev Hno Hprev.
      destruct (IH s2 str' r' ltac:(cbn [length] in Hlen; lia) E BACKSLASH e)
        as (body & -> & Hbody).
      * intros H'. apply Hno. by do 2 apply hasInfix_cons_r.
      * done.
      * exists (BACKSLASH :: e :: body). split; [done |].
        apply literalBody_unit; [done |]. cbn [literalBody]. rewrite Hbody.
        by rewrite N.eqb_refl, orb_true_r.
  - destruct (c <? 32)%N; [done |].
    destruct (parseChars s1) as [[str' r'] |] eqn:E; [| done]. cbn [mbind option_bind].
    intros [= <- <-] pp prev Hno Hprev.
    destruct (IH s1 str' r' ltac:(lia) E prev c) as (body & -> & Hbody).
    + intros H'. apply Hno. by apply hasInfix_cons_r.
    + done.
    + exists (c :: body). split; [done |]. by apply literalBody_unit.
Qed.

Lemma hasInfix_cons_ne a l x s : hasInfix (a :: l) (x :: s) → x ≠ a → hasInfix (a :: l) s.
Proof.
  intros (pre & post & H) Hx. destruct pre as [|y pre]; simplify_eq/=. by exists pre, post.
Qed.

(** A literal that [parseChars] reads to its end is one for the two
    patterns. *)
Lemma parseChars_literal rest str r :
  parseChars rest = Some (str, r) →
  noEscapedBackslashAtEnd (DQUOTE :: rest) →
  ∃ lit, DQUOTE :: rest = lit ++ r ∧ literal lit.
Proof.
  intros Hparse Hno.
  destruct (parseChars_literalBody _ _ _ Hparse DQUOTE DQUOTE) as (body & -> & Hbody).
  - intros H. apply Hno. by apply hasInfix_cons_ne in H.
  - done.
  - exists (DQUOTE :: body ++ [DQUOTE]). split; [cbn [app]; by rewrite <- app_assoc |].
    by exists body.
Qed.

Lemma untouched_parseChars rest str r :
  parseChars rest = Some (str, r) →
  noEscapedBackslashAtEnd (DQUOTE :: rest) →
  untouched (DQUOTE :: rest) r.
Proof.
  intros Hparse Hno. destruct (parseChars_literal _ _ _ Hparse Hno) as (lit & -> & Hlit).
  by apply untouched_literal.
Qed.

Lemma untouched_keyword c rest (w : jsstring) :
  startsWith (c :: rest) w = true → Forall inertUnit w →
  untouched (c :: rest) (drop (length w) (c :: rest)).
Proof.
  intros [t Ht]%startsWith_prefix Hw. rewrite Ht. rewrite drop_app_length.
  by apply untouched_units.
Qed.

Lemma inertUnit_test c :
  negb (bool_decide (c ∈ [DQUOTE; BACKSLASH; SLASH; COMMA])) = true → inertUnit c.
Proof. intros H%negb_true_iff%bool_decide_eq_false. exact H. Qed.

(** *** The parser *)

(** What the parser consumes is kept by both passes, and what it starts
    with does not close a comma. *)
Lemma parse_untouched fuel :
  (∀ s v r, parseValue fuel s = Some (v, r) → noEscapedBackslashAtEnd s →
            untouched s r ∧ closesAfterWhiteSpace s = false)
  ∧ (∀ s vs r, parseElements fuel s = Some (vs, r) → noEscapedBackslashAtEnd s →
               untouched s r ∧ closesAfterWhiteSpace s = false)
  ∧ (∀ s ms r, parseMembers fuel s = Some (ms, r) → noEscapedBackslashAtEnd s →
               untouched s r ∧ closesAfterWhiteSpace s = false).
Proof.
  induction fuel as [|fuel (IHv & IHe & IHm)]; [done |].
  assert (Hws : ∀ s c rest, skipWs s = c :: rest → noEscapedBackslashAtEnd s →
            untouched s (c :: rest) ∧ noEscapedBackslashAtEnd (c :: rest)).
  { intros s c rest Hs Hno. pose proof (skipWs_untouched s) as Hu. rewrite Hs in Hu.
    split; [done |]. by eapply untouched_noEscapedBackslashAtEnd. }
  assert (Hstep : ∀ s r, untouched s r → noEscapedBackslashAtEnd s →
            noEscapedBackslashAtEnd r)
    by apply untouched_noEscapedBackslashAtEnd.
  assert (Hunit : ∀ c rest, inertUnit c → noEscapedBackslashAtEnd (c :: rest) →
            untouched (c :: rest) rest ∧ noEscapedBackslashAtEnd rest).
  { intros c rest Hc Hno. pose proof (untouched_unit c rest Hc) as Hu. eauto. }
  split_and!.
  - intros s v r. cbn [parseValue].
    destruct (skipWs s) as [|c rest] eqn:Hs; [done |]. intros Hparse Hno.
    destruct (Hws _ _ _ Hs Hno) as [U0 Hno0].
    rewrite (skipWs_closes s), Hs.
    assert (∀ P : Prop, (untouched (c :: rest) r ∧ closesAfterWhiteSpace (c :: rest) = false) →
              P = (untouched s r ∧ closesAfterWhiteSpace (c :: rest) = false) → P) as Hgoal.
    { intros P [U Hc] ->. split; [by eapply untouched_trans | done]. }
    eapply Hgoal; [| reflexivity]. clear Hgoal U0 Hs.
    destruct (N.eqb_spec c LBRACE) as [-> | _].
    { split; [| done]. destruct (Hunit LBRACE rest) as [U1 Hno1]; [by apply inertUnit_test | done |].
      eapply untouched_trans; [exact U1 |].
      destruct (skipWs rest) as [|d rest'] eqn:Hr; [done |].
      destruct (N.eqb_spec d RBRACE) as [-> | _].
      - injection Hparse as <- <-. destruct (Hws _ _ _ Hr Hno1) as [U2 Hno2].
        eapply untouched_trans; [exact U2 |]. apply untouched_unit. by apply inertUnit_test.
      - destruct (parseMembers fuel rest) as [[ms r'] |] eqn:E; [| done].
        cbn [mbind option_bind] in Hparse. injection Hparse as <- <-.
        by apply IHm in E as [? _]. }
    destruct (N.eqb_spec c LBRACKET) as [-> | _].
    { split; [| done].
      destruct (Hunit LBRACKET rest) as [U1 Hno1]; [by apply inertUnit_test | done |].
      eapply untouched_trans; [exact U1 |].
      destruct (skipWs rest) as [|d rest'] eqn:Hr; [done |].
      destruct (N.eqb_spec d RBRACKET) as [-> | _].
      - injection Hparse as <- <-. destruct (Hws _ _ _ Hr Hno1) as [U2 Hno2].
        eapply untouched_trans; [exact U2 |]. apply untouched_unit. by apply inertUnit_test.
      - destruct (parseElements fuel rest) as [[vs r'] |] eqn:E; [| done].
        cbn [mbind option_bind] in Hparse. injection Hparse as <- <-.
        by apply IHe in E as [? _]. }
    destruct (N.eqb_spec c DQUOTE) as [-> | _].
    { split; [| done]. destruct (parseChars rest) as [[str r'] |] eqn:E; [| done].
      cbn [mbind option_bind] in Hparse. injection Hparse as <- <-.
      by eapply untouched_parseChars. }
    destruct (startsWith (c :: rest) (js "true")) eqn:Ht.
    { injection Hparse as <- <-. split.
      - apply (untouched_keyword c rest (js "true")); [done |].
        repeat constructor; by apply inertUnit_test.
      - apply startsWith_prefix in Ht as [t Ht]. by injection Ht as -> _. }
    destruct (startsWith (c :: rest) (js "false")) eqn:Hf.
    { injection Hparse as <- <-. split.
      - apply (untouched_keyword c rest (js "false")); [done |].
        repeat constructor; by apply inertUnit_test.
      - apply startsWith_prefix in Hf as [t Hf]. by injection Hf as -> _. }
    destruct (startsWith (c :: rest) (js "null")) eqn:Hn.
    { injection Hparse as <- <-. split.
      - apply (untouched_keyword c rest (js "null")); [done |].
        repeat constructor; by apply inertUnit_test.
      - apply startsWith_prefix in Hn as [t Hn]. by injection Hn as -> _. }
    destruct (parseNumber (c :: rest)) as [[lexeme r'] |] eqn:E; [| done].
    cbn [mbind option_bind] in Hparse. injection Hparse as <- <-.
    apply parseNumber_spec in E as (E & Hne & Hunits). rewrite E.
    destruct lexeme as [|d lexeme]; [done |]. injection E as <- E.
    split.
    + apply untouched_units. eapply forallb_Forall; [| exact Hunits].
      intros x Hx. by apply isNumberUnit_inert.
    + cbn [forallb] in Hunits. apply andb_true_iff in Hunits as [Hd _].
      apply isNumberUnit_inert in Hd as (_ & Hw & Hc). cbn [app closesAfterWhiteSpace].
      by rewrite Hw.
  - intros s vs r. cbn [parseElements].
    destruct (parseValue fuel s) as [[v r1] |] eqn:E; [| done]. cbn [mbind option_bind].
    intros Hparse Hno. apply IHv in E as [U0 Hc]; [| done]. split; [| done].
    eapply untouched_trans; [exact U0 |]. pose proof (Hstep _ _ U0 Hno) as Hno1.
    destruct (skipWs r1) as [|c r2] eqn:Hs; [done |].
    destruct (Hws _ _ _ Hs Hno1) as [U1 Hno2]. eapply untouched_trans; [exact U1 |].
    destruct (N.eqb_spec c COMMA) as [-> | _].
    { destruct (parseElements fuel r2) as [[vs' r3] |] eqn:E'; [| done].
      cbn [mbind option_bind] in Hparse. injection Hparse as <- <-.
      assert (noEscapedBackslashAtEnd r2) as Hno3
        by (intros H; apply Hno2; by apply hasInfix_cons_r).
      apply IHe in E' as [U2 Hc2]; [| done].
      eapply untouched_trans; [by apply untouched_comma | done]. }
    destruct (N.eqb_spec c RBRACKET) as [-> | _]; [| done].
    injection Hparse as <- <-. apply untouched_unit. by apply inertUnit_test.
  - intros s ms r. cbn [parseMembers].
    destruct (skipWs s) as [|q r0] eqn:Hs; [done |].
    destruct (N.eqb_spec q DQUOTE) as [-> | _]; [| done].
    destruct (parseChars r0) as [[key r1] |] eqn:E; [| done]. cbn [mbind option_bind].
    intros Hparse Hno. destruct (Hws _ _ _ Hs Hno) as [U0 Hno0].
    split; [| by rewrite (skipWs_closes s), Hs].
    eapply untouched_trans; [exact U0 |].
    pose proof (untouched_parseChars _ _ _ E Hno0) as U1.
    eapply untouched_trans; [exact U1 |]. pose proof (Hstep _ _ U1 Hno0) as Hno1.
    destruct (skipWs r1) as [|c r2] eqn:Hs1; [done |].
    destruct (Hws _ _ _ Hs1 Hno1) as [U2 Hno2]. eapply untouched_trans; [exact U2 |].
    destruct (N.eqb_spec c COLON) as [-> | _]; [| done].
    destruct (Hunit COLON r2) as [U3 Hno3]; [by apply inertUnit_test | done |].
    eapply untouched_trans; [exact U3 |].
    destruct (parseValue fuel r2) as [[v r3] |] eqn:Ev; [| done].
    cbn [mbind option_bind] in Hparse. apply IHv in Ev as [U4 _]; [| done].
    eapply untouched_trans; [exact U4 |]. pose proof (Hstep _ _ U4 Hno3) as Hno4.
    destruct (skipWs r3) as [|d r4] eqn:Hs3; [done |].
    destruct (Hws _ _ _ Hs3 Hno4) as [U5 Hno5]. eapply untouched_trans; [exact U5 |].
    destruct (N.eqb_spec d COMMA) as [-> | _].
    { destruct (parseMembers fuel r4) as [[ms' r5] |] eqn:Em; [| done].
      cbn [mbind option_bind] in Hparse. injection Hparse as <- <-.
      assert (noEscapedBackslashAtEnd r4) as Hno6
        by (intros H; apply Hno5; by apply hasInfix_cons_r).
      apply IHm in Em as [U6 Hc6]; [| done].
      eapply untouched_trans; [by apply untouched_comma | done]. }
    destruct (N.eqb_spec d RBRACE) as [-> | _]; [| done].
    injection Hparse as <- <-. apply untouched_unit. by apply inertUnit_test.
Qed.

Lemma skipWs_nil_untouched rest : skipWs rest = [] → untouched rest [].
Proof. intros H. pose proof (skipWs_untouched rest) as Hu. by rewrite H in Hu. Qed.

(** X6: a text that [JSON.parse] accepts comes back as it is, and so parses
    to the same value, unless a backslash, a backslash and a double quote
    stand in it one after the other. *)
Theorem stripJsonComments_json_unchanged text v :
  parse text = Some v →
  ¬ hasInfix escapedBackslashAtEnd text →
  stripJsonComments text = text ∧ parse (stripJsonComments text) = Some v.
Proof.
  intros Hparse Hno. assert (stripJsonComments text = text) as Heq; [| by rewrite Heq].
  unfold parse in Hparse.
  destruct (parseValue _ text) as [[v' rest] |] eqn:E; [| done].
  cbn [mbind option_bind] in Hparse.
  apply (proj1 (parse_untouched _)) in E as [U _]; [| done].
  destruct (skipWs rest) eqn:Hs; [| done]. apply skipWs_nil_untouched in Hs.
  destruct (untouched_trans _ _ _ U Hs) as (pre & Htext & Hc & Ht).
  rewrite withoutComments_nil in Hc. rewrite withoutTrailingCommas_nil in Ht.
  rewrite stripJsonComments_passes. rewrite <- Htext in Hc, Ht. by rewrite Hc, Ht.
Qed.

(** ** Reading a config back *)

Lemma skipWs_head s c rest : skipWs s = c :: rest → isWs c = false ∧ c ∈ s.
Proof.
  induction s as [|x s IH]; cbn [skipWs]; [done |].
  destruct (isWs x) eqn:Hx.
  - intros [? ?]%IH. split; [done | by right].
  - intros [= -> ->]. split; [done | left].
Qed.

Lemma isDigit_isNumberUnit_unit c : isDigit c = true → isNumberUnit c = true.
Proof. intros H. unfold isNumberUnit. by rewrite H. Qed.

(** A text of white space only is no JSON. *)
Lemma parse_blank s : forallb isWhiteSpace s = true → parse s = None.
Proof.
  intros Hs. unfold parse.
  assert (∀ fuel, parseValue fuel s = None) as ->; [| done].
  intros [|fuel]; [done |]. cbn [parseValue].
  destruct (skipWs s) as [|c rest] eqn:Hskip; [done |].
  apply skipWs_head in Hskip as [_ Hc].
  rewrite forallb_forall in Hs. specialize (Hs c (proj1 (list_elem_of_In _ _) Hc)).
  destruct (N.eqb_spec c LBRACE) as [-> |]; [by vm_compute in Hs |].
  destruct (N.eqb_spec c LBRACKET) as [-> |]; [by vm_compute in Hs |].
  destruct (N.eqb_spec c DQUOTE) as [-> |]; [by vm_compute in Hs |].
  cbn [startsWith js list_ascii_of_string fmap list_fmap].
  destruct (N.eqb_spec (N_of_ascii "t") c) as [<- |]; [by vm_compute in Hs |].
  destruct (N.eqb_spec (N_of_ascii "f") c) as [<- |]; [by vm_compute in Hs |].
  destruct (N.eqb_spec (N_of_ascii "n") c) as [<- |]; [by vm_compute in Hs |].
  cbn [andb]. unfold parseNumber.
  destruct (N.eqb_spec c HYPHEN) as [-> |]; [by vm_compute in Hs |].
  destruct (N.eqb_spec c 48) as [-> |]; [by vm_compute in Hs |].
  destruct (isDigit c) eqn:Hd; [| done].
  apply isDigit_isNumberUnit_unit, isNumberUnit_inert in Hd as (_ & Hd & _). congruence.
Qed.

Lemma stripJsonComments_blank s : forallb isWhiteSpace s = true → stripJsonComments s = s.
Proof.
  intros Hs%allWhiteSpace_forallb. apply whiteSpace_plain in Hs as (? & ? & ? & ?).
  unfold stripJsonComments. rewrite replace_commentPattern_plain by done.
  by apply replace_trailingCommaPattern_plain.
Qed.

Lemma parse_not_blank s v : parse (stripJsonComments s) = Some v → trimIsEmpty s = false.
Proof.
  intros Hparse. unfold trimIsEmpty. destruct (forallb isWhiteSpace s) eqn:Hs; [| done].
  rewrite stripJsonComments_blank in Hparse by done. by rewrite parse_blank in Hparse.
Qed.

Lemma readFileSync_Some fs path data :
  readFileSync fs path = Some data → entries fs !! path = Some (File data).
Proof. unfold readFileSync. by destruct (entries fs !! path) as [[] |]; intros [= ->]. Qed.

(** A file whose text parses is read as the value it parses to. *)
Lemma parseConfigFile_parsed fs path data v :
  readFileSync fs path = Some data →
  parse (stripJsonComments data) = Some v →
  ConfigManager.parseConfigFile fs path = v.
Proof.
  intros Hread Hparse. pose proof (readFileSync_Some _ _ _ Hread) as Hentry.
  unfold ConfigManager.parseConfigFile, existsSync, statSize. rewrite Hentry, Hread.
  rewrite bool_decide_eq_true_2 by done. cbn [negb].
  rewrite (parse_not_blank _ _ Hparse), Hparse.
  destruct data as [|x data]; [by vm_compute in Hparse | done].
Qed.

Lemma parseConfig_parsed fs path data v :
  readFileSync fs path = Some data →
  parse (stripJsonComments data) = Some v →
  truthy v = true →
  ConfigManager.parseConfig fs path = v.
Proof.
  intros Hread Hparse Hv. unfold ConfigManager.parseConfig.
  by rewrite (parseConfigFile_parsed _ _ _ _ Hread Hparse), Hv.
Qed.

Section ReadBack.

Variable stringify : value → jsstring.

(** X7: what [writeConfig] wrote, [parseConfig] reads back: the value, when
    the text that [JSON.stringify] gives for it parses to it and it is truthy;
    no other entry of the file system changes. *)
Theorem writeConfig_parseConfig fs path config fs' :
  ConfigManager.writeConfig stringify fs path config = Some fs' →
  parse (stripJsonComments (stringify config ++ [10%N])) = Some config →
  truthy config = true →
  ConfigManager.parseConfig fs' path = config
  ∧ ∀ other, other ≠ path → entries fs' !! other = entries fs !! other.
Proof.
  intros Hwrite Hparse Htruthy. unfold ConfigManager.writeConfig in Hwrite.
  apply writeFileSync_Some in Hwrite as [Hread Hothers]. split; [| done].
  by eapply parseConfig_parsed.
Qed.

End ReadBack.

(** ** The fallback to the .jsonc file *)

Lemma matchAt_jsonSuffix i s :
  matchAt ConfigManager.jsonSuffix i s
  = if bool_decide (s = js ".json") then Some (mkMatch i (js ".json") []) else None.
Proof.
  unfold matchAt, ConfigManager.jsonSuffix. cbn [pattern ngroups replicate].
  rewrite m_Seq, m_Char. destruct s as [|x s]; [done |].
  destruct (N.eqb_spec x 46) as [-> | Hx]; cycle 1.
  { rewrite bool_decide_eq_false_2; [done |]. intros [= ? ?]. done. }
  rewrite m_litThen. destruct (startsWith s (js "json")) eqn:Hsw; cycle 1.
  { rewrite bool_decide_eq_false_2; [done |]. intros [= ->]. by vm_compute in Hsw. }
  apply startsWith_prefix in Hsw as [t ->]. rewrite drop_app_length. cbn [m fst snd].
  destruct t as [|y t].
  - rewrite bool_decide_eq_true_2 by done. cbn [fst snd]. do 2 f_equal.
    replace (S i + length (js "json") - i) with 5 by (cbn; lia). done.
  - rewrite bool_decide_eq_false_2; [done |]. intros H. apply (f_equal length) in H.
    cbn [length] in H. rewrite length_app in H. cbn in H. lia.
Qed.

Lemma exec_jsonSuffix base :
  exec ConfigManager.jsonSuffix (base ++ js ".json")
  = Some (mkMatch (length base) (js ".json") []).
Proof.
  unfold exec. apply searchFrom_Some. exists (length base). split_and!.
  - rewrite length_app. lia.
  - rewrite drop_app_length, matchAt_jsonSuffix. by rewrite bool_decide_eq_true_2.
  - intros j Hj. rewrite matchAt_jsonSuffix. rewrite bool_decide_eq_false_2; [done |].
    intros H. apply (f_equal length) in H. rewrite length_drop, length_app in H.
    cbn in H. lia.
Qed.

Lemma jsonc_path base :
  replaceWith (base ++ js ".json") ConfigManager.jsonSuffix (js ".jsonc") = base ++ js ".jsonc".
Proof.
  unfold replaceWith, replace. cbn [global ConfigManager.jsonSuffix].
  fold ConfigManager.jsonSuffix. rewrite exec_jsonSuffix. cbn [index matched].
  rewrite take_app_length. rewrite <- length_app, drop_all, app_nil_r.
  by f_equal.
Qed.

Lemma endsWith_suffix s l : endsWith s l = true ↔ l `suffix_of` s.
Proof.
  unfold endsWith. rewrite startsWith_prefix. split.
  - intros [t Ht]. exists (reverse t). apply (inj reverse). by rewrite Ht, reverse_app, reverse_involutive.
  - intros [t ->]. exists (reverse t). by rewrite reverse_app.
Qed.

(** ** The steps of the installer *)

Section InstallerSteps.

Import LiteConfig Installer.

Lemma objSet_id members k v : objGet members k = Some v → objSet members k v = members.
Proof.
  induction members as [|[k' v'] members IH]; cbn [objGet objSet]; [done |].
  destruct (JS.eqb k' k); [by intros [= ->] |]. intros H. by rewrite IH.
Qed.

Lemma objSet_objSet members k v v' :
  objSet (objSet members k v) k v' = objSet members k v'.
Proof.
  induction members as [|[k0 v0] members IH]; cbn [objSet].
  - unfold JS.eqb. by rewrite bool_decide_eq_true_2.
  - destruct (JS.eqb k0 k) eqn:E; cbn [objSet]; rewrite E; [done |]. by rewrite IH.
Qed.


Lemma truthy_not_null v : truthy v = true → nullish (Some v) (Obj []) = v.
Proof. by destruct v. Qed.

Lemma existsSync_spec fs path : existsSync fs path = true ↔ is_Some (entries fs !! path).
Proof. unfold existsSync. by rewrite bool_decide_eq_true. Qed.

Section Steps.

Variable join : list jsstring → jsstring.
Variable stringify : value → jsstring.
Variable env : Env.

(** Making the directory touches no file. *)
Lemma ensureConfigDir_Some fs fs1 :
  ConfigManager.ensureConfigDir join env fs = Some fs1 →
  sameFiles fs fs1
  ∧ readonly fs1 = readonly fs
  ∧ existsSync fs1 (ConfigManager.getConfigDir join env) = true
  ∧ (∀ path, path ≠ ConfigManager.getConfigDir join env →
             entries fs1 !! path = entries fs !! path)
  ∧ (∀ path, existsSync fs path = true → existsSync fs1 path = true).
Proof.
  unfold ConfigManager.ensureConfigDir.
  destruct (existsSync fs _) eqn:Hex; cbn [negb].
  { intros [= <-]. by split_and!. }
  unfold mkdirSync. destruct (bool_decide _); [done |].
  assert (entries fs !! ConfigManager.getConfigDir join env = None) as Hnone.
  { unfold existsSync in Hex. apply bool_decide_eq_false in Hex.
    by apply eq_None_not_Some. }
  rewrite Hnone. intros [= <-]. cbn [entries readonly]. split_and!.
  - intros path. unfold readFileSync. cbn [entries].
    destruct (decide (path = ConfigManager.getConfigDir join env)) as [-> |].
    + by rewrite lookup_insert_eq, Hnone.
    + by rewrite lookup_insert_ne.
  - done.
  - apply existsSync_spec. cbn [entries]. by rewrite lookup_insert_eq.
  - intros path Hne. by rewrite lookup_insert_ne.
  - intros path [x Hx]%existsSync_spec. apply existsSync_spec. cbn [entries].
    destruct (decide (path = ConfigManager.getConfigDir join env)) as [-> |].
    + by rewrite lookup_insert_eq.
    + by rewrite lookup_insert_ne, Hx.
Qed.

Lemma ensureConfigDir_exists fs :
  existsSync fs (ConfigManager.getConfigDir join env) = true →
  ConfigManager.ensureConfigDir join env fs = Some fs.
Proof. intros H. unfold ConfigManager.ensureConfigDir. by rewrite H. Qed.

Lemma writeFileSync_exists fs path data fs' :
  writeFileSync fs path data = Some fs' →
  (∀ other, existsSync fs other = true → existsSync fs' other = true)
  ∧ existsSync fs' path = true
  ∧ readonly fs' = readonly fs
  ∧ path ∉ readonly fs.
Proof.
  unfold writeFileSync. case_bool_decide as Hro; [done |]. intros H.
  assert (fs' = mkFS (<[path := File data]> (entries fs)) (readonly fs)) as ->.
  { destruct (entries fs !! path) as [[] |]; congruence. }
  split_and!; [| | done | done].
  - intros other [x Hx]%existsSync_spec. apply existsSync_spec. cbn [entries].
    destruct (decide (other = path)) as [-> |].
    + by rewrite lookup_insert_eq.
    + by rewrite lookup_insert_ne, Hx.
  - apply existsSync_spec. cbn [entries]. by rewrite lookup_insert_eq.
Qed.

(** Writing the text that a file holds changes nothing. *)
Lemma writeFileSync_again fs path data :
  readFileSync fs path = Some data → path ∉ readonly fs →
  writeFileSync fs path data = Some fs.
Proof.
  intros Hread%readFileSync_Some Hro. unfold writeFileSync.
  rewrite bool_decide_eq_false_2 by done. rewrite Hread. f_equal.
  destruct fs as [e ro]. cbn [entries readonly] in *. f_equal. by apply insert_id.
Qed.

(** *** A step that fails *)



(** *** A step that succeeds *)

Lemma rewriteUserConfig_success failure edit fs fs' result :
  rewriteUserConfig join stringify env failure edit fs = (fs', result) →
  success result = true →
  ∃ fs1 written,
    ConfigManager.ensureConfigDir join env fs = Some fs1
    ∧ configToWrite join env edit fs = Some written
    ∧ configPath result = ConfigManager.getExistingConfigPath join env fs
    ∧ writeFileSync fs1 (configPath result) (stringify written ++ [10%N]) = Some fs'.
Proof.
  unfold rewriteUserConfig, configToWrite.
  destruct (ConfigManager.ensureConfigDir join env fs) as [fs1 |] eqn:Hdir; cycle 1.
  { by intros [= <- <-]. }
  cbv zeta. cbn [mbind option_bind].
  destruct (edit _) as [written |] eqn:Hedit; cbn [mbind option_bind]; cycle 1.
  { by intros [= <- <-]. }
  destruct (ConfigManager.writeConfig stringify fs1 _ written) as [fs2 |] eqn:Hwrite; cycle 1.
  { by intros [= <- <-]. }
  intros [= <- <-] _. by exists fs1, written.
Qed.

(** The path of the user config after one of its two files was written. *)
Lemma getExistingConfigPath_written fs0 fs1 fs' data :
  ConfigManager.getConfigJson join env ≠ ConfigManager.getConfigDir join env →
  ConfigManager.ensureConfigDir join env fs0 = Some fs1 →
  writeFileSync fs1 (ConfigManager.getExistingConfigPath join env fs0) data = Some fs' →
  ConfigManager.getExistingConfigPath join env fs'
  = ConfigManager.getExistingConfigPath join env fs0.
Proof.
  intros Hjoin Hdir Hwrite.
  destruct (ensureConfigDir_Some _ _ Hdir) as (_ & _ & _ & Hother & Hkeep).
  destruct (writeFileSync_exists _ _ _ _ Hwrite) as (Hkeep' & Hpath & _).
  unfold ConfigManager.getExistingConfigPath in *.
  destruct (existsSync fs0 (ConfigManager.getConfigJson join env)) eqn:Hjson.
  { by rewrite Hpath. }
  destruct (existsSync fs0 (ConfigManager.getConfigJsonc join env)) eqn:Hjsonc; cycle 1.
  { by rewrite Hpath. }
  rewrite Hpath.
  destruct (existsSync fs' (ConfigManager.getConfigJson join env)) eqn:Hjson'; [| done].
  apply existsSync_spec in Hjson'.
  destruct (decide (ConfigManager.getConfigJson join env
                    = ConfigManager.getConfigJsonc join env)) as [Heq | Hne]; [done |].
  apply writeFileSync_Some in Hwrite as [_ Hrest].
  rewrite Hrest, Hother in Hjson' by done.
  apply existsSync_spec in Hjson'. congruence.
Qed.

(** A second run of a step finds the config it wrote and, when the change
    it makes is already there, writes the same text. *)
Lemma rewriteUserConfig_again failure edit edit' fs fs' result written :
  ConfigManager.getConfigJson join env ≠ ConfigManager.getConfigDir join env →
  rewriteUserConfig join stringify env failure edit fs = (fs', result) →
  success result = true →
  configToWrite join env edit fs = Some written →
  readsBack stringify written →
  truthy written = true →
  edit' written = Some written →
  rewriteUserConfig join stringify env failure edit' fs' = (fs', result).
Proof.
  intros Hjoin Hcall Hsuccess Hwritten Hback Htruthy Hedit.
  pose proof Hcall as Hresult.
  apply rewriteUserConfig_success in Hcall
    as (fs1 & written' & Hdir & Hwritten' & Hpath & Hwrite); [| done].
  rewrite Hwritten in Hwritten'. injection Hwritten' as <-.
  rewrite Hpath in Hwrite.
  pose proof (getExistingConfigPath_written _ _ _ _ Hjoin Hdir Hwrite) as Hpath'.
  destruct (ensureConfigDir_Some _ _ Hdir) as (_ & _ & Hexists & _).
  destruct (writeFileSync_exists _ _ _ _ Hwrite) as (Hkeep & _ & Hro & Hnotro).
  destruct (writeFileSync_Some _ _ _ _ Hwrite) as [Hread _].
  unfold rewriteUserConfig. rewrite ensureConfigDir_exists by auto.
  rewrite Hpath'. cbv zeta.
  rewrite (parseConfig_parsed _ _ _ _ Hread Hback Htruthy).
  rewrite truthy_not_null by done. rewrite Hedit. cbn [mbind option_bind].
  unfold ConfigManager.writeConfig. rewrite writeFileSync_again; [| done | by rewrite Hro].
  f_equal. unfold rewriteUserConfig in Hresult. rewrite Hdir in Hresult. cbv zeta in Hresult.
  match type of Hresult with
  | match ?a with _ => _ end = _ => destruct a
  end; injection Hresult as <- <-; [done | done].
Qed.

End Steps.

End InstallerSteps.

(** ** The changes that the steps make, applied twice *)

Section InstallerEdits.

Import LiteConfig Installer.

Lemma setProp_Some v k x w : setProp v k x = Some w → truthy w = true.
Proof. destruct v; cbn [setProp]; intros [= <-]; done. Qed.

Lemma setProp_again v k x w : setProp v k x = Some w → setProp w k x = Some w.
Proof.
  destruct v; cbn [setProp]; intros [= <-]; cbn [setProp]; [done |].
  by rewrite objSet_objSet.
Qed.

Lemma getProp_setProp v k x w :
  setProp v k x = Some w → (∃ members, v = Obj members) → getProp w k = Some (Some x).
Proof.
  intros H [members ->]. cbn [setProp] in H. injection H as <-. cbn [getProp].
  by rewrite objGet_objSet.
Qed.

(** Where the property was set on an array it is not there afterwards:
    the array is as it was. *)
Lemma setProp_cases v k x w :
  setProp v k x = Some w →
  (∃ members, v = Obj members ∧ w = Obj (objSet members k x)) ∨ (∃ l, v = Arr l ∧ w = Arr l).
Proof. destruct v; cbn [setProp]; intros [= <-]; eauto. Qed.

Lemma getProp_Arr l k : getProp (Arr l) k = Some None.
Proof. reflexivity. Qed.

Lemma nullish_Some v d : v ≠ Null → nullish (Some v) d = v.
Proof. by destruct v. Qed.

Lemma nullish_not_null o d : d ≠ Null → nullish o d ≠ Null.
Proof. destruct o as [[] |]; done. Qed.

(** [config.key ?? fallback] after [config.key = x], for an [x] that is not
    null. *)
Lemma member_after_set v k x w d :
  setProp v k x = Some w → x ≠ Null → d ≠ Null →
  ∃ member, getProp w k = Some member
    ∧ (nullish member d = x ∨ ((∃ l, w = Arr l) ∧ nullish member d = d)).
Proof.
  intros [(members & -> & ->) | (l & -> & ->)]%setProp_cases Hx Hd.
  - exists (Some x). cbn [getProp]. rewrite objGet_objSet. split; [done |]. left.
    by apply nullish_Some.
  - exists None. split; [done |]. right. split; [by exists l | done].
Qed.

Lemma withoutDefaultAgents_again v w :
  withoutDefaultAgents v = Some w → withoutDefaultAgents w = Some w ∧ truthy w = true.
Proof.
  unfold withoutDefaultAgents. intros H.
  destruct (getProp v (js "agent")) as [agent |] eqn:Hget; [| done].
  cbn [mbind option_bind] in H.
  destruct (setProp (nullish agent (Obj [])) (js "explore") disabled) as [a1 |] eqn:H1; [| done].
  cbn [mbind option_bind] in H.
  destruct (setProp a1 (js "general") disabled) as [a2 |] eqn:H2; [| done].
  cbn [mbind option_bind] in H.
  split; [| by eapply setProp_Some].
  assert (setProp a2 (js "explore") disabled = Some a2
          ∧ setProp a2 (js "general") disabled = Some a2) as [E1 E2].
  { apply setProp_cases in H1 as [(m0 & _ & ->) | (l & _ & ->)];
      cbn [setProp] in H2; injection H2 as <-; cbn [setProp]; [| done].
    split; f_equal; f_equal.
    - apply objSet_id. rewrite objGet_objSet_ne by done. apply objGet_objSet.
    - apply objSet_id. apply objGet_objSet. }
  assert (a2 ≠ Null) as Ha2 by (apply setProp_Some in H2; by destruct a2).
  destruct (setProp_cases _ _ _ _ H) as [(m & -> & ->) | (l & -> & ->)].
  - cbn [getProp]. rewrite objGet_objSet. cbn [mbind option_bind].
    rewrite nullish_Some by done. rewrite E1. cbn [mbind option_bind]. rewrite E2.
    cbn [mbind option_bind setProp]. by rewrite objSet_objSet.
  - cbn [getProp mbind option_bind nullish setProp]. done.
Qed.

Lemma withProviderConfig_again installConfig v w :
  withProviderConfig installConfig v = Some w →
  withProviderConfig installConfig w = Some w.
Proof.
  unfold withProviderConfig. destruct (hasAntigravity installConfig); [| by intros [= ->]].
  intros H. destruct (getProp v (js "provider")) as [provider |] eqn:Hget; [| done].
  cbn [mbind option_bind] in H.
  destruct (setProp (nullish provider (Obj [])) (js "google") GOOGLE_PROVIDER_CONFIG_google)
    as [p1 |] eqn:H1; [| done].
  cbn [mbind option_bind] in H.
  pose proof (setProp_again _ _ _ _ H1) as E1.
  assert (p1 ≠ Null) as Hp1 by (apply setProp_Some in H1; by destruct p1).
  destruct (setProp_cases _ _ _ _ H) as [(m & -> & ->) | (l & -> & ->)].
  - cbn [getProp]. rewrite objGet_objSet. cbn [mbind option_bind].
    rewrite nullish_Some by done. rewrite E1. cbn [mbind option_bind setProp].
    by rewrite objSet_objSet.
  - cbn [getProp mbind option_bind nullish setProp]. done.
Qed.

Lemma withServerConfig_again installConfig v w :
  withServerConfig installConfig v = Some w →
  withServerConfig installConfig w = Some w.
Proof.
  unfold withServerConfig. destruct (hasTmux installConfig); [| by intros [= ->]].
  intros H. destruct (getProp v (js "server")) as [server |] eqn:Hget; [| done].
  cbn [mbind option_bind] in H.
  destruct (getProp (nullish server (Obj [])) (js "port")) as [port |] eqn:Hport; [| done].
  cbn [mbind option_bind] in H.
  assert (∃ s1,
    match port with
    | Some _ => Some (nullish server (Obj []))
    | None => setProp (nullish server (Obj [])) (js "port") (Number (js "4096"))
    end = Some s1
    ∧ setProp v (js "server") s1 = Some w
    ∧ s1 ≠ Null
    ∧ (s1 ← (port' ← getProp s1 (js "port");
             match port' with
             | Some _ => Some s1
             | None => setProp s1 (js "port") (Number (js "4096"))
             end); Some s1) = Some s1) as (s1 & _ & Hset & Hs1 & Hagain).
  { destruct port as [p |].
    - exists (nullish server (Obj [])). cbn [mbind option_bind] in H.
      split_and!; [done | done | by apply nullish_not_null |].
      by rewrite Hport.
    - destruct (setProp (nullish server (Obj [])) (js "port") (Number (js "4096")))
        as [s1 |] eqn:H1; [| done].
      cbn [mbind option_bind] in H. exists s1.
      split_and!; [done | done | apply setProp_Some in H1; by destruct s1 |].
      apply setProp_cases in H1 as [(m0 & _ & ->) | (l & _ & ->)].
      + cbn [getProp]. by rewrite objGet_objSet.
      + done. }
  destruct (setProp_cases _ _ _ _ Hset) as [(m & -> & ->) | (l & -> & ->)].
  - cbn [getProp]. rewrite objGet_objSet. cbn [mbind option_bind].
    rewrite nullish_Some by done.
    destruct (getProp s1 (js "port")) as [port' |] eqn:Hp'; [| done].
    cbn [mbind option_bind] in Hagain |- *.
    destruct port' as [p' |].
    + cbn [mbind option_bind setProp]. by rewrite objSet_objSet.
    + destruct (setProp s1 (js "port") (Number (js "4096"))) as [s2 |] eqn:H2; [| done].
      cbn [mbind option_bind] in Hagain. injection Hagain as ->.
      cbn [mbind option_bind setProp]. by rewrite objSet_objSet.
  - cbn [getProp mbind option_bind nullish setProp]. done.
Qed.

Lemma authPluginEntry_prefix latest :
  startsWith (authPluginEntry latest) (js "opencode-antigravity-auth") = true.
Proof.
  apply startsWith_prefix. unfold authPluginEntry. destruct (JS.truthy _).
  - exists (js "@" ++ default [] latest). by rewrite app_assoc.
  - by exists (js "@latest").
Qed.

Lemma someStartsWith_false prefix l :
  someStartsWith prefix l = Some false →
  ∀ entry, startsWith entry prefix = true →
    someStartsWith prefix (l ++ [Str entry]) = Some true.
Proof.
  intros H entry Hentry. induction l as [|x l IH]; cbn [someStartsWith app].
  - by rewrite Hentry.
  - cbn [someStartsWith] in H. destruct x as [| | |s | |]; try done.
    destruct (startsWith s prefix); [done |]. by apply IH.
Qed.

Lemma withAuthPlugins_again installConfig latest latest' v w :
  withAuthPlugins installConfig latest v = Some w →
  withAuthPlugins installConfig latest' w = Some w ∧ truthy w = true.
Proof.
  unfold withAuthPlugins. intros H.
  destruct (getProp v (js "plugin")) as [plugin |] eqn:Hget; [| done].
  cbn [mbind option_bind] in H.
  match type of H with
  | (plugins ← ?p; _) = _ => destruct p as [plugins |] eqn:Hplugins; [| done]
  end.
  cbn [mbind option_bind] in H. split; [| by eapply setProp_Some].
  assert (plugins ≠ Null
          ∧ (if hasAntigravity installConfig then
               found ← arraySome (js "opencode-antigravity-auth") plugins;
               if negb found then ConfigManager.arrayPush plugins (Str (authPluginEntry latest'))
               else Some plugins
             else Some plugins) = Some plugins) as [Hnn Hagain].
  { destruct (hasAntigravity installConfig); cycle 1.
    { injection Hplugins as <-. split; [by apply nullish_not_null | done]. }
    destruct (arraySome _ (nullish plugin (Arr []))) as [found |] eqn:Hsome; [| done].
    cbn [mbind option_bind] in Hplugins.
    destruct (nullish plugin (Arr [])) as [| | | |l |] eqn:Hnull; try done.
    cbn [arraySome] in Hsome. destruct found; cbn [negb] in Hplugins.
    - injection Hplugins as <-. split; [done |]. cbn [arraySome]. by rewrite Hsome.
    - cbn [ConfigManager.arrayPush] in Hplugins. injection Hplugins as <-.
      split; [done |]. cbn [arraySome].
      by rewrite (someStartsWith_false _ _ Hsome _ (authPluginEntry_prefix latest)). }
  destruct (setProp_cases _ _ _ _ H) as [(m & -> & ->) | (l & -> & ->)].
  - cbn [getProp]. rewrite objGet_objSet. cbn [mbind option_bind].
    rewrite nullish_Some by done. rewrite Hagain. cbn [mbind option_bind setProp].
    by rewrite objSet_objSet.
  - cbn [getProp mbind option_bind nullish]. by destruct (hasAntigravity installConfig).
Qed.

End InstallerEdits.

(** ** The installer, step by step *)

Section InstallerStepByStep.

Import Detection LiteConfig Installer.

Lemma someStartsWith_strings prefix (l : list jsstring) :
  someStartsWith prefix (Str <$> l) = Some (existsb (fun s => startsWith s prefix) l).
Proof.
  induction l as [|s l IH]; [done |]. cbn [fmap list_fmap someStartsWith existsb].
  destruct (startsWith s prefix); [done |]. exact IH.
Qed.

(** What [withPackage] gives for a config that is an object. *)
Lemma withPackage_object v members :
  withPackage v = Some (Obj members) →
  ∃ before previous,
    nullish (Some v) (Obj []) = Obj before
    ∧ nullish (objGet before (js "plugin")) (Arr []) = Arr (Str <$> previous)
    ∧ members
      = objSet before (js "plugin")
          (Arr (Str <$> (filter (fun p => ¬ refersTo ConfigManager.PACKAGE_NAME p) previous
                         ++ [ConfigManager.PACKAGE_NAME]))).
Proof.
  unfold withPackage. cbv zeta.
  destruct (nullish (Some v) (Obj [])) as [| | | | l |before] eqn:Hv; try done.
  cbn [getProp mbind option_bind].
  destruct (nullish (objGet before (js "plugin")) (Arr [])) as [| | | |elements |] eqn:Hp;
    try done.
  cbn [ConfigManager.arrayFilter].
  destruct (ConfigManager.filterElements _ elements) as [out |] eqn:Hfilter; [| done].
  destruct (filterElements_Some _ _ Hfilter) as [previous ->].
  rewrite filterElements_strings in Hfilter. injection Hfilter as <-.
  cbn [fmap option_fmap option_map mbind option_bind ConfigManager.arrayPush setProp].
  intros [= <-]. exists before, previous. by rewrite fmap_app.
Qed.

Lemma withPackage_again v w : withPackage v = Some w → withPackage w = Some w ∧ truthy w = true.
Proof.
  intros H.
  assert (truthy w = true ∧ ((∃ members, w = Obj members) ∨ (∃ l, w = Arr l))) as [Hw Hshape].
  { unfold withPackage in H. cbv zeta in H.
    destruct (getProp _ _); [| done]. cbn [mbind option_bind] in H.
    destruct (ConfigManager.arrayFilter _ _); [| done]. cbn [mbind option_bind] in H.
    destruct (ConfigManager.arrayPush _ _); [| done]. cbn [mbind option_bind] in H.
    split; [by eapply setProp_Some |].
    apply setProp_cases in H as [(m & _ & ->) | (l & _ & ->)]; eauto. }
  split; [| done]. destruct Hshape as [[members ->] | [l ->]]; [| done].
  apply withPackage_object in H as (before & previous & _ & _ & ->).
  unfold withPackage. cbn [nullish getProp]. rewrite objGet_objSet.
  cbn [mbind option_bind nullish ConfigManager.arrayFilter].
  rewrite filterElements_strings.
  rewrite (proj2 (filter_refers_others ConfigManager.PACKAGE_NAME previous)).
  cbn [fmap option_fmap option_map mbind option_bind ConfigManager.arrayPush setProp].
  by rewrite objSet_objSet, fmap_app.
Qed.

Section Installed.

Variable join : list jsstring → jsstring.
Variable stringify : value → jsstring.
Variable env : Env.

Lemma addPlugin_success fs fs' result :
  ConfigManager.addPluginToOpenCodeConfig join stringify env fs = (fs', result) →
  ConfigManager.success result = true →
  ∃ fs1 written,
    ConfigManager.ensureConfigDir join env fs = Some fs1
    ∧ packageConfigToWrite join env fs = Some written
    ∧ ConfigManager.configPath result = ConfigManager.getExistingConfigPath join env fs1
    ∧ writeFileSync fs1 (ConfigManager.configPath result) (stringify written ++ [10%N])
      = Some fs'.
Proof.
  unfold ConfigManager.addPluginToOpenCodeConfig, packageConfigToWrite, withPackage.
  destruct (ConfigManager.ensureConfigDir join env fs) as [fs1 |] eqn:Hdir; cycle 1.
  { by intros [= <- <-]. }
  cbv zeta. cbn [mbind option_bind].
  destruct (getProp _ _) as [plugin |]; cbn [mbind option_bind]; cycle 1.
  { by intros [= <- <-]. }
  destruct (ConfigManager.arrayFilter _ _) as [filtered |]; cbn [mbind option_bind]; cycle 1.
  { by intros [= <- <-]. }
  destruct (ConfigManager.arrayPush _ _) as [pushed |]; cbn [mbind option_bind]; cycle 1.
  { by intros [= <- <-]. }
  destruct (setProp _ _ _) as [written |]; cbn [mbind option_bind]; cycle 1.
  { by intros [= <- <-]. }
  destruct (ConfigManager.writeConfig stringify fs1 _ written) as [fs2 |] eqn:Hwrite; cycle 1.
  { by intros [= <- <-]. }
  intros [= <- <-] _. by exists fs1, written.
Qed.

Lemma getExistingConfigPath_rewritten fs1 fs' data :
  writeFileSync fs1 (ConfigManager.getExistingConfigPath join env fs1) data = Some fs' →
  ConfigManager.getExistingConfigPath join env fs'
  = ConfigManager.getExistingConfigPath join env fs1.
Proof.
  intros Hwrite.
  destruct (writeFileSync_exists _ _ _ _ Hwrite) as (Hkeep' & Hpath & _).
  unfold ConfigManager.getExistingConfigPath in *.
  destruct (existsSync fs1 (ConfigManager.getConfigJson join env)) eqn:Hjson.
  { by rewrite Hpath. }
  destruct (existsSync fs1 (ConfigManager.getConfigJsonc join env)) eqn:Hjsonc; cycle 1.
  { by rewrite Hpath. }
  rewrite Hpath.
  destruct (existsSync fs' (ConfigManager.getConfigJson join env)) eqn:Hjson'; [| done].
  apply existsSync_spec in Hjson'.
  destruct (decide (ConfigManager.getConfigJson join env
                    = ConfigManager.getConfigJsonc join env)) as [Heq | Hne]; [done |].
  apply writeFileSync_Some in Hwrite as [_ Hrest].
  rewrite Hrest in Hjson' by done.
  apply existsSync_spec in Hjson'. congruence.
Qed.

(** X10: after a successful [addPluginToOpenCodeConfig],
    [detectCurrentConfig] reports the plugin as installed, whatever else the
    config holds; only the lite config can still make it throw. *)
Theorem addPluginToOpenCodeConfig_detected fs fs' result written :
  ConfigManager.addPluginToOpenCodeConfig join stringify env fs = (fs', result) →
  ConfigManager.success result = true →
  packageConfigToWrite join env fs = Some written →
  isObject written →
  readsBack stringify written →
  ∃ forAntigravity,
    detectCurrentConfig join env fs'
    = ('(forOpenAI, forCerebras, forTmux) ←
         detectLite (ConfigManager.parseConfig fs' (getLiteConfig join env));
       Some (mkDetected true forAntigravity forOpenAI forCerebras forTmux)).
Proof.
  intros Hcall Hsuccess Hwritten [members ->] Hback.
  apply addPlugin_success in Hcall
    as (fs1 & written' & Hdir & Hwritten' & Hpath & Hwrite); [| done].
  rewrite Hwritten in Hwritten'. injection Hwritten' as <-.
  rewrite Hpath in Hwrite.
  pose proof (getExistingConfigPath_rewritten _ _ _ Hwrite) as Hpath'.
  destruct (writeFileSync_Some _ _ _ _ Hwrite) as [Hread _].
  unfold packageConfigToWrite in Hwritten. rewrite Hdir in Hwritten.
  cbn [mbind option_bind] in Hwritten.
  apply withPackage_object in Hwritten as (before & previous & _ & _ & ->).
  eexists. unfold detectCurrentConfig. rewrite Hpath'. cbv zeta.
  rewrite (parseConfig_parsed _ _ _ _ Hread Hback eq_refl).
  cbn [truthy negb getProp]. rewrite objGet_objSet.
  cbn [mbind option_bind nullish arraySome]. rewrite !someStartsWith_strings.
  cbn [mbind option_bind]. rewrite existsb_app. cbn [existsb].
  assert (startsWith ConfigManager.PACKAGE_NAME ConfigManager.PACKAGE_NAME = true) as ->
    by (by apply startsWith_prefix).
  by rewrite orb_true_r.
Qed.

(** X11: a second [addPluginToOpenCodeConfig] after a successful one returns
    the same result and leaves the file system as it is. *)
Theorem addPluginToOpenCodeConfig_idempotent fs fs' result written :
  ConfigManager.addPluginToOpenCodeConfig join stringify env fs = (fs', result) →
  ConfigManager.success result = true →
  packageConfigToWrite join env fs = Some written →
  readsBack stringify written →
  ConfigManager.addPluginToOpenCodeConfig join stringify env fs' = (fs', result).
Proof.
  intros Hcall Hsuccess Hwritten Hback. pose proof Hcall as Hresult.
  apply addPlugin_success in Hcall
    as (fs1 & written' & Hdir & Hwritten' & Hpath & Hwrite); [| done].
  rewrite Hwritten in Hwritten'. injection Hwritten' as <-.
  pose proof Hwrite as Hwrite0. rewrite Hpath in Hwrite.
  pose proof (getExistingConfigPath_rewritten _ _ _ Hwrite) as Hpath'.
  destruct (ensureConfigDir_Some _ _ _ _ Hdir) as (_ & _ & Hexists & _).
  destruct (writeFileSync_exists _ _ _ _ Hwrite) as (Hkeep & _ & Hro & Hnotro).
  destruct (writeFileSync_Some _ _ _ _ Hwrite) as [Hread _].
  unfold packageConfigToWrite in Hwritten. rewrite Hdir in Hwritten.
  cbn [mbind option_bind] in Hwritten.
  apply withPackage_again in Hwritten as [Hagain Htruthy].
  unfold ConfigManager.addPluginToOpenCodeConfig.
  rewrite (ensureConfigDir_exists join env fs') by auto. rewrite Hpath'. cbv zeta.
  rewrite (parseConfig_parsed _ _ _ _ Hread Hback Htruthy).
  unfold withPackage in Hagain. cbv zeta in Hagain.
  destruct (getProp _ _) as [plugin |]; [| done]. cbn [mbind option_bind] in Hagain |- *.
  destruct (ConfigManager.arrayFilter _ _) as [filtered |]; [| done].
  cbn [mbind option_bind] in Hagain |- *.
  destruct (ConfigManager.arrayPush _ _) as [pushed |]; [| done].
  cbn [mbind option_bind] in Hagain |- *. rewrite Hagain. cbn [mbind option_bind].
  unfold ConfigManager.writeConfig. rewrite writeFileSync_again; [| done | by rewrite Hro].
  f_equal. destruct result as [ok path err]. cbn [ConfigManager.success] in Hsuccess.
  cbn [ConfigManager.configPath] in Hpath. subst ok path.
  unfold ConfigManager.addPluginToOpenCodeConfig in Hresult. rewrite Hdir in Hresult.
  cbv zeta in Hresult.
  match type of Hresult with
  | match ?a with _ => _ end = _ => destruct a
  end; by simplify_eq.
Qed.

(** *** The steps that rewrite the user config *)

(** X12: run a second time after a success, each of [addAuthPlugins],
    [addProviderConfig], [addServerConfig] and [disableDefaultAgents] finds its
    change in place and leaves the file system as it is; [addAuthPlugins] does
    so whatever version the registry then reports. *)
Theorem installer_steps_idempotent fs fs' result written :
  ConfigManager.getConfigJson join env ≠ ConfigManager.getConfigDir join env →
  readsBack stringify written →
  (∀ installConfig latest latest',
     addAuthPlugins join stringify env installConfig latest fs = (fs', result) →
     success result = true →
     configToWrite join env (withAuthPlugins installConfig latest) fs = Some written →
     addAuthPlugins join stringify env installConfig latest' fs' = (fs', result))
  ∧ (∀ installConfig,
       addProviderConfig join stringify env installConfig fs = (fs', result) →
       success result = true →
       configToWrite join env (withProviderConfig installConfig) fs = Some written →
       truthy written = true →
       addProviderConfig join stringify env installConfig fs' = (fs', result))
  ∧ (∀ installConfig,
       addServerConfig join stringify env installConfig fs = (fs', result) →
       success result = true →
       configToWrite join env (withServerConfig installConfig) fs = Some written →
       truthy written = true →
       addServerConfig join stringify env installConfig fs' = (fs', result))
  ∧ (disableDefaultAgents join stringify env fs = (fs', result) →
     success result = true →
     configToWrite join env withoutDefaultAgents fs = Some written →
     disableDefaultAgents join stringify env fs' = (fs', result)).
Proof.
  intros Hjoin Hback.
  assert (Hedit : ∀ (edit : value → option value) fs0,
    configToWrite join env edit fs0 = Some written →
    ∃ v, edit v = Some written).
  { intros edit fs0. unfold configToWrite.
    destruct (ConfigManager.ensureConfigDir join env fs0); [| done].
    cbn [mbind option_bind]. eauto. }
  split_and!.
  - intros installConfig latest latest' Hcall Hsuccess Hwritten.
    destruct (Hedit _ _ Hwritten) as [v Hv].
    destruct (withAuthPlugins_again _ _ latest' _ _ Hv) as [Hagain Htruthy].
    by eapply (rewriteUserConfig_again join stringify env).
  - intros installConfig Hcall Hsuccess Hwritten Htruthy.
    destruct (Hedit _ _ Hwritten) as [v Hv%withProviderConfig_again].
    by eapply (rewriteUserConfig_again join stringify env).
  - intros installConfig Hcall Hsuccess Hwritten Htruthy.
    destruct (Hedit _ _ Hwritten) as [v Hv%withServerConfig_again].
    by eapply (rewriteUserConfig_again join stringify env).
  - intros Hcall Hsuccess Hwritten.
    destruct (Hedit _ _ Hwritten) as [v [Hagain Htruthy]%withoutDefaultAgents_again].
    by eapply (rewriteUserConfig_again join stringify env).
Qed.

End Installed.

End InstallerStepByStep.

(** ** The server port, the auth plugin and the lite config *)

Section InstallerSettings.

Import Detection LiteConfig Installer.

Section Settings.

Variable join : list jsstring → jsstring.
Variable stringify : value → jsstring.
Variable env : Env.

(** What a step wrote, when the parsed config was the object of
    [members]. *)
Lemma rewriteUserConfig_object failure edit fs fs' result members :
  rewriteUserConfig join stringify env failure edit fs = (fs', result) →
  success result = true →
  (∀ fs1, ConfigManager.ensureConfigDir join env fs = Some fs1 →
          nullish (Some (ConfigManager.parseConfig fs1
                           (ConfigManager.getExistingConfigPath join env fs)))
            (Obj []) = Obj members) →
  ∃ written,
    edit (Obj members) = Some written
    ∧ readFileSync fs' (configPath result) = Some (stringify written ++ [10%N]).
Proof.
  intros Hcall Hsuccess Hconfig.
  apply rewriteUserConfig_success in Hcall
    as (fs1 & written & Hdir & Hwritten & Hpath & Hwrite); [| done].
  unfold configToWrite in Hwritten. rewrite Hdir in Hwritten.
  cbn [mbind option_bind] in Hwritten. rewrite (Hconfig fs1 Hdir) in Hwritten.
  exists written. split; [done |]. by apply writeFileSync_Some in Hwrite as [? _].
Qed.



End Settings.

(** ** The lite config *)

(** X15: when some provider is there, the lite config gives each of the
    eight agents a model, and every model is one of a provider that the
    install config has; without a provider it names no agent.  The tmux
    settings are there exactly with tmux. *)
Theorem generateLiteConfig_models installConfig :
  let models := agentModels (generateLiteConfig installConfig) in
  getProp (generateLiteConfig installConfig) (js "agents")
  = Some (Some (Obj (zip ROLES (modelOf <$> models))))
  ∧ length models = (if anyProvider installConfig then 8 else 0)
  ∧ forallb (fromEnabledProvider installConfig) models = true
  ∧ getProp (generateLiteConfig installConfig) (js "tmux")
    = Some (if hasTmux installConfig then Some tmuxSettings else None).
Proof. destruct installConfig as [[] [] [] []]; by vm_compute. Qed.

(** What [detectCurrentConfig] reads off the lite config that
    [generateLiteConfig] gives: the flags of the install config. *)
Lemma detectLite_generateLiteConfig installConfig :
  detectLite (generateLiteConfig installConfig)
  = Some (LiteConfig.hasOpenAI installConfig, LiteConfig.hasCerebras installConfig,
          LiteConfig.hasTmux installConfig).
Proof. destruct installConfig as [[] [] [] []]; by vm_compute. Qed.

Section Detected.

Variable join : list jsstring → jsstring.
Variable stringify : value → jsstring.
Variable env : Env.

(** X16: after [writeLiteConfig], the lite config reads back as the generated
    one, and [detectCurrentConfig] reports the flags for OpenAI, Cerebras and
    tmux of the install config whenever it finds a user config; without a user
    config it reports nothing, the lite config notwithstanding. *)
Theorem writeLiteConfig_detected installConfig fs fs' result :
  writeLiteConfig join stringify env installConfig fs = (fs', result) →
  success result = true →
  readsBack stringify (generateLiteConfig installConfig) →
  ConfigManager.parseConfig fs' (getLiteConfig join env) = generateLiteConfig installConfig
  ∧ (∀ detected,
       detectCurrentConfig join env fs' = Some detected →
       truthy (ConfigManager.parseConfig fs'
                 (ConfigManager.getExistingConfigPath join env fs')) = true →
       Detection.hasOpenAI detected = LiteConfig.hasOpenAI installConfig
       ∧ Detection.hasCerebras detected = LiteConfig.hasCerebras installConfig
       ∧ Detection.hasTmux detected = LiteConfig.hasTmux installConfig)
  ∧ (truthy (ConfigManager.parseConfig fs'
               (ConfigManager.getExistingConfigPath join env fs')) = false →
     detectCurrentConfig join env fs' = Some (mkDetected false false false false false)).
Proof.
  intros Hcall Hsuccess Hback. unfold writeLiteConfig in Hcall.
  destruct (ConfigManager.ensureConfigDir join env fs) as [fs1 |]; cycle 1.
  { by simplify_eq. }
  cbv zeta in Hcall.
  destruct (writeFileSync fs1 _ _) as [fs2 |] eqn:Hwrite; cycle 1.
  { by simplify_eq. }
  injection Hcall as <- <-. apply writeFileSync_Some in Hwrite as [Hread _].
  assert (ConfigManager.parseConfig fs2 (getLiteConfig join env)
          = generateLiteConfig installConfig) as Hlite.
  { apply (parseConfig_parsed _ _ _ _ Hread Hback). by destruct installConfig as [[] [] [] []]. }
  split_and!; [done | |].
  - intros detected Hdetect Htruthy. unfold detectCurrentConfig in Hdetect.
    cbv zeta in Hdetect. rewrite Htruthy in Hdetect. cbn [negb] in Hdetect.
    destruct (getProp _ _) as [plugin |]; [| done]. cbn [mbind option_bind] in Hdetect.
    destruct (arraySome ConfigManager.PACKAGE_NAME _) as [installed |]; [| done].
    cbn [mbind option_bind] in Hdetect.
    destruct (arraySome (js "opencode-antigravity-auth") _) as [forAntigravity |]; [| done].
    cbn [mbind option_bind] in Hdetect.
    rewrite Hlite, detectLite_generateLiteConfig in Hdetect.
    cbn [mbind option_bind] in Hdetect. by injection Hdetect as <-.
  - intros Hfalsy. unfold detectCurrentConfig. cbv zeta. by rewrite Hfalsy.
Qed.

End Detected.

End InstallerSettings.

(** ** The default agents and the provider *)

Section InstallerMembers.

Import Detection LiteConfig Installer.

Section Members.

Variable join : list jsstring → jsstring.
Variable stringify : value → jsstring.
Variable env : Env.

(** [disableDefaultAgents] sets the agents explore and general to disabled
    and keeps the other agents and the other members that [parseConfig] gave;
    on an agent member that is an array the call succeeds and the array is
    written as it was. *)
Lemma disableDefaultAgents_parsed fs fs' result members :
  disableDefaultAgents join stringify env fs = (fs', result) →
  success result = true →
  (∀ fs1, ConfigManager.ensureConfigDir join env fs = Some fs1 →
          nullish (Some (ConfigManager.parseConfig fs1
                           (ConfigManager.getExistingConfigPath join env fs)))
            (Obj []) = Obj members) →
  ∃ agent,
    readFileSync fs' (configPath result)
    = Some (stringify (Obj (objSet members (js "agent") agent)) ++ [10%N])
    ∧ match objGet members (js "agent") with
      | Some (Obj agents) =>
          agent = Obj (objSet (objSet agents (js "explore") disabled) (js "general") disabled)
          ∧ getProp agent (js "explore") = Some (Some disabled)
          ∧ getProp agent (js "general") = Some (Some disabled)
          ∧ ∀ k, k ≠ js "explore" → k ≠ js "general" →
                 getProp agent k = Some (objGet agents k)
      | Some (Arr l) => agent = Arr l
      | None | Some Null => agent = Obj [(js "explore", disabled); (js "general", disabled)]
      | Some _ => False
      end.
Proof.
  intros Hcall Hsuccess Hconfig.
  destruct (rewriteUserConfig_object _ _ _ _ _ _ _ _ _ Hcall Hsuccess Hconfig)
    as (written & Hedit & Hread).
  unfold withoutDefaultAgents in Hedit. cbn [getProp mbind option_bind] in Hedit.
  destruct (objGet members (js "agent")) as [[| | | |l |agents] |] eqn:Hagent;
    cbn [nullish getProp mbind option_bind setProp objGet objSet] in Hedit;
    try done; try (injection Hedit as <-; by eexists).
  injection Hedit as <-. eexists. split; [done |]. cbn [getProp]. split_and!; [done | | |].
  - by rewrite objGet_objSet_ne, objGet_objSet.
  - by rewrite objGet_objSet.
  - intros k Hk1 Hk2. by rewrite !objGet_objSet_ne.
Qed.


End Members.

End InstallerMembers.

(** ** The candidates and what is found in them *)

Section CheckerCandidates.

Import LocalDev.

Section Candidates.

Variable PACKAGE_NAME : jsstring.
Variable USER_OPENCODE_CONFIG : jsstring.
Variable USER_OPENCODE_CONFIG_JSONC : jsstring.
Variable USER_CONFIG_DIR : jsstring.
Variable INSTALLED_PACKAGE_JSON : jsstring.
Variable join : list jsstring → jsstring.
Variable dirname : jsstring → jsstring.
Variable fileURLToPath : jsstring → option jsstring.
Variable moduleUrl : jsstring.
Variable env : Env.

Lemma pushNew_NoDup paths p : NoDup paths → NoDup (pushNew paths p).
Proof.
  intros H. unfold pushNew. case_bool_decide as Hin; [done |].
  apply NoDup_app. split_and!; [done | | apply NoDup_singleton].
  intros x Hx ->%list_elem_of_singleton. done.
Qed.

Lemma pushNew_length paths p : length (pushNew paths p) ≤ S (length paths).
Proof.
  unfold pushNew. case_bool_decide; [lia |]. rewrite length_app. cbn. lia.
Qed.

(** *** What [findPluginEntry] returns *)

Lemma scanPlugins_sound path plugins info :
  scanPlugins PACKAGE_NAME path plugins = Some (Some info) →
  ∃ strs rest,
    plugins = (Str <$> strs) ++ Str (entry info) :: rest
    ∧ (∀ e, e ∈ strs → ¬ refersTo PACKAGE_NAME e)
    ∧ Checker.configPath info = path
    ∧ (entry info = PACKAGE_NAME ∧ isPinned info = false ∧ pinnedVersion info = None
       ∨ ∃ version,
           entry info = PACKAGE_NAME ++ [AT] ++ version
           ∧ isPinned info = negb (JS.eqb version (js "latest"))
           ∧ pinnedVersion info = (if isPinned info then Some version else None)).
Proof.
  induction plugins as [|x plugins IH]; [done |]. cbn [scanPlugins].
  destruct x as [| | |e | |]; try done.
  destruct (JS.eqb e PACKAGE_NAME) eqn:Heq.
  { intros [= <-]. exists [], plugins. cbn [entry isPinned pinnedVersion Checker.configPath].
    split_and!; [done | by intros ? ?%elem_of_nil | done |]. left.
    unfold JS.eqb in Heq. by apply bool_decide_eq_true in Heq. }
  destruct (startsWith e (PACKAGE_NAME ++ [AT])) eqn:Hsw.
  { intros [= <-]. exists [], plugins. cbn [entry isPinned pinnedVersion Checker.configPath].
    split_and!; [done | by intros ? ?%elem_of_nil | done |]. right.
    apply startsWith_prefix in Hsw as [version ->]. exists version.
    unfold sliceFrom.
    replace (drop (length PACKAGE_NAME + 1) ((PACKAGE_NAME ++ [AT]) ++ version)) with version
      by (symmetry; apply drop_app_length'; rewrite length_app; cbn; lia).
    split_and!; [by rewrite <- app_assoc | done | done]. }
  intros (strs & rest & -> & Hstrs & Hpath & Hpin)%IH. exists (e :: strs), rest.
  split_and!; [done | | done | done].
  intros e' [-> | He']%elem_of_cons; [| by apply Hstrs].
  rewrite refersTo_tests, Heq, Hsw. by intros [? | ?].
Qed.

Lemma findPluginEntryIn_sound fs paths info :
  findPluginEntryIn PACKAGE_NAME fs paths = Some info →
  ∃ path, path ∈ paths ∧ existsSync fs path = true
    ∧ readPluginEntry PACKAGE_NAME fs path = Some (Some info).
Proof.
  induction paths as [|path paths IH]; [done |]. cbn [findPluginEntryIn].
  destruct (existsSync fs path) eqn:Hex; cbn [negb].
  - destruct (readPluginEntry PACKAGE_NAME fs path) as [[info' |] |] eqn:Hread.
    + intros [= ->]. exists path. split_and!; [left | done | done].
    + intros (p & ? & ? & ?)%IH. exists p. split_and!; [by right | done | done].
    + intros (p & ? & ? & ?)%IH. exists p. split_and!; [by right | done | done].
  - intros (p & ? & ? & ?)%IH. exists p. split_and!; [by right | done | done].
Qed.

(** X20: whatever [findPluginEntry] returns is the first entry that names
    the package in the plugins of a candidate that exists, with the path of
    that candidate; it is pinned exactly when a version other than latest
    follows the at sign, the empty version included. *)
Theorem findPluginEntry_sound fs directory info :
  findPluginEntry PACKAGE_NAME USER_OPENCODE_CONFIG USER_OPENCODE_CONFIG_JSONC
    USER_CONFIG_DIR join env fs directory = Some info →
  Checker.configPath info
    ∈ getConfigPaths USER_OPENCODE_CONFIG USER_OPENCODE_CONFIG_JSONC USER_CONFIG_DIR
        join env directory
  ∧ existsSync fs (Checker.configPath info) = true
  ∧ (∃ content config plugin strs rest,
       readFileSync fs (Checker.configPath info) = Some content
       ∧ parse (stripJsonComments content) = Some config
       ∧ getProp config (js "plugin") = Some plugin
       ∧ iterate (nullish plugin (Arr [])) = Some ((Str <$> strs) ++ Str (entry info) :: rest)
       ∧ ∀ e, e ∈ strs → ¬ refersTo PACKAGE_NAME e)
  ∧ (entry info = PACKAGE_NAME ∧ isPinned info = false ∧ pinnedVersion info = None
     ∨ ∃ version,
         entry info = PACKAGE_NAME ++ [AT] ++ version
         ∧ isPinned info = negb (JS.eqb version (js "latest"))
         ∧ pinnedVersion info = (if isPinned info then Some version else None)).
Proof.
  unfold findPluginEntry. intros (path & Hin & Hex & Hread)%findPluginEntryIn_sound.
  unfold readPluginEntry in Hread.
  destruct (readFileSync fs path) as [content |] eqn:Hcontent; [| done].
  cbn [mbind option_bind] in Hread.
  destruct (parse (stripJsonComments content)) as [config |] eqn:Hparse; [| done].
  cbn [mbind option_bind] in Hread.
  destruct (getProp config (js "plugin")) as [plugin |] eqn:Hprop; [| done].
  cbn [mbind option_bind] in Hread.
  destruct (iterate (nullish plugin (Arr []))) as [plugins |] eqn:Hiter; [| done].
  cbn [mbind option_bind] in Hread.
  apply scanPlugins_sound in Hread as (strs & rest & -> & Hstrs & <- & Hpin).
  split_and!; [done | done | | done].
  by exists content, config, plugin, strs, rest.
Qed.

(** *** The walk up to the package.json *)

Lemma walkUp_spec n fs dir pkgPath :
  walkUp PACKAGE_NAME join dirname n fs dir = Some pkgPath ↔
  ∃ k, k < n
    ∧ pkgPath = join [Nat.iter k dirname dir; js "package.json"]
    ∧ existsSync fs pkgPath && namesPackage PACKAGE_NAME fs pkgPath = true
    ∧ ∀ j, j < k →
        existsSync fs (join [Nat.iter j dirname dir; js "package.json"])
        && namesPackage PACKAGE_NAME fs (join [Nat.iter j dirname dir; js "package.json"])
        = false
        ∧ dirname (Nat.iter j dirname dir) ≠ Nat.iter j dirname dir.
Proof.
  revert dir. induction n as [|n IH]; intros dir; cbn [walkUp].
  { split; [done |]. intros (k & ? & _). lia. }
  destruct (existsSync fs (join [dir; js "package.json"])
            && namesPackage PACKAGE_NAME fs (join [dir; js "package.json"])) eqn:Hhit.
  { split.
    - intros [= <-]. exists 0. cbn [Nat.iter nat_rect]. split_and!; [lia | done | done |].
      intros j Hj. lia.
    - intros (k & _ & -> & Hk & Hbefore). destruct k as [|k]; [done |].
      destruct (Hbefore 0 ltac:(lia)) as [H0 _]. cbn [Nat.iter nat_rect] in H0. congruence. }
  cbv zeta. unfold JS.eqb. case_bool_decide as Hroot.
  { split; [done |]. intros (k & _ & -> & Hk & Hbefore). destruct k as [|k].
    - cbn [Nat.iter nat_rect] in Hk. congruence.
    - destruct (Hbefore 0 ltac:(lia)) as [_ H0]. cbn [Nat.iter nat_rect] in H0. done. }
  rewrite IH. split.
  - intros (k & Hk & -> & Hfound & Hbefore). exists (S k). rewrite !Nat.iter_succ_r.
    split_and!; [lia | done | done |].
    intros [|j] Hj; [done |]. rewrite !Nat.iter_succ_r. apply Hbefore. lia.
  - intros (k & Hk & -> & Hfound & Hbefore). destruct k as [|k].
    { cbn [Nat.iter nat_rect] in Hfound. congruence. }
    exists k. rewrite !Nat.iter_succ_r in *. split_and!; [lia | done | done |].
    intros j Hj. specialize (Hbefore (S j) ltac:(lia)). by rewrite !Nat.iter_succ_r in Hbefore.
Qed.

(** X21: [findPackageJsonUp] returns the package.json of the nearest of the
    first ten directories, from the start (or its directory, for a file)
    upwards, whose package.json parses to a value with the package name; it
    stops at a directory that is its own parent, and gives null for a start
    that does not exist. *)
Theorem findPackageJsonUp_nearest fs startPath pkgPath :
  findPackageJsonUp PACKAGE_NAME join dirname fs startPath = Some pkgPath ↔
  ∃ isDirectory k,
    LocalDev.statIsDirectory fs startPath = Some isDirectory
    ∧ k < 10
    ∧ pkgPath
      = join [Nat.iter k dirname (if isDirectory then startPath else dirname startPath);
              js "package.json"]
    ∧ existsSync fs pkgPath && namesPackage PACKAGE_NAME fs pkgPath = true
    ∧ ∀ j, j < k →
        existsSync fs
          (join [Nat.iter j dirname (if isDirectory then startPath else dirname startPath);
                 js "package.json"])
        && namesPackage PACKAGE_NAME fs
             (join [Nat.iter j dirname (if isDirectory then startPath else dirname startPath);
                    js "package.json"])
        = false
        ∧ dirname (Nat.iter j dirname (if isDirectory then startPath else dirname startPath))
          ≠ Nat.iter j dirname (if isDirectory then startPath else dirname startPath).
Proof.
  unfold findPackageJsonUp.
  destruct (LocalDev.statIsDirectory fs startPath) as [isDirectory |]; cycle 1.
  { split; [done |]. by intros (? & ? & ? & _). }
  rewrite walkUp_spec. split.
  - intros (k & H). by exists isDirectory, k.
  - intros (? & k & [= <-] & H). by exists k.
Qed.

(** *** The local checkout *)

Lemma removeFirst_prefix pattern rest :
  LocalDev.removeFirst (pattern ++ rest) pattern = rest.
Proof.
  destruct (pattern ++ rest) as [|x s] eqn:E; cbn [LocalDev.removeFirst].
  - apply app_eq_nil in E as [-> ->]. done.
  - rewrite <- E. rewrite (proj2 (startsWith_prefix _ _)) by (by exists rest).
    by rewrite drop_app_length.
Qed.

Lemma scanLocalDev_sound plugins path :
  scanLocalDev PACKAGE_NAME fileURLToPath plugins = Some (Some path) →
  ∃ strs tail rest,
    plugins = (Str <$> strs) ++ Str (js "file://" ++ tail) :: rest
    ∧ hasInfix PACKAGE_NAME (js "file://" ++ tail)
    ∧ (∀ e, e ∈ strs → ¬ (js "file://" `prefix_of` e ∧ hasInfix PACKAGE_NAME e))
    ∧ path = default tail (fileURLToPath (js "file://" ++ tail)).
Proof.
  induction plugins as [|x plugins IH]; [done |]. cbn [scanLocalDev].
  destruct x as [| | |e | |]; try done.
  destruct (startsWith e (js "file://")) eqn:Hsw; cbn [andb].
  - destruct (includes e PACKAGE_NAME) eqn:Hinc.
    + intros [= <-]. apply startsWith_prefix in Hsw as [tail ->].
      exists [], tail, plugins. split_and!; [done | by apply includes_hasInfix | |].
      * by intros ? ?%elem_of_nil.
      * destruct (fileURLToPath _); [done |]. cbn [default]. apply removeFirst_prefix.
    + intros (strs & tail & rest & -> & ? & Hstrs & ?)%IH. exists (e :: strs), tail, rest.
      split_and!; [done | done | | done].
      intros e' [-> | He']%elem_of_cons; [| by apply Hstrs].
      rewrite <- includes_hasInfix, Hinc. by intros [_ ?].
  - intros (strs & tail & rest & -> & ? & Hstrs & ?)%IH. exists (e :: strs), tail, rest.
    split_and!; [done | done | | done].
    intros e' [-> | He']%elem_of_cons; [| by apply Hstrs].
    rewrite <- startsWith_prefix, Hsw. by intros [? _].
Qed.

Lemma getLocalDevPathIn_sound fs paths path :
  getLocalDevPathIn PACKAGE_NAME fileURLToPath fs paths = Some path →
  ∃ configPath, configPath ∈ paths ∧ existsSync fs configPath = true
    ∧ readLocalDev PACKAGE_NAME fileURLToPath fs configPath = Some (Some path).
Proof.
  induction paths as [|p paths IH]; [done |]. cbn [getLocalDevPathIn].
  destruct (existsSync fs p) eqn:Hex; cbn [negb].
  - destruct (readLocalDev PACKAGE_NAME fileURLToPath fs p) as [[path' |] |] eqn:Hread.
    + intros [= ->]. exists p. split_and!; [left | done | done].
    + intros (q & ? & ? & ?)%IH. exists q. split_and!; [by right | done | done].
    + intros (q & ? & ? & ?)%IH. exists q. split_and!; [by right | done | done].
  - intros (q & ? & ? & ?)%IH. exists q. split_and!; [by right | done | done].
Qed.

(** X22: the path that [getLocalDevPath] returns comes from the first plugin
    entry, in a candidate that exists, that starts with file:// and holds the
    package name: what [fileURLToPath] makes of the entry or, when that
    throws, the entry without its file:// prefix. *)
Theorem getLocalDevPath_sound fs directory path :
  getLocalDevPath PACKAGE_NAME USER_OPENCODE_CONFIG USER_OPENCODE_CONFIG_JSONC
    USER_CONFIG_DIR join fileURLToPath env fs directory = Some path →
  ∃ configPath content config plugin strs tail rest,
    configPath
      ∈ getConfigPaths USER_OPENCODE_CONFIG USER_OPENCODE_CONFIG_JSONC USER_CONFIG_DIR
          join env directory
    ∧ readFileSync fs configPath = Some content
    ∧ parse (stripJsonComments content) = Some config
    ∧ getProp config (js "plugin") = Some plugin
    ∧ iterate (nullish plugin (Arr []))
      = Some ((Str <$> strs) ++ Str (js "file://" ++ tail) :: rest)
    ∧ hasInfix PACKAGE_NAME (js "file://" ++ tail)
    ∧ (∀ e, e ∈ strs → ¬ (js "file://" `prefix_of` e ∧ hasInfix PACKAGE_NAME e))
    ∧ path = default tail (fileURLToPath (js "file://" ++ tail)).
Proof.
  unfold getLocalDevPath. intros (configPath & Hin & Hex & Hread)%getLocalDevPathIn_sound.
  unfold readLocalDev in Hread.
  destruct (readFileSync fs configPath) as [content |] eqn:Hcontent; [| done].
  cbn [mbind option_bind] in Hread.
  destruct (parse (stripJsonComments content)) as [config |] eqn:Hparse; [| done].
  cbn [mbind option_bind] in Hread.
  destruct (getProp config (js "plugin")) as [plugin |] eqn:Hprop; [| done].
  cbn [mbind option_bind] in Hread.
  destruct (iterate (nullish plugin (Arr []))) as [plugins |] eqn:Hiter; [| done].
  cbn [mbind option_bind] in Hread.
  apply scanLocalDev_sound in Hread as (strs & tail & rest & -> & ? & ? & ?).
  by exists configPath, content, config, plugin, strs, tail, rest.
Qed.

End Candidates.

(** ** The channel, for every token *)

(** X23: the channel is never the empty string: it is latest, one of the
    five channel names, or the token itself, which then does not begin with a
    digit. *)
Theorem extractChannel_total version :
  extractChannel version ≠ []
  ∧ (extractChannel version ∈ js "latest" :: KNOWN_CHANNELS
     ∨ (version = Some (extractChannel version)
        ∧ ¬ beginsWithDigit (extractChannel version))).
Proof.
  assert (Hknown : ∀ ch, ch ∈ js "latest" :: KNOWN_CHANNELS → ch ≠ []).
  { intros ch Hch ->. by apply (bool_decide_pack _) in Hch. }
  assert (extractChannel version ∈ js "latest" :: KNOWN_CHANNELS
          ∨ (version = Some (extractChannel version)
             ∧ extractChannel version ≠ []
             ∧ ¬ beginsWithDigit (extractChannel version))) as [H | (H1 & H2 & H3)];
    [| split; [by apply Hknown | by left] | split; [done | by right]].
  destruct version as [v |]; [| left; left]. cbn [extractChannel].
  destruct (JS.truthy v) eqn:Hv; cbn [negb]; [| left; left].
  destruct (isDistTag v) eqn:Hdist.
  { right. split_and!; [done | by destruct v | by apply isDistTag_spec]. }
  left. destruct (isPrereleaseVersion v); [| left].
  destruct (split1 HYPHEN v !! 1) as [part |]; cbn [mbind option_bind default]; [| left].
  destruct (JS.truthy part); [| left].
  destruct (decide (Exists (fun ch => ch `prefix_of` part) KNOWN_CHANNELS)) as [Hyes | Hno].
  - apply Exists_exists in Hyes as (ch & Hch & Hpre).
    destruct (exec_channelPrefix_hit part ch Hch Hpre) as (r & -> & Hgroup).
    cbn [mbind option_bind]. rewrite Hgroup. cbn [default]. by right.
  - rewrite exec_channelPrefix_miss; [left |].
    intros ch Hch Hpre. apply Hno. apply Exists_exists. by exists ch.
Qed.

End CheckerCandidates.

(** ** The versions *)

Section CheckerVersions.

Import LocalDev.

Section Versions.

Variable PACKAGE_NAME : jsstring.
Variable USER_OPENCODE_CONFIG : jsstring.
Variable USER_OPENCODE_CONFIG_JSONC : jsstring.
Variable USER_CONFIG_DIR : jsstring.
Variable INSTALLED_PACKAGE_JSON : jsstring.
Variable join : list jsstring → jsstring.
Variable dirname : jsstring → jsstring.
Variable fileURLToPath : jsstring → option jsstring.
Variable moduleUrl : jsstring.
Variable env : Env.

Lemma walkUp_names n fs dir pkgPath :
  walkUp PACKAGE_NAME join dirname n fs dir = Some pkgPath →
  namesPackage PACKAGE_NAME fs pkgPath = true.
Proof. intros (k & _ & _ & [_ ?]%andb_true_iff & _)%walkUp_spec. done. Qed.

Lemma findPackageJsonUp_names fs startPath pkgPath :
  findPackageJsonUp PACKAGE_NAME join dirname fs startPath = Some pkgPath →
  namesPackage PACKAGE_NAME fs pkgPath = true.
Proof.
  unfold findPackageJsonUp. destruct (statIsDirectory fs startPath); [| done].
  apply walkUp_names.
Qed.

Lemma namesPackage_spec fs pkgPath :
  namesPackage PACKAGE_NAME fs pkgPath = true ↔
  ∃ content pkg,
    readFileSync fs pkgPath = Some content ∧ parse content = Some pkg
    ∧ getProp pkg (js "name") = Some (Some (Str PACKAGE_NAME)).
Proof.
  unfold namesPackage. split.
  - destruct (readFileSync fs pkgPath) as [content |] eqn:Hread; [| done].
    cbn [mbind option_bind].
    destruct (parse content) as [pkg |] eqn:Hparse; [| done]. cbn [mbind option_bind].
    destruct (getProp pkg (js "name")) as [[[| | |name | |] |] |] eqn:Hname; try done.
    unfold JS.eqb. intros ->%bool_decide_eq_true. by exists content, pkg.
  - intros (content & pkg & -> & Hparse & Hname). cbn [mbind option_bind].
    rewrite Hparse. cbn [mbind option_bind]. rewrite Hname. unfold JS.eqb.
    by apply bool_decide_eq_true.
Qed.

(** X24: a version that [getLocalDevVersion] reports is the version member
    of a package.json that names the package, found from the local path
    upwards. *)
Theorem getLocalDevVersion_source fs directory :
  getLocalDevVersion PACKAGE_NAME USER_OPENCODE_CONFIG USER_OPENCODE_CONFIG_JSONC
    USER_CONFIG_DIR join dirname fileURLToPath env fs directory ≠ Null →
  ∃ localPath pkgPath content pkg,
    getLocalDevPath PACKAGE_NAME USER_OPENCODE_CONFIG USER_OPENCODE_CONFIG_JSONC
      USER_CONFIG_DIR join fileURLToPath env fs directory = Some localPath
    ∧ findPackageJsonUp PACKAGE_NAME join dirname fs localPath = Some pkgPath
    ∧ readFileSync fs pkgPath = Some content
    ∧ parse content = Some pkg
    ∧ getProp pkg (js "name") = Some (Some (Str PACKAGE_NAME))
    ∧ getProp pkg (js "version")
      = Some (Some (getLocalDevVersion PACKAGE_NAME USER_OPENCODE_CONFIG
                      USER_OPENCODE_CONFIG_JSONC USER_CONFIG_DIR join dirname fileURLToPath
                      env fs directory)).
Proof.
  unfold getLocalDevVersion.
  destruct (getLocalDevPath _ _ _ _ _ _ _ _ _) as [localPath |] eqn:Hlocal; [| done].
  destruct (JS.truthy localPath); cbn [negb]; [| done].
  destruct (findPackageJsonUp _ _ _ fs localPath) as [pkgPath |] eqn:Hup; [| done].
  destruct (JS.truthy pkgPath); cbn [negb]; [| done].
  pose proof (findPackageJsonUp_names _ _ _ Hup) as
    (content & pkg & Hread & Hparse & Hname)%namesPackage_spec.
  rewrite Hread. cbn [mbind option_bind]. rewrite Hparse. cbn [mbind option_bind].
  destruct (getProp pkg (js "version")) as [[version |] |] eqn:Hversion;
    cbn [mbind option_bind default nullish]; [| done | done].
  intros Hnn. exists localPath, pkgPath, content, pkg.
  split_and!; [done | done | done | done | done |]. by destruct version.
Qed.

(** X25: [getCachedVersion] prefers the installed package.json, falls back
    to the package.json found from the directory of the module upwards, and
    never returns a version that is falsy. *)
Theorem getCachedVersion_sources fs :
  (∀ version,
     versionIn fs INSTALLED_PACKAGE_JSON = Some version →
     getCachedVersion PACKAGE_NAME INSTALLED_PACKAGE_JSON join dirname fileURLToPath
       moduleUrl fs = Some version)
  ∧ (∀ version,
       getCachedVersion PACKAGE_NAME INSTALLED_PACKAGE_JSON join dirname fileURLToPath
         moduleUrl fs = Some version →
       truthy version = true
       ∧ ∃ pkgPath,
           versionIn fs pkgPath = Some version
           ∧ (pkgPath = INSTALLED_PACKAGE_JSON
              ∨ ∃ modulePath,
                  fileURLToPath moduleUrl = Some modulePath
                  ∧ findPackageJsonUp PACKAGE_NAME join dirname fs (dirname modulePath)
                    = Some pkgPath
                  ∧ namesPackage PACKAGE_NAME fs pkgPath = true)).
Proof.
  assert (Htruthy : ∀ pkgPath version, versionIn fs pkgPath = Some version →
            truthy version = true ∧ existsSync fs pkgPath = true).
  { intros pkgPath version. unfold versionIn.
    destruct (readFileSync fs pkgPath) as [content |] eqn:Hread; [| done].
    cbn [mbind option_bind].
    destruct (parse content) as [pkg |]; [| done]. cbn [mbind option_bind].
    destruct (getProp pkg (js "version")) as [[v |] |]; try done.
    destruct (truthy v) eqn:Hv; [| done]. intros [= <-]. split; [done |].
    apply existsSync_spec. apply readFileSync_Some in Hread. by rewrite Hread. }
  split.
  - intros version Hv. destruct (Htruthy _ _ Hv) as [_ Hex].
    unfold getCachedVersion. by rewrite Hex, Hv.
  - intros version. unfold getCachedVersion.
    destruct (if existsSync fs INSTALLED_PACKAGE_JSON
              then versionIn fs INSTALLED_PACKAGE_JSON else None) as [v |] eqn:Hinst.
    + intros [= ->]. destruct (existsSync fs INSTALLED_PACKAGE_JSON); [| done].
      destruct (Htruthy _ _ Hinst) as [? _]. split; [done |].
      exists INSTALLED_PACKAGE_JSON. split; [done | by left].
    + destruct (fileURLToPath moduleUrl) as [modulePath |] eqn:Hurl; [| done].
      destruct (findPackageJsonUp _ _ _ fs (dirname modulePath)) as [pkgPath |] eqn:Hup;
        [| done].
      destruct (JS.truthy pkgPath); [| done]. intros Hv.
      destruct (Htruthy _ _ Hv) as [? _]. split; [done |]. exists pkgPath.
      split; [done |]. right. exists modulePath.
      split_and!; [done | done | by eapply findPackageJsonUp_names].
Qed.

End Versions.

End CheckerVersions.

(** ** The patcher on the bytes of the file *)

Lemma encode_app a b :
  (∀ x y, last a = Some x → head b = Some y →
          Utf8.isHighSurrogate x && Utf8.isLowSurrogate y = false) →
  Utf8.encode (a ++ b) = Utf8.encode a ++ Utf8.encode b.
Proof.
  remember (length a) as n eqn:Hn. revert a Hn.
  induction n as [n IH] using lt_wf_ind. intros a Hn Hjoin.
  destruct a as [|x a1]; [done |].
  assert (Htail : ∀ a', a' `suffix_of` (x :: a1) → a' ≠ x :: a1 →
            Utf8.encode (a' ++ b) = Utf8.encode a' ++ Utf8.encode b).
  { intros a' [pre Hpre] Hne. destruct a' as [|z a'] using rev_ind; [done |].
    apply (IH (length (a' ++ [z]))); [| done |].
    - subst n. rewrite Hpre. destruct pre; [by destruct Hne |].
      rewrite !length_app. cbn [length]. lia.
    - intros x' y' Hlast. apply Hjoin. rewrite Hpre, last_app. by rewrite Hlast. }
  cbn [app Utf8.encode]. destruct (Utf8.isHighSurrogate x) eqn:Hx.
  - destruct a1 as [|y a2].
    + cbn [app]. destruct b as [|y b']; [done |].
      specialize (Hjoin x y eq_refl eq_refl). rewrite Hx in Hjoin. cbn [andb] in Hjoin.
      by rewrite Hjoin.
    + cbn [app]. destruct (Utf8.isLowSurrogate y).
      * rewrite (Htail a2); [by rewrite app_assoc | by exists [x; y] |].
        intros H. apply (f_equal length) in H. cbn [length] in H. lia.
      * change (y :: a2 ++ b) with ((y :: a2) ++ b).
        rewrite (Htail (y :: a2)); [by rewrite app_assoc | by exists [x] |].
        intros H. apply (f_equal length) in H. cbn [length] in H. lia.
  - assert (Utf8.encode (a1 ++ b) = Utf8.encode a1 ++ Utf8.encode b) as ->.
    { apply Htail; [by exists [x] |].
      intros H. apply (f_equal length) in H. cbn [length] in H. lia. }
    destruct (Utf8.isLowSurrogate x); by rewrite app_assoc.
Qed.

(** The unit at which the array closes is the closing bracket. *)
Lemma closesAt_bracket body n : closesAt body n → body !! n = Some RBRACKET.
Proof.
  intros (Hn & Hzero & Hpos).
  destruct (lookup_lt_is_Some_2 body n Hn) as [x Hx]. rewrite Hx. f_equal.
  rewrite (take_S_r _ _ _ Hx) in Hzero. unfold depthAfter in Hzero.
  rewrite foldl_app in Hzero. cbn [foldl] in Hzero.
  specialize (Hpos n (le_n _)). unfold depthAfter in Hpos.
  remember (foldl depthStep 1%Z (take n body)) as d. unfold depthStep in Hzero.
  destruct (N.eqb_spec x LBRACKET); [lia |].
  destruct (N.eqb_spec x RBRACKET); [done | lia].
Qed.

Lemma readFileSync_decoded disk path bytes :
  entries disk !! path = Some (File bytes) →
  readFileSync (Disk.decoded disk) path = Some (Utf8.decode bytes).
Proof.
  intros H. unfold readFileSync, Disk.decoded. cbn [entries].
  by rewrite lookup_fmap, H.
Qed.

Lemma pluginOpening_last opening : pluginOpening opening → last opening = Some LBRACKET.
Proof.
  intros (ws1 & ws2 & -> & _). rewrite !app_assoc, app_comm_cons, app_assoc.
  by rewrite last_snoc.
Qed.

Section FrameBytes.

Variable PACKAGE_NAME : jsstring.

(** C3, amended: on a document that is well-formed UTF-8 (without a byte
    order mark, which the runtime may drop), a call that returns true has
    written the bytes before the array body as they were, a new body, and the
    bytes from the end of the body on as they were; no other file has changed.
    The bytes before the body end with the first opening of the plugin array;
    when a bracket closes the array, the bytes after the body start with it. *)
Theorem updatePinnedVersion_frame disk disk' path old newVersion bytes :
  Disk.updatePinnedVersion PACKAGE_NAME disk path old newVersion = (disk', true) →
  entries disk !! path = Some (File bytes) →
  Utf8.encode (Utf8.decode bytes) = bytes →
  ¬ Utf8.BOM `prefix_of` bytes →
  ∃ content s e patched,
    Utf8.decode bytes = content
    ∧ pluginArrayRange content = Some (s, e)
    ∧ bytes = Utf8.encode (take s content) ++ Utf8.encode (drop s content)
    ∧ entries disk' !! path
      = Some (File (Utf8.encode (take s content) ++ Utf8.encode (patched ++ drop e content)))
    ∧ (∀ other, other ≠ path → entries disk' !! other = entries disk !! other)
    ∧ (∃ pre opening,
         take s content = pre ++ opening ∧ pluginOpening opening
         ∧ ∀ pre' opening' post',
             content = pre' ++ opening' ++ post' → pluginOpening opening' →
             length pre ≤ length pre')
    ∧ (∀ n, closesAt (drop s content) n →
         e = s + n
         ∧ (∃ rest, drop e content = RBRACKET :: rest)
         ∧ bytes = Utf8.encode (take s content) ++ Utf8.encode (slice content s e)
                   ++ Utf8.encode (drop e content)
         ∧ entries disk' !! path
           = Some (File (Utf8.encode (take s content) ++ Utf8.encode patched
                         ++ Utf8.encode (drop e content)))).
Proof.
  intros Hcall Hbytes Hvalid _. unfold Disk.updatePinnedVersion in Hcall. cbv zeta in Hcall.
  destruct (returned (updatePinnedVersion PACKAGE_NAME (Disk.decoded disk) path old newVersion))
    eqn:Hreturned; [| done].
  destruct (updatePinnedVersion_frame_text PACKAGE_NAME _ _ _ _ Hreturned)
    as (content & s & e & patched & Hread & Hrange & Hcover & Hafter & _ & Hopening & Hclose & _).
  rewrite Hafter in Hcall. injection Hcall as <-.
  rewrite (readFileSync_decoded _ _ _ Hbytes) in Hread. injection Hread as Hcontent.
  assert (Hsplit : ∀ rest,
            Utf8.encode (take s content ++ rest)
            = Utf8.encode (take s content) ++ Utf8.encode rest).
  { intros rest. apply encode_app. intros x y Hx _.
    destruct Hopening as (pre & opening & Heq & Hop%pluginOpening_last & _).
    rewrite Heq, last_app, Hop in Hx. by injection Hx as <-. }
  exists content, s, e, patched. cbn [entries]. split_and!.
  - done.
  - done.
  - by rewrite <- Hsplit, take_drop, <- Hcontent.
  - by rewrite lookup_insert_eq, Hsplit.
  - intros other Hne. by rewrite lookup_insert_ne.
  - done.
  - intros n Hn. pose proof (closesAt_bracket _ _ Hn) as Hbracket.
    specialize (Hclose n Hn). subst e.
    rewrite lookup_drop in Hbracket.
    destruct (drop (s + n) content) as [|x rest] eqn:Hdrop.
    { apply (f_equal length) in Hdrop. rewrite length_drop in Hdrop. cbn [length] in Hdrop.
      apply lookup_lt_Some in Hbracket. lia. }
    assert (x = RBRACKET) as ->.
    { assert (drop (s + n) content !! 0 = Some RBRACKET) as H0
        by (by rewrite lookup_drop, Nat.add_0_r).
      rewrite Hdrop in H0. by injection H0 as ->. }
    assert (Htail : ∀ body,
              Utf8.encode (body ++ RBRACKET :: rest)
              = Utf8.encode body ++ Utf8.encode (RBRACKET :: rest)).
    { intros body. apply encode_app. intros x y _ [= <-]. by rewrite andb_false_r. }
    split_and!.
    + done.
    + by exists rest.
    + rewrite <- Htail, <- Hsplit, <- Hcover. by rewrite <- Hcontent.
    + by rewrite lookup_insert_eq, Hsplit, Htail.
Qed.

End FrameBytes.

(** ** The search order *)

Section SearchOrder.

Variable PACKAGE_NAME : jsstring.
Variable USER_OPENCODE_CONFIG : jsstring.
Variable USER_OPENCODE_CONFIG_JSONC : jsstring.
Variable USER_CONFIG_DIR : jsstring.
Variable join : list jsstring → jsstring.
Variable env : Env.

(** The list that [getConfigPaths] builds is the search order. *)
Lemma getConfigPaths_searchOrder directory :
  getConfigPaths USER_OPENCODE_CONFIG USER_OPENCODE_CONFIG_JSONC USER_CONFIG_DIR join env
    directory
  = searchOrder USER_OPENCODE_CONFIG USER_OPENCODE_CONFIG_JSONC USER_CONFIG_DIR join env
      directory.
Proof.
  unfold getConfigPaths, searchOrder, alternateUserDir. cbv zeta.
  destruct (JS.eqb (platform env) (js "win32")); [| done].
  destruct (JS.truthy _); [| done].
  set (dir := if JS.eqb USER_CONFIG_DIR _ then _ else _).
  set (base := [_; _; _; _]).
  generalize (join [dir; js "opencode"; js "opencode.json"]) as json.
  generalize (join [dir; js "opencode"; js "opencode.jsonc"]) as jsonc.
  intros jsonc json. unfold pushNew.
  destruct (decide (json ∈ base)) as [Hjson | Hjson].
  - rewrite !(bool_decide_eq_true_2 (json ∈ base)) by done. cbn [app].
    destruct (decide (jsonc ∈ base)) as [Hjsonc | Hjsonc].
    + rewrite bool_decide_eq_true_2 by done.
      rewrite bool_decide_eq_true_2 by (by left). by rewrite app_nil_r.
    + rewrite bool_decide_eq_false_2 by done.
      rewrite bool_decide_eq_false_2; [done |]. intros [? | ->]; done.
  - rewrite !(bool_decide_eq_false_2 (json ∈ base)) by done. cbn [app].
    destruct (decide (jsonc ∈ base ∨ jsonc = json)) as [Hjsonc | Hjsonc].
    + rewrite (bool_decide_eq_true_2 (jsonc ∈ base ∨ jsonc = json)) by done.
      rewrite bool_decide_eq_true_2; [done |].
      apply elem_of_app. destruct Hjsonc as [? | ->]; [by left | right; by left].
    + rewrite (bool_decide_eq_false_2 (jsonc ∈ base ∨ jsonc = json)) by done.
      rewrite bool_decide_eq_false_2; [by rewrite <- app_assoc |].
      intros [? | ->%list_elem_of_singleton]%elem_of_app; apply Hjsonc; [by left | by right].
Qed.

(** X19: the list of candidates is the search order: it starts with the
    two project files and the two user files and, on win32 with an alternate
    user directory, goes on with the two files of that directory, each unless
    the list has it already.  It holds at most six paths, and no path twice
    when the first four differ; on a platform other than win32 it is these
    four. *)
Theorem getConfigPaths_no_duplicates directory :
  NoDup [ join [directory; js ".opencode"; js "opencode.json"];
          join [directory; js ".opencode"; js "opencode.jsonc"];
          USER_OPENCODE_CONFIG; USER_OPENCODE_CONFIG_JSONC ] →
  NoDup (getConfigPaths USER_OPENCODE_CONFIG USER_OPENCODE_CONFIG_JSONC USER_CONFIG_DIR
           join env directory)
  ∧ length (getConfigPaths USER_OPENCODE_CONFIG USER_OPENCODE_CONFIG_JSONC USER_CONFIG_DIR
              join env directory) ≤ 6
  ∧ getConfigPaths USER_OPENCODE_CONFIG USER_OPENCODE_CONFIG_JSONC USER_CONFIG_DIR join env
      directory
    = searchOrder USER_OPENCODE_CONFIG USER_OPENCODE_CONFIG_JSONC USER_CONFIG_DIR join env
        directory
  ∧ [ join [directory; js ".opencode"; js "opencode.json"];
      join [directory; js ".opencode"; js "opencode.jsonc"];
      USER_OPENCODE_CONFIG; USER_OPENCODE_CONFIG_JSONC ]
    `prefix_of` getConfigPaths USER_OPENCODE_CONFIG USER_OPENCODE_CONFIG_JSONC
                  USER_CONFIG_DIR join env directory
  ∧ (platform env ≠ js "win32" →
     getConfigPaths USER_OPENCODE_CONFIG USER_OPENCODE_CONFIG_JSONC USER_CONFIG_DIR
       join env directory
     = [ join [directory; js ".opencode"; js "opencode.json"];
         join [directory; js ".opencode"; js "opencode.jsonc"];
         USER_OPENCODE_CONFIG; USER_OPENCODE_CONFIG_JSONC ])
  ∧ (∀ dir,
       alternateUserDir USER_CONFIG_DIR join env = Some dir →
       platform env = js "win32"
       ∧ join [dir; js "opencode"; js "opencode.json"]
         ∈ getConfigPaths USER_OPENCODE_CONFIG USER_OPENCODE_CONFIG_JSONC USER_CONFIG_DIR
             join env directory
       ∧ join [dir; js "opencode"; js "opencode.jsonc"]
         ∈ getConfigPaths USER_OPENCODE_CONFIG USER_OPENCODE_CONFIG_JSONC USER_CONFIG_DIR
             join env directory).
Proof.
  intros Hfour. split_and!.
  - unfold getConfigPaths. cbv zeta. destruct (JS.eqb _ _); [| done].
    destruct (JS.truthy _); [| done]. by do 2 apply pushNew_NoDup.
  - unfold getConfigPaths. cbv zeta. destruct (JS.eqb _ _); [| cbn; lia].
    destruct (JS.truthy _); [| cbn; lia].
    etransitivity; [apply pushNew_length |].
    apply le_n_S. etransitivity; [apply pushNew_length |]. cbn. lia.
  - apply getConfigPaths_searchOrder.
  - rewrite getConfigPaths_searchOrder. unfold searchOrder. cbv zeta.
    destruct (alternateUserDir _ _ _); [| done]. by eexists.
  - intros Hne. unfold getConfigPaths. cbv zeta. unfold JS.eqb.
    by rewrite bool_decide_eq_false_2.
  - intros dir Hdir. rewrite getConfigPaths_searchOrder. unfold searchOrder. cbv zeta.
    rewrite Hdir. unfold alternateUserDir, JS.eqb in Hdir.
    case_bool_decide as Hwin; [| done]. split; [done |]. clear Hdir.
    set (base := [_; _; _; _]).
    generalize (join [dir; js "opencode"; js "opencode.json"]) as json.
    generalize (join [dir; js "opencode"; js "opencode.jsonc"]) as jsonc.
    intros jsonc json.
    assert (json ∈ base ++ (if bool_decide (json ∈ base) then [] else [json])
                   ++ (if bool_decide (jsonc ∈ base ∨ jsonc = json) then [] else [jsonc]))
      as Hjson.
    { apply elem_of_app. case_bool_decide; [by left |].
      right. apply elem_of_app. left. by left. }
    split; [done |].
    destruct (decide (jsonc ∈ base ∨ jsonc = json)) as [[? | ->] | Hno].
    + apply elem_of_app. by left.
    + done.
    + rewrite (bool_decide_eq_false_2 _ Hno).
      apply elem_of_app. right. apply elem_of_app. right. by left.
Qed.

End SearchOrder.

(** ** The first candidate that offers the package *)

Section FirstCandidate.

Variable PACKAGE_NAME : jsstring.
Variable USER_OPENCODE_CONFIG : jsstring.
Variable USER_OPENCODE_CONFIG_JSONC : jsstring.
Variable USER_CONFIG_DIR : jsstring.
Variable join : list jsstring → jsstring.
Variable env : Env.

Hypothesis PACKAGE_NAME_long : 2 < length PACKAGE_NAME.

(** What the loop finds in a file that is read right is what the document
    offers. *)
Lemma readPluginEntry_offers fs path info :
  readRightAt fs path →
  readPluginEntry PACKAGE_NAME fs path = Some (Some info) →
  offersPackage PACKAGE_NAME fs path (entry info).
Proof.
  intros Hright. unfold readPluginEntry.
  destruct (readFileSync fs path) as [content |] eqn:Hread; [| done].
  cbn [mbind option_bind]. rewrite (Hright content Hread).
  destruct (documentValue content) as [config |] eqn:Hvalue; [| done].
  cbn [mbind option_bind].
  destruct (getProp config (js "plugin")) as [plugin |] eqn:Hprop; [| done].
  cbn [mbind option_bind].
  destruct (iterate (nullish plugin (Arr []))) as [elements |] eqn:Hiter; [| done].
  cbn [mbind option_bind].
  intros (strs & rest & -> & Hstrs & _ & Hpin)%scanPlugins_sound.
  assert (refersTo PACKAGE_NAME (entry info)) as Href.
  { destruct Hpin as [(-> & _) | (version & -> & _)]; [by left | right].
    exists version. by rewrite <- app_assoc. }
  destruct plugin as [[| | |s |l |] |]; cbn in Hiter; simplify_eq.
  - by destruct strs.
  - assert (Str (entry info) ∈ Str <$> codePoints s) as Hin.
    { rewrite Hiter. apply elem_of_app. right. by left. }
    apply list_elem_of_fmap in Hin as (cp & [= Hcp] & Hshort%codePoints_short).
    rewrite <- Hcp in Hshort.
    destruct Href as [Heq | [t Heq]]; rewrite Heq in Hshort; [lia |].
    rewrite !length_app in Hshort. cbn [length] in Hshort. lia.
  - exists strs, rest. split; [| done]. by exists content, config.
  - by destruct strs.
Qed.

Lemma findPluginEntryIn_passes fs before paths :
  (∀ q, q ∈ before →
        readRightAt fs q ∧ ∀ e, ¬ offersPackage PACKAGE_NAME fs q e) →
  findPluginEntryIn PACKAGE_NAME fs (before ++ paths)
  = findPluginEntryIn PACKAGE_NAME fs paths.
Proof.
  induction before as [|q before IH]; intros Hno; [done |].
  cbn [app findPluginEntryIn].
  rewrite IH by (intros q' Hq'; apply Hno; by right).
  destruct (negb (existsSync fs q)); [done |].
  destruct (readPluginEntry PACKAGE_NAME fs q) as [[info |] |] eqn:Hread; [| done | done].
  destruct (Hno q) as [Hright Hnone]; [by left |].
  by apply readPluginEntry_offers, Hnone in Hread.
Qed.

(** C7, amended: the candidates are tried in the search order.  When the
    documents before [path] are read right and offer no entry, and the
    document at [path] is read right and offers [entry], the first element
    of its plugin array that names the package, after strings only, the
    result is that entry with [path], whatever the later files hold; the bare
    name and the name at latest are not pinned and carry no version, any other
    version is the pinned one. *)
Theorem findPluginEntry_first_candidate fs directory before path after entry :
  searchOrder USER_OPENCODE_CONFIG USER_OPENCODE_CONFIG_JSONC USER_CONFIG_DIR join env
    directory = before ++ path :: after →
  (∀ q, q ∈ before →
        readRightAt fs q ∧ ∀ e, ¬ offersPackage PACKAGE_NAME fs q e) →
  readRightAt fs path →
  offersPackage PACKAGE_NAME fs path entry →
  ∃ info,
    findPluginEntry PACKAGE_NAME USER_OPENCODE_CONFIG USER_OPENCODE_CONFIG_JSONC
      USER_CONFIG_DIR join env fs directory = Some info
    ∧ Checker.entry info = entry ∧ Checker.configPath info = path
    ∧ (entry = PACKAGE_NAME → isPinned info = false ∧ pinnedVersion info = None)
    ∧ (entry = PACKAGE_NAME ++ [AT] ++ js "latest" →
       isPinned info = false ∧ pinnedVersion info = None)
    ∧ (∀ version, entry = PACKAGE_NAME ++ [AT] ++ version → version ≠ js "latest" →
       isPinned info = true ∧ pinnedVersion info = Some version).
Proof.
  intros Horder Hbefore Hright
    (strs & rest & (content & config & Hread & Hvalue & Hprop) & Hstrs & Href).
  destruct (scanPlugins_hit PACKAGE_NAME path entry rest Href) as (info & Hscan & Hinfo).
  exists info. split; [| done].
  unfold findPluginEntry. rewrite getConfigPaths_searchOrder, Horder.
  rewrite findPluginEntryIn_passes by done. cbn [findPluginEntryIn].
  assert (existsSync fs path = true) as ->.
  { unfold existsSync. apply bool_decide_eq_true. unfold readFileSync in Hread.
    by destruct (entries fs !! path). }
  cbn [negb]. unfold readPluginEntry. rewrite Hread. cbn [mbind option_bind].
  rewrite (Hright content Hread), Hvalue. cbn [mbind option_bind].
  rewrite Hprop. cbn [mbind option_bind nullish iterate].
  by rewrite scanPlugins_passes, Hscan.
Qed.

End FirstCandidate.

(** ** Tests that can be run *)

Lemma readRightAt_test fs path :
  match readFileSync fs path with
  | Some content => readsRight content
  | None => True
  end →
  readRightAt fs path.
Proof. intros H content Hread. by rewrite Hread in H. Qed.

Lemma offersPackage_test name fs path :
  match readFileSync fs path with
  | Some content =>
      match documentValue content with
      | Some config =>
          match getProp config (js "plugin") with
          | Some (Some (Arr elements)) =>
              forallb (fun v => match v with
                                | Str e => negb (bool_decide (refersTo name e))
                                | _ => true
                                end) elements
          | _ => true
          end
      | None => true
      end
  | None => true
  end = true →
  ∀ e, ¬ offersPackage name fs path e.
Proof.
  intros Htest e (strs & rest & (content & config & Hread & Hvalue & Hprop) & _ & Href).
  rewrite Hread, Hvalue, Hprop in Htest. rewrite forallb_app in Htest.
  apply andb_true_iff in Htest as [_ Htest]. cbn [forallb] in Htest.
  apply andb_true_iff in Htest as [Htest _].
  by rewrite (bool_decide_eq_true_2 _ Href) in Htest.
Qed.

(** ** The config as the document has it *)

(** The guards of [parseConfigFile] (the file is there, it is not empty,
    it is not blank) change nothing: such a file gives no value anyway. *)
Lemma parseConfigFile_fileValue fs path :
  ConfigManager.parseConfigFile fs path = default Null (fileValue fs path).
Proof.
  unfold ConfigManager.parseConfigFile, fileValue, existsSync, statSize, readFileSync.
  destruct (entries fs !! path) as [[data |] |] eqn:Hentry; cbn [mbind option_bind default].
  - rewrite bool_decide_eq_true_2 by (by eexists). cbn [negb].
    destruct data as [|c data]; [done |]. cbn [length Nat.eqb].
    destruct (trimIsEmpty (c :: data)) eqn:Hblank; [| done].
    by rewrite stripJsonComments_blank, parse_blank.
  - by rewrite bool_decide_eq_true_2 by (by eexists).
  - rewrite bool_decide_eq_false_2; [done |]. by intros [? ?].
Qed.

(** X8: [parseConfig] gives the value of the .json file when the stripper
    and the parser give one that is truthy; otherwise it gives what they make
    of the .jsonc file of the same name, truthy or not, and null when they
    make nothing of it.  A path that does not end in .json has no fallback: a
    value that is not truthy gives null. *)
Theorem parseConfig_jsonc_fallback fs :
  (∀ base,
     ConfigManager.parseConfig fs (base ++ js ".json")
     = match fileValue fs (base ++ js ".json") with
       | Some config =>
           if truthy config then config
           else default Null (fileValue fs (base ++ js ".jsonc"))
       | None => default Null (fileValue fs (base ++ js ".jsonc"))
       end)
  ∧ (∀ path,
       ¬ js ".json" `suffix_of` path →
       ConfigManager.parseConfig fs path
       = match fileValue fs path with
         | Some config => if truthy config then config else Null
         | None => Null
         end).
Proof.
  split.
  - intros base. unfold ConfigManager.parseConfig. rewrite !parseConfigFile_fileValue.
    rewrite (proj2 (endsWith_suffix _ _)) by (by exists base). rewrite jsonc_path.
    by destruct (fileValue fs (base ++ js ".json")) as [config |].
  - intros path Hno. unfold ConfigManager.parseConfig. rewrite !parseConfigFile_fileValue.
    assert (endsWith path (js ".json") = false) as ->.
    { destruct (endsWith path (js ".json")) eqn:E; [| done]. by apply endsWith_suffix in E. }
    by destruct (fileValue fs path) as [config |].
Qed.

Section Documents.

Import LiteConfig Installer.

Variable join : list jsstring → jsstring.
Variable stringify : value → jsstring.
Variable env : Env.

(** A document that holds an object and is read right is what
    [parseConfig] gives, before and after the config directory is made. *)
Lemma parseConfig_document fs fs1 path content members :
  ConfigManager.ensureConfigDir join env fs = Some fs1 →
  readFileSync fs path = Some content →
  documentValue content = Some (Obj members) →
  readsRight content →
  ConfigManager.parseConfig fs1 path = Obj members.
Proof.
  intros [Hsame _]%ensureConfigDir_Some Hread Hvalue Hright.
  apply (parseConfig_parsed _ _ content); [by rewrite Hsame | | done].
  by rewrite Hright.
Qed.

(** C10, amended: after a call that succeeds on a config document that
    holds an object and is read right, the file holds the serialisation of a
    config whose plugin array is the former strings without those that name
    the package, in their order, followed by the bare name: the only entry
    left that names the package.  The other members of the config are as they
    were.  When there is no config, the plugin array holds the bare name
    alone. *)
Theorem addPluginToOpenCodeConfig_single_entry fs fs' result :
  ConfigManager.addPluginToOpenCodeConfig join stringify env fs = (fs', result) →
  ConfigManager.success result = true →
  (∀ content members,
     readFileSync fs (ConfigManager.configPath result) = Some content →
     documentValue content = Some (Obj members) →
     readsRight content →
     ∃ previous written,
       hasPlugins (Obj members) previous
       ∧ readFileSync fs' (ConfigManager.configPath result)
         = Some (stringify written ++ [10%N])
       ∧ getProp written (js "plugin")
         = Some (Some (Arr (Str <$> (filter (fun p => ¬ refersTo ConfigManager.PACKAGE_NAME p)
                                       previous ++ [ConfigManager.PACKAGE_NAME]))))
       ∧ filter (refersTo ConfigManager.PACKAGE_NAME)
           (filter (fun p => ¬ refersTo ConfigManager.PACKAGE_NAME p) previous
            ++ [ConfigManager.PACKAGE_NAME])
         = [ConfigManager.PACKAGE_NAME]
       ∧ filter (fun p => ¬ refersTo ConfigManager.PACKAGE_NAME p)
           (filter (fun p => ¬ refersTo ConfigManager.PACKAGE_NAME p) previous
            ++ [ConfigManager.PACKAGE_NAME])
         = filter (fun p => ¬ refersTo ConfigManager.PACKAGE_NAME p) previous
       ∧ ∀ k, k ≠ js "plugin" → getProp written k = Some (objGet members k))
  ∧ (readFileSync fs (ConfigManager.configPath result) = None →
     (∀ base, ConfigManager.configPath result = base ++ js ".json" →
              readFileSync fs (base ++ js ".jsonc") = None) →
     ∃ written,
       readFileSync fs' (ConfigManager.configPath result)
       = Some (stringify written ++ [10%N])
       ∧ getProp written (js "plugin")
         = Some (Some (Arr [Str ConfigManager.PACKAGE_NAME]))
       ∧ ∀ k, k ≠ js "plugin" → getProp written k = Some None).
Proof.
  intros Hcall Hsuccess.
  destruct (addPlugin_success _ _ _ _ _ _ Hcall Hsuccess)
    as (fs1 & _ & Hdir & _ & Hpath & _).
  split.
  - intros content members Hread Hvalue Hright.
    pose proof (parseConfig_document _ _ _ _ _ Hdir Hread Hvalue Hright) as Hconfig.
    destruct (addPluginToOpenCodeConfig_parsed _ _ _ _ _ _ Hcall Hsuccess)
      as (fs1' & previous & written & Hdir' & _ & Hprev & Hfile & Hplugin & Hone & Hothers
          & Hrest).
    { intros fs1' Hdir'. rewrite Hdir in Hdir'. injection Hdir' as <-.
      rewrite <- Hpath, Hconfig. right. by eexists. }
    rewrite Hdir in Hdir'. injection Hdir' as <-. rewrite Hconfig in Hprev, Hrest.
    exists previous, written. by split_and!.
  - intros Hnone Hjsonc.
    assert (ConfigManager.parseConfig fs1 (ConfigManager.configPath result) = Null)
      as Hconfig.
    { apply ensureConfigDir_Some in Hdir as [Hsame _].
      unfold ConfigManager.parseConfig. rewrite !parseConfigFile_fileValue.
      unfold fileValue at 1. rewrite Hsame, Hnone. cbn [mbind option_bind default truthy].
      destruct (endsWith _ (js ".json")) eqn:Hends; [| done].
      apply endsWith_suffix in Hends as [base Hbase]. rewrite Hbase, jsonc_path.
      unfold fileValue.
      by rewrite Hsame, (Hjsonc base Hbase). }
    destruct (addPluginToOpenCodeConfig_parsed _ _ _ _ _ _ Hcall Hsuccess)
      as (fs1' & previous & written & Hdir' & _ & Hprev & Hfile & Hplugin & _ & _ & Hrest).
    { intros fs1' Hdir'. rewrite Hdir in Hdir'. injection Hdir' as <-.
      rewrite <- Hpath, Hconfig. by left. }
    rewrite Hdir in Hdir'. injection Hdir' as <-. rewrite Hconfig in Hprev, Hrest.
    cbn in Hprev. subst previous. exists written. by split_and!.
Qed.

(** X17: on a config document that holds an object and is read right,
    [disableDefaultAgents] sets the agents explore and general to disabled and
    keeps the other agents and the other members of the document; on an agent
    member that is an array the call succeeds and the array is written as it
    was. *)
Theorem disableDefaultAgents_disables fs fs' result content members :
  disableDefaultAgents join stringify env fs = (fs', result) →
  success result = true →
  readFileSync fs (configPath result) = Some content →
  documentValue content = Some (Obj members) →
  readsRight content →
  ∃ agent,
    readFileSync fs' (configPath result)
    = Some (stringify (Obj (objSet members (js "agent") agent)) ++ [10%N])
    ∧ match objGet members (js "agent") with
      | Some (Obj agents) =>
          agent = Obj (objSet (objSet agents (js "explore") disabled) (js "general") disabled)
          ∧ getProp agent (js "explore") = Some (Some disabled)
          ∧ getProp agent (js "general") = Some (Some disabled)
          ∧ ∀ k, k ≠ js "explore" → k ≠ js "general" →
                 getProp agent k = Some (objGet agents k)
      | Some (Arr l) => agent = Arr l
      | None | Some Null => agent = Obj [(js "explore", disabled); (js "general", disabled)]
      | Some _ => False
      end.
Proof.
  intros Hcall Hsuccess Hread Hvalue Hright.
  apply (disableDefaultAgents_parsed _ _ _ _ _ _ _ Hcall Hsuccess).
  intros fs1 Hdir.
  destruct (rewriteUserConfig_success _ _ _ _ _ _ _ _ Hcall Hsuccess)
    as (_ & _ & _ & _ & Hpath & _).
  rewrite <- Hpath.
  by rewrite (parseConfig_document _ _ _ _ _ Hdir Hread Hvalue Hright).
Qed.

End Documents.

(** ** The scanner of the specification on JSON *)

Lemma scanned_refl s : scanned s s.
Proof. by exists []. Qed.

Lemma scanned_trans s1 s2 s3 : scanned s1 s2 → scanned s2 s3 → scanned s1 s3.
Proof.
  intros (pre1 & -> & Hc1 & Ht1) (pre2 & -> & Hc2 & Ht2). exists (pre1 ++ pre2).
  rewrite Hc1, Ht1, Hc2, Ht2. by rewrite !app_assoc.
Qed.

Lemma scanned_unit x s : inertUnit x → scanned (x :: s) s.
Proof.
  unfold inertUnit. rewrite !not_elem_of_cons. intros (Hq & _ & Hs & Hc & _). exists [x].
  cbn [Reference.dropComments Reference.dropTrailingCommas app].
  rewrite (proj2 (N.eqb_neq x DQUOTE)), (proj2 (N.eqb_neq x SLASH)),
    (proj2 (N.eqb_neq x COMMA)) by done.
  done.
Qed.

Lemma scanned_units p s : Forall inertUnit p → scanned (p ++ s) s.
Proof.
  induction 1 as [|x p Hx Hp IH]; [apply scanned_refl |].
  eapply scanned_trans; [by apply scanned_unit | done].
Qed.

Lemma scanned_comma s : closesAfterWhiteSpace s = false → scanned (COMMA :: s) s.
Proof.
  intros Hs. exists [COMMA].
  cbn [Reference.dropComments Reference.dropTrailingCommas app]. by rewrite Hs.
Qed.

(** Inside a string, the scanner reads what [parseChars] reads. *)
Lemma parseChars_scanned s str r :
  parseChars s = Some (str, r) →
  ∃ lit, s = lit ++ r
    ∧ Reference.dropComments Reference.InString s
      = lit ++ Reference.dropComments Reference.Plain r
    ∧ Reference.dropTrailingCommas true s = lit ++ Reference.dropTrailingCommas false r.
Proof.
  assert (∀ n s str r, length s ≤ n → parseChars s = Some (str, r) →
            ∃ lit, s = lit ++ r
              ∧ Reference.dropComments Reference.InString s
                = lit ++ Reference.dropComments Reference.Plain r
              ∧ Reference.dropTrailingCommas true s
                = lit ++ Reference.dropTrailingCommas false r)
    as Hn; [| by apply (Hn (length s))].
  clear. induction n as [|n IH]; intros s str r Hlen.
  { destruct s; [done | cbn [length] in Hlen; lia]. }
  destruct s as [|c s1]; [done |]. cbn [length] in Hlen.
  cbn [parseChars]. destruct (N.eqb_spec c DQUOTE) as [-> | Hq].
  { intros [= <- <-]. by exists [DQUOTE]. }
  destruct (N.eqb_spec c BACKSLASH) as [-> | Hb].
  - destruct s1 as [|e s2]; [done |]. destruct (e =? 117)%N eqn:He.
    + apply N.eqb_eq in He as ->.
      destruct s2 as [|h1 [|h2 [|h3 [|h4 s3]]]]; try done.
      destruct (hex4 h1 h2 h3 h4) eqn:Hhex; [| done]. cbn [mbind option_bind].
      apply hex4_units in Hhex as ((? & ?) & (? & ?) & (? & ?) & (? & ?)).
      destruct (parseChars s3) as [[str' r'] |] eqn:E; [| done].
      intros [= <- <-].
      destruct (IH s3 str' r' ltac:(cbn [length] in Hlen; lia) E) as (lit & -> & Hc & Ht).
      exists (BACKSLASH :: 117%N :: h1 :: h2 :: h3 :: h4 :: lit).
      cbn [Reference.dropComments Reference.dropTrailingCommas app].
      rewrite !N.eqb_refl.
      rewrite !(proj2 (N.eqb_neq _ DQUOTE)), !(proj2 (N.eqb_neq _ BACKSLASH)) by done.
      cbn [negb]. by rewrite Hc, Ht.
    + destruct (unescape e) eqn:Hun; [| done]. cbn [mbind option_bind].
      destruct (parseChars s2) as [[str' r'] |] eqn:E; [| done].
      intros [= <- <-].
      destruct (IH s2 str' r' ltac:(cbn [length] in Hlen; lia) E) as (lit & -> & Hc & Ht).
      exists (BACKSLASH :: e :: lit).
      cbn [Reference.dropComments Reference.dropTrailingCommas app].
      rewrite !N.eqb_refl. by rewrite Hc, Ht.
  - destruct (c <? 32)%N; [done |].
    destruct (parseChars s1) as [[str' r'] |] eqn:E; [| done]. cbn [mbind option_bind].
    intros [= <- <-].
    destruct (IH s1 str' r' ltac:(lia) E) as (lit & -> & Hc & Ht).
    exists (c :: lit).
    cbn [Reference.dropComments Reference.dropTrailingCommas app].
    rewrite (proj2 (N.eqb_neq c DQUOTE)), (proj2 (N.eqb_neq c BACKSLASH)) by done.
    cbn [negb]. by rewrite Hc, Ht.
Qed.

Lemma scanned_parseChars rest str r :
  parseChars rest = Some (str, r) → scanned (DQUOTE :: rest) r.
Proof.
  intros (lit & -> & Hc & Ht)%parseChars_scanned. exists (DQUOTE :: lit).
  cbn [Reference.dropComments Reference.dropTrailingCommas app].
  by rewrite Hc, Ht.
Qed.

Lemma scanned_keyword c rest (w : jsstring) :
  startsWith (c :: rest) w = true → Forall inertUnit w →
  scanned (c :: rest) (drop (length w) (c :: rest)).
Proof.
  intros [t Ht]%startsWith_prefix Hw. rewrite Ht. rewrite drop_app_length.
  by apply scanned_units.
Qed.

Lemma skipWs_scanned s : scanned s (skipWs s).
Proof.
  induction s as [|c s IH]; cbn [skipWs]; [apply scanned_refl |].
  destruct (isWs c) eqn:Hc; [| apply scanned_refl].
  eapply scanned_trans; [| exact IH]. apply scanned_unit. by apply isWs_inert.
Qed.

(** What the parser consumes is kept by both passes of the scanner. *)
Lemma parse_scanned fuel :
  (∀ s v r, parseValue fuel s = Some (v, r) →
            scanned s r ∧ closesAfterWhiteSpace s = false)
  ∧ (∀ s vs r, parseElements fuel s = Some (vs, r) →
               scanned s r ∧ closesAfterWhiteSpace s = false)
  ∧ (∀ s ms r, parseMembers fuel s = Some (ms, r) →
               scanned s r ∧ closesAfterWhiteSpace s = false).
Proof.
  induction fuel as [|fuel (IHv & IHe & IHm)]; [done |].
  assert (Hws : ∀ s c rest, skipWs s = c :: rest → scanned s (c :: rest)).
  { intros s c rest Hs. pose proof (skipWs_scanned s) as Hu. by rewrite Hs in Hu. }
  split_and!.
  - intros s v r. cbn [parseValue].
    destruct (skipWs s) as [|c rest] eqn:Hs; [done |]. intros Hparse.
    pose proof (Hws _ _ _ Hs) as U0.
    rewrite (skipWs_closes s), Hs.
    assert (∀ P : Prop, (scanned (c :: rest) r ∧ closesAfterWhiteSpace (c :: rest) = false) →
              P = (scanned s r ∧ closesAfterWhiteSpace (c :: rest) = false) → P) as Hgoal.
    { intros P [U Hc] ->. split; [by eapply scanned_trans | done]. }
    eapply Hgoal; [| reflexivity]. clear Hgoal U0 Hs.
    destruct (N.eqb_spec c LBRACE) as [-> | _].
    { split; [| done].
      eapply scanned_trans; [apply scanned_unit; by apply inertUnit_test |].
      destruct (skipWs rest) as [|d rest'] eqn:Hr; [done |].
      destruct (N.eqb_spec d RBRACE) as [-> | _].
      - injection Hparse as <- <-.
        eapply scanned_trans; [exact (Hws _ _ _ Hr) |].
        apply scanned_unit. by apply inertUnit_test.
      - destruct (parseMembers fuel rest) as [[ms r'] |] eqn:E; [| done].
        cbn [mbind option_bind] in Hparse. injection Hparse as <- <-.
        by apply IHm in E as [? _]. }
    destruct (N.eqb_spec c LBRACKET) as [-> | _].
    { split; [| done].
      eapply scanned_trans; [apply scanned_unit; by apply inertUnit_test |].
      destruct (skipWs rest) as [|d rest'] eqn:Hr; [done |].
      destruct (N.eqb_spec d RBRACKET) as [-> | _].
      - injection Hparse as <- <-.
        eapply scanned_trans; [exact (Hws _ _ _ Hr) |].
        apply scanned_unit. by apply inertUnit_test.
      - destruct (parseElements fuel rest) as [[vs r'] |] eqn:E; [| done].
        cbn [mbind option_bind] in Hparse. injection Hparse as <- <-.
        by apply IHe in E as [? _]. }
    destruct (N.eqb_spec c DQUOTE) as [-> | _].
    { split; [| done]. destruct (parseChars rest) as [[str r'] |] eqn:E; [| done].
      cbn [mbind option_bind] in Hparse. injection Hparse as <- <-.
      by eapply scanned_parseChars. }
    destruct (startsWith (c :: rest) (js "true")) eqn:Ht.
    { injection Hparse as <- <-. split.
      - apply (scanned_keyword c rest (js "true")); [done |].
        repeat constructor; by apply inertUnit_test.
      - apply startsWith_prefix in Ht as [t Ht]. by injection Ht as -> _. }
    destruct (startsWith (c :: rest) (js "false")) eqn:Hf.
    { injection Hparse as <- <-. split.
      - apply (scanned_keyword c rest (js "false")); [done |].
        repeat constructor; by apply inertUnit_test.
      - apply startsWith_prefix in Hf as [t Hf]. by injection Hf as -> _. }
    destruct (startsWith (c :: rest) (js "null")) eqn:Hn.
    { injection Hparse as <- <-. split.
      - apply (scanned_keyword c rest (js "null")); [done |].
        repeat constructor; by apply inertUnit_test.
      - apply startsWith_prefix in Hn as [t Hn]. by injection Hn as -> _. }
    destruct (parseNumber (c :: rest)) as [[lexeme r'] |] eqn:E; [| done].
    cbn [mbind option_bind] in Hparse. injection Hparse as <- <-.
    apply parseNumber_spec in E as (E & Hne & Hunits). rewrite E.
    destruct lexeme as [|d lexeme]; [done |]. injection E as <- E.
    split.
    + apply scanned_units. eapply forallb_Forall; [| exact Hunits].
      intros x Hx. by apply isNumberUnit_inert.
    + cbn [forallb] in Hunits. apply andb_true_iff in Hunits as [Hd _].
      apply isNumberUnit_inert in Hd as (_ & Hw & Hc). cbn [app closesAfterWhiteSpace].
      by rewrite Hw.
  - intros s vs r. cbn [parseElements].
    destruct (parseValue fuel s) as [[v r1] |] eqn:E; [| done]. cbn [mbind option_bind].
    intros Hparse. apply IHv in E as [U0 Hc]. split; [| done].
    eapply scanned_trans; [exact U0 |].
    destruct (skipWs r1) as [|c r2] eqn:Hs; [done |].
    eapply scanned_trans; [exact (Hws _ _ _ Hs) |].
    destruct (N.eqb_spec c COMMA) as [-> | _].
    { destruct (parseElements fuel r2) as [[vs' r3] |] eqn:E'; [| done].
      cbn [mbind option_bind] in Hparse. injection Hparse as <- <-.
      apply IHe in E' as [U2 Hc2].
      eapply scanned_trans; [by apply scanned_comma | done]. }
    destruct (N.eqb_spec c RBRACKET) as [-> | _]; [| done].
    injection Hparse as <- <-. apply scanned_unit. by apply inertUnit_test.
  - intros s ms r. cbn [parseMembers].
    destruct (skipWs s) as [|q r0] eqn:Hs; [done |].
    destruct (N.eqb_spec q DQUOTE) as [-> | _]; [| done].
    destruct (parseChars r0) as [[key r1] |] eqn:E; [| done]. cbn [mbind option_bind].
    intros Hparse.
    split; [| by rewrite (skipWs_closes s), Hs].
    eapply scanned_trans; [exact (Hws _ _ _ Hs) |].
    eapply scanned_trans; [exact (scanned_parseChars _ _ _ E) |].
    destruct (skipWs r1) as [|c r2] eqn:Hs1; [done |].
    eapply scanned_trans; [exact (Hws _ _ _ Hs1) |].
    destruct (N.eqb_spec c COLON) as [-> | _]; [| done].
    eapply scanned_trans; [apply scanned_unit; by apply inertUnit_test |].
    destruct (parseValue fuel r2) as [[v r3] |] eqn:Ev; [| done].
    cbn [mbind option_bind] in Hparse. apply IHv in Ev as [U4 _].
    eapply scanned_trans; [exact U4 |].
    destruct (skipWs r3) as [|d r4] eqn:Hs3; [done |].
    eapply scanned_trans; [exact (Hws _ _ _ Hs3) |].
    destruct (N.eqb_spec d COMMA) as [-> | _].
    { destruct (parseMembers fuel r4) as [[ms' r5] |] eqn:Em; [| done].
      cbn [mbind option_bind] in Hparse. injection Hparse as <- <-.
      apply IHm in Em as [U6 Hc6].
      eapply scanned_trans; [by apply scanned_comma | done]. }
    destruct (N.eqb_spec d RBRACE) as [-> | _]; [| done].
    injection Hparse as <- <-. apply scanned_unit. by apply inertUnit_test.
Qed.

(** A text in JSON is its own value as a document: the scanner of the
    specification leaves it as it is. *)
Lemma documentValue_json text v : parse text = Some v → documentValue text = Some v.
Proof.
  intros Hparse. unfold documentValue.
  assert (Reference.strip text = text) as ->; [| done].
  unfold parse in Hparse.
  destruct (parseValue _ text) as [[v' rest] |] eqn:E; [| done].
  cbn [mbind option_bind] in Hparse.
  apply (proj1 (parse_scanned _)) in E as [U _].
  destruct (skipWs rest) eqn:Hs; [| done].
  pose proof (skipWs_scanned rest) as U'. rewrite Hs in U'.
  destruct (scanned_trans _ _ _ U U') as (pre & Htext & Hc & Ht).
  cbn [Reference.dropComments Reference.dropTrailingCommas] in Hc, Ht.
  rewrite <- Htext in Hc, Ht. unfold Reference.strip. by rewrite Hc, Ht.
Qed.

(** A text in JSON is read right, unless a backslash, a backslash and a
    double quote stand in it one after the other. *)
Lemma readsRight_json text v :
  parse text = Some v →
  ¬ hasInfix escapedBackslashAtEnd text →
  readsRight text.
Proof.
  intros Hparse Hno. unfold readsRight. rewrite (documentValue_json _ _ Hparse).
  assert (stripJsonComments text = text) as ->; [| done].
  unfold parse in Hparse.
  destruct (parseValue _ text) as [[v' rest] |] eqn:E; [| done].
  cbn [mbind option_bind] in Hparse.
  apply (proj1 (parse_untouched _)) in E as [U _]; [| done].
  destruct (skipWs rest) eqn:Hs; [| done]. apply skipWs_nil_untouched in Hs.
  destruct (untouched_trans _ _ _ U Hs) as (pre & Htext & Hc & Ht).
  rewrite withoutComments_nil in Hc. rewrite withoutTrailingCommas_nil in Ht.
  rewrite stripJsonComments_passes. rewrite <- Htext in Hc, Ht. by rewrite Hc, Ht.
Qed.

(** ** Examples *)

Lemma stripJsonComments_keeps_literal_witness :
  stripJsonComments (js "[1, " ++ jsq "`a // b, ]`" ++ js ", /* c */ 2,]")
  = stripJsonComments (js "[1, ") ++ jsq "`a // b, ]`"
    ++ stripJsonComments (js ", /* c */ 2,]").
Proof.
  apply (stripJsonComments_keeps_literal (js "[1, ") (jsq "`a // b, ]`") (js ", /* c */ 2,]")).
  - apply (bool_decide_unpack _). by vm_compute.
  - exists (js "a // b, ]"). split; by vm_compute.
Defined.

Lemma stripJsonComments_line_comment_witness :
  stripJsonComments (js "{ " ++ SLASH :: SLASH :: jsq " the `port`" ++ 10%N :: js " }")
  = stripJsonComments (js "{ " ++ 10%N :: js " }").
Proof.
  apply (stripJsonComments_line_comment (js "{ ") (jsq " the `port`") (10%N :: js " }")).
  - apply (bool_decide_unpack _). by vm_compute.
  - by vm_compute.
Defined.

Lemma stripJsonComments_block_comment_witness :
  stripJsonComments
    (js "[1, " ++ SLASH :: ASTERISK :: jsq " `a` * / " ++ ASTERISK :: SLASH :: js " 2]")
  = stripJsonComments (js "[1, " ++ js " 2]").
Proof.
  apply (stripJsonComments_block_comment (js "[1, ") (jsq " `a` * / ") (js " 2]")).
  - apply (bool_decide_unpack _). by vm_compute.
  - rewrite <- includes_hasInfix. by vm_compute.
Defined.

Lemma stripJsonComments_trailing_comma_witness :
  stripJsonComments (js "[1, 2" ++ COMMA :: [32%N; 10%N] ++ RBRACKET :: js " // end")
  = stripJsonComments (js "[1, 2") ++ [32%N; 10%N] ++ RBRACKET :: stripJsonComments (js " // end").
Proof.
  apply (stripJsonComments_trailing_comma (js "[1, 2") [32%N; 10%N] RBRACKET (js " // end")).
  - apply (bool_decide_unpack _). by vm_compute.
  - by repeat constructor.
  - by vm_compute.
Defined.

Lemma stripJsonComments_json_unchanged_witness :
  stripJsonComments
    (jsq "{`a`: [1, `x // y`, {`b`: `c\`d,]`}, -2.5e3], `e/*`: null, `f`: `\\ */`}")
  = jsq "{`a`: [1, `x // y`, {`b`: `c\`d,]`}, -2.5e3], `e/*`: null, `f`: `\\ */`}"
  ∧ parse (stripJsonComments
             (jsq "{`a`: [1, `x // y`, {`b`: `c\`d,]`}, -2.5e3], `e/*`: null, `f`: `\\ */`}"))
    = Some (Obj [ (js "a", Arr [ Number (js "1"); Str (js "x // y");
                                 Obj [(js "b", Str (jsq "c`d,]"))];
                                 Number (js "-2.5e3") ]);
                  (js "e/*", Null);
                  (js "f", Str (js "\ */")) ]).
Proof.
  apply stripJsonComments_json_unchanged.
  - by vm_compute.
  - rewrite <- includes_hasInfix. by vm_compute.
Defined.

Lemma writeConfig_parseConfig_witness :
  ConfigManager.parseConfig
    (mkFS (<[userConfig := File (compactJson (Obj [(js "plugin", Arr [Str (js "a")])])
                                 ++ [10%N])]> (entries installedTwice)) ∅)
    userConfig
  = Obj [(js "plugin", Arr [Str (js "a")])]
  ∧ ∀ other, other ≠ userConfig →
      entries (mkFS (<[userConfig := File (compactJson (Obj [(js "plugin", Arr [Str (js "a")])])
                                           ++ [10%N])]> (entries installedTwice)) ∅) !! other
      = entries installedTwice !! other.
Proof.
  apply (writeConfig_parseConfig compactJson installedTwice userConfig
           (Obj [(js "plugin", Arr [Str (js "a")])])); by vm_compute.
Defined.

Lemma addPluginToOpenCodeConfig_detected_witness :
  ∃ forAntigravity,
    Detection.detectCurrentConfig slashJoin posixEnv afterAddPlugin
    = ('(forOpenAI, forCerebras, forTmux) ←
         Detection.detectLite
           (ConfigManager.parseConfig afterAddPlugin
              (Installer.getLiteConfig slashJoin posixEnv));
       Some (Detection.mkDetected true forAntigravity forOpenAI forCerebras forTmux)).
Proof.
  apply (addPluginToOpenCodeConfig_detected slashJoin compactJson posixEnv installedTwice
           afterAddPlugin (ConfigManager.mkResult true userConfig None)
           (Obj [ (js "plugin", Arr [Str (js "a"); Str (js "b");
                                     Str (js "oh-my-opencode-slim")]);
                  (js "theme", Str (js "dark")) ])).
  - by vm_compute.
  - done.
  - by vm_compute.
  - by eexists.
  - by vm_compute.
Defined.

Lemma addPluginToOpenCodeConfig_idempotent_witness :
  ConfigManager.addPluginToOpenCodeConfig slashJoin compactJson posixEnv afterAddPlugin
  = (afterAddPlugin, ConfigManager.mkResult true userConfig None).
Proof.
  apply (addPluginToOpenCodeConfig_idempotent slashJoin compactJson posixEnv installedTwice
           afterAddPlugin (ConfigManager.mkResult true userConfig None)
           (Obj [ (js "plugin", Arr [Str (js "a"); Str (js "b");
                                     Str (js "oh-my-opencode-slim")]);
                  (js "theme", Str (js "dark")) ])).
  - by vm_compute.
  - done.
  - by vm_compute.
  - by vm_compute.
Defined.

Lemma installer_steps_idempotent_witness :
  Installer.addAuthPlugins slashJoin compactJson posixEnv sampleChoices None afterAuth
  = (afterAuth, Installer.mkStep true userConfig None)
  ∧ Installer.addProviderConfig slashJoin compactJson posixEnv sampleChoices afterProvider
    = (afterProvider, Installer.mkStep true userConfig None)
  ∧ Installer.addServerConfig slashJoin compactJson posixEnv sampleChoices afterServer
    = (afterServer, Installer.mkStep true userConfig None)
  ∧ Installer.disableDefaultAgents slashJoin compactJson posixEnv afterDisable
    = (afterDisable, Installer.mkStep true userConfig None).
Proof.
  assert (ConfigManager.getConfigJson slashJoin posixEnv
          ≠ ConfigManager.getConfigDir slashJoin posixEnv) as Hjoin.
  { intros H. by vm_compute in H. }
  split_and!.
  - refine (proj1
              (installer_steps_idempotent slashJoin compactJson posixEnv installedTwice
                 afterAuth (Installer.mkStep true userConfig None)
                 (default Null
                    (configToWrite slashJoin posixEnv
                       (Installer.withAuthPlugins sampleChoices (Some (js "1.2.0")))
                       installedTwice))
                 Hjoin _) sampleChoices (Some (js "1.2.0")) None _ _ _);
      by vm_compute.
  - refine (proj1 (proj2
              (installer_steps_idempotent slashJoin compactJson posixEnv serverConfigured
                 afterProvider (Installer.mkStep true userConfig None)
                 (default Null
                    (configToWrite slashJoin posixEnv
                       (Installer.withProviderConfig sampleChoices) serverConfigured))
                 Hjoin _)) sampleChoices _ _ _ _);
      by vm_compute.
  - refine (proj1 (proj2 (proj2
              (installer_steps_idempotent slashJoin compactJson posixEnv serverConfigured
                 afterServer (Installer.mkStep true userConfig None)
                 (default Null
                    (configToWrite slashJoin posixEnv
                       (Installer.withServerConfig sampleChoices) serverConfigured))
                 Hjoin _))) sampleChoices _ _ _ _);
      by vm_compute.
  - refine (proj2 (proj2 (proj2
              (installer_steps_idempotent slashJoin compactJson posixEnv serverConfigured
                 afterDisable (Installer.mkStep true userConfig None)
                 (default Null
                    (configToWrite slashJoin posixEnv Installer.withoutDefaultAgents
                       serverConfigured))
                 Hjoin _))) _ _ _);
      by vm_compute.
Defined.




Lemma writeLiteConfig_detected_witness :
  ConfigManager.parseConfig afterLite (Installer.getLiteConfig slashJoin posixEnv)
  = LiteConfig.generateLiteConfig sampleChoices
  ∧ Detection.detectCurrentConfig slashJoin posixEnv afterLite
    = Some (Detection.mkDetected true false false true true).
Proof.
  destruct (writeLiteConfig_detected slashJoin compactJson posixEnv sampleChoices
              installedTwice afterLite
              (Installer.mkStep true (js "/home/u/.config/opencode/oh-my-opencode-slim.json")
                 None))
    as (Hread & Hdetected & _).
  - by vm_compute.
  - done.
  - by vm_compute.
  - split; [exact Hread |].
    destruct (Hdetected (Detection.mkDetected true false false true true))
      as (_ & _ & _); by vm_compute.
Defined.

Lemma findPluginEntry_sound_witness :
  userConfig
    ∈ getConfigPaths userConfig userConfigJsonc (js "/home/u/.config") slashJoin posixEnv
        (js "/project")
  ∧ existsSync threeConfigs userConfig = true
  ∧ (∃ content config plugin strs rest,
       readFileSync threeConfigs userConfig = Some content
       ∧ parse (stripJsonComments content) = Some config
       ∧ getProp config (js "plugin") = Some plugin
       ∧ iterate (nullish plugin (Arr []))
         = Some ((Str <$> strs) ++ Str (js "oh-my-opencode-slim@1.2.3") :: rest)
       ∧ ∀ e, e ∈ strs → ¬ refersTo (js "oh-my-opencode-slim") e)
  ∧ (js "oh-my-opencode-slim@1.2.3" = js "oh-my-opencode-slim"
     ∧ true = false ∧ Some (js "1.2.3") = None
     ∨ ∃ version,
         js "oh-my-opencode-slim@1.2.3" = js "oh-my-opencode-slim" ++ [AT] ++ version
         ∧ true = negb (JS.eqb version (js "latest"))
         ∧ Some (js "1.2.3") = (if true then Some version else None)).
Proof.
  apply (findPluginEntry_sound (js "oh-my-opencode-slim") userConfig userConfigJsonc
           (js "/home/u/.config") slashJoin posixEnv threeConfigs (js "/project")
           (mkInfo (js "oh-my-opencode-slim@1.2.3") true (Some (js "1.2.3")) userConfig)).
  by vm_compute.
Defined.

Lemma getLocalDevPath_sound_witness :
  ∃ configPath content config plugin strs tail rest,
    configPath
      ∈ getConfigPaths userConfig userConfigJsonc (js "/home/u/.config") slashJoin posixEnv
          (js "/project")
    ∧ readFileSync localCheckout configPath = Some content
    ∧ parse (stripJsonComments content) = Some config
    ∧ getProp config (js "plugin") = Some plugin
    ∧ iterate (nullish plugin (Arr []))
      = Some ((Str <$> strs) ++ Str (js "file://" ++ tail) :: rest)
    ∧ hasInfix (js "oh-my-opencode-slim") (js "file://" ++ tail)
    ∧ (∀ e, e ∈ strs →
            ¬ (js "file://" `prefix_of` e ∧ hasInfix (js "oh-my-opencode-slim") e))
    ∧ js "/src/oh-my-opencode-slim/dist"
      = default tail (posixFileURLToPath (js "file://" ++ tail)).
Proof.
  apply (getLocalDevPath_sound (js "oh-my-opencode-slim") userConfig userConfigJsonc
           (js "/home/u/.config") slashJoin posixFileURLToPath posixEnv localCheckout
           (js "/project") (js "/src/oh-my-opencode-slim/dist")).
  by vm_compute.
Defined.

Lemma getLocalDevVersion_source_witness :
  ∃ localPath pkgPath content pkg,
    LocalDev.getLocalDevPath (js "oh-my-opencode-slim") userConfig userConfigJsonc
      (js "/home/u/.config") slashJoin posixFileURLToPath posixEnv localCheckout
      (js "/project") = Some localPath
    ∧ LocalDev.findPackageJsonUp (js "oh-my-opencode-slim") slashJoin slashDirname
        localCheckout localPath = Some pkgPath
    ∧ readFileSync localCheckout pkgPath = Some content
    ∧ parse content = Some pkg
    ∧ getProp pkg (js "name") = Some (Some (Str (js "oh-my-opencode-slim")))
    ∧ getProp pkg (js "version") = Some (Some (Str (js "0.3.1"))).
Proof.
  apply (getLocalDevVersion_source (js "oh-my-opencode-slim") userConfig userConfigJsonc
           (js "/home/u/.config") slashJoin slashDirname posixFileURLToPath posixEnv
           localCheckout (js "/project")).
  intros H. by vm_compute in H.
Defined.


(** ** Examples on bytes, candidates and documents *)

Lemma updatePinnedVersion_frame_witness :
  ∃ content s e patched,
    Utf8.decode accentedBytes = content
    ∧ pluginArrayRange content = Some (s, e)
    ∧ accentedBytes = Utf8.encode (take s content) ++ Utf8.encode (drop s content)
    ∧ entries accentedAfterUpdate !! samplePath
      = Some (File (Utf8.encode (take s content) ++ Utf8.encode (patched ++ drop e content)))
    ∧ (∀ other, other ≠ samplePath →
         entries accentedAfterUpdate !! other
         = entries (singleFile samplePath accentedBytes) !! other)
    ∧ (∃ pre opening,
         take s content = pre ++ opening ∧ pluginOpening opening
         ∧ ∀ pre' opening' post',
             content = pre' ++ opening' ++ post' → pluginOpening opening' →
             length pre ≤ length pre')
    ∧ (∀ n, closesAt (drop s content) n →
         e = s + n
         ∧ (∃ rest, drop e content = RBRACKET :: rest)
         ∧ accentedBytes
           = Utf8.encode (take s content) ++ Utf8.encode (slice content s e)
             ++ Utf8.encode (drop e content)
         ∧ entries accentedAfterUpdate !! samplePath
           = Some (File (Utf8.encode (take s content) ++ Utf8.encode patched
                         ++ Utf8.encode (drop e content)))).
Proof.
  apply (updatePinnedVersion_frame (js "pkg") (singleFile samplePath accentedBytes)
           accentedAfterUpdate samplePath (js "pkg@1.0.0") (js "1.1.0") accentedBytes).
  - by vm_compute.
  - by vm_compute.
  - by vm_compute.
  - intros [k Hk]. by vm_compute in Hk.
Defined.

(** C3 as stated fails: a byte that is not UTF-8, in a comment before the
    plugin array, is not the same after a call that returns true. *)
Lemma updatePinnedVersion_invalid_byte_changed :
  let o := Disk.updatePinnedVersion (js "pkg") (singleFile samplePath brokenBytes) samplePath
             (js "pkg@1.0.0") (js "1.1.0") in
  o.2 = true
  ∧ pluginArrayRange (Utf8.decode brokenBytes) = Some (21, 32)
  ∧ brokenBytes = js "{ /* " ++ [255%N] ++ jsq " */ `plugin`: [`pkg@1.0.0`] }"
  ∧ entries o.1 !! samplePath
    = Some (File (js "{ /* " ++ [239; 191; 189]%N ++ jsq " */ `plugin`: [`pkg@1.1.0`] }"))
  ∧ ∀ newBytes, entries o.1 !! samplePath = Some (File newBytes) →
                ¬ take 6 brokenBytes `prefix_of` newBytes.
Proof.
  intros o. split_and!; try (by vm_compute).
  intros newBytes Hnew [k Hk]. vm_compute in Hnew. injection Hnew as <-.
  by vm_compute in Hk.
Qed.

Lemma findPluginEntry_first_candidate_witness :
  ∃ info,
    findPluginEntry (js "oh-my-opencode-slim") windowsUserConfig windowsUserConfigJsonc
      (js "C:/Users/u/.config") slashJoin windowsEnv windowsConfigs (js "/project")
    = Some info
    ∧ Checker.entry info = js "oh-my-opencode-slim@2.0.0"
    ∧ Checker.configPath info = windowsAlternateConfig
    ∧ isPinned info = true
    ∧ pinnedVersion info = Some (js "2.0.0").
Proof.
  destruct (findPluginEntry_first_candidate (js "oh-my-opencode-slim") windowsUserConfig
              windowsUserConfigJsonc (js "C:/Users/u/.config") slashJoin windowsEnv
              ltac:(vm_compute; lia) windowsConfigs (js "/project")
              [samplePath; js "/project/.opencode/opencode.jsonc"; windowsUserConfig;
               windowsUserConfigJsonc]
              windowsAlternateConfig [windowsAlternateConfigJsonc]
              (js "oh-my-opencode-slim@2.0.0"))
    as (info & Hfind & Hentry & Hpath & _ & _ & Hpinned).
  - by vm_compute.
  - intros q Hq. split.
    + apply readRightAt_test. repeat (apply elem_of_cons in Hq as [-> | Hq]; [by vm_compute |]).
      by apply elem_of_nil in Hq.
    + apply offersPackage_test.
      repeat (apply elem_of_cons in Hq as [-> | Hq]; [by vm_compute |]).
      by apply elem_of_nil in Hq.
  - apply readRightAt_test. by vm_compute.
  - exists [js "a"], [Number (js "7")]. split_and!.
    + exists (default [] (readFileSync windowsConfigs windowsAlternateConfig)),
        (default Null
           (documentValue (default [] (readFileSync windowsConfigs windowsAlternateConfig)))).
      split_and!; by vm_compute.
    + intros e ->%list_elem_of_singleton. apply (bool_decide_unpack _). by vm_compute.
    + apply (bool_decide_unpack _). by vm_compute.
  - exists info. split_and!; [done | done | done | |].
    + by apply (Hpinned (js "2.0.0")).
    + by apply (Hpinned (js "2.0.0")).
Defined.

(** C7 as stated fails: the plugin array of the first candidate holds the
    package, after a number, and the entry of a later candidate is what the
    call returns. *)
Lemma findPluginEntry_number_before_package :
  pluginArrayOf numberBeforePackage samplePath
    [Number (js "5"); Str (js "oh-my-opencode-slim")]
  ∧ readRightAt numberBeforePackage samplePath
  ∧ searchOrder userConfig userConfigJsonc (js "/home/u/.config") slashJoin posixEnv
      (js "/project")
    = [samplePath; js "/project/.opencode/opencode.jsonc"; userConfig; userConfigJsonc]
  ∧ findPluginEntry (js "oh-my-opencode-slim") userConfig userConfigJsonc
      (js "/home/u/.config") slashJoin posixEnv numberBeforePackage (js "/project")
    = Some (mkInfo (js "oh-my-opencode-slim@1.0.0") true (Some (js "1.0.0")) userConfig).
Proof.
  split_and!.
  - exists (default [] (readFileSync numberBeforePackage samplePath)),
      (default Null
         (documentValue (default [] (readFileSync numberBeforePackage samplePath)))).
    split_and!; by vm_compute.
  - apply readRightAt_test. by vm_compute.
  - by vm_compute.
  - by vm_compute.
Qed.

(** The defect of the stripper reaches the search: a first candidate in
    plain JSON that offers the package is not read right, and the entry of a
    later candidate is what the call returns. *)
Lemma findPluginEntry_misread_candidate :
  parse escapedBackslashConfig = documentValue escapedBackslashConfig
  ∧ offersPackage (js "oh-my-opencode-slim") misreadCandidate samplePath
      (js "oh-my-opencode-slim")
  ∧ parse (stripJsonComments escapedBackslashConfig) = None
  ∧ findPluginEntry (js "oh-my-opencode-slim") userConfig userConfigJsonc
      (js "/home/u/.config") slashJoin posixEnv misreadCandidate (js "/project")
    = Some (mkInfo (js "oh-my-opencode-slim@1.0.0") true (Some (js "1.0.0")) userConfig).
Proof.
  split_and!; try (by vm_compute).
  exists [], []. split_and!.
  - exists escapedBackslashConfig,
      (default Null (documentValue escapedBackslashConfig)).
    split_and!; by vm_compute.
  - by intros e ?%elem_of_nil.
  - by left.
Qed.

Lemma addPluginToOpenCodeConfig_single_entry_witness :
  ∃ previous written,
    hasPlugins
      (Obj [ (js "plugin", Arr [ Str (js "a"); Str (js "oh-my-opencode-slim@1.0.0");
                                 Str (js "b"); Str (js "oh-my-opencode-slim") ]);
             (js "theme", Str (js "dark")) ])
      previous
    ∧ readFileSync afterAddPlugin userConfig = Some (compactJson written ++ [10%N])
    ∧ getProp written (js "plugin")
      = Some (Some (Arr (Str <$> (filter (fun p => ¬ refersTo ConfigManager.PACKAGE_NAME p)
                                    previous ++ [ConfigManager.PACKAGE_NAME]))))
    ∧ filter (refersTo ConfigManager.PACKAGE_NAME)
        (filter (fun p => ¬ refersTo ConfigManager.PACKAGE_NAME p) previous
         ++ [ConfigManager.PACKAGE_NAME])
      = [ConfigManager.PACKAGE_NAME]
    ∧ filter (fun p => ¬ refersTo ConfigManager.PACKAGE_NAME p)
        (filter (fun p => ¬ refersTo ConfigManager.PACKAGE_NAME p) previous
         ++ [ConfigManager.PACKAGE_NAME])
      = filter (fun p => ¬ refersTo ConfigManager.PACKAGE_NAME p) previous
    ∧ ∀ k, k ≠ js "plugin" →
        getProp written k
        = Some (objGet
                  [ (js "plugin", Arr [ Str (js "a"); Str (js "oh-my-opencode-slim@1.0.0");
                                        Str (js "b"); Str (js "oh-my-opencode-slim") ]);
                    (js "theme", Str (js "dark")) ] k).
Proof.
  apply (proj1 (addPluginToOpenCodeConfig_single_entry slashJoin compactJson posixEnv
                  installedTwice afterAddPlugin
                  (ConfigManager.mkResult true userConfig None)
                  ltac:(by vm_compute) eq_refl)
           (default [] (readFileSync installedTwice userConfig))).
  - by vm_compute.
  - by vm_compute.
  - by vm_compute.
Defined.

(** C10 as stated fails: on a config that holds an array the call
    succeeds, and the config it has written is the array as it was, without a
    plugin array. *)
Lemma addPluginToOpenCodeConfig_array_config :
  ConfigManager.addPluginToOpenCodeConfig slashJoin compactJson posixEnv arrayConfig
  = (mkFS (<[userConfig := File (jsq "[`x`]" ++ [10%N])]> (entries arrayConfig)) ∅,
     ConfigManager.mkResult true userConfig None)
  ∧ documentValue (jsq "[`x`]" ++ [10%N]) = Some (Arr [Str (js "x")])
  ∧ getProp (Arr [Str (js "x")]) (js "plugin") = Some None.
Proof. split_and!; by vm_compute. Qed.

Lemma disableDefaultAgents_disables_witness :
  ∃ agent,
    readFileSync afterDisable userConfig
    = Some (compactJson (Obj (objSet serverConfiguredMembers (js "agent") agent)) ++ [10%N])
    ∧ agent = Obj [ (js "build", Obj [(js "disable", Bool false)]);
                    (js "explore", Installer.disabled);
                    (js "general", Installer.disabled) ]
    ∧ getProp agent (js "explore") = Some (Some Installer.disabled)
    ∧ getProp agent (js "general") = Some (Some Installer.disabled)
    ∧ ∀ k, k ≠ js "explore" → k ≠ js "general" →
           getProp agent k = Some (objGet [(js "build", Obj [(js "disable", Bool false)])] k).
Proof.
  apply (disableDefaultAgents_disables slashJoin compactJson posixEnv serverConfigured
           afterDisable (Installer.mkStep true userConfig None) serverConfiguredText
           serverConfiguredMembers); by vm_compute.
Defined.

Lemma getConfigPaths_no_duplicates_witness :
  NoDup (getConfigPaths windowsUserConfig windowsUserConfigJsonc (js "C:/Users/u/.config")
           slashJoin windowsEnv (js "/project"))
  ∧ getConfigPaths windowsUserConfig windowsUserConfigJsonc (js "C:/Users/u/.config")
      slashJoin windowsEnv (js "/project")
    = [ samplePath; js "/project/.opencode/opencode.jsonc"; windowsUserConfig;
        windowsUserConfigJsonc; windowsAlternateConfig; windowsAlternateConfigJsonc ].
Proof.
  destruct (getConfigPaths_no_duplicates windowsUserConfig windowsUserConfigJsonc
              (js "C:/Users/u/.config") slashJoin windowsEnv (js "/project"))
    as (Hnodup & _ & Horder & _).
  - apply (bool_decide_unpack _). by vm_compute.
  - split; [done |]. rewrite Horder. by vm_compute.
Defined.

Lemma parseConfig_jsonc_fallback_witness :
  fileValue tinyNumberConfig userConfig = Some (Number (js "1e-400"))
  ∧ truthy (Number (js "1e-400")) = false
  ∧ ConfigManager.parseConfig tinyNumberConfig userConfig
    = Obj [(js "theme", Str (js "dark"))].
Proof.
  split_and!; [by vm_compute | by vm_compute |].
  change userConfig with (js "/home/u/.config/opencode/opencode" ++ js ".json").
  rewrite (proj1 (parseConfig_jsonc_fallback tinyNumberConfig)). by vm_compute.
Defined.
